(** * A shallow embedding of the tinyrv simulator cores

    The development follows the C++ sources:
    - the two-level branch predictors of [gshare.cpp] (classes [GShare]
      and [GSharePlus]);
    - the register-file write of the in-order pipeline ([Core::regfile_write]);
    - the four phases of the out-of-order core ([Core::issue],
      [Core::execute], [Core::writeback], [Core::commit]).

    Fixed-width integers are integers of [Z] with their wrap-around written
    out, vectors are lists read and written by position, and a C++ exception,
    a failed assertion or an access outside a vector is an explicit fault. *)

From stdpp Require Import base option numbers list gmap.
From Stdlib Require Import ZArith Lia.

Open Scope Z_scope.

(** ** Faults and the monad of fallible code *)

Inductive fault : Type :=
| OutOfRange   (* std::out_of_range thrown by vector::at *)
| AssertFailed (* assert(...) aborted the simulator *)
| BadAccess.   (* operator[] outside the vector, or a null instruction *)

Inductive outcome (A : Type) : Type :=
| Ok (a : A)
| Fault (f : fault).
Arguments Ok {A} a.
Arguments Fault {A} f.

Definition obind {A B : Type} (m : outcome A) (k : A -> outcome B) : outcome B :=
  match m with
  | Ok a => k a
  | Fault f => Fault f
  end.

Notation "'do' x <- m ; k" := (obind m (fun x => k))
  (at level 10, x pattern, m at level 100, k at level 200).

Definition from_option {A : Type} (f : fault) (o : option A) : outcome A :=
  match o with
  | Some a => Ok a
  | None => Fault f
  end.

(** Reading and writing a vector at an [int] position.  A negative position
    is outside the vector, like one past its end. *)
Definition zlookup {A : Type} (l : list A) (i : Z) : option A :=
  if i <? 0 then None else l !! Z.to_nat i.

Definition zinsert {A : Type} (i : Z) (x : A) (l : list A) : list A :=
  if i <? 0 then l else <[Z.to_nat i := x]> l.

(** Truncation to an unsigned integer of [w] bits. *)
Definition wrap (w : Z) (x : Z) : Z := x mod 2 ^ w.

(** ** Branch predictors ([gshare.h], [gshare.cpp]) *)

Record BTB_entry_t : Type := mkBTB {
  btb_valid : bool;
  btb_tag : Z;
  btb_target : Z
}.

(** Modelled from the spec: [log2ceil] of [util.h] is not part of the
    sources; it is the ceiling of the binary logarithm. *)
Definition log2ceil (x : Z) : Z := Z.log2_up x.

Module GShare.

(** [BHR_] and [BHR_mask_] are [uint8_t], the counters of [PHT_] are
    [uint8_t], the rest is [uint32_t]. *)
Record t : Type := mk {
  BTB_ : list BTB_entry_t;
  PHT_ : list Z;
  BHR_ : Z;
  BTB_shift_ : Z;
  BTB_mask_ : Z;
  BHR_mask_ : Z
}.

(** The constructor. *)
Definition GShare (BTB_size BHR_size : Z) : t :=
  {| BTB_ := replicate (Z.to_nat BTB_size) (mkBTB false 0 0);
     PHT_ := replicate (Z.to_nat (1 ≪ BHR_size)) 0;
     BHR_ := 0;
     BTB_shift_ := log2ceil BTB_size;
     BTB_mask_ := wrap 32 (BTB_size - 1);
     BHR_mask_ := wrap 8 ((1 ≪ BHR_size) - 1) |}.

Definition update (g : t) (PC next_PC : Z) (taken : bool) : outcome t :=
  let pht_index := wrap 8 (Z.land (Z.lxor (PC ≫ 2) (BHR_ g)) (BHR_mask_ g)) in
  do ctr <- from_option BadAccess (zlookup (PHT_ g) pht_index);
  let PHT' :=
    if taken then
      if ctr <? 3 then zinsert pht_index (wrap 8 (ctr + 1)) (PHT_ g) else PHT_ g
    else
      if 0 <? ctr then zinsert pht_index (wrap 8 (ctr - 1)) (PHT_ g) else PHT_ g in
  let BHR' :=
    wrap 8 (Z.land (Z.lor (BHR_ g ≪ 1) (if taken then 1 else 0)) (BHR_mask_ g)) in
  if taken then
    let btb_index := wrap 32 (Z.land (PC ≫ 2) (BTB_mask_ g)) in
    let tag := wrap 32 ((PC ≫ 2) ≫ BTB_shift_ g) in
    do _ <- from_option BadAccess (zlookup (BTB_ g) btb_index);
    Ok {| BTB_ := zinsert btb_index (mkBTB true tag next_PC) (BTB_ g);
          PHT_ := PHT';
          BHR_ := BHR';
          BTB_shift_ := BTB_shift_ g;
          BTB_mask_ := BTB_mask_ g;
          BHR_mask_ := BHR_mask_ g |}
  else
    Ok {| BTB_ := BTB_ g;
          PHT_ := PHT';
          BHR_ := BHR';
          BTB_shift_ := BTB_shift_ g;
          BTB_mask_ := BTB_mask_ g;
          BHR_mask_ := BHR_mask_ g |}.

(** A sequence of [update(PC, next_PC, taken)] calls. *)
Fixpoint updates (calls : list (Z * Z * bool)) (g : t) : outcome t :=
  match calls with
  | [] => Ok g
  | (PC, next_PC, taken) :: rest =>
      do g' <- update g PC next_PC taken; updates rest g'
  end.

(** [predict]: the counter selected by the address and the history decides
    the direction; a taken prediction returns the target of the buffer entry
    of the address when that entry is valid and carries its tag. *)
Definition predict (g : t) (PC : Z) : outcome Z :=
  let next_PC := wrap 32 (PC + 4) in
  let pht_index := wrap 8 (Z.land (Z.lxor (PC ≫ 2) (BHR_ g)) (BHR_mask_ g)) in
  do ctr <- from_option BadAccess (zlookup (PHT_ g) pht_index);
  let predict_taken := 2 <=? ctr in
  let tag := wrap 32 ((PC ≫ 2) ≫ BTB_shift_ g) in
  if predict_taken then
    let btb_index := wrap 32 (Z.land (PC ≫ 2) (BTB_mask_ g)) in
    do btb_entry <- from_option BadAccess (zlookup (BTB_ g) btb_index);
    if btb_valid btb_entry && (btb_tag btb_entry =? tag) then Ok (btb_target btb_entry)
    else Ok next_PC
  else Ok next_PC.

End GShare.

Module GSharePlus.

(** As [GShare], with a [uint16_t] history register and mask. *)
Record t : Type := mk {
  BTB_ : list BTB_entry_t;
  PHT_ : list Z;
  BHR_ : Z;
  BTB_shift_ : Z;
  BTB_mask_ : Z;
  BHR_mask_ : Z
}.

Definition GSharePlus (BTB_size BHR_size : Z) : t :=
  {| BTB_ := replicate (Z.to_nat BTB_size) (mkBTB false 0 0);
     PHT_ := replicate (Z.to_nat (1 ≪ BHR_size)) 2;
     BHR_ := 0;
     BTB_shift_ := log2ceil BTB_size;
     BTB_mask_ := wrap 32 (BTB_size - 1);
     BHR_mask_ := wrap 16 ((1 ≪ BHR_size) - 1) |}.

Definition update (g : t) (PC next_PC : Z) (taken : bool) : outcome t :=
  let pht_index := wrap 16 (Z.land (Z.lxor (PC ≫ 2) (BHR_ g)) (BHR_mask_ g)) in
  do ctr <- from_option BadAccess (zlookup (PHT_ g) pht_index);
  let PHT' :=
    if taken then
      if ctr <? 3 then zinsert pht_index (wrap 8 (ctr + 1)) (PHT_ g) else PHT_ g
    else
      if 0 <? ctr then zinsert pht_index (wrap 8 (ctr - 1)) (PHT_ g) else PHT_ g in
  let BHR' :=
    wrap 16 (Z.land (Z.lor (BHR_ g ≪ 1) (if taken then 1 else 0)) (BHR_mask_ g)) in
  if taken then
    let btb_index := wrap 32 (Z.land (PC ≫ 2) (BTB_mask_ g)) in
    let tag := wrap 32 ((PC ≫ 2) ≫ BTB_shift_ g) in
    do _ <- from_option BadAccess (zlookup (BTB_ g) btb_index);
    Ok {| BTB_ := zinsert btb_index (mkBTB true tag next_PC) (BTB_ g);
          PHT_ := PHT';
          BHR_ := BHR';
          BTB_shift_ := BTB_shift_ g;
          BTB_mask_ := BTB_mask_ g;
          BHR_mask_ := BHR_mask_ g |}
  else
    Ok {| BTB_ := BTB_ g;
          PHT_ := PHT';
          BHR_ := BHR';
          BTB_shift_ := BTB_shift_ g;
          BTB_mask_ := BTB_mask_ g;
          BHR_mask_ := BHR_mask_ g |}.

Fixpoint updates (calls : list (Z * Z * bool)) (g : t) : outcome t :=
  match calls with
  | [] => Ok g
  | (PC, next_PC, taken) :: rest =>
      do g' <- update g PC next_PC taken; updates rest g'
  end.

(** [predict]: the counter selected by the address and the history decides
    the direction; a taken prediction returns the target of the buffer entry
    of the address when that entry is valid and carries its tag. *)
Definition predict (g : t) (PC : Z) : outcome Z :=
  let next_PC := wrap 32 (PC + 4) in
  let pht_index := wrap 16 (Z.land (Z.lxor (PC ≫ 2) (BHR_ g)) (BHR_mask_ g)) in
  do ctr <- from_option BadAccess (zlookup (PHT_ g) pht_index);
  let predict_taken := 2 <=? ctr in
  let tag := wrap 32 ((PC ≫ 2) ≫ BTB_shift_ g) in
  if predict_taken then
    let btb_index := wrap 32 (Z.land (PC ≫ 2) (BTB_mask_ g)) in
    do btb_entry <- from_option BadAccess (zlookup (BTB_ g) btb_index);
    if btb_valid btb_entry && (btb_tag btb_entry =? tag) then Ok (btb_target btb_entry)
    else Ok next_PC
  else Ok next_PC.

End GSharePlus.

(** A two-bit saturating counter. *)
Definition two_bit (c : Z) : Prop := 0 <= c <= 3.

(** ** Instructions *)

(** Modelled from the spec: the flags of the instruction record, whose
    declaration is not part of the sources: whether each source and the
    destination register is used, whether the instruction is a load, reads a
    control register, or ends the program. *)
Record ExeFlags : Type := mkExeFlags {
  use_rd : bool;
  use_rs1 : bool;
  use_rs2 : bool;
  is_load : bool;
  is_csr : bool;
  is_exit : bool
}.

(** Modelled from the spec: the instruction record, whose declaration is
    not part of the sources: flags, register identifiers, immediate and
    functional-unit category.  Only the accessors that the core calls are
    kept. *)
Record Instr : Type := mkInstr {
  getExeFlags : ExeFlags;
  getRd : nat;
  getRs1 : nat;
  getRs2 : nat;
  getImm : Z;
  getFUType : nat   (* static_cast<int>(fu_type), the position in FUs_ *)
}.

(** ** The in-order pipeline's register-file write ([Core::regfile_write]) *)

Module InOrder.

Definition regfile_write (instr : Instr) (alu_result : Z) (reg_file_ : list Z)
  : outcome (list Z) :=
  let exe_flags := getExeFlags instr in
  if use_rd exe_flags && negb (getRd instr =? 0)%nat then
    do _ <- from_option OutOfRange (reg_file_ !! getRd instr);
    Ok (<[getRd instr := alu_result]> reg_file_)
  else Ok reg_file_.

(** Modelled from the spec: the pipeline registers and the data they hold are
    declared outside the sources.  As the stages use it ([empty], [data],
    [push], [pop]), a register is empty or holds the data of one
    instruction; the members of the data are those that the stages read
    and write. *)
Record ex_mem_t : Type := mk_ex_mem {
  em_instr : Instr;
  em_rs1_data : Z;
  em_rs2_data : Z;
  em_result : Z;
  em_PC : Z;
  em_uuid : Z
}.

Record mem_wb_t : Type := mk_mem_wb {
  mw_instr : Instr;
  mw_result : Z;
  mw_PC : Z;
  mw_uuid : Z
}.

(** The members of the in-order [Core] that register access and forwarding
    use. *)
Record Core : Type := mk_core {
  reg_file_ : list Z;
  ex_mem_ : option ex_mem_t;
  mem_wb_ : option mem_wb_t
}.

(** [Core::check_data_hazards]: a load in EX/MEM whose destination the
    decoded instruction reads. *)
Definition check_data_hazards (c : Core) (instr : Instr) : bool :=
  let id_flag := getExeFlags instr in
  match ex_mem_ c with
  | Some ex_data =>
      let ex_instr := em_instr ex_data in
      let ex_flags := getExeFlags ex_instr in
      if is_load ex_flags && use_rd ex_flags && negb (getRd ex_instr =? 0)%nat then
        let id_rs1 := getRs1 instr in
        let id_rs2 := getRs2 instr in
        if (use_rs1 id_flag && (id_rs1 =? getRd ex_instr)%nat)
           || (use_rs2 id_flag && (id_rs2 =? getRd ex_instr)%nat)
        then true
        else false
      else false
  | None => false
  end.

(** [Core::data_forwarding]: the flag returned and the value left in
    [*data], which is [data] when nothing is forwarded. *)
Definition data_forwarding (c : Core) (reg : nat) (data : Z) : bool * Z :=
  let (forwarded, data) :=
    match ex_mem_ c with
    | Some ex_data =>
        let ex_instr := em_instr ex_data in
        let ex_flags := getExeFlags ex_instr in
        let exRd := getRd ex_instr in
        if use_rd ex_flags && (exRd =? reg)%nat then (true, em_result ex_data)
        else (false, data)
    | None => (false, data)
    end in
  if negb forwarded then
    match mem_wb_ c with
    | Some mem_data =>
        let mem_instr := mw_instr mem_data in
        let mem_flags := getExeFlags mem_instr in
        let memRd := getRd mem_instr in
        if use_rd mem_flags && (memRd =? reg)%nat then (true, mw_result mem_data)
        else (forwarded, data)
    | None => (forwarded, data)
    end
  else (forwarded, data).

(** [Core::regfile_read]; [get_csr] is a member that is not part of the
    sources. *)
Definition regfile_read (get_csr : Z -> Z) (c : Core) (instr : Instr) : outcome (Z * Z) :=
  let exe_flags := getExeFlags instr in
  do _rs1_data <-
    (if use_rs1 exe_flags && negb (getRs1 instr =? 0)%nat then
       let (forwarded, data) := data_forwarding c (getRs1 instr) 0 in
       if negb forwarded then from_option OutOfRange (reg_file_ c !! getRs1 instr)
       else Ok data
     else Ok 0);
  do _rs2_data <-
    (if use_rs2 exe_flags && negb (getRs2 instr =? 0)%nat then
       let (forwarded, data) := data_forwarding c (getRs2 instr) 0 in
       if negb forwarded then from_option OutOfRange (reg_file_ c !! getRs2 instr)
       else Ok data
     else Ok 0);
  let _rs2_data := if is_csr exe_flags then get_csr (getImm instr) else _rs2_data in
  Ok (_rs1_data, _rs2_data).

End InOrder.

(** ** The pipeline of [Project 2/src/core.cpp]

    Its [regfile_write] has the text of the one above; forwarding is done
    in the execute stage, on the value read at decode. *)

Module Project2.

(** [Core::data_forwarding]. *)
Definition data_forwarding (c : InOrder.Core) (reg : nat) (data : Z) : Z :=
  (* x0 is hardwired to 0 *)
  if (reg =? 0)%nat then data
  else
    let from_mem_wb :=
      match InOrder.mem_wb_ c with
      | Some wb_data =>
          let wb_instr := InOrder.mw_instr wb_data in
          if use_rd (getExeFlags wb_instr) && (getRd wb_instr =? reg)%nat
          then InOrder.mw_result wb_data
          else data
      | None => data
      end in
    match InOrder.ex_mem_ c with
    | Some mem_data =>
        let mem_instr := InOrder.em_instr mem_data in
        if use_rd (getExeFlags mem_instr) && (getRd mem_instr =? reg)%nat
        then InOrder.em_result mem_data
        else from_mem_wb
    | None => from_mem_wb
    end.

End Project2.

(** ** Common data bus

    The class of [CDB_] is not part of the sources. *)

Module CDB.

(** Modelled from the spec: a broadcast record, with the result value, the
    destination reorder-buffer slot and the source reservation-station
    slot. *)
Record data_t : Type := mk_data {
  result : Z;
  rob_index : Z;
  rs_index : Z
}.

(** Modelled from the spec: the bus is a single pending broadcast record or
    empty. *)
Definition t : Type := option data_t.

Definition empty (bus : t) : bool :=
  match bus with None => true | Some _ => false end.

(** Modelled from the spec: the bus must be drained before another result
    may occupy it; a push on an occupied bus is refused. *)
Definition push (result rob_index rs_index : Z) (bus : t) : outcome t :=
  match bus with
  | None => Ok (Some (mk_data result rob_index rs_index))
  | Some _ => Fault AssertFailed
  end.

Definition pop (bus : t) : t := None.

End CDB.

(** ** Reorder buffer

    The class of [ROB_] is not part of the sources. *)

Module ROB.

(** Modelled from the spec: an entry holds the owning instruction, a ready
    flag and a result. *)
Record entry_t : Type := mk_entry {
  instr : Instr;
  ready : bool;
  result : Z
}.

(** Modelled from the spec: a circular log over a fixed-capacity array of
    slots, with a head and a tail cursor.  A slot without an entry is
    free. *)
Record t : Type := mk {
  store_ : list (option entry_t);
  head_index_ : nat;
  tail_index_ : nat;
  count_ : nat
}.

Definition create (size : nat) : t :=
  {| store_ := replicate size None; head_index_ := 0; tail_index_ := 0; count_ := 0 |}.

Definition size (rob : t) : nat := length (store_ rob).

Definition full (rob : t) : bool := (count_ rob =? size rob)%nat.

Definition empty (rob : t) : bool := (count_ rob =? 0)%nat.

Definition head_index (rob : t) : Z := Z.of_nat (head_index_ rob).

(** Modelled from the spec: appends an entry at the tail, not ready, and
    returns its slot, or reports a failure (-1) when the buffer is full. *)
Definition allocate (i : Instr) (rob : t) : Z * t :=
  if full rob then (-1, rob)
  else (Z.of_nat (tail_index_ rob),
        {| store_ := <[tail_index_ rob := Some (mk_entry i false 0)]> (store_ rob);
           head_index_ := head_index_ rob;
           tail_index_ := ((tail_index_ rob + 1) mod size rob)%nat;
           count_ := (count_ rob + 1)%nat |}).

(** Modelled from the spec: the entry of an outstanding slot; a free slot
    or a position outside the array has none. *)
Definition get_entry (rob : t) (index : Z) : outcome entry_t :=
  match zlookup (store_ rob) index with
  | Some (Some e) => Ok e
  | _ => Fault BadAccess
  end.

(** Modelled from the spec: marks the slot named by a broadcast ready, with
    the broadcast result. *)
Definition update (data : CDB.data_t) (rob : t) : outcome t :=
  do e <- get_entry rob (CDB.rob_index data);
  Ok {| store_ := zinsert (CDB.rob_index data)
                    (Some (mk_entry (instr e) true (CDB.result data))) (store_ rob);
        head_index_ := head_index_ rob;
        tail_index_ := tail_index_ rob;
        count_ := count_ rob |}.

(** Modelled from the spec: destroys the head entry, freeing its slot, and
    advances the head. *)
Definition pop (rob : t) : t :=
  if empty rob then rob
  else {| store_ := <[head_index_ rob := None]> (store_ rob);
          head_index_ := ((head_index_ rob + 1) mod size rob)%nat;
          tail_index_ := tail_index_ rob;
          count_ := (count_ rob - 1)%nat |}.

(** The outstanding slots, oldest first. *)
Definition slots (rob : t) : list nat :=
  (fun k => ((head_index_ rob + k) mod size rob)%nat) <$> seq 0 (count_ rob).

(** The outstanding entries, oldest first. *)
Definition contents (rob : t) : list (option entry_t) :=
  (fun s => mjoin (store_ rob !! s)) <$> slots rob.

End ROB.

(** ** Reservation stations

    The class of [RS_] is not part of the sources. *)

Module RS.

(** Modelled from the spec: an entry holds a validity flag, a running flag,
    the owning instruction, the reorder-buffer slot it produces a result
    for, and for each source operand either a resolved value or the
    reservation-station slot expected to broadcast it (-1 when the value is
    already available, as in [Core::issue]). *)
Record entry_t : Type := mk_entry {
  valid : bool;
  running : bool;
  instr : option Instr;
  rob_index : Z;
  rs1_index : Z;
  rs2_index : Z;
  rs1_data : Z;
  rs2_data : Z
}.

(** Modelled from the spec: an entry is ready when both operands are
    resolved. *)
Definition operands_ready (e : entry_t) : bool :=
  (rs1_index e =? -1) && (rs2_index e =? -1).

(** Modelled from the spec: a pending operand whose recorded producer is
    the broadcasting slot is resolved to the broadcast value. *)
Definition update_operands (data : CDB.data_t) (e : entry_t) : entry_t :=
  let e1 :=
    if rs1_index e =? CDB.rs_index data then
      {| valid := valid e; running := running e; instr := instr e;
         rob_index := rob_index e;
         rs1_index := -1; rs2_index := rs2_index e;
         rs1_data := CDB.result data; rs2_data := rs2_data e |}
    else e in
  if rs2_index e1 =? CDB.rs_index data then
    {| valid := valid e1; running := running e1; instr := instr e1;
       rob_index := rob_index e1;
       rs1_index := rs1_index e1; rs2_index := -1;
       rs1_data := rs1_data e1; rs2_data := CDB.result data |}
  else e1.

Definition set_running (e : entry_t) : entry_t :=
  {| valid := valid e; running := true; instr := instr e;
     rob_index := rob_index e;
     rs1_index := rs1_index e; rs2_index := rs2_index e;
     rs1_data := rs1_data e; rs2_data := rs2_data e |}.

Definition set_free (e : entry_t) : entry_t :=
  {| valid := false; running := false; instr := instr e;
     rob_index := rob_index e;
     rs1_index := rs1_index e; rs2_index := rs2_index e;
     rs1_data := rs1_data e; rs2_data := rs2_data e |}.

Definition t : Type := list entry_t.

Definition create (size : nat) : t :=
  replicate size (mk_entry false false None 0 (-1) (-1) 0 0).

Definition size (rs : t) : nat := length rs.

Definition full (rs : t) : bool := forallb valid rs.

(** The first free slot, counting from [base]. *)
Fixpoint free_slot (base : Z) (rs : t) : option Z :=
  match rs with
  | [] => None
  | e :: rest => if valid e then free_slot (base + 1) rest else Some base
  end.

(** Modelled from the spec: fills a free slot with the instruction, the
    destination reorder-buffer slot and the two operand descriptors, and
    returns its position, or reports a failure (-1) when there is none. *)
Definition issue (rob_index rs1_index rs2_index rs1_data rs2_data : Z)
    (i : Instr) (rs : t) : Z * t :=
  match free_slot 0 rs with
  | None => (-1, rs)
  | Some index =>
      (index,
       zinsert index
         (mk_entry true false (Some i) rob_index rs1_index rs2_index rs1_data rs2_data)
         rs)
  end.

Definition get_entry (rs : t) (index : Z) : outcome entry_t :=
  from_option BadAccess (zlookup rs index).

(** Modelled from the spec: releases a slot, making it free for a later
    issue. *)
Definition release (index : Z) (rs : t) : outcome t :=
  do e <- get_entry rs index;
  Ok (zinsert index (set_free e) rs).

End RS.

(** ** Functional units

    The classes of [FUs_] are not part of the sources. *)

(** Modelled from the spec: what stays outside of the dynamic-scheduling
    core: the latency of a unit for an instruction and its operands, the
    value it computes, and which reservation stations the memory-ordering
    lock of [RS_.locked] holds back. *)
Class Collaborators : Type := {
  fu_latency : Instr -> Z -> Z -> nat;
  fu_result : Instr -> Z -> Z -> Z;
  rs_locked : RS.t -> Z -> bool
}.

Module FU.

(** Modelled from the spec: what a unit is dispatched with. *)
Record input_t : Type := mk_input {
  instr : Instr;
  rob_index : Z;
  rs_index : Z;
  rs1_data : Z;
  rs2_data : Z
}.

(** Modelled from the spec: a unit is busy or idle, keeps the instruction
    and operands it was dispatched with, and has a completion flag. *)
Record t : Type := mk {
  busy_ : bool;
  done_ : bool;
  input_ : option input_t;
  wait_ : nat;
  output_ : CDB.data_t
}.

(** Modelled from the spec: a unit that has nothing to do. *)
Definition idle : t :=
  {| busy_ := false; done_ := false; input_ := None; wait_ := 0;
     output_ := CDB.mk_data 0 0 0 |}.

Definition busy (fu : t) : bool := busy_ fu.

Definition done (fu : t) : bool := done_ fu.

Definition get_output (fu : t) : CDB.data_t := output_ fu.

(** Modelled from the spec: dispatch makes the unit busy with the
    instruction, its slots and its operands. *)
Definition issue `{Collaborators} (i : Instr) (rob_index rs_index rs1_data rs2_data : Z)
    (fu : t) : t :=
  {| busy_ := true; done_ := false;
     input_ := Some (mk_input i rob_index rs_index rs1_data rs2_data);
     wait_ := fu_latency i rs1_data rs2_data;
     output_ := output_ fu |}.

(** Modelled from the spec: one cycle of a unit.  A busy unit counts its
    latency down and completes when it has elapsed; the completion flag and
    the output then stay until the unit is cleared. *)
Definition execute `{Collaborators} (fu : t) : t :=
  if busy_ fu && negb (done_ fu) then
    match input_ fu, wait_ fu with
    | Some i, O =>
        {| busy_ := true; done_ := true; input_ := input_ fu; wait_ := 0;
           output_ := CDB.mk_data (fu_result (instr i) (rs1_data i) (rs2_data i))
                                  (rob_index i) (rs_index i) |}
    | Some i, S n =>
        {| busy_ := true; done_ := false; input_ := input_ fu; wait_ := n;
           output_ := output_ fu |}
    | None, _ => fu
    end
  else fu.

(** Modelled from the spec: resets the unit to idle. *)
Definition clear (fu : t) : t :=
  {| busy_ := false; done_ := false; input_ := None; wait_ := 0;
     output_ := output_ fu |}.

End FU.

(** ** The out-of-order core ([Core::issue], [Core::execute],
    [Core::writeback], [Core::commit]) *)

(** The lines that the core writes on the debug trace ([DT]). *)
Inductive trace_t : Type :=
| TrIssue (i : Instr)
| TrCommit (i : Instr).

(** Modelled from the spec: the members of [Core] that the four phases use;
    the declaration of the class is not part of the sources.  The issue
    queue holds the decoded instructions handed over by the front end,
    oldest first; the register-alias table maps a register to the
    reorder-buffer slot that renames it, and has no entry where the register
    file is authoritative; [RST_] gives, for a reorder-buffer slot, the
    reservation station that produces its value; [trace_] collects the
    lines written with [DT]. *)
Record Core : Type := mkCore {
  issue_queue_ : list Instr;
  reg_file_ : list Z;
  RAT_ : gmap nat Z;
  ROB_ : ROB.t;
  RS_ : RS.t;
  RST_ : list Z;
  CDB_ : CDB.t;
  FUs_ : list FU.t;
  perf_instrs_ : Z;       (* perf_stats_.instrs, 64 bits *)
  fetched_instrs_ : Z;
  exited_ : bool;
  trace_ : list trace_t
}.

Definition set_ROB (v : ROB.t) (c : Core) : Core :=
  mkCore (issue_queue_ c) (reg_file_ c) (RAT_ c) v (RS_ c) (RST_ c) (CDB_ c)
         (FUs_ c) (perf_instrs_ c) (fetched_instrs_ c) (exited_ c) (trace_ c).

Definition set_RAT (v : gmap nat Z) (c : Core) : Core :=
  mkCore (issue_queue_ c) (reg_file_ c) v (ROB_ c) (RS_ c) (RST_ c) (CDB_ c)
         (FUs_ c) (perf_instrs_ c) (fetched_instrs_ c) (exited_ c) (trace_ c).

Definition set_RS (v : RS.t) (c : Core) : Core :=
  mkCore (issue_queue_ c) (reg_file_ c) (RAT_ c) (ROB_ c) v (RST_ c) (CDB_ c)
         (FUs_ c) (perf_instrs_ c) (fetched_instrs_ c) (exited_ c) (trace_ c).

Definition set_RST (v : list Z) (c : Core) : Core :=
  mkCore (issue_queue_ c) (reg_file_ c) (RAT_ c) (ROB_ c) (RS_ c) v (CDB_ c)
         (FUs_ c) (perf_instrs_ c) (fetched_instrs_ c) (exited_ c) (trace_ c).

Definition set_CDB (v : CDB.t) (c : Core) : Core :=
  mkCore (issue_queue_ c) (reg_file_ c) (RAT_ c) (ROB_ c) (RS_ c) (RST_ c) v
         (FUs_ c) (perf_instrs_ c) (fetched_instrs_ c) (exited_ c) (trace_ c).

Definition set_FUs (v : list FU.t) (c : Core) : Core :=
  mkCore (issue_queue_ c) (reg_file_ c) (RAT_ c) (ROB_ c) (RS_ c) (RST_ c) (CDB_ c)
         v (perf_instrs_ c) (fetched_instrs_ c) (exited_ c) (trace_ c).

Definition set_reg_file (v : list Z) (c : Core) : Core :=
  mkCore (issue_queue_ c) v (RAT_ c) (ROB_ c) (RS_ c) (RST_ c) (CDB_ c)
         (FUs_ c) (perf_instrs_ c) (fetched_instrs_ c) (exited_ c) (trace_ c).

Definition set_issue_queue (v : list Instr) (c : Core) : Core :=
  mkCore v (reg_file_ c) (RAT_ c) (ROB_ c) (RS_ c) (RST_ c) (CDB_ c)
         (FUs_ c) (perf_instrs_ c) (fetched_instrs_ c) (exited_ c) (trace_ c).

Definition set_perf_instrs (v : Z) (c : Core) : Core :=
  mkCore (issue_queue_ c) (reg_file_ c) (RAT_ c) (ROB_ c) (RS_ c) (RST_ c) (CDB_ c)
         (FUs_ c) v (fetched_instrs_ c) (exited_ c) (trace_ c).

Definition set_fetched_instrs (v : Z) (c : Core) : Core :=
  mkCore (issue_queue_ c) (reg_file_ c) (RAT_ c) (ROB_ c) (RS_ c) (RST_ c) (CDB_ c)
         (FUs_ c) (perf_instrs_ c) v (exited_ c) (trace_ c).

Definition set_exited (v : bool) (c : Core) : Core :=
  mkCore (issue_queue_ c) (reg_file_ c) (RAT_ c) (ROB_ c) (RS_ c) (RST_ c) (CDB_ c)
         (FUs_ c) (perf_instrs_ c) (fetched_instrs_ c) v (trace_ c).

Definition DT (line : trace_t) (c : Core) : Core :=
  mkCore (issue_queue_ c) (reg_file_ c) (RAT_ c) (ROB_ c) (RS_ c) (RST_ c) (CDB_ c)
         (FUs_ c) (perf_instrs_ c) (fetched_instrs_ c) (exited_ c) (trace_ c ++ [line]).

(** *** Issue *)

(** The body of [Core::issue], with its two returns after an allocation
    that reports a failure.  The two allocators, [ROB_.allocate] and
    [RS_.issue], are arguments; [issue] below is the body with those of the
    reorder buffer and of the reservation stations. *)
Definition issue_with
    (allocate : Instr -> ROB.t -> Z * ROB.t)
    (rs_issue : Z -> Z -> Z -> Z -> Z -> Instr -> RS.t -> Z * RS.t)
    (c : Core) : outcome Core :=
  match issue_queue_ c with
  | [] => Ok c
  | instr :: _ =>
      let exe_flags := getExeFlags instr in
      (* check for structural hazards *)
      if RS.full (RS_ c) || ROB.full (ROB_ c) then Ok c
      else
        let rs1 := getRs1 instr in
        let rs2 := getRs2 instr in
        (* get rs1 data *)
        do (rs1_data, rs1_rsid) <-
          (if use_rs1 exe_flags then
             match RAT_ c !! rs1 with
             | None =>
                 do v <- from_option OutOfRange (reg_file_ c !! rs1);
                 Ok (v, -1)
             | Some rob_index =>
                 do rob_entry <- ROB.get_entry (ROB_ c) rob_index;
                 if ROB.ready rob_entry then Ok (ROB.result rob_entry, -1)
                 else
                   do rsid <- from_option BadAccess (zlookup (RST_ c) rob_index);
                   Ok (0, rsid)
             end
           else Ok (0, -1));
        (* get rs2 data *)
        do (rs2_data, rs2_rsid) <-
          (if use_rs2 exe_flags then
             match RAT_ c !! rs2 with
             | None =>
                 do v <- from_option OutOfRange (reg_file_ c !! rs2);
                 Ok (v, -1)
             | Some rob_index =>
                 do rob_entry <- ROB.get_entry (ROB_ c) rob_index;
                 if ROB.ready rob_entry then Ok (ROB.result rob_entry, -1)
                 else
                   do rsid <- from_option BadAccess (zlookup (RST_ c) rob_index);
                   Ok (0, rsid)
             end
           else Ok (0, -1));
        (* allocate new ROB entry and obtain its index *)
        let '(rob_Allocation, rob) := allocate instr (ROB_ c) in
        let c := set_ROB rob c in
        if rob_Allocation <? 0 then Ok c
        else
          (* update the RAT mapping if this instruction writes a register *)
          let c :=
            if use_rd exe_flags
            then set_RAT (<[getRd instr := rob_Allocation]> (RAT_ c)) c
            else c in
          (* issue the instruction to a free reservation station *)
          let '(rs_index, rs) :=
            rs_issue rob_Allocation rs1_rsid rs2_rsid rs1_data rs2_data instr (RS_ c) in
          let c := set_RS rs c in
          if rs_index <? 0 then Ok c
          else
            (* update RST mapping *)
            do _ <- from_option BadAccess (zlookup (RST_ c) rob_Allocation);
            let c := set_RST (zinsert rob_Allocation rs_index (RST_ c)) c in
            let c := DT (TrIssue instr) c in
            (* pop issue queue *)
            Ok (set_issue_queue (tail (issue_queue_ c)) c)
  end.

Definition issue : Core -> outcome Core := issue_with ROB.allocate RS.issue.

(** *** Execute *)

(** The second loop of [Core::execute]: the first unit that is done pushes
    its output on the bus and is cleared; the scan stops there. *)
Fixpoint drain (fus : list FU.t) (bus : CDB.t) : outcome (list FU.t * CDB.t) :=
  match fus with
  | [] => Ok ([], bus)
  | fu :: rest =>
      if FU.done fu then
        let cdb_data := FU.get_output fu in
        do bus' <- CDB.push (CDB.result cdb_data) (CDB.rob_index cdb_data)
                            (CDB.rs_index cdb_data) bus;
        Ok (FU.clear fu :: rest, bus')
      else
        do (rest', bus') <- drain rest bus;
        Ok (fu :: rest', bus')
  end.

(** The third loop of [Core::execute], from [rs_index] on, for [n] more
    reservation stations. *)
Fixpoint dispatch `{Collaborators} (n : nat) (rs_index : Z) (rs : RS.t) (fus : list FU.t)
    : outcome (RS.t * list FU.t) :=
  match n with
  | O => Ok (rs, fus)
  | S n' =>
      do entry <- RS.get_entry rs rs_index;
      do (rs', fus') <-
        (if RS.valid entry && negb (RS.running entry) && RS.operands_ready entry
            && negb (rs_locked rs rs_index)
         then
           do instr <- from_option BadAccess (RS.instr entry);
           let fu_type := getFUType instr in
           do fu <- from_option OutOfRange (fus !! fu_type);
           if negb (FU.busy fu) then
             Ok (zinsert rs_index (RS.set_running entry) rs,
                 <[fu_type := FU.issue instr (RS.rob_index entry) rs_index
                                (RS.rs1_data entry) (RS.rs2_data entry) fu]> fus)
           else Ok (rs, fus)
         else Ok (rs, fus));
      dispatch n' (rs_index + 1) rs' fus'
  end.

Definition execute `{Collaborators} (c : Core) : outcome Core :=
  (* execute functional units *)
  let fus := FU.execute <$> FUs_ c in
  (* push the output of the next unit that is done to the common data bus *)
  do (fus, bus) <- drain fus (CDB_ c);
  (* schedule ready instructions to corresponding functional units *)
  do (rs, fus) <- dispatch (RS.size (RS_ c)) 0 (RS_ c) fus;
  Ok (set_RS rs (set_FUs fus (set_CDB bus c))).

(** *** Writeback *)

(** The wakeup loop of [Core::writeback]. *)
Definition wakeup (cdb_data : CDB.data_t) (rs : RS.t) : RS.t :=
  (fun entry => if RS.valid entry then RS.update_operands cdb_data entry else entry) <$> rs.

Definition writeback (c : Core) : outcome Core :=
  match CDB_ c with
  | None => Ok c
  | Some cdb_data =>
      (* update all reservation stations waiting for operands *)
      let rs := wakeup cdb_data (RS_ c) in
      (* free the RS entry associated with this CDB response *)
      do rs <- RS.release (CDB.rs_index cdb_data) rs;
      (* update ROB *)
      do rob <- ROB.update cdb_data (ROB_ c);
      (* clear CDB *)
      Ok (set_CDB (CDB.pop (CDB_ c)) (set_ROB rob (set_RS rs c)))
  end.

(** *** Commit *)

Definition commit (c : Core) : outcome Core :=
  if ROB.empty (ROB_ c) then Ok c
  else
    let head_index := ROB.head_index (ROB_ c) in
    do rob_head <- ROB.get_entry (ROB_ c) head_index;
    (* check if the head entry is ready to commit *)
    if ROB.ready rob_head then
      let instr := ROB.instr rob_head in
      let exe_flags := getExeFlags instr in
      do c <-
        (if use_rd exe_flags then
           let rd := getRd instr in
           do _ <- from_option OutOfRange (reg_file_ c !! rd);
           let c := set_reg_file (<[rd := ROB.result rob_head]> (reg_file_ c)) c in
           match RAT_ c !! rd with
           | Some slot =>
               if slot =? head_index then Ok (set_RAT (delete rd (RAT_ c)) c) else Ok c
           | None => Ok c
           end
         else Ok c);
      (* pop ROB entry *)
      let c := set_ROB (ROB.pop (ROB_ c)) c in
      let c := DT (TrCommit instr) c in
      if perf_instrs_ c <=? fetched_instrs_ c then
        let c := set_perf_instrs (wrap 64 (perf_instrs_ c + 1)) c in
        (* handle program termination *)
        Ok (if is_exit exe_flags then set_exited true c else c)
      else Fault AssertFailed
    else Ok c.

(** *** The cycle and the front end

    The [tick] of the out-of-order core, its constructor and the front end
    that fills the issue queue are not part of the sources. *)

(** Modelled from the spec: the four phases are driven within one cycle in
    the order commit, writeback, execute, issue. *)
Definition tick `{Collaborators} (c : Core) : outcome Core :=
  do c <- commit c;
  do c <- writeback c;
  do c <- execute c;
  issue c.

(** Modelled from the spec: the front end hands a decoded instruction over
    through the issue queue, and counts it as fetched. *)
Definition fetch (i : Instr) (c : Core) : Core :=
  set_fetched_instrs (fetched_instrs_ c + 1) (set_issue_queue (issue_queue_ c ++ [i]) c).

(** Modelled from the spec: the core after construction, with nothing in
    flight, no register renamed, an empty bus and every unit idle. *)
Definition init (num_regs rob_size rs_size num_fus : nat) : Core :=
  {| issue_queue_ := [];
     reg_file_ := replicate num_regs 0;
     RAT_ := ∅;
     ROB_ := ROB.create rob_size;
     RS_ := RS.create rs_size;
     RST_ := replicate rob_size (-1);
     CDB_ := None;
     FUs_ := replicate num_fus FU.idle;
     perf_instrs_ := 0;
     fetched_instrs_ := 0;
     exited_ := false;
     trace_ := [] |}.

(** What the surroundings of the core may do between two observations: hand
    an instruction over, or run one of the phases. *)
Inductive action : Type :=
| Fetch (i : Instr)
| Issue
| Execute
| Writeback
| Commit.

Definition step `{Collaborators} (a : action) (c : Core) : outcome Core :=
  match a with
  | Fetch i => Ok (fetch i c)
  | Issue => issue c
  | Execute => execute c
  | Writeback => writeback c
  | Commit => commit c
  end.

Fixpoint run `{Collaborators} (acts : list action) (c : Core) : outcome Core :=
  match acts with
  | [] => Ok c
  | a :: rest => do c' <- step a c; run rest c'
  end.

(** The instructions issued, and those committed, in the order of the trace. *)
Definition issued (tr : list trace_t) : list Instr :=
  omap (fun e => match e with TrIssue i => Some i | TrCommit _ => None end) tr.

Definition committed (tr : list trace_t) : list Instr :=
  omap (fun e => match e with TrCommit i => Some i | TrIssue _ => None end) tr.

(** ** Definitions used by the statements and proofs *)

(** What [update] does to the table of counters, for a counter [ctr] read at
    position [i]. *)
Definition pht_next (taken : bool) (i ctr : Z) (pht : list Z) : list Z :=
  if taken then
    if ctr <? 3 then zinsert i (wrap 8 (ctr + 1)) pht else pht
  else
    if 0 <? ctr then zinsert i (wrap 8 (ctr - 1)) pht else pht.

(** The representation invariant of both predictors: the history mask
    selects a position of the counter table, the target mask a position of
    the target buffer, and every counter is a two-bit value. *)
Definition pred_inv (btb : list BTB_entry_t) (pht : list Z) (btb_mask bhr_mask : Z) : Prop :=
  Forall two_bit pht /\
  0 <= bhr_mask < Z.of_nat (length pht) /\
  0 <= btb_mask < Z.of_nat (length btb).


(** The representation invariant of the reorder buffer: the tail cursor is
    [count_] slots after the head cursor, and every outstanding slot holds
    an entry. *)
Definition rob_wf (rob : ROB.t) : Prop :=
  (ROB.count_ rob <= ROB.size rob)%nat /\
  (ROB.size rob = 0 \/ ROB.head_index_ rob < ROB.size rob)%nat /\
  ROB.tail_index_ rob = ((ROB.head_index_ rob + ROB.count_ rob) mod ROB.size rob)%nat /\
  Forall is_Some (ROB.contents rob).

(** The instructions in flight, oldest first. *)
Definition in_flight (rob : ROB.t) : list Instr :=
  omap (fmap ROB.instr) (ROB.contents rob).

(** ** A small machine for the examples

    Units that add their operands and the immediate, unit 0 completing in
    the cycle after dispatch and unit 1 three cycles later, no
    memory-ordering lock; eight registers, two reorder-buffer slots, two
    reservation stations, two units. *)

Definition adder : Collaborators :=
  {| fu_latency := fun i _ _ => (3 * getFUType i)%nat;
     fu_result := fun i a b => wrap 32 (a + b + getImm i);
     rs_locked := fun _ _ => false |}.

Definition ADD (fu rd rs1 rs2 : nat) : Instr :=
  mkInstr (mkExeFlags true true true false false false) rd rs1 rs2 0 fu.

Definition ADDI (fu rd rs1 : nat) (imm : Z) : Instr :=
  mkInstr (mkExeFlags true true false false false false) rd rs1 0 imm fu.

Definition small_core : Core :=
  set_reg_file [0; 10; 20; 30; 40; 50; 60; 70] (init 8 2 2 2).

Definition after (acts : list action) (c : Core) : Core :=
  match @run adder acts c with
  | Ok c' => c'
  | Fault _ => c
  end.

Definition cycle : list action := [Commit; Writeback; Execute; Issue].

Definition cycles (n : nat) : list action := concat (replicate n cycle).

(** An addition on the slow unit followed by one on the fast unit: after
    five cycles the younger one has broadcast and the older one has not;
    two cycles later both are ready and none has committed. *)
Definition younger_done : Core :=
  after ([Fetch (ADD 1 1 2 3); Fetch (ADD 0 4 5 6)] ++ cycles 5) small_core.

Definition both_done : Core := after (cycles 2) younger_done.

(** Two additions into register 7: after four cycles the older one is ready
    at the head and the younger one, still outstanding, owns the mapping. *)
Definition twice_r7 : Core :=
  after ([Fetch (ADD 0 7 2 3); Fetch (ADD 0 7 5 6)] ++ cycles 4) small_core.

(** An addition into register 0, ready at the head. *)
Definition into_r0 : Core :=
  after ([Fetch (ADD 0 0 2 3)] ++ cycles 4) small_core.

(** Both reorder-buffer slots and both reservation stations taken, a third
    instruction waiting in the issue queue. *)
Definition all_taken : Core :=
  after ([Fetch (ADD 1 1 2 3); Fetch (ADD 1 4 5 6); Fetch (ADD 0 7 2 3)] ++ cycles 2)
        small_core.

(** ** Operand resolution *)

(** The operand read that [Core::issue] performs twice, once for each source
    operand: the value and the producing reservation station (-1 when the
    value is available). *)
Definition read_operand (c : Core) (used : bool) (r : nat) : outcome (Z * Z) :=
  if used then
    match RAT_ c !! r with
    | None =>
        do v <- from_option OutOfRange (reg_file_ c !! r);
        Ok (v, -1)
    | Some rob_index =>
        do rob_entry <- ROB.get_entry (ROB_ c) rob_index;
        if ROB.ready rob_entry then Ok (ROB.result rob_entry, -1)
        else
          do rsid <- from_option BadAccess (zlookup (RST_ c) rob_index);
          Ok (0, rsid)
    end
  else Ok (0, -1).

(** The state of a source operand, as the spec has it. *)
Inductive operand_t : Type :=
| Resolved (value : Z)
| Pending (producer : Z).

(** The three-way rule of the spec, for register [r] in core [c]. *)
Inductive operand_rule (c : Core) (r : nat) : operand_t -> Prop :=
| rule_register_file (v : Z) :
    RAT_ c !! r = None ->
    reg_file_ c !! r = Some v ->
    operand_rule c r (Resolved v)
| rule_ready_slot (slot : Z) (e : ROB.entry_t) :
    RAT_ c !! r = Some slot ->
    ROB.get_entry (ROB_ c) slot = Ok e ->
    ROB.ready e = true ->
    operand_rule c r (Resolved (ROB.result e))
| rule_pending (slot : Z) (e : ROB.entry_t) (producer : Z) :
    RAT_ c !! r = Some slot ->
    ROB.get_entry (ROB_ c) slot = Ok e ->
    ROB.ready e = false ->
    zlookup (RST_ c) slot = Some producer ->
    operand_rule c r (Pending producer).

(** How a reservation-station entry records an operand: a resolved operand
    as its value with producer -1, a pending one as its producer. *)
Definition recorded (o : operand_t) (data index : Z) : Prop :=
  match o with
  | Resolved v => data = v /\ index = -1
  | Pending p => index = p
  end.

(** The same machine with four reorder-buffer slots and four reservation
    stations.  Five cycles after the two additions of [younger_done],
    register 1 is mapped to slot 0, which is not ready and is produced by
    reservation station 0, and register 4 to slot 1, which is ready with
    110; a third addition waits in the issue queue. *)
Definition roomy_core : Core :=
  set_reg_file [0; 10; 20; 30; 40; 50; 60; 70] (init 8 4 4 2).

Definition third_waiting (i : Instr) : Core :=
  fetch i (after ([Fetch (ADD 1 1 2 3); Fetch (ADD 0 4 5 6)] ++ cycles 5) roomy_core).

(** An addition into register 1 followed by an addition that reads
    register 1: after three cycles the first result is on the bus, sent by
    reservation station 0, and the second addition waits for it in
    reservation station 1. *)
Definition dependent_waiting : list action :=
  [Fetch (ADDI 0 1 0 5); Fetch (ADD 0 4 1 5)] ++ cycles 3.

(** ** Order of issue and order of commit *)

(** The instructions issued so far are those committed so far followed by
    those in flight, oldest first. *)
Definition fifo_inv (c : Core) : Prop :=
  rob_wf (ROB_ c) /\
  issued (trace_ c) = committed (trace_ c) ++ in_flight (ROB_ c).

(** What one action may do to the outstanding slots: leave them alone, add
    one at the tail (issue only), or remove the first one (commit only). *)
Definition slots_move (a : action) (before after : list nat) : Prop :=
  after = before \/
  (a = Issue /\ exists slot, after = before ++ [slot]) \/
  (a = Commit /\ exists slot, before = slot :: after).

(** An addition on the slow unit followed by an independent addition on the
    fast unit, and eight cycles: the younger one completes first. *)
Definition slow_then_fast : list action :=
  [Fetch (ADD 1 1 2 3); Fetch (ADD 0 4 5 6)] ++ cycles 8.

(** ** Contention for the bus *)

(** A completed unit stays busy until it is cleared. *)
Definition fu_wf (fu : FU.t) : Prop := FU.done fu = true -> FU.busy fu = true.

(** The first unit that is done, in the scan order of [Core::execute], with
    its position counted from [base]. *)
Fixpoint first_done (base : nat) (fus : list FU.t) : option (nat * FU.t) :=
  match fus with
  | [] => None
  | fu :: rest => if FU.done fu then Some (base, fu) else first_done (S base) rest
  end.

Fixpoint ticks `{Collaborators} (n : nat) (c : Core) : outcome Core :=
  match n with
  | O => Ok c
  | S n' => do c' <- tick c; ticks n' c'
  end.

(** ** Who holds which reservation station

    A busy unit holds the reservation station it was dispatched from, and
    the bus holds the one whose result it carries. *)

Definition holds (rs : RS.t) (k : Z) : Prop :=
  exists e, zlookup rs k = Some e /\ RS.valid e = true /\ RS.running e = true.

Definition fu_holder (fu : FU.t) : option Z :=
  if FU.busy fu then FU.rs_index <$> FU.input_ fu else None.

Definition bus_holder (bus : CDB.t) : list Z :=
  match bus with
  | Some d => [CDB.rs_index d]
  | None => []
  end.

Definition holders (fus : list FU.t) (bus : CDB.t) : list Z :=
  bus_holder bus ++ omap fu_holder fus.

(** A completed unit is busy, a busy unit has its input, and the output of
    a completed unit names the slots of its input. *)
Definition fu_shape (fu : FU.t) : Prop :=
  (FU.done fu = true -> FU.busy fu = true) /\
  (FU.busy fu = true -> is_Some (FU.input_ fu)) /\
  (FU.done fu = true -> forall i, FU.input_ fu = Some i ->
     CDB.rs_index (FU.output_ fu) = FU.rs_index i /\
     CDB.rob_index (FU.output_ fu) = FU.rob_index i).

(** No reservation station is held twice, and every held one is valid and
    running. *)
Definition sched_ok (rs : RS.t) (fus : list FU.t) (bus : CDB.t) : Prop :=
  NoDup (holders fus bus) /\ Forall (holds rs) (holders fus bus) /\ Forall fu_shape fus.

(** The number of valid entries. *)
Fixpoint valid_count (rs : RS.t) : nat :=
  match rs with
  | [] => 0
  | e :: rest => ((if RS.valid e then 1 else 0) + valid_count rest)%nat
  end.

(** The instructions that have not released their reservation station yet,
    or have not got one yet. *)
Definition backlog (c : Core) : nat :=
  (length (issue_queue_ c) + valid_count (RS_ c))%nat.

Definition core_sched (c : Core) : Prop := sched_ok (RS_ c) (FUs_ c) (CDB_ c).

(** An addition on the slow unit and, three cycles later, one on the fast
    unit: both units complete in the sixth cycle.  The run stops in that
    cycle before the execute phase. *)
Definition both_complete : list action :=
  [Fetch (ADDI 1 1 0 11)] ++ cycles 3 ++ [Fetch (ADDI 0 2 0 22)] ++ cycles 2
  ++ [Commit; Writeback].

(** ** Pending operands and their producers *)

(** The reservation station that a unit or the bus holds produces the
    result of the reorder-buffer slot that travels with it. *)
Definition pair_ok (rs : RS.t) (fus : list FU.t) (bus : CDB.t) : Prop :=
  (forall d, bus = Some d ->
     exists e, zlookup rs (CDB.rs_index d) = Some e /\ RS.rob_index e = CDB.rob_index d) /\
  Forall (fun fu =>
            FU.busy fu = true -> forall i, FU.input_ fu = Some i ->
            exists e, zlookup rs (FU.rs_index i) = Some e /\
                      RS.rob_index e = FU.rob_index i) fus.

(** The reverse producer index lists, for every reorder-buffer entry that
    is not ready, a valid reservation station that produces it. *)
Definition producer_ok (c : Core) : Prop :=
  forall s e, ROB.get_entry (ROB_ c) s = Ok e -> ROB.ready e = false ->
    exists k ek, zlookup (RST_ c) s = Some k /\ zlookup (RS_ c) k = Some ek /\
                 RS.valid ek = true /\ RS.rob_index ek = s.

(** Every pending operand of a valid reservation station names a valid
    reservation station. *)
Definition pending_ok (rs : RS.t) : Prop :=
  forall i e p, zlookup rs i = Some e -> RS.valid e = true ->
    p = RS.rs1_index e \/ p = RS.rs2_index e -> p <> -1 ->
    exists e', zlookup rs p = Some e' /\ RS.valid e' = true.

Definition rename_inv (c : Core) : Prop :=
  core_sched c /\ pair_ok (RS_ c) (FUs_ c) (CDB_ c) /\ producer_ok c /\ pending_ok (RS_ c).

(** ** Runs without faults *)

(** An instruction whose registers and functional unit exist. *)
Definition instr_ok (num_regs num_fus : nat) (i : Instr) : Prop :=
  (use_rs1 (getExeFlags i) = true -> (getRs1 i < num_regs)%nat) /\
  (use_rs2 (getExeFlags i) = true -> (getRs2 i < num_regs)%nat) /\
  (use_rd (getExeFlags i) = true -> (getRd i < num_regs)%nat) /\
  (getFUType i < num_fus)%nat.

(** What holds of every core reached with instructions that are [instr_ok]:
    the reorder buffer is well formed and has entries at outstanding slots
    only, the alias table names the entry of the youngest writer of a
    register, every valid reservation station produces an entry that is not
    ready and is listed for it in the reverse producer index, and no more
    instructions have committed than were fetched. *)
Record safe_inv (c : Core) : Prop := mk_safe {
  safe_rob : rob_wf (ROB_ c);
  safe_rst : length (RST_ c) = ROB.size (ROB_ c);
  safe_slots : forall s e,
    ROB.get_entry (ROB_ c) s = Ok e -> Z.to_nat s ∈ ROB.slots (ROB_ c);
  safe_rat : forall r s,
    RAT_ c !! r = Some s ->
    exists e, ROB.get_entry (ROB_ c) s = Ok e /\
      use_rd (getExeFlags (ROB.instr e)) = true /\ getRd (ROB.instr e) = r;
  safe_rs : forall k e,
    zlookup (RS_ c) k = Some e -> RS.valid e = true ->
    (exists re, ROB.get_entry (ROB_ c) (RS.rob_index e) = Ok re /\ ROB.ready re = false) /\
    zlookup (RST_ c) (RS.rob_index e) = Some k /\
    (exists i, RS.instr e = Some i /\ (getFUType i < length (FUs_ c))%nat);
  safe_queue :
    Forall (instr_ok (length (reg_file_ c)) (length (FUs_ c))) (issue_queue_ c);
  safe_flight : forall s e,
    ROB.get_entry (ROB_ c) s = Ok e ->
    instr_ok (length (reg_file_ c)) (length (FUs_ c)) (ROB.instr e);
  safe_count :
    0 <= perf_instrs_ c /\
    perf_instrs_ c + Z.of_nat (length (issue_queue_ c)) + Z.of_nat (ROB.count_ (ROB_ c))
      <= fetched_instrs_ c;
  safe_rename : rename_inv c
}.

(** A schedule in which every instruction handed over names registers and a
    functional unit that the core has. *)
Definition well_formed (num_regs num_fus : nat) (a : action) : Prop :=
  match a with
  | Fetch i => instr_ok num_regs num_fus i
  | _ => True
  end.

(** The schedule of a core that is handed a batch of instructions before
    each of its cycles. *)
Definition driven (prog : list (list Instr)) : list action :=
  concat ((fun batch => (Fetch <$> batch) ++ cycle) <$> prog).

(** ** Branch prediction: positions, tags and outcomes *)

(** The position of an address in the target buffer, its tag, and the
    position of its counter, as [predict] and [update] compute them. *)
Definition btb_index (mask PC : Z) : Z := wrap 32 (Z.land (PC ≫ 2) mask).

Definition btb_tag_of (shift PC : Z) : Z := wrap 32 ((PC ≫ 2) ≫ shift).

Definition pht_index (w bhr mask PC : Z) : Z := wrap w (Z.land (Z.lxor (PC ≫ 2) bhr) mask).

(** The directions of a sequence of [update] calls, oldest first. *)
Definition outcomes (calls : list (Z * Z * bool)) : list bool := snd <$> calls.

(** No call of the sequence is a taken branch at the position [idx] of the
    target buffer. *)
Definition no_taken_at (mask idx : Z) (calls : list (Z * Z * bool)) : Prop :=
  Forall (fun c => c.2 = true -> btb_index mask c.1.1 <> idx) calls.

(** The entry [e] at the position [idx] of the target buffer was written by
    the most recent taken branch of [calls] at that position. *)
Definition btb_latest (mask shift : Z) (calls : list (Z * Z * bool)) (idx : Z)
    (e : BTB_entry_t) : Prop :=
  exists before after PC',
    calls = before ++ (PC', btb_target e, true) :: after /\
    btb_index mask PC' = idx /\
    btb_tag e = btb_tag_of shift PC' /\
    no_taken_at mask idx after.

(** [v] is the target of the most recent taken branch of [calls] at the
    position of [PC] in the target buffer, and that branch has the tag of
    [PC]. *)
Definition latest_taken (mask shift : Z) (calls : list (Z * Z * bool)) (PC v : Z) : Prop :=
  exists before after PC',
    calls = before ++ (PC', v, true) :: after /\
    btb_index mask PC' = btb_index mask PC /\
    btb_tag_of shift PC' = btb_tag_of shift PC /\
    no_taken_at mask (btb_index mask PC) after.

(** [v] is the target of the most recent taken branch of [calls] in the word
    of [PC]. *)
Definition latest_taken_in_word (calls : list (Z * Z * bool)) (PC v : Z) : Prop :=
  exists before after PC',
    calls = before ++ (PC', v, true) :: after /\
    PC' ≫ 2 = PC ≫ 2 /\
    Forall (fun c => c.2 = true -> c.1.1 ≫ 2 <> PC ≫ 2) after.

(** ** Forwarding in the in-order pipelines *)

(** The register file once the instruction in MEM/WB and then the one in
    EX/MEM have gone through the rest of the pipeline.  [wb_stage] writes,
    with [Core::regfile_write], the result that MEM/WB holds; the result of
    the instruction in EX/MEM first goes through [mem_stage], which hands
    [mem_access (instr, result, rs2_data)] on to MEM/WB.  [mem_access] is a
    member that is not part of the sources: it is an argument here, for
    the value that it returns. *)
Definition retired (mem_access : Instr -> Z -> Z -> Z) (c : InOrder.Core)
    : outcome (list Z) :=
  do rf <-
    match InOrder.mem_wb_ c with
    | Some d => InOrder.regfile_write (InOrder.mw_instr d) (InOrder.mw_result d)
                  (InOrder.reg_file_ c)
    | None => Ok (InOrder.reg_file_ c)
    end;
  match InOrder.ex_mem_ c with
  | Some d =>
      InOrder.regfile_write (InOrder.em_instr d)
        (mem_access (InOrder.em_instr d) (InOrder.em_result d) (InOrder.em_rs2_data d)) rf
  | None => Ok rf
  end.

(** The memory stage leaves the result of an instruction in EX/MEM that is
    not a load as it is: [mem_access] returns the result it is given. *)
Definition result_kept (mem_access : Instr -> Z -> Z -> Z) (c : InOrder.Core) : Prop :=
  forall d, InOrder.ex_mem_ c = Some d ->
    is_load (getExeFlags (InOrder.em_instr d)) = false ->
    mem_access (InOrder.em_instr d) (InOrder.em_result d) (InOrder.em_rs2_data d)
    = InOrder.em_result d.

(** No load in EX/MEM writes the register [reg]. *)
Definition no_load_into (reg : nat) (c : InOrder.Core) : Prop :=
  forall d, InOrder.ex_mem_ c = Some d ->
    is_load (getExeFlags (InOrder.em_instr d)) = true ->
    use_rd (getExeFlags (InOrder.em_instr d)) = true ->
    getRd (InOrder.em_instr d) <> reg.

(** The result that EX/MEM holds for the register [r] is the one that the
    memory stage hands on. *)
Definition stage_result_final (mem_access : Instr -> Z -> Z -> Z) (c : InOrder.Core)
    (r : nat) : Prop :=
  forall d, InOrder.ex_mem_ c = Some d ->
    use_rd (getExeFlags (InOrder.em_instr d)) = true -> getRd (InOrder.em_instr d) = r ->
    mem_access (InOrder.em_instr d) (InOrder.em_result d) (InOrder.em_rs2_data d)
    = InOrder.em_result d.

(** A memory access for the examples: a load returns the word 99, any other
    instruction the result it is given. *)
Definition mem_access_99 (i : Instr) (result rs2_data : Z) : Z :=
  if is_load (getExeFlags i) then 99 else result.

(** ** The program of a schedule *)

(** The instructions that a schedule hands over, in order. *)
Definition handed (acts : list action) : list Instr :=
  omap (fun a => match a with Fetch i => Some i | _ => None end) acts.

(** ** Execution in program order *)

(** The value of a source operand in a register file; an operand that the
    instruction does not use is 0, as [Core::issue] leaves it. *)
Definition operand (used : bool) (r : nat) (rf : list Z) : Z :=
  if used then default 0 (rf !! r) else 0.

(** What the unit of an instruction computes from the operands found in a
    register file. *)
Definition result_of `{Collaborators} (i : Instr) (rf : list Z) : Z :=
  fu_result i (operand (use_rs1 (getExeFlags i)) (getRs1 i) rf)
              (operand (use_rs2 (getExeFlags i)) (getRs2 i) rf).

(** One instruction, and a program, executed in order on a register file. *)
Definition exec_one `{Collaborators} (rf : list Z) (i : Instr) : list Z :=
  if use_rd (getExeFlags i) then <[getRd i := result_of i rf]> rf else rf.

Definition exec_seq `{Collaborators} (rf : list Z) (prog : list Instr) : list Z :=
  foldl exec_one rf prog.

(** ** Values in flight *)

Definition writesb (r : nat) (i : Instr) : bool :=
  use_rd (getExeFlags i) && (getRd i =? r)%nat.

Definition no_writer (r : nat) (prog : list Instr) : Prop :=
  Forall (fun i => writesb r i = false) prog.

(** The slots of [l] before the slot [s]. *)
Fixpoint older (s : nat) (l : list nat) : list nat :=
  match l with
  | [] => []
  | x :: l' => if decide (x = s) then [] else x :: older s l'
  end.

(** The instructions of the entries at the slots [l]. *)
Definition instrs_at (rob : ROB.t) (l : list nat) : list Instr :=
  omap (fun s => ROB.instr <$> mjoin (ROB.store_ rob !! s)) l.

(** The register file that the entry at slot [s] would find if the
    instructions in flight before it were executed in order, and the result
    of the entry on it. *)
Definition env `{Collaborators} (c : Core) (s : Z) : list Z :=
  exec_seq (reg_file_ c) (instrs_at (ROB_ c) (older (Z.to_nat s) (ROB.slots (ROB_ c)))).

Definition value `{Collaborators} (c : Core) (s : Z) (e : ROB.entry_t) : Z :=
  result_of (ROB.instr e) (env c s).

(** A source operand of the reservation station that produces slot [s]:
    resolved to the value in program order, or waiting for the station
    that produces that value. *)
Definition operand_ok `{Collaborators} (c : Core) (s : Z) (used : bool) (r : nat)
    (index data : Z) : Prop :=
  (index = -1 -> data = operand used r (env c s)) /\
  (index <> -1 ->
   used = true /\
   exists q eq, ROB.get_entry (ROB_ c) q = Ok eq /\ ROB.ready eq = false /\
     zlookup (RST_ c) q = Some index /\
     env c s !! r = Some (value c q eq)).

(** A reservation station holds the instruction of the entry it produces,
    with operands as [operand_ok] has them. *)
Definition rs_ok `{Collaborators} (c : Core) (x : RS.entry_t) : Prop :=
  exists e, ROB.get_entry (ROB_ c) (RS.rob_index x) = Ok e /\
    RS.instr x = Some (ROB.instr e) /\
    operand_ok c (RS.rob_index x) (use_rs1 (getExeFlags (ROB.instr e)))
      (getRs1 (ROB.instr e)) (RS.rs1_index x) (RS.rs1_data x) /\
    operand_ok c (RS.rob_index x) (use_rs2 (getExeFlags (ROB.instr e)))
      (getRs2 (ROB.instr e)) (RS.rs2_index x) (RS.rs2_data x).

(** What a unit works on: the instruction of the entry it produces, with
    the operand values of program order; and what it has computed when it
    is done. *)
Definition fu_ok `{Collaborators} (c : Core) (fu : FU.t) : Prop :=
  FU.busy fu = true -> forall inp, FU.input_ fu = Some inp ->
  (exists e, ROB.get_entry (ROB_ c) (FU.rob_index inp) = Ok e /\
     FU.instr inp = ROB.instr e /\
     FU.rs1_data inp
       = operand (use_rs1 (getExeFlags (ROB.instr e))) (getRs1 (ROB.instr e))
                 (env c (FU.rob_index inp)) /\
     FU.rs2_data inp
       = operand (use_rs2 (getExeFlags (ROB.instr e))) (getRs2 (ROB.instr e))
                 (env c (FU.rob_index inp))) /\
  (FU.done fu = true ->
   CDB.result (FU.output_ fu)
   = fu_result (FU.instr inp) (FU.rs1_data inp) (FU.rs2_data inp)).

(** The values in the core agree with execution in program order. *)
Record dataflow_inv `{Collaborators} (c : Core) : Prop := mk_dataflow {
  df_ready : forall s e,
    ROB.get_entry (ROB_ c) s = Ok e -> ROB.ready e = true -> ROB.result e = value c s e;
  df_bus : forall d,
    CDB_ c = Some d ->
    exists e, ROB.get_entry (ROB_ c) (CDB.rob_index d) = Ok e /\
      CDB.result d = value c (CDB.rob_index d) e;
  df_fus : Forall (fu_ok c) (FUs_ c);
  df_rs : forall j x, zlookup (RS_ c) j = Some x -> RS.valid x = true -> rs_ok c x;
  df_rat_some : forall r s,
    RAT_ c !! r = Some s ->
    exists pre post, ROB.slots (ROB_ c) = pre ++ Z.to_nat s :: post /\
      no_writer r (instrs_at (ROB_ c) post);
  df_rat_none : forall r,
    RAT_ c !! r = None -> no_writer r (in_flight (ROB_ c))
}.

(** An addition of 5 into register 1 on the slow unit, followed by an
    addition on the fast unit that reads register 1 twice, and twelve
    cycles. *)
Definition dependent_pair : list action :=
  [Fetch (ADDI 1 1 0 5); Fetch (ADD 0 4 1 1)] ++ cycles 12.

(** ** Progress *)

(** The sum of the weights of the elements of a list. *)
Fixpoint total {A : Type} (w : A -> nat) (l : list A) : nat :=
  match l with
  | [] => 0
  | x :: l' => (w x + total w l')%nat
  end.

(** What an instruction has still to go through, by where it is: in the
    issue queue, in a reservation station waiting for dispatch, in a unit
    (counting down, then done), on the bus, ready in the reorder buffer.
    [L] bounds the latencies of the units. *)
Definition fu_weight (fu : FU.t) : nat :=
  if FU.busy fu then (if FU.done fu then 3 else FU.wait_ fu + 4)%nat else 0%nat.

Definition rs_waiting (x : RS.entry_t) : nat :=
  if RS.valid x && negb (RS.running x) then 1%nat else 0%nat.

Definition entry_ready (o : option ROB.entry_t) : nat :=
  match o with
  | Some e => if ROB.ready e then 1%nat else 0%nat
  | None => 0%nat
  end.

Definition potential (L : nat) (c : Core) : nat :=
  ((L + 6) * length (issue_queue_ c)
   + (L + 5) * total rs_waiting (RS_ c)
   + total fu_weight (FUs_ c)
   + match CDB_ c with Some _ => 2 | None => 0 end
   + total entry_ready (ROB.contents (ROB_ c)))%nat.

(** A reservation station that is running is held by a unit or by the bus. *)
Definition running_held (c : Core) : Prop :=
  forall j x, zlookup (RS_ c) j = Some x -> RS.valid x = true -> RS.running x = true ->
    j ∈ holders (FUs_ c) (CDB_ c).

(** The entry that a pending operand waits for is older than the entry of
    the waiting station. *)
Definition producers_older (c : Core) : Prop :=
  forall j x p q eq,
    zlookup (RS_ c) j = Some x -> RS.valid x = true ->
    p = RS.rs1_index x \/ p = RS.rs2_index x -> p <> -1 ->
    ROB.get_entry (ROB_ c) q = Ok eq -> ROB.ready eq = false ->
    zlookup (RST_ c) q = Some p ->
    Z.to_nat q ∈ older (Z.to_nat (RS.rob_index x)) (ROB.slots (ROB_ c)).

(** The [n] units take a bounded number of cycles, and no reservation
    station is held back by the memory-ordering lock. *)
Definition bounded_units `{Collaborators} (L n : nat) : Prop :=
  (forall i a b, (getFUType i < n)%nat -> (fu_latency i a b <= L)%nat) /\
  (forall rs k, rs_locked rs k = false).

(** What the progress argument keeps from cycle to cycle. *)
Record live_inv `{Collaborators} (c : Core) : Prop := mk_live {
  live_safe : safe_inv c;
  live_dataflow : dataflow_inv c;
  live_held : running_held c;
  live_older : producers_older c;
  live_rob : (0 < ROB.size (ROB_ c))%nat;
  live_rs : (0 < length (RS_ c))%nat
}.

(** Nothing is left to do: the issue queue and the reorder buffer are
    empty. *)
Definition drained (c : Core) : Prop :=
  issue_queue_ c = [] /\ ROB.empty (ROB_ c) = true.

(** *** The driver

    The front end and the driver of the core are not part of the sources. *)

(** Modelled from the spec: per cycle the front end presents zero or one
    decoded instruction, through a single-slot hand-off that the issue phase
    drains when it issues.  It presents the next instruction of the program
    when it has it ready in this cycle and the slot is free. *)
Definition present (ready : bool) (prog : list Instr) (c : Core) : Core * list Instr :=
  match prog, issue_queue_ c with
  | i :: rest, [] => if ready then (fetch i c, rest) else (c, prog)
  | _, _ => (c, prog)
  end.

(** Modelled from the spec: the driver bounds the number of cycles and
    stops driving ticks once the terminating instruction has committed.
    One cycle for each element of [ready], which says whether the front end
    has an instruction ready in that cycle; the result is the core and the
    part of the program that has not been presented. *)
Fixpoint drive `{Collaborators} (ready : list bool) (prog : list Instr) (c : Core)
    : outcome (Core * list Instr) :=
  match ready with
  | [] => Ok (c, prog)
  | r :: ready' =>
      if exited_ c then Ok (c, prog)
      else
        let '(c1, rest) := present r prog c in
        do c2 <- tick c1;
        drive ready' rest c2
  end.

(** The number of cycles in which the front end has an instruction ready. *)
Fixpoint count_ready (ready : list bool) : nat :=
  match ready with
  | [] => 0
  | r :: ready' => ((if r then 1 else 0) + count_ready ready')%nat
  end.

(** The last instruction committed is a terminating one. *)
Definition exit_last (c : Core) : Prop :=
  exists i, last (committed (trace_ c)) = Some i /\ is_exit (getExeFlags i) = true.

(** Two additions on the slow unit and one on the fast unit, each reading
    the result of the one before. *)
Definition chain : list Instr := [ADDI 1 1 0 5; ADD 1 2 1 1; ADD 0 3 2 1].
(** * Theorems *)

(** ** Arithmetic of masks and positions *)

Lemma land_upper_r (a b : Z) : 0 <= b -> 0 <= Z.land a b <= b.
Proof.
  intros Hb. split.
  - apply Z.land_nonneg. by right.
  - assert (Hd : Z.ldiff (Z.land a b) b = 0).
    { apply Z.bits_inj'. intros n Hn.
      rewrite Z.ldiff_spec, Z.land_spec, Z.bits_0.
      destruct (Z.testbit a n), (Z.testbit b n); reflexivity. }
    pose proof (Z.sub_nocarry_ldiff b (Z.land a b) Hd) as Hs.
    assert (0 <= Z.ldiff b (Z.land a b)) by (apply Z.ldiff_nonneg; by left).
    lia.
Qed.

Lemma wrap_small (w x : Z) : 0 <= x < 2 ^ w -> wrap w x = x.
Proof. intros H. unfold wrap. by apply Z.mod_small. Qed.

Lemma wrap_range (w x : Z) : 0 <= w -> 0 <= wrap w x < 2 ^ w.
Proof. intros H. unfold wrap. apply Z.mod_pos_bound. by apply Z.pow_pos_nonneg. Qed.

Lemma wrap_le (w x : Z) : 0 <= w -> 0 <= x -> wrap w x <= x.
Proof.
  intros Hw Hx. unfold wrap. apply Z.mod_le; [done|]. by apply Z.pow_pos_nonneg.
Qed.

Lemma zlookup_lt {A : Type} (l : list A) (i : Z) :
  0 <= i < Z.of_nat (length l) -> exists x, zlookup l i = Some x.
Proof.
  intros [H0 H1]. unfold zlookup.
  destruct (Z.ltb_spec i 0) as [|_]; [lia|].
  apply lookup_lt_is_Some_2. lia.
Qed.

Lemma zlookup_Some_lt {A : Type} (l : list A) (i : Z) (x : A) :
  zlookup l i = Some x -> 0 <= i < Z.of_nat (length l).
Proof.
  unfold zlookup. destruct (Z.ltb_spec i 0) as [|H0]; [done|].
  intros H. apply lookup_lt_Some in H. lia.
Qed.

Lemma length_zinsert {A : Type} (l : list A) (i : Z) (x : A) :
  length (zinsert i x l) = length l.
Proof. unfold zinsert. destruct (i <? 0); [done|]. apply length_insert. Qed.

Lemma Forall_zinsert {A : Type} (P : A -> Prop) (l : list A) (i : Z) (x : A) :
  Forall P l -> P x -> Forall P (zinsert i x l).
Proof.
  intros Hl Hx. unfold zinsert. destruct (i <? 0); [done|].
  by apply Forall_insert.
Qed.

Lemma Forall_zlookup {A : Type} (P : A -> Prop) (l : list A) (i : Z) (x : A) :
  Forall P l -> zlookup l i = Some x -> P x.
Proof.
  unfold zlookup. destruct (i <? 0); [done|].
  intros Hl Hi. eapply Forall_lookup_1; eauto.
Qed.

Lemma zlookup_zinsert_eq {A : Type} (l : list A) (i : Z) (x y : A) :
  zlookup l i = Some y -> zlookup (zinsert i x l) i = Some x.
Proof.
  intros Hi. pose proof (zlookup_Some_lt _ _ _ Hi) as Hr.
  unfold zlookup, zinsert. destruct (Z.ltb_spec i 0); [lia|].
  apply list_lookup_insert_eq. lia.
Qed.

Lemma zlookup_zinsert_ne {A : Type} (l : list A) (i j : Z) (x : A) :
  i <> j -> zlookup (zinsert i x l) j = zlookup l j.
Proof.
  intros Hij. unfold zlookup, zinsert.
  destruct (Z.ltb_spec j 0); [done|]. destruct (Z.ltb_spec i 0); [done|].
  apply list_lookup_insert_ne. lia.
Qed.

(** ** Pattern-history counters *)

Lemma pht_next_two_bit (taken : bool) (i ctr : Z) (pht : list Z) :
  Forall two_bit pht -> zlookup pht i = Some ctr ->
  Forall two_bit (pht_next taken i ctr pht) /\
  length (pht_next taken i ctr pht) = length pht.
Proof.
  intros Hall Hi.
  assert (Hc : two_bit ctr) by (eapply Forall_zlookup; eauto).
  unfold two_bit in Hc. unfold pht_next.
  destruct taken.
  - destruct (Z.ltb_spec ctr 3).
    + split; [|apply length_zinsert].
      apply Forall_zinsert; [done|]. unfold two_bit.
      rewrite wrap_small; lia.
    + done.
  - destruct (Z.ltb_spec 0 ctr).
    + split; [|apply length_zinsert].
      apply Forall_zinsert; [done|]. unfold two_bit.
      rewrite wrap_small; lia.
    + done.
Qed.

(** One update moves one counter by one step, up when the branch is taken
    and the counter is below 3, down when it is not taken and the counter is
    above 0, and leaves every other counter as it is. *)
Lemma pht_next_step (taken : bool) (i ctr : Z) (pht : list Z) (j old new : Z) :
  Forall two_bit pht -> zlookup pht i = Some ctr ->
  zlookup pht j = Some old -> zlookup (pht_next taken i ctr pht) j = Some new ->
  new = old \/
  (taken = true /\ old < 3 /\ new = old + 1) \/
  (taken = false /\ 0 < old /\ new = old - 1).
Proof.
  intros Hall Hi Hj Hnew.
  assert (Hc : two_bit ctr) by (eapply Forall_zlookup; eauto).
  unfold two_bit in Hc. unfold pht_next in Hnew.
  destruct (decide (i = j)) as [->|Hne].
  - assert (old = ctr) as -> by congruence.
    destruct taken.
    + destruct (Z.ltb_spec ctr 3); [|left; congruence].
      erewrite zlookup_zinsert_eq in Hnew by done. injection Hnew as <-.
      right. left. rewrite wrap_small by lia. done.
    + destruct (Z.ltb_spec 0 ctr); [|left; congruence].
      erewrite zlookup_zinsert_eq in Hnew by done. injection Hnew as <-.
      right. right. rewrite wrap_small by lia. done.
  - left. destruct taken.
    + destruct (ctr <? 3); [rewrite zlookup_zinsert_ne in Hnew by done|]; congruence.
    + destruct (0 <? ctr); [rewrite zlookup_zinsert_ne in Hnew by done|]; congruence.
Qed.

Lemma pred_inv_init (w BTB_size BHR_size c : Z) :
  0 <= w -> 1 <= BTB_size < 2 ^ 32 -> 0 <= BHR_size <= 30 -> two_bit c ->
  pred_inv (replicate (Z.to_nat BTB_size) (mkBTB false 0 0))
           (replicate (Z.to_nat (1 ≪ BHR_size)) c)
           (wrap 32 (BTB_size - 1)) (wrap w ((1 ≪ BHR_size) - 1)).
Proof.
  intros Hw Hbtb Hbhr Hc.
  rewrite Z.shiftl_1_l.
  assert (0 < 2 ^ BHR_size) by (apply Z.pow_pos_nonneg; lia).
  unfold pred_inv. rewrite !length_replicate. split; [|split].
  - by apply Forall_replicate.
  - pose proof (wrap_range w (2 ^ BHR_size - 1) Hw).
    pose proof (wrap_le w (2 ^ BHR_size - 1) Hw). lia.
  - rewrite wrap_small by lia. lia.
Qed.

Lemma index_in_range (w x mask len : Z) :
  0 <= w -> 0 <= mask < len ->
  0 <= wrap w (Z.land x mask) < len.
Proof.
  intros Hw Hm.
  pose proof (land_upper_r x mask ltac:(lia)).
  pose proof (wrap_range w (Z.land x mask) Hw).
  pose proof (wrap_le w (Z.land x mask) Hw). lia.
Qed.

Lemma GShare_update_inv (g : GShare.t) (PC next_PC : Z) (taken : bool) :
  pred_inv (GShare.BTB_ g) (GShare.PHT_ g) (GShare.BTB_mask_ g) (GShare.BHR_mask_ g) ->
  exists g' i ctr, GShare.update g PC next_PC taken = Ok g' /\
    pred_inv (GShare.BTB_ g') (GShare.PHT_ g') (GShare.BTB_mask_ g') (GShare.BHR_mask_ g') /\
    zlookup (GShare.PHT_ g) i = Some ctr /\
    GShare.PHT_ g' = pht_next taken i ctr (GShare.PHT_ g).
Proof.
  intros (Hall & Hbhr & Hbtb). unfold GShare.update.
  set (i := wrap 8 _).
  destruct (zlookup_lt (GShare.PHT_ g) i) as [ctr Hctr].
  { apply index_in_range; [lia|done]. }
  rewrite Hctr. cbn [from_option obind].
  fold (pht_next taken i ctr (GShare.PHT_ g)).
  destruct (pht_next_two_bit taken i ctr _ Hall Hctr) as [Hall' Hlen].
  destruct taken.
  - set (j := wrap 32 _).
    destruct (zlookup_lt (GShare.BTB_ g) j) as [e He].
    { apply index_in_range; [lia|done]. }
    rewrite He. cbn [from_option obind].
    eexists _, i, ctr. split; [reflexivity|].
    cbn [GShare.BTB_ GShare.PHT_ GShare.BTB_mask_ GShare.BHR_mask_].
    unfold pred_inv. rewrite Hlen, length_zinsert. done.
  - eexists _, i, ctr. split; [reflexivity|].
    cbn [GShare.BTB_ GShare.PHT_ GShare.BTB_mask_ GShare.BHR_mask_].
    unfold pred_inv. rewrite Hlen. done.
Qed.

Lemma GSharePlus_update_inv (g : GSharePlus.t) (PC next_PC : Z) (taken : bool) :
  pred_inv (GSharePlus.BTB_ g) (GSharePlus.PHT_ g)
           (GSharePlus.BTB_mask_ g) (GSharePlus.BHR_mask_ g) ->
  exists g' i ctr, GSharePlus.update g PC next_PC taken = Ok g' /\
    pred_inv (GSharePlus.BTB_ g') (GSharePlus.PHT_ g')
             (GSharePlus.BTB_mask_ g') (GSharePlus.BHR_mask_ g') /\
    zlookup (GSharePlus.PHT_ g) i = Some ctr /\
    GSharePlus.PHT_ g' = pht_next taken i ctr (GSharePlus.PHT_ g).
Proof.
  intros (Hall & Hbhr & Hbtb). unfold GSharePlus.update.
  set (i := wrap 16 _).
  destruct (zlookup_lt (GSharePlus.PHT_ g) i) as [ctr Hctr].
  { apply index_in_range; [lia|done]. }
  rewrite Hctr. cbn [from_option obind].
  fold (pht_next taken i ctr (GSharePlus.PHT_ g)).
  destruct (pht_next_two_bit taken i ctr _ Hall Hctr) as [Hall' Hlen].
  destruct taken.
  - set (j := wrap 32 _).
    destruct (zlookup_lt (GSharePlus.BTB_ g) j) as [e He].
    { apply index_in_range; [lia|done]. }
    rewrite He. cbn [from_option obind].
    eexists _, i, ctr. split; [reflexivity|].
    cbn [GSharePlus.BTB_ GSharePlus.PHT_ GSharePlus.BTB_mask_ GSharePlus.BHR_mask_].
    unfold pred_inv. rewrite Hlen, length_zinsert. done.
  - eexists _, i, ctr. split; [reflexivity|].
    cbn [GSharePlus.BTB_ GSharePlus.PHT_ GSharePlus.BTB_mask_ GSharePlus.BHR_mask_].
    unfold pred_inv. rewrite Hlen. done.
Qed.

Lemma GShare_updates_inv (calls : list (Z * Z * bool)) (g : GShare.t) :
  pred_inv (GShare.BTB_ g) (GShare.PHT_ g) (GShare.BTB_mask_ g) (GShare.BHR_mask_ g) ->
  exists g', GShare.updates calls g = Ok g' /\
    pred_inv (GShare.BTB_ g') (GShare.PHT_ g') (GShare.BTB_mask_ g') (GShare.BHR_mask_ g').
Proof.
  revert g. induction calls as [|[[PC next_PC] taken] rest IH]; intros g Hinv.
  - by exists g.
  - destruct (GShare_update_inv g PC next_PC taken Hinv) as (g1 & i & ctr & Hu & Hinv1 & _).
    cbn [GShare.updates]. rewrite Hu. cbn [obind]. by apply IH.
Qed.

Lemma GSharePlus_updates_inv (calls : list (Z * Z * bool)) (g : GSharePlus.t) :
  pred_inv (GSharePlus.BTB_ g) (GSharePlus.PHT_ g)
           (GSharePlus.BTB_mask_ g) (GSharePlus.BHR_mask_ g) ->
  exists g', GSharePlus.updates calls g = Ok g' /\
    pred_inv (GSharePlus.BTB_ g') (GSharePlus.PHT_ g')
             (GSharePlus.BTB_mask_ g') (GSharePlus.BHR_mask_ g').
Proof.
  revert g. induction calls as [|[[PC next_PC] taken] rest IH]; intros g Hinv.
  - by exists g.
  - destruct (GSharePlus_update_inv g PC next_PC taken Hinv)
      as (g1 & i & ctr & Hu & Hinv1 & _).
    cbn [GSharePlus.updates]. rewrite Hu. cbn [obind]. by apply IH.
Qed.

(** C10: from the initial state of [GShare] (counters 0) and of [GSharePlus]
    (counters 2), every sequence of [update] calls runs to completion and
    leaves every pattern-history counter between 0 and 3; one more [update]
    runs to completion too, and moves a counter up by one only when the
    branch is taken and the counter is below 3, and down by one only when
    the branch is not taken and the counter is above 0.  The sizes are those
    for which the constructor is defined: a target buffer with at least one
    entry and a history of at most 30 bits. *)
Theorem pht_counters_stay_two_bit (BTB_size BHR_size : Z) (calls : list (Z * Z * bool))
    (PC next_PC : Z) (taken : bool) :
  1 <= BTB_size < 2 ^ 32 -> 0 <= BHR_size <= 30 ->
  (exists g g',
     GShare.updates calls (GShare.GShare BTB_size BHR_size) = Ok g /\
     Forall (fun c => 0 <= c <= 3) (GShare.PHT_ g) /\
     GShare.update g PC next_PC taken = Ok g' /\
     forall j old new,
       zlookup (GShare.PHT_ g) j = Some old -> zlookup (GShare.PHT_ g') j = Some new ->
       new = old \/ (taken = true /\ old < 3 /\ new = old + 1) \/
       (taken = false /\ 0 < old /\ new = old - 1)) /\
  (exists g g',
     GSharePlus.updates calls (GSharePlus.GSharePlus BTB_size BHR_size) = Ok g /\
     Forall (fun c => 0 <= c <= 3) (GSharePlus.PHT_ g) /\
     GSharePlus.update g PC next_PC taken = Ok g' /\
     forall j old new,
       zlookup (GSharePlus.PHT_ g) j = Some old ->
       zlookup (GSharePlus.PHT_ g') j = Some new ->
       new = old \/ (taken = true /\ old < 3 /\ new = old + 1) \/
       (taken = false /\ 0 < old /\ new = old - 1)).
Proof.
  intros Hbtb Hbhr. split.
  - destruct (GShare_updates_inv calls (GShare.GShare BTB_size BHR_size)) as (g & Hg & Hinv).
    { cbn. apply pred_inv_init; unfold two_bit; lia. }
    destruct (GShare_update_inv g PC next_PC taken Hinv) as (g' & i & ctr & Hu & _ & Hi & Hp).
    exists g, g'. split; [done|]. split; [apply Hinv|]. split; [done|].
    intros j old new Hj Hnew. rewrite Hp in Hnew.
    destruct Hinv as [Hall _]. by eapply (pht_next_step taken i ctr).
  - destruct (GSharePlus_updates_inv calls (GSharePlus.GSharePlus BTB_size BHR_size))
      as (g & Hg & Hinv).
    { cbn. apply pred_inv_init; unfold two_bit; lia. }
    destruct (GSharePlus_update_inv g PC next_PC taken Hinv)
      as (g' & i & ctr & Hu & _ & Hi & Hp).
    exists g, g'. split; [done|]. split; [apply Hinv|]. split; [done|].
    intros j old new Hj Hnew. rewrite Hp in Hnew.
    destruct Hinv as [Hall _]. by eapply (pht_next_step taken i ctr).
Qed.

Lemma pht_counters_stay_two_bit_witness :
  1 <= 4 < 2 ^ 32 /\ 0 <= 3 <= 30 /\
  (exists g g',
     GShare.updates [(64, 128, true); (68, 72, false); (64, 128, true)]
                    (GShare.GShare 4 3) = Ok g /\
     Forall (fun c => 0 <= c <= 3) (GShare.PHT_ g) /\
     GShare.update g 64 128 true = Ok g' /\
     forall j old new,
       zlookup (GShare.PHT_ g) j = Some old -> zlookup (GShare.PHT_ g') j = Some new ->
       new = old \/ (true = true /\ old < 3 /\ new = old + 1) \/
       (true = false /\ 0 < old /\ new = old - 1)) /\
  (exists g g',
     GSharePlus.updates [(64, 128, true); (68, 72, false); (64, 128, true)]
                        (GSharePlus.GSharePlus 4 3) = Ok g /\
     Forall (fun c => 0 <= c <= 3) (GSharePlus.PHT_ g) /\
     GSharePlus.update g 64 128 true = Ok g' /\
     forall j old new,
       zlookup (GSharePlus.PHT_ g) j = Some old ->
       zlookup (GSharePlus.PHT_ g') j = Some new ->
       new = old \/ (true = true /\ old < 3 /\ new = old + 1) \/
       (true = false /\ 0 < old /\ new = old - 1)).
Proof.
  split; [lia|]. split; [lia|].
  apply (pht_counters_stay_two_bit 4 3); lia.
Defined.

(** ** Commit *)

Lemma lookup_lt_from_option {A : Type} (l : list A) (i : nat) :
  (i < length l)%nat -> exists x, from_option OutOfRange (l !! i) = Ok x.
Proof.
  intros Hi. destruct (lookup_lt_is_Some_2 l i Hi) as [x Hx].
  exists x. by rewrite Hx.
Qed.

(** What a commit of a ready head entry [e] leaves in each member. *)
Lemma commit_ready_head (c : Core) (e : ROB.entry_t) :
  ROB.empty (ROB_ c) = false ->
  ROB.get_entry (ROB_ c) (ROB.head_index (ROB_ c)) = Ok e ->
  ROB.ready e = true ->
  (use_rd (getExeFlags (ROB.instr e)) = true ->
   (getRd (ROB.instr e) < length (reg_file_ c))%nat) ->
  perf_instrs_ c <= fetched_instrs_ c ->
  exists c', commit c = Ok c' /\
    reg_file_ c' =
      (if use_rd (getExeFlags (ROB.instr e))
       then <[getRd (ROB.instr e) := ROB.result e]> (reg_file_ c)
       else reg_file_ c) /\
    RAT_ c' =
      (if use_rd (getExeFlags (ROB.instr e))
          && bool_decide (RAT_ c !! getRd (ROB.instr e) = Some (ROB.head_index (ROB_ c)))
       then delete (getRd (ROB.instr e)) (RAT_ c)
       else RAT_ c) /\
    ROB_ c' = ROB.pop (ROB_ c) /\
    trace_ c' = trace_ c ++ [TrCommit (ROB.instr e)] /\
    perf_instrs_ c' = wrap 64 (perf_instrs_ c + 1) /\
    exited_ c' = (if is_exit (getExeFlags (ROB.instr e)) then true else exited_ c) /\
    issue_queue_ c' = issue_queue_ c /\ RS_ c' = RS_ c /\ RST_ c' = RST_ c /\
    CDB_ c' = CDB_ c /\ FUs_ c' = FUs_ c /\ fetched_instrs_ c' = fetched_instrs_ c.
Proof.
  intros Hne Hhead Hready Hrd Hperf.
  unfold commit. rewrite Hne, Hhead. cbn [obind]. rewrite Hready.
  destruct (use_rd (getExeFlags (ROB.instr e))) eqn:Hu.
  - destruct (lookup_lt_from_option (reg_file_ c) (getRd (ROB.instr e))) as [x Hx];
      [by apply Hrd|].
    rewrite Hx. cbn [obind set_reg_file RAT_ ROB_].
    destruct (RAT_ c !! getRd (ROB.instr e)) as [slot|] eqn:Hrat.
    + destruct (Z.eqb_spec slot (ROB.head_index (ROB_ c))) as [->|Hslot].
      * cbn. destruct (Z.leb_spec (perf_instrs_ c) (fetched_instrs_ c)); [|lia].
        rewrite bool_decide_eq_true_2 by done.
        destruct (is_exit _); eexists; (split; [reflexivity|]); cbn; done.
      * cbn. destruct (Z.leb_spec (perf_instrs_ c) (fetched_instrs_ c)); [|lia].
        rewrite bool_decide_eq_false_2 by congruence.
        destruct (is_exit _); eexists; (split; [reflexivity|]); cbn; done.
    + cbn. destruct (Z.leb_spec (perf_instrs_ c) (fetched_instrs_ c)); [|lia].
      rewrite bool_decide_eq_false_2 by congruence.
      destruct (is_exit _); eexists; (split; [reflexivity|]); cbn; done.
  - cbn. destruct (Z.leb_spec (perf_instrs_ c) (fetched_instrs_ c)); [|lia].
    destruct (is_exit _); eexists; (split; [reflexivity|]); cbn; done.
Qed.

(** ** The reorder buffer as a queue *)

Lemma mod_add_inj (n h j k : nat) :
  (j < n)%nat -> (k < n)%nat -> ((h + j) mod n = (h + k) mod n)%nat -> j = k.
Proof.
  intros Hj Hk Heq.
  pose proof (Nat.div_mod_eq (h + j) n) as E1.
  pose proof (Nat.div_mod_eq (h + k) n) as E2.
  rewrite Heq in E1.
  assert ((h + j) `div` n = (h + k) `div` n)%nat by nia.
  nia.
Qed.

Lemma contents_eq (rob : ROB.t) :
  ROB.contents rob =
  (fun k => mjoin (ROB.store_ rob !! ((ROB.head_index_ rob + k) mod ROB.size rob)%nat))
    <$> seq 0 (ROB.count_ rob).
Proof. unfold ROB.contents, ROB.slots. by rewrite <- list_fmap_compose. Qed.

Lemma rob_wf_create (size : nat) : rob_wf (ROB.create size).
Proof.
  unfold rob_wf, ROB.create, ROB.size, ROB.contents, ROB.slots. cbn.
  rewrite length_replicate. split; [lia|]. split; [lia|]. split; [|constructor].
  destruct size; [done|]. cbn. rewrite Nat.sub_diag. by destruct size.
Qed.

Lemma rob_allocate_full (i : Instr) (rob : ROB.t) :
  ROB.full rob = true -> ROB.allocate i rob = (-1, rob).
Proof. intros H. unfold ROB.allocate. by rewrite H. Qed.

Lemma rob_allocate_queue (i : Instr) (rob : ROB.t) :
  rob_wf rob -> ROB.full rob = false ->
  exists rob', ROB.allocate i rob = (Z.of_nat (ROB.tail_index_ rob), rob') /\
    rob_wf rob' /\
    ROB.size rob' = ROB.size rob /\
    ROB.store_ rob' = <[ROB.tail_index_ rob := Some (ROB.mk_entry i false 0)]> (ROB.store_ rob) /\
    (ROB.tail_index_ rob < ROB.size rob)%nat /\
    ROB.contents rob' = ROB.contents rob ++ [Some (ROB.mk_entry i false 0)].
Proof.
  intros (Hcount & Hhead & Htail & Hall) Hfull.
  unfold ROB.allocate. rewrite Hfull.
  unfold ROB.full in Hfull. apply Nat.eqb_neq in Hfull.
  assert (Hlt : (ROB.count_ rob < ROB.size rob)%nat) by lia.
  assert (Hpos : (ROB.size rob <> 0)%nat) by lia.
  assert (Htl : (ROB.tail_index_ rob < ROB.size rob)%nat).
  { rewrite Htail. by apply Nat.mod_upper_bound. }
  eexists. split; [reflexivity|].
  set (rob' := ROB.mk _ _ _ _).
  assert (Hsize : ROB.size rob' = ROB.size rob).
  { unfold ROB.size, rob'. cbn. apply length_insert. }
  assert (Hcont : ROB.contents rob' = ROB.contents rob ++ [Some (ROB.mk_entry i false 0)]).
  { rewrite !contents_eq, Hsize. unfold rob'. cbn [ROB.count_ ROB.head_index_ ROB.store_].
    rewrite Nat.add_1_r, seq_S, fmap_app. cbn [fmap list_fmap]. f_equal.
    - apply list_fmap_ext. intros n k Hk.
      apply lookup_seq in Hk as [-> Hk]. cbn.
      rewrite list_lookup_insert_ne; [done|].
      rewrite Htail. intros Heq. apply mod_add_inj in Heq; lia.
    - cbn. rewrite <- Htail.
      rewrite list_lookup_insert_eq by done. done. }
  split; [|done].
  unfold rob_wf. rewrite Hsize, Hcont. unfold rob'. cbn [ROB.count_ ROB.head_index_ ROB.tail_index_].
  repeat split.
  - lia.
  - done.
  - rewrite Htail, Nat.Div0.add_mod_idemp_l. f_equal. lia.
  - apply Forall_app. split; [done|]. by repeat constructor.
Qed.

Lemma rob_head_entry (rob : ROB.t) :
  rob_wf rob -> ROB.empty rob = false ->
  exists e, ROB.get_entry rob (ROB.head_index rob) = Ok e /\
            ROB.store_ rob !! ROB.head_index_ rob = Some (Some e) /\
            hd_error (ROB.contents rob) = Some (Some e).
Proof.
  intros (Hcount & Hhead & Htail & Hall) Hne.
  unfold ROB.empty in Hne. apply Nat.eqb_neq in Hne.
  destruct Hhead as [?|Hhead]; [lia|].
  rewrite contents_eq in Hall |- *.
  destruct (ROB.count_ rob) as [|n] eqn:Hc; [done|].
  cbn in Hall |- *. rewrite Nat.add_0_r, Nat.mod_small in Hall |- * by done.
  apply Forall_cons in Hall as [[o Ho] _].
  destruct (ROB.store_ rob !! ROB.head_index_ rob) as [[e|]|] eqn:Hs; try done.
  exists e. repeat split; try done.
  unfold ROB.get_entry, ROB.head_index, zlookup.
  destruct (Z.ltb_spec (Z.of_nat (ROB.head_index_ rob)) 0); [lia|].
  by rewrite Nat2Z.id, Hs.
Qed.

Lemma rob_pop_queue (rob : ROB.t) :
  rob_wf rob -> ROB.empty rob = false ->
  rob_wf (ROB.pop rob) /\
  ROB.size (ROB.pop rob) = ROB.size rob /\
  ROB.count_ (ROB.pop rob) = (ROB.count_ rob - 1)%nat /\
  ROB.store_ (ROB.pop rob) !! ROB.head_index_ rob = Some None /\
  ROB.contents rob = mjoin (ROB.store_ rob !! ROB.head_index_ rob) :: ROB.contents (ROB.pop rob).
Proof.
  intros (Hcount & Hhead & Htail & Hall) Hne.
  unfold ROB.pop. rewrite Hne.
  unfold ROB.empty in Hne. apply Nat.eqb_neq in Hne.
  destruct Hhead as [?|Hhead]; [lia|].
  set (rob' := ROB.mk _ _ _ _).
  assert (Hsize : ROB.size rob' = ROB.size rob).
  { unfold ROB.size, rob'. cbn. apply length_insert. }
  assert (Hcont : ROB.contents rob =
            mjoin (ROB.store_ rob !! ROB.head_index_ rob) :: ROB.contents rob').
  { rewrite !contents_eq, Hsize. unfold rob'. cbn [ROB.count_ ROB.head_index_ ROB.store_].
    destruct (ROB.count_ rob) as [|n] eqn:Hc; [done|].
    cbn [seq fmap list_fmap]. rewrite Nat.add_0_r, Nat.mod_small by done. f_equal.
    rewrite Nat.sub_succ, Nat.sub_0_r, <- fmap_S_seq, <- list_fmap_compose.
    apply list_fmap_ext. intros m k Hk.
    apply lookup_seq in Hk as [-> Hk]. cbn.
    rewrite Nat.Div0.add_mod_idemp_l.
    replace (ROB.head_index_ rob + 1 + m)%nat with (ROB.head_index_ rob + S m)%nat by lia.
    rewrite list_lookup_insert_ne; [done|].
    intros Heq.
    rewrite <- (Nat.mod_small (ROB.head_index_ rob) (ROB.size rob)) in Heq at 1 by done.
    rewrite <- (Nat.add_0_r (ROB.head_index_ rob)) in Heq at 1.
    apply mod_add_inj in Heq; lia. }
  split; [|repeat split; try done].
  - unfold rob_wf. rewrite Hsize. unfold rob' at 1 2 3 4.
    cbn [ROB.count_ ROB.head_index_ ROB.tail_index_].
    repeat split.
    + lia.
    + right. apply Nat.mod_upper_bound. lia.
    + rewrite Htail, Nat.Div0.add_mod_idemp_l. f_equal. unfold rob'. cbn. lia.
    + rewrite Hcont in Hall. by apply Forall_cons in Hall as [_ ?].
  - unfold rob'. cbn. by apply list_lookup_insert_eq.
Qed.

Lemma lookup_zinsert {A : Type} (l : list A) (i : Z) (x : A) (s : nat) :
  zinsert i x l !! s =
  if bool_decide (Z.of_nat s = i /\ (s < length l)%nat) then Some x else l !! s.
Proof.
  unfold zinsert. destruct (Z.ltb_spec i 0).
  - rewrite bool_decide_eq_false_2; [done|lia].
  - destruct (decide (Z.to_nat i = s)) as [<-|Hne].
    + destruct (decide (Z.to_nat i < length l)%nat).
      * rewrite bool_decide_eq_true_2 by lia. by apply list_lookup_insert_eq.
      * rewrite bool_decide_eq_false_2 by lia. by rewrite list_insert_ge by lia.
    + rewrite bool_decide_eq_false_2 by lia. by apply list_lookup_insert_ne.
Qed.

Lemma omap_fmap_ext {A B C : Type} (f : B -> option C) (g g' : A -> B) (l : list A) :
  (forall s, f (g s) = f (g' s)) -> omap f (g <$> l) = omap f (g' <$> l).
Proof.
  intros Hfg. induction l as [|s l IH]; [done|].
  csimpl. by rewrite IH, Hfg.
Qed.

Lemma rob_get_entry_store (rob : ROB.t) (index : Z) (e : ROB.entry_t) :
  ROB.get_entry rob index = Ok e ->
  0 <= index /\ ROB.store_ rob !! Z.to_nat index = Some (Some e).
Proof.
  unfold ROB.get_entry, zlookup. destruct (Z.ltb_spec index 0); [done|].
  destruct (ROB.store_ rob !! Z.to_nat index) as [[e'|]|]; try done.
  intros [= ->]. done.
Qed.

Lemma rob_update_queue (data : CDB.data_t) (rob rob' : ROB.t) :
  ROB.update data rob = Ok rob' -> rob_wf rob ->
  rob_wf rob' /\ ROB.slots rob' = ROB.slots rob /\ in_flight rob' = in_flight rob /\
  ROB.size rob' = ROB.size rob /\ ROB.count_ rob' = ROB.count_ rob /\
  ROB.head_index_ rob' = ROB.head_index_ rob.
Proof.
  unfold ROB.update. intros Hu (Hcount & Hhead & Htail & Hall).
  destruct (ROB.get_entry rob (CDB.rob_index data)) as [e|] eqn:He; [|done].
  cbn [obind] in Hu. injection Hu as <-.
  apply rob_get_entry_store in He as [Hidx He].
  set (rob' := ROB.mk _ _ _ _).
  assert (Hsize : ROB.size rob' = ROB.size rob).
  { unfold ROB.size, rob'. cbn. apply length_zinsert. }
  assert (Hslots : ROB.slots rob' = ROB.slots rob).
  { unfold ROB.slots. by rewrite Hsize. }
  assert (Hst : forall s,
    ROB.instr <$> mjoin (ROB.store_ rob' !! s) = ROB.instr <$> mjoin (ROB.store_ rob !! s) /\
    (is_Some (mjoin (ROB.store_ rob !! s)) -> is_Some (mjoin (ROB.store_ rob' !! s)))).
  { intros s. unfold rob'. cbn [ROB.store_]. rewrite lookup_zinsert.
    case_bool_decide as Hs; [|done].
    destruct Hs as [Hs _]. replace s with (Z.to_nat (CDB.rob_index data)) by lia.
    rewrite He. cbn. split; [done|]. by eexists. }
  split; [|repeat split; try done].
  - unfold rob_wf. rewrite Hsize. repeat split; try done.
    unfold ROB.contents in *. rewrite Hslots.
    rewrite Forall_fmap in Hall |- *.
    eapply Forall_impl; [exact Hall|]. intros s. cbn. apply Hst.
  - unfold in_flight, ROB.contents. rewrite Hslots.
    apply omap_fmap_ext. intros s. apply Hst.
Qed.

Lemma rob_pop_slots (rob : ROB.t) :
  rob_wf rob -> ROB.empty rob = false ->
  ROB.slots rob = ROB.head_index_ rob :: ROB.slots (ROB.pop rob).
Proof.
  intros Hwf Hne.
  destruct (rob_pop_queue rob Hwf Hne) as (_ & Hsize & Hcnt & _).
  destruct Hwf as (Hcount & Hhead & _).
  unfold ROB.slots. rewrite Hsize, Hcnt.
  unfold ROB.pop. rewrite Hne. cbn [ROB.head_index_].
  unfold ROB.empty in Hne. apply Nat.eqb_neq in Hne.
  destruct Hhead as [?|Hhead]; [lia|].
  destruct (ROB.count_ rob) as [|n]; [done|].
  cbn [seq fmap list_fmap]. rewrite Nat.add_0_r, Nat.mod_small by done. f_equal.
  rewrite Nat.sub_succ, Nat.sub_0_r, <- fmap_S_seq, <- list_fmap_compose.
  apply list_fmap_ext. intros m k _. cbn.
  rewrite Nat.Div0.add_mod_idemp_l. f_equal. lia.
Qed.

(** C8: commit does nothing on an empty reorder buffer, does nothing when the
    head entry is not ready (whatever the younger entries are), and
    otherwise frees exactly the head slot: the outstanding slots and entries
    lose their first element and nothing else. *)
Theorem commit_noop_or_removes_head (c : Core) :
  (ROB.empty (ROB_ c) = true -> commit c = Ok c) /\
  (forall e,
     ROB.empty (ROB_ c) = false ->
     ROB.get_entry (ROB_ c) (ROB.head_index (ROB_ c)) = Ok e ->
     ROB.ready e = false ->
     commit c = Ok c) /\
  (forall e,
     rob_wf (ROB_ c) ->
     ROB.empty (ROB_ c) = false ->
     ROB.get_entry (ROB_ c) (ROB.head_index (ROB_ c)) = Ok e ->
     ROB.ready e = true ->
     (use_rd (getExeFlags (ROB.instr e)) = true ->
      (getRd (ROB.instr e) < length (reg_file_ c))%nat) ->
     perf_instrs_ c <= fetched_instrs_ c ->
     exists c', commit c = Ok c' /\
       ROB_ c' = ROB.pop (ROB_ c) /\
       ROB.slots (ROB_ c) = ROB.head_index_ (ROB_ c) :: ROB.slots (ROB_ c') /\
       ROB.contents (ROB_ c) = Some e :: ROB.contents (ROB_ c') /\
       ROB.get_entry (ROB_ c') (ROB.head_index (ROB_ c)) = Fault BadAccess).
Proof.
  split; [|split].
  - intros He. unfold commit. by rewrite He.
  - intros e Hne Hhead Hready. unfold commit. rewrite Hne, Hhead. cbn [obind].
    by rewrite Hready.
  - intros e Hwf Hne Hhead Hready Hrd Hperf.
    destruct (commit_ready_head c e Hne Hhead Hready Hrd Hperf)
      as (c' & Hc & _ & _ & Hrob & _).
    exists c'. split; [done|]. split; [done|]. rewrite Hrob.
    destruct (rob_pop_queue _ Hwf Hne) as (_ & _ & _ & Hfree & Hcont).
    destruct (rob_head_entry _ Hwf Hne) as (e' & He' & Hst & _).
    assert (e' = e) as -> by congruence.
    split; [by apply rob_pop_slots|]. split.
    + by rewrite Hcont, Hst.
    + unfold ROB.get_entry, ROB.head_index, zlookup.
      destruct (Z.ltb_spec (Z.of_nat (ROB.head_index_ (ROB_ c))) 0); [done|].
      by rewrite Nat2Z.id, Hfree.
Qed.

Lemma commit_noop_or_removes_head_witness :
  commit (init 8 2 2 2) = Ok (init 8 2 2 2) /\
  commit younger_done = Ok younger_done /\
  exists c', commit both_done = Ok c' /\
    ROB.slots (ROB_ both_done) = [0; 1]%nat /\ ROB.slots (ROB_ c') = [1%nat].
Proof.
  split; [|split].
  - apply (commit_noop_or_removes_head (init 8 2 2 2)). reflexivity.
  - apply (commit_noop_or_removes_head younger_done)
      with (e := ROB.mk_entry (ADD 1 1 2 3) false 0); reflexivity.
  - destruct (commit_noop_or_removes_head both_done) as (_ & _ & H).
    destruct (H (ROB.mk_entry (ADD 1 1 2 3) true 50)) as (c' & Hc & Hrob & Hslots & _).
    + unfold rob_wf. vm_compute. split; [lia|]. split; [right; lia|].
      split; [reflexivity|]. repeat constructor; by eexists.
    + reflexivity.
    + reflexivity.
    + reflexivity.
    + intros _. vm_compute. lia.
    + vm_compute. discriminate.
    + exists c'. split; [exact Hc|]. split; [reflexivity|].
      rewrite Hrob. reflexivity.
Defined.

(** C5: when the ready head entry commits an instruction that writes a
    destination register, the result is written into the register file at
    that register; the alias-table mapping of that register is removed when
    it still names the committing slot, and the whole table is left as it was
    when it does not, in particular when a younger instruction has mapped the
    register to a newer slot. *)
Theorem commit_writes_rd_and_clears_own_mapping (c : Core) (e : ROB.entry_t) :
  ROB.empty (ROB_ c) = false ->
  ROB.get_entry (ROB_ c) (ROB.head_index (ROB_ c)) = Ok e ->
  ROB.ready e = true ->
  use_rd (getExeFlags (ROB.instr e)) = true ->
  (getRd (ROB.instr e) < length (reg_file_ c))%nat ->
  perf_instrs_ c <= fetched_instrs_ c ->
  exists c', commit c = Ok c' /\
    reg_file_ c' = <[getRd (ROB.instr e) := ROB.result e]> (reg_file_ c) /\
    reg_file_ c' !! getRd (ROB.instr e) = Some (ROB.result e) /\
    (RAT_ c !! getRd (ROB.instr e) = Some (ROB.head_index (ROB_ c)) ->
     RAT_ c' = delete (getRd (ROB.instr e)) (RAT_ c) /\
     RAT_ c' !! getRd (ROB.instr e) = None) /\
    (RAT_ c !! getRd (ROB.instr e) <> Some (ROB.head_index (ROB_ c)) ->
     RAT_ c' = RAT_ c) /\
    (forall newer, newer <> ROB.head_index (ROB_ c) ->
     RAT_ c !! getRd (ROB.instr e) = Some newer ->
     RAT_ c' !! getRd (ROB.instr e) = Some newer).
Proof.
  intros Hne Hhead Hready Hu Hrd Hperf.
  destruct (commit_ready_head c e Hne Hhead Hready (fun _ => Hrd) Hperf)
    as (c' & Hc & Hrf & Hrat & _).
  rewrite Hu in Hrf, Hrat. cbn [andb] in Hrat.
  exists c'. split; [done|]. split; [done|]. split.
  { rewrite Hrf. by apply list_lookup_insert_eq. }
  split; [|split].
  - intros Hmap. rewrite bool_decide_eq_true_2 in Hrat by done.
    rewrite Hrat. split; [done|]. apply lookup_delete_eq.
  - intros Hmap. by rewrite bool_decide_eq_false_2 in Hrat.
  - intros newer Hnew Hmap. rewrite bool_decide_eq_false_2 in Hrat by congruence.
    by rewrite Hrat.
Qed.

Lemma commit_writes_rd_and_clears_own_mapping_witness :
  (RAT_ twice_r7 !! 7%nat = Some 1 /\ ROB.head_index (ROB_ twice_r7) = 0 /\
   exists c', commit twice_r7 = Ok c' /\
     reg_file_ c' !! 7%nat = Some 50 /\ RAT_ c' !! 7%nat = Some 1) /\
  (RAT_ both_done !! 1%nat = Some 0 /\ ROB.head_index (ROB_ both_done) = 0 /\
   exists c', commit both_done = Ok c' /\
     reg_file_ c' !! 1%nat = Some 50 /\ RAT_ c' !! 1%nat = None).
Proof.
  split.
  - split; [reflexivity|]. split; [reflexivity|].
    destruct (commit_writes_rd_and_clears_own_mapping twice_r7
                (ROB.mk_entry (ADD 0 7 2 3) true 50))
      as (c' & Hc & _ & Hrf & _ & _ & Hyoung); try reflexivity.
    + vm_compute. lia.
    + vm_compute. discriminate.
    + exists c'. split; [exact Hc|]. split; [exact Hrf|].
      apply Hyoung; [vm_compute; discriminate|reflexivity].
  - split; [reflexivity|]. split; [reflexivity|].
    destruct (commit_writes_rd_and_clears_own_mapping both_done
                (ROB.mk_entry (ADD 1 1 2 3) true 50))
      as (c' & Hc & _ & Hrf & Hown & _); try reflexivity.
    + vm_compute. lia.
    + vm_compute. discriminate.
    + exists c'. split; [exact Hc|]. split; [exact Hrf|].
      apply Hown. reflexivity.
Defined.

(** C9: the commit of the out-of-order core writes the result into the
    register file also when the destination is register 0, whereas the
    register-file write of the in-order pipeline leaves the register file as
    it is for that destination. *)
Theorem commit_writes_register_zero (c : Core) (e : ROB.entry_t) :
  ROB.empty (ROB_ c) = false ->
  ROB.get_entry (ROB_ c) (ROB.head_index (ROB_ c)) = Ok e ->
  ROB.ready e = true ->
  use_rd (getExeFlags (ROB.instr e)) = true ->
  getRd (ROB.instr e) = 0%nat ->
  (0 < length (reg_file_ c))%nat ->
  perf_instrs_ c <= fetched_instrs_ c ->
  (exists c', commit c = Ok c' /\
     reg_file_ c' = <[0%nat := ROB.result e]> (reg_file_ c) /\
     reg_file_ c' !! 0%nat = Some (ROB.result e)) /\
  InOrder.regfile_write (ROB.instr e) (ROB.result e) (reg_file_ c) = Ok (reg_file_ c).
Proof.
  intros Hne Hhead Hready Hu Hz Hlen Hperf. split.
  - destruct (commit_ready_head c e Hne Hhead Hready) as (c' & Hc & Hrf & _);
      [rewrite Hz; by intros _|done|].
    rewrite Hu, Hz in Hrf. exists c'. split; [done|]. split; [done|].
    rewrite Hrf. by apply list_lookup_insert_eq.
  - unfold InOrder.regfile_write. rewrite Hu, Hz. reflexivity.
Qed.

Lemma commit_writes_register_zero_witness :
  reg_file_ into_r0 !! 0%nat = Some 0 /\
  (exists c', commit into_r0 = Ok c' /\
     reg_file_ c' = <[0%nat := 50]> (reg_file_ into_r0) /\
     reg_file_ c' !! 0%nat = Some 50) /\
  InOrder.regfile_write (ADD 0 0 2 3) 50 (reg_file_ into_r0) = Ok (reg_file_ into_r0).
Proof.
  split; [reflexivity|].
  apply (commit_writes_register_zero into_r0 (ROB.mk_entry (ADD 0 0 2 3) true 50));
    try reflexivity.
  - vm_compute. lia.
  - vm_compute. discriminate.
Defined.

(** ** Issue *)

(** C6: when the reservation stations or the reorder buffer are full, issue
    returns the core as it received it: nothing is allocated or written, and
    the issue queue keeps its head. *)
Theorem issue_stalls_when_full (c : Core) :
  RS.full (RS_ c) = true \/ ROB.full (ROB_ c) = true ->
  issue c = Ok c.
Proof.
  intros Hfull. unfold issue, issue_with.
  destruct (issue_queue_ c) as [|instr q]; [done|].
  destruct Hfull as [-> | ->]; [done|]. by rewrite orb_true_r.
Qed.

Lemma issue_stalls_when_full_witness :
  issue_queue_ all_taken = [ADD 0 7 2 3] /\
  (RS.full (RS_ all_taken) = true \/ ROB.full (ROB_ all_taken) = true) /\
  issue all_taken = Ok all_taken.
Proof.
  split; [reflexivity|]. split; [left; reflexivity|].
  apply (issue_stalls_when_full all_taken). left. reflexivity.
Defined.

Lemma issue_with_read_operand
    (allocate : Instr -> ROB.t -> Z * ROB.t)
    (rs_issue : Z -> Z -> Z -> Z -> Z -> Instr -> RS.t -> Z * RS.t)
    (c : Core) (instr : Instr) (q : list Instr) :
  issue_queue_ c = instr :: q ->
  RS.full (RS_ c) || ROB.full (ROB_ c) = false ->
  issue_with allocate rs_issue c =
    do (rs1_data, rs1_rsid) <- read_operand c (use_rs1 (getExeFlags instr)) (getRs1 instr);
    do (rs2_data, rs2_rsid) <- read_operand c (use_rs2 (getExeFlags instr)) (getRs2 instr);
    let '(rob_Allocation, rob) := allocate instr (ROB_ c) in
    if rob_Allocation <? 0 then Ok (set_ROB rob c)
    else
      let c1 :=
        if use_rd (getExeFlags instr)
        then set_RAT (<[getRd instr := rob_Allocation]> (RAT_ c)) (set_ROB rob c)
        else set_ROB rob c in
      let '(rs_index, rs) :=
        rs_issue rob_Allocation rs1_rsid rs2_rsid rs1_data rs2_data instr (RS_ c) in
      if rs_index <? 0 then Ok (set_RS rs c1)
      else
        do _ <- from_option BadAccess (zlookup (RST_ c) rob_Allocation);
        Ok (set_issue_queue q
              (DT (TrIssue instr)
                 (set_RST (zinsert rob_Allocation rs_index (RST_ c)) (set_RS rs c1)))).
Proof.
  intros Hq Hfull. unfold issue_with. rewrite Hq, Hfull.
  fold (read_operand c (use_rs1 (getExeFlags instr)) (getRs1 instr)).
  fold (read_operand c (use_rs2 (getExeFlags instr)) (getRs2 instr)).
  destruct (read_operand c (use_rs1 _) _) as [[d1 a1]|]; [|done].
  destruct (read_operand c (use_rs2 _) _) as [[d2 a2]|]; [|done].
  cbn [obind]. destruct (allocate instr (ROB_ c)) as [idx rob].
  destruct (idx <? 0); [done|].
  destruct (use_rd _); cbn [RS_ set_RAT set_ROB].
  - destruct (rs_issue _ _ _ _ _ _ _) as [k rs]. destruct (k <? 0); [done|].
    cbn. destruct (zlookup _ _); [|done]. cbn. by rewrite Hq.
  - destruct (rs_issue _ _ _ _ _ _ _) as [k rs]. destruct (k <? 0); [done|].
    cbn. destruct (zlookup _ _); [|done]. cbn. by rewrite Hq.
Qed.

Lemma rs_free_slot_some (base : Z) (rs : RS.t) :
  RS.full rs = false ->
  exists index e, RS.free_slot base rs = Some index /\
    base <= index < base + Z.of_nat (length rs) /\
    rs !! Z.to_nat (index - base) = Some e /\ RS.valid e = false.
Proof.
  revert base. induction rs as [|e rs IH]; intros base Hfull; [done|].
  cbn in Hfull |- *. destruct (RS.valid e) eqn:Hv.
  - cbn in Hfull. destruct (IH (base + 1) Hfull) as (index & e' & Hf & Hr & He' & Hv').
    exists index, e'. split; [done|]. split; [lia|]. split; [|done].
    replace (Z.to_nat (index - base)) with (S (Z.to_nat (index - (base + 1)))) by lia.
    done.
  - exists base, e. split; [done|]. split; [lia|]. by rewrite Z.sub_diag.
Qed.

Lemma rs_free_slot_none (base : Z) (rs : RS.t) :
  RS.full rs = true -> RS.free_slot base rs = None.
Proof.
  revert base. induction rs as [|e rs IH]; intros base Hfull; [done|].
  cbn in Hfull |- *. destruct (RS.valid e); [|done]. by apply IH.
Qed.

Lemma rs_issue_free (rob_index rs1_index rs2_index rs1_data rs2_data : Z)
    (i : Instr) (rs : RS.t) :
  RS.full rs = false ->
  exists index old,
    RS.issue rob_index rs1_index rs2_index rs1_data rs2_data i rs =
      (index, zinsert index
                (RS.mk_entry true false (Some i) rob_index rs1_index rs2_index
                             rs1_data rs2_data) rs) /\
    0 <= index /\ zlookup rs index = Some old /\ RS.valid old = false.
Proof.
  intros Hfull.
  destruct (rs_free_slot_some 0 rs Hfull) as (index & e & Hf & Hr & He & Hv).
  exists index, e. unfold RS.issue. rewrite Hf. split; [done|]. split; [lia|].
  split; [|done]. unfold zlookup. destruct (Z.ltb_spec index 0); [lia|].
  by rewrite Z.sub_0_r in He.
Qed.

Lemma read_operand_rule (c : Core) (r : nat) (o : operand_t) :
  operand_rule c r o ->
  exists data index, read_operand c true r = Ok (data, index) /\ recorded o data index.
Proof.
  intros Hrule. unfold read_operand.
  destruct Hrule as [v Hrat Hrf | slot e Hrat He Hready | slot e p Hrat He Hready Hrst];
    rewrite Hrat.
  - rewrite Hrf. by eexists _, _.
  - rewrite He. cbn [obind]. rewrite Hready. by eexists _, _.
  - rewrite He. cbn [obind]. rewrite Hready, Hrst. by eexists _, _.
Qed.

(** C7: when issue goes ahead, the reservation station that it fills records
    each source operand that the instruction uses as the three-way rule
    says: the register-file value when the alias table has no mapping, the
    result of the mapped reorder-buffer slot when that slot is ready, and
    otherwise a pending operand whose producer is the reservation station
    that the reverse producer index lists for that slot. *)
Theorem issue_resolves_operands_by_rule (c : Core) (instr : Instr) (q : list Instr)
    (o1 o2 : operand_t) :
  issue_queue_ c = instr :: q ->
  RS.full (RS_ c) = false ->
  ROB.full (ROB_ c) = false ->
  (ROB.tail_index_ (ROB_ c) < length (RST_ c))%nat ->
  (use_rs1 (getExeFlags instr) = true -> operand_rule c (getRs1 instr) o1) ->
  (use_rs2 (getExeFlags instr) = true -> operand_rule c (getRs2 instr) o2) ->
  exists c' index e,
    issue c = Ok c' /\
    zlookup (RST_ c') (Z.of_nat (ROB.tail_index_ (ROB_ c))) = Some index /\
    RS.get_entry (RS_ c') index = Ok e /\
    RS.valid e = true /\ RS.running e = false /\ RS.instr e = Some instr /\
    RS.rob_index e = Z.of_nat (ROB.tail_index_ (ROB_ c)) /\
    (use_rs1 (getExeFlags instr) = true -> recorded o1 (RS.rs1_data e) (RS.rs1_index e)) /\
    (use_rs2 (getExeFlags instr) = true -> recorded o2 (RS.rs2_data e) (RS.rs2_index e)).
Proof.
  intros Hq Hrs Hrob Htail H1 H2.
  unfold issue. rewrite (issue_with_read_operand _ _ c instr q Hq)
    by (by rewrite Hrs, Hrob).
  assert (Hr1 : exists d1 a1,
    read_operand c (use_rs1 (getExeFlags instr)) (getRs1 instr) = Ok (d1, a1) /\
    (use_rs1 (getExeFlags instr) = true -> recorded o1 d1 a1)).
  { destruct (use_rs1 _).
    - destruct (read_operand_rule c _ o1 (H1 eq_refl)) as (d & a & Hr & Hrec).
      by exists d, a.
    - by exists 0, (-1). }
  assert (Hr2 : exists d2 a2,
    read_operand c (use_rs2 (getExeFlags instr)) (getRs2 instr) = Ok (d2, a2) /\
    (use_rs2 (getExeFlags instr) = true -> recorded o2 d2 a2)).
  { destruct (use_rs2 _).
    - destruct (read_operand_rule c _ o2 (H2 eq_refl)) as (d & a & Hr & Hrec).
      by exists d, a.
    - by exists 0, (-1). }
  destruct Hr1 as (d1 & a1 & -> & Hrec1). destruct Hr2 as (d2 & a2 & -> & Hrec2).
  cbn [obind]. unfold ROB.allocate. rewrite Hrob.
  set (slot := Z.of_nat (ROB.tail_index_ (ROB_ c))).
  destruct (Z.ltb_spec slot 0); [lia|].
  destruct (zlookup_lt (RST_ c) slot) as [old Hold]; [lia|].
  set (c1 := if use_rd _ then _ else _).
  destruct (rs_issue_free slot a1 a2 d1 d2 instr (RS_ c) Hrs)
    as (index & e0 & -> & Hidx & He0 & _).
  destruct (Z.ltb_spec index 0); [lia|].
  rewrite Hold. cbn [from_option obind].
  eexists _, index, _. split; [reflexivity|].
  cbn [RST_ RS_ set_issue_queue DT set_RST set_RS].
  split; [by eapply zlookup_zinsert_eq|].
  split; [unfold RS.get_entry; by erewrite zlookup_zinsert_eq|].
  cbn. done.
Qed.

Lemma issue_resolves_operands_by_rule_witness :
  (exists c' index e,
     issue (third_waiting (ADD 0 7 1 4)) = Ok c' /\
     zlookup (RST_ c') 2 = Some index /\
     RS.get_entry (RS_ c') index = Ok e /\
     RS.rs1_index e = 0 /\
     RS.rs2_data e = 110 /\ RS.rs2_index e = -1) /\
  (exists c' index e,
     issue (third_waiting (ADD 0 7 2 4)) = Ok c' /\
     zlookup (RST_ c') 2 = Some index /\
     RS.get_entry (RS_ c') index = Ok e /\
     RS.rs1_data e = 20 /\ RS.rs1_index e = -1).
Proof.
  split.
  - destruct (issue_resolves_operands_by_rule (third_waiting (ADD 0 7 1 4))
                (ADD 0 7 1 4) [] (Pending 0) (Resolved 110))
      as (c' & index & e & Hc & Hrst & He & _ & _ & _ & _ & H1 & H2);
      try reflexivity.
    + vm_compute. lia.
    + intros _.
      apply (rule_pending _ _ 0 (ROB.mk_entry (ADD 1 1 2 3) false 0)); reflexivity.
    + intros _.
      apply (rule_ready_slot _ _ 1 (ROB.mk_entry (ADD 0 4 5 6) true 110)); reflexivity.
    + exists c', index, e. split; [exact Hc|]. split; [exact Hrst|]. split; [exact He|].
      split; [exact (H1 eq_refl)|]. exact (H2 eq_refl).
  - destruct (issue_resolves_operands_by_rule (third_waiting (ADD 0 7 2 4))
                (ADD 0 7 2 4) [] (Resolved 20) (Resolved 110))
      as (c' & index & e & Hc & Hrst & He & _ & _ & _ & _ & H1 & _);
      try reflexivity.
    + vm_compute. lia.
    + intros _. apply rule_register_file; reflexivity.
    + intros _.
      apply (rule_ready_slot _ _ 1 (ROB.mk_entry (ADD 0 4 5 6) true 110)); reflexivity.
    + exists c', index, e. split; [exact Hc|]. split; [exact Hrst|]. split; [exact He|].
      exact (H1 eq_refl).
Defined.

(** ** Writeback *)

Lemma update_operands_spec (data : CDB.data_t) (e : RS.entry_t) :
  let e' := RS.update_operands data e in
  RS.valid e' = RS.valid e /\ RS.running e' = RS.running e /\
  RS.instr e' = RS.instr e /\ RS.rob_index e' = RS.rob_index e /\
  (RS.rs1_index e = CDB.rs_index data ->
   RS.rs1_index e' = -1 /\ RS.rs1_data e' = CDB.result data) /\
  (RS.rs1_index e <> CDB.rs_index data ->
   RS.rs1_index e' = RS.rs1_index e /\ RS.rs1_data e' = RS.rs1_data e) /\
  (RS.rs2_index e = CDB.rs_index data ->
   RS.rs2_index e' = -1 /\ RS.rs2_data e' = CDB.result data) /\
  (RS.rs2_index e <> CDB.rs_index data ->
   RS.rs2_index e' = RS.rs2_index e /\ RS.rs2_data e' = RS.rs2_data e).
Proof.
  unfold RS.update_operands.
  destruct (Z.eqb_spec (RS.rs1_index e) (CDB.rs_index data)) as [H1|H1];
    cbn [RS.rs2_index];
    destruct (Z.eqb_spec (RS.rs2_index e) (CDB.rs_index data)) as [H2|H2];
    cbn; repeat split; intros; done.
Qed.

Lemma update_operands_no_reference (data : CDB.data_t) (e : RS.entry_t) :
  CDB.rs_index data <> -1 ->
  RS.rs1_index (RS.update_operands data e) <> CDB.rs_index data /\
  RS.rs2_index (RS.update_operands data e) <> CDB.rs_index data.
Proof.
  intros Hk. pose proof (update_operands_spec data e) as (_ & _ & _ & _ & A & B & C & D).
  cbn zeta in *. split.
  - destruct (decide (RS.rs1_index e = CDB.rs_index data)) as [H|H].
    + destruct (A H) as [-> _]. congruence.
    + destruct (B H) as [-> _]. done.
  - destruct (decide (RS.rs2_index e = CDB.rs_index data)) as [H|H].
    + destruct (C H) as [-> _]. congruence.
    + destruct (D H) as [-> _]. done.
Qed.

Lemma zlookup_fmap {A B : Type} (f : A -> B) (l : list A) (i : Z) :
  zlookup (f <$> l) i = f <$> zlookup l i.
Proof. unfold zlookup. destruct (i <? 0); [done|]. apply list_lookup_fmap. Qed.

Lemma zlookup_wakeup (data : CDB.data_t) (rs : RS.t) (i : Z) (e' : RS.entry_t) :
  zlookup (wakeup data rs) i = Some e' ->
  exists e, zlookup rs i = Some e /\
    e' = (if RS.valid e then RS.update_operands data e else e).
Proof.
  unfold wakeup. rewrite zlookup_fmap. destruct (zlookup rs i) as [e|]; [|done].
  intros [= <-]. by exists e.
Qed.

(** After the wakeup loop no valid entry is pending on the broadcasting
    slot. *)
Lemma wakeup_no_reference (data : CDB.data_t) (rs : RS.t) (i : Z) (e : RS.entry_t) :
  CDB.rs_index data <> -1 ->
  zlookup (wakeup data rs) i = Some e -> RS.valid e = true ->
  RS.rs1_index e <> CDB.rs_index data /\ RS.rs2_index e <> CDB.rs_index data.
Proof.
  intros Hk Hi Hv. apply zlookup_wakeup in Hi as (e0 & _ & ->).
  destruct (RS.valid e0) eqn:Hv0; [|congruence].
  by apply update_operands_no_reference.
Qed.

(** A writeback with a broadcast on the bus first delivers the value to
    every valid reservation station that is pending on the broadcasting
    slot, and releases that slot afterwards. *)
Lemma writeback_wakeup_then_release (c : Core) (data : CDB.data_t)
    (old : RS.entry_t) (target : ROB.entry_t) :
  CDB_ c = Some data ->
  zlookup (RS_ c) (CDB.rs_index data) = Some old ->
  ROB.get_entry (ROB_ c) (CDB.rob_index data) = Ok target ->
  exists c', writeback c = Ok c' /\
    RS.release (CDB.rs_index data) (wakeup data (RS_ c)) = Ok (RS_ c') /\
    (forall i e, zlookup (wakeup data (RS_ c)) i = Some e -> RS.valid e = true ->
       RS.rs1_index e <> CDB.rs_index data /\ RS.rs2_index e <> CDB.rs_index data) /\
    (forall i e, zlookup (RS_ c) i = Some e -> RS.valid e = true ->
       i <> CDB.rs_index data ->
       exists e', zlookup (RS_ c') i = Some e' /\ RS.valid e' = true /\
         (RS.rs1_index e = CDB.rs_index data ->
          RS.rs1_index e' = -1 /\ RS.rs1_data e' = CDB.result data) /\
         (RS.rs2_index e = CDB.rs_index data ->
          RS.rs2_index e' = -1 /\ RS.rs2_data e' = CDB.result data)) /\
    (exists e, zlookup (RS_ c') (CDB.rs_index data) = Some e /\ RS.valid e = false) /\
    (forall i e, zlookup (RS_ c') i = Some e -> RS.valid e = true ->
       RS.rs1_index e <> CDB.rs_index data /\ RS.rs2_index e <> CDB.rs_index data).
Proof.
  intros Hbus Hold Htarget.
  pose proof (zlookup_Some_lt _ _ _ Hold) as Hrange.
  assert (Hk : CDB.rs_index data <> -1) by lia.
  assert (Hw : exists w, zlookup (wakeup data (RS_ c)) (CDB.rs_index data) = Some w).
  { unfold wakeup. rewrite zlookup_fmap, Hold. by eexists. }
  destruct Hw as [w Hw].
  unfold writeback. rewrite Hbus.
  unfold RS.release at 1, RS.get_entry. rewrite Hw. cbn [from_option obind].
  unfold ROB.update. rewrite Htarget. cbn [obind].
  eexists. split; [reflexivity|]. cbn [RS_ set_CDB set_ROB set_RS].
  split; [|split; [|split; [|split]]].
  - unfold RS.release, RS.get_entry. by rewrite Hw.
  - intros i e. by apply wakeup_no_reference.
  - intros i e Hi Hv Hne. rewrite zlookup_zinsert_ne by done.
    unfold wakeup. rewrite zlookup_fmap, Hi. cbn. rewrite Hv.
    eexists. split; [reflexivity|].
    pose proof (update_operands_spec data e) as (-> & _ & _ & _ & A & _ & C & _).
    cbn zeta in *. done.
  - exists (RS.set_free w). split; [|done]. by eapply zlookup_zinsert_eq.
  - intros i e Hi Hv.
    destruct (decide (CDB.rs_index data = i)) as [<-|Hne].
    + erewrite zlookup_zinsert_eq in Hi by done. injection Hi as <-. done.
    + rewrite zlookup_zinsert_ne in Hi by done.
      by eapply wakeup_no_reference.
Qed.


(** ** The phases, case by case *)

Lemma obind_Ok {A B : Type} (m : outcome A) (k : A -> outcome B) (b : B) :
  obind m k = Ok b -> exists a, m = Ok a /\ k a = Ok b.
Proof. destruct m as [a|f]; [|done]. intros Hk. by exists a. Qed.

(** An issue that returns either stalls, leaving the core as it is, or fills
    the tail slot of the reorder buffer and a free reservation station. *)
Lemma issue_cases (c c' : Core) :
  issue c = Ok c' ->
  c' = c \/
  exists instr q d1 a1 d2 a2 index old,
    issue_queue_ c = instr :: q /\
    RS.full (RS_ c) = false /\ ROB.full (ROB_ c) = false /\
    read_operand c (use_rs1 (getExeFlags instr)) (getRs1 instr) = Ok (d1, a1) /\
    read_operand c (use_rs2 (getExeFlags instr)) (getRs2 instr) = Ok (d2, a2) /\
    0 <= index /\ zlookup (RS_ c) index = Some old /\ RS.valid old = false /\
    (ROB.tail_index_ (ROB_ c) < length (RST_ c))%nat /\
    ROB_ c' = (ROB.allocate instr (ROB_ c)).2 /\
    RAT_ c' = (if use_rd (getExeFlags instr)
               then <[getRd instr := Z.of_nat (ROB.tail_index_ (ROB_ c))]> (RAT_ c)
               else RAT_ c) /\
    RS_ c' = zinsert index
               (RS.mk_entry true false (Some instr)
                  (Z.of_nat (ROB.tail_index_ (ROB_ c))) a1 a2 d1 d2) (RS_ c) /\
    RST_ c' = zinsert (Z.of_nat (ROB.tail_index_ (ROB_ c))) index (RST_ c) /\
    issue_queue_ c' = q /\
    trace_ c' = trace_ c ++ [TrIssue instr] /\
    reg_file_ c' = reg_file_ c /\ CDB_ c' = CDB_ c /\ FUs_ c' = FUs_ c /\
    perf_instrs_ c' = perf_instrs_ c /\ fetched_instrs_ c' = fetched_instrs_ c /\
    exited_ c' = exited_ c.
Proof.
  intros Hi.
  destruct (issue_queue_ c) as [|instr q] eqn:Hq.
  { left. unfold issue, issue_with in Hi. rewrite Hq in Hi. congruence. }
  destruct (RS.full (RS_ c)) eqn:Hrs.
  { left. unfold issue, issue_with in Hi. rewrite Hq, Hrs in Hi. cbn in Hi. congruence. }
  destruct (ROB.full (ROB_ c)) eqn:Hrob.
  { left. unfold issue, issue_with in Hi. rewrite Hq, Hrs, Hrob in Hi. cbn in Hi.
    congruence. }
  right. unfold issue in Hi.
  rewrite (issue_with_read_operand _ _ c instr q Hq) in Hi by (by rewrite Hrs, Hrob).
  apply obind_Ok in Hi as ([d1 a1] & Hr1 & Hi).
  apply obind_Ok in Hi as ([d2 a2] & Hr2 & Hi).
  unfold ROB.allocate in Hi |- *. rewrite Hrob in Hi |- *.
  set (slot := Z.of_nat (ROB.tail_index_ (ROB_ c))) in *.
  destruct (Z.ltb_spec slot 0); [lia|].
  set (c1 := if use_rd _ then _ else _) in Hi.
  destruct (rs_issue_free slot a1 a2 d1 d2 instr (RS_ c) Hrs)
    as (index & old & Hissue & Hidx & Hold & Hv).
  rewrite Hissue in Hi.
  destruct (Z.ltb_spec index 0); [lia|].
  apply obind_Ok in Hi as (x & Hx & Hi).
  destruct (zlookup (RST_ c) slot) as [y|] eqn:Hy; [|done].
  apply zlookup_Some_lt in Hy.
  injection Hi as <-.
  exists instr, q, d1, a1, d2, a2, index, old.
  repeat (split; [done || lia|]).
  unfold c1. destruct (use_rd _); cbn; done.
Qed.

Lemma issue_pops (c c' : Core) (instr : Instr) (q : list Instr) :
  issue_queue_ c = instr :: q -> RS.full (RS_ c) = false -> ROB.full (ROB_ c) = false ->
  issue c = Ok c' -> issue_queue_ c' = q.
Proof.
  intros Hq Hrs Hrob Hi. unfold issue in Hi.
  rewrite (issue_with_read_operand _ _ c instr q Hq) in Hi by (by rewrite Hrs, Hrob).
  apply obind_Ok in Hi as ([d1 a1] & Hr1 & Hi).
  apply obind_Ok in Hi as ([d2 a2] & Hr2 & Hi).
  unfold ROB.allocate in Hi. rewrite Hrob in Hi.
  set (slot := Z.of_nat (ROB.tail_index_ (ROB_ c))) in *.
  destruct (Z.ltb_spec slot 0); [lia|].
  set (c1 := if use_rd _ then _ else _) in Hi.
  destruct (rs_issue_free slot a1 a2 d1 d2 instr (RS_ c) Hrs)
    as (index & old & Hissue & Hidx & Hold & Hv).
  rewrite Hissue in Hi.
  destruct (Z.ltb_spec index 0); [lia|].
  apply obind_Ok in Hi as (x & Hx & Hi).
  injection Hi as <-. done.
Qed.



Lemma execute_frame `{Collaborators} (c c' : Core) :
  execute c = Ok c' ->
  ROB_ c' = ROB_ c /\ trace_ c' = trace_ c /\ RAT_ c' = RAT_ c /\ RST_ c' = RST_ c /\
  reg_file_ c' = reg_file_ c /\ issue_queue_ c' = issue_queue_ c /\
  perf_instrs_ c' = perf_instrs_ c /\ fetched_instrs_ c' = fetched_instrs_ c /\
  exited_ c' = exited_ c /\
  exists fus bus,
    drain (FU.execute <$> FUs_ c) (CDB_ c) = Ok (fus, bus) /\
    dispatch (RS.size (RS_ c)) 0 (RS_ c) fus = Ok (RS_ c', FUs_ c') /\
    CDB_ c' = bus.
Proof.
  unfold execute. intros He.
  apply obind_Ok in He as ([fus bus] & Hd & He).
  apply obind_Ok in He as ([rs fus'] & Hs & He).
  injection He as <-. cbn. repeat (split; [done|]).
  exists fus, bus. done.
Qed.

Lemma writeback_cases (c c' : Core) :
  writeback c = Ok c' ->
  (CDB_ c = None /\ c' = c) \/
  exists data,
    CDB_ c = Some data /\
    RS.release (CDB.rs_index data) (wakeup data (RS_ c)) = Ok (RS_ c') /\
    ROB.update data (ROB_ c) = Ok (ROB_ c') /\
    CDB_ c' = None /\
    trace_ c' = trace_ c /\ RAT_ c' = RAT_ c /\ RST_ c' = RST_ c /\
    reg_file_ c' = reg_file_ c /\ issue_queue_ c' = issue_queue_ c /\
    FUs_ c' = FUs_ c /\
    perf_instrs_ c' = perf_instrs_ c /\ fetched_instrs_ c' = fetched_instrs_ c /\
    exited_ c' = exited_ c.
Proof.
  unfold writeback. intros Hw.
  destruct (CDB_ c) as [data|] eqn:Hbus.
  - right. exists data. split; [done|].
    apply obind_Ok in Hw as (rs & Hrel & Hw).
    apply obind_Ok in Hw as (rob & Hup & Hw).
    injection Hw as <-. cbn. done.
  - left. split; [done|]. congruence.
Qed.

Lemma commit_cases (c c' : Core) :
  commit c = Ok c' ->
  c' = c \/
  exists e,
    ROB.empty (ROB_ c) = false /\
    ROB.get_entry (ROB_ c) (ROB.head_index (ROB_ c)) = Ok e /\
    ROB.ready e = true /\
    (use_rd (getExeFlags (ROB.instr e)) = true ->
     (getRd (ROB.instr e) < length (reg_file_ c))%nat) /\
    perf_instrs_ c <= fetched_instrs_ c.
Proof.
  unfold commit. intros Hc.
  destruct (ROB.empty (ROB_ c)) eqn:Hne; [left; congruence|].
  apply obind_Ok in Hc as (e & He & Hc).
  destruct (ROB.ready e) eqn:Hready; [|left; congruence].
  right. exists e. split; [done|]. split; [done|]. split; [done|].
  apply obind_Ok in Hc as (c1 & Hc1 & Hc).
  assert (Hperf : perf_instrs_ c1 = perf_instrs_ c /\ fetched_instrs_ c1 = fetched_instrs_ c /\
                  (use_rd (getExeFlags (ROB.instr e)) = true ->
                   (getRd (ROB.instr e) < length (reg_file_ c))%nat)).
  { destruct (use_rd _).
    - apply obind_Ok in Hc1 as (x & Hx & Hc1).
      destruct (reg_file_ c !! getRd (ROB.instr e)) as [y|] eqn:Hy; [|done].
      apply lookup_lt_Some in Hy.
      cbn in Hc1. destruct (RAT_ c !! _) as [slot|]; [destruct (slot =? _)|];
        injection Hc1 as <-; cbn; done.
    - injection Hc1 as <-. done. }
  destruct Hperf as (Hp & Hf & Hrd). split; [done|].
  cbn in Hc. rewrite Hp, Hf in Hc.
  destruct (Z.leb_spec (perf_instrs_ c) (fetched_instrs_ c)); [done|done].
Qed.

(** ** Commit order is issue order *)

Lemma issued_app (tr1 tr2 : list trace_t) : issued (tr1 ++ tr2) = issued tr1 ++ issued tr2.
Proof. apply omap_app. Qed.

Lemma committed_app (tr1 tr2 : list trace_t) :
  committed (tr1 ++ tr2) = committed tr1 ++ committed tr2.
Proof. apply omap_app. Qed.

Lemma rob_allocate_slots (i : Instr) (rob : ROB.t) :
  rob_wf rob -> ROB.full rob = false ->
  ROB.slots (ROB.allocate i rob).2 = ROB.slots rob ++ [ROB.tail_index_ rob] /\
  in_flight (ROB.allocate i rob).2 = in_flight rob ++ [i] /\
  rob_wf (ROB.allocate i rob).2.
Proof.
  intros Hwf Hfull.
  destruct (rob_allocate_queue i rob Hwf Hfull) as (rob' & Ha & Hwf' & Hsize & _ & _ & Hcont).
  rewrite Ha. cbn [snd]. split; [|split; [|done]].
  - unfold ROB.slots. rewrite Hsize.
    unfold ROB.allocate in Ha. rewrite Hfull in Ha. injection Ha as <-.
    cbn [ROB.count_ ROB.head_index_].
    rewrite Nat.add_1_r, seq_S, fmap_app. cbn. 
    destruct Hwf as (_ & _ & -> & _). done.
  - unfold in_flight. rewrite Hcont, omap_app. done.
Qed.

Lemma rob_pop_in_flight (rob : ROB.t) (e : ROB.entry_t) :
  rob_wf rob -> ROB.empty rob = false ->
  ROB.get_entry rob (ROB.head_index rob) = Ok e ->
  in_flight rob = ROB.instr e :: in_flight (ROB.pop rob).
Proof.
  intros Hwf Hne He.
  destruct (rob_pop_queue rob Hwf Hne) as (_ & _ & _ & _ & Hcont).
  destruct (rob_head_entry rob Hwf Hne) as (e' & He' & Hst & _).
  assert (e' = e) as -> by congruence.
  unfold in_flight. rewrite Hcont, Hst. done.
Qed.

Lemma step_fifo `{Collaborators} (a : action) (c c' : Core) :
  fifo_inv c -> step a c = Ok c' ->
  fifo_inv c' /\ slots_move a (ROB.slots (ROB_ c)) (ROB.slots (ROB_ c')).
Proof.
  intros [Hwf Hfifo] Hstep. destruct a as [i| | | |]; cbn [step] in Hstep.
  - injection Hstep as <-. split; [done|]. by left.
  - apply issue_cases in Hstep as [->|Hi]; [split; [done|by left]|].
    destruct Hi as (instr & q & d1 & a1 & d2 & a2 & index & old & Hq & Hrs & Hrob & _ & _
                    & _ & _ & _ & _ & Hrob' & _ & _ & _ & _ & Htr & _).
    destruct (rob_allocate_slots instr _ Hwf Hrob) as (Hslots & Hfl & Hwf').
    split; [split|].
    + by rewrite Hrob'.
    + rewrite Htr, Hrob', issued_app, committed_app, Hfl, Hfifo. cbn.
      by rewrite app_nil_r, app_assoc.
    + right. left. split; [done|]. rewrite Hrob', Hslots. by eexists.
  - apply execute_frame in Hstep as (Hrob & Htr & _).
    unfold fifo_inv. rewrite Hrob, Htr. split; [done|]. by left.
  - apply writeback_cases in Hstep as [[_ ->]|Hw]; [split; [done|by left]|].
    destruct Hw as (data & _ & _ & Hup & _ & Htr & _).
    destruct (rob_update_queue _ _ _ Hup Hwf) as (Hwf' & Hslots & Hfl & _).
    unfold fifo_inv. rewrite Htr, Hfl. split; [done|]. by left.
  - pose proof Hstep as Hc.
    apply commit_cases in Hc as [->|Hc]; [split; [done|by left]|].
    destruct Hc as (e & Hne & He & Hready & Hrd & Hperf).
    destruct (commit_ready_head c e Hne He Hready Hrd Hperf)
      as (c1 & Hc1 & _ & _ & Hrob & Htr & _).
    assert (c1 = c') as -> by congruence.
    destruct (rob_pop_queue _ Hwf Hne) as (Hwf' & _).
    split; [split|].
    + by rewrite Hrob.
    + rewrite Htr, Hrob, issued_app, committed_app, Hfifo. cbn.
      rewrite app_nil_r, (rob_pop_in_flight _ e Hwf Hne He).
      by rewrite <- app_assoc.
    + right. right. split; [done|]. rewrite Hrob.
      exists (ROB.head_index_ (ROB_ c)). by apply rob_pop_slots.
Qed.

Lemma run_fifo `{Collaborators} (acts : list action) (c c' : Core) :
  fifo_inv c -> run acts c = Ok c' -> fifo_inv c'.
Proof.
  revert c. induction acts as [|a acts IH]; intros c Hinv Hrun; cbn [run] in Hrun.
  - congruence.
  - apply obind_Ok in Hrun as (c1 & Hstep & Hrun).
    apply (IH c1); [|done]. by eapply step_fifo.
Qed.

Lemma fifo_inv_init (num_regs rob_size rs_size num_fus : nat) :
  fifo_inv (init num_regs rob_size rs_size num_fus).
Proof.
  split; [apply rob_wf_create|].
  cbn. unfold in_flight, ROB.contents, ROB.slots. done.
Qed.

(** C1: in every run of the core from its initial state, whatever the order
    of the phases, the instructions handed over and the latencies of the
    units, the instructions issued are those committed followed by those
    still in flight, so that the instructions commit in the order in which
    they were issued; and no action frees a reorder-buffer slot other than
    a commit, which frees the oldest outstanding one. *)
Theorem commit_order_is_issue_order `{Collaborators}
    (num_regs rob_size rs_size num_fus : nat) (acts : list action) (c : Core) :
  run acts (init num_regs rob_size rs_size num_fus) = Ok c ->
  issued (trace_ c) = committed (trace_ c) ++ in_flight (ROB_ c) /\
  committed (trace_ c) `prefix_of` issued (trace_ c) /\
  (forall a c', step a c = Ok c' ->
     slots_move a (ROB.slots (ROB_ c)) (ROB.slots (ROB_ c')) /\
     (a = Commit -> c' <> c ->
      exists e, ROB.get_entry (ROB_ c) (ROB.head_index (ROB_ c)) = Ok e /\
        hd_error (ROB.contents (ROB_ c)) = Some (Some e) /\
        trace_ c' = trace_ c ++ [TrCommit (ROB.instr e)])).
Proof.
  intros Hrun.
  pose proof (run_fifo _ _ _ (fifo_inv_init _ _ _ _) Hrun) as Hinv.
  split; [apply Hinv|]. split.
  { exists (in_flight (ROB_ c)). apply Hinv. }
  intros a c' Hstep. split; [by eapply step_fifo|].
  intros -> Hne. cbn [step] in Hstep. pose proof Hstep as Hc.
  apply commit_cases in Hc as [->|Hc]; [done|].
  destruct Hc as (e & Hemp & He & Hready & Hrd & Hperf).
  destruct (commit_ready_head c e Hemp He Hready Hrd Hperf)
    as (c1 & Hc1 & _ & _ & _ & Htr & _).
  assert (c1 = c') as -> by congruence.
  destruct Hinv as [Hwf _].
  destruct (rob_head_entry _ Hwf Hemp) as (e' & He' & _ & Hhd).
  assert (e' = e) as -> by congruence.
  by exists e.
Qed.

Lemma commit_order_is_issue_order_witness :
  @run adder slow_then_fast (init 8 2 2 2) = Ok (after slow_then_fast (init 8 2 2 2)) /\
  issued (trace_ (after slow_then_fast (init 8 2 2 2))) = [ADD 1 1 2 3; ADD 0 4 5 6] /\
  committed (trace_ (after slow_then_fast (init 8 2 2 2)))
    `prefix_of` issued (trace_ (after slow_then_fast (init 8 2 2 2))).
Proof.
  split; [vm_compute; reflexivity|]. split; [vm_compute; reflexivity|].
  apply (@commit_order_is_issue_order adder 8 2 2 2 slow_then_fast
           (after slow_then_fast (init 8 2 2 2))).
  vm_compute. reflexivity.
Defined.

(** ** Execute: one broadcast per cycle *)

Lemma cdb_data_eta (d : CDB.data_t) :
  CDB.mk_data (CDB.result d) (CDB.rob_index d) (CDB.rs_index d) = d.
Proof. by destruct d. Qed.

Lemma first_done_lookup (base : nat) (fus : list FU.t) (i : nat) (fu : FU.t) :
  first_done base fus = Some (i, fu) ->
  (base <= i)%nat /\ fus !! (i - base)%nat = Some fu /\ FU.done fu = true /\
  forall j fu', (j < i - base)%nat -> fus !! j = Some fu' -> FU.done fu' = false.
Proof.
  revert base. induction fus as [|f fus IH]; intros base Hf; [done|].
  cbn in Hf. destruct (FU.done f) eqn:Hd.
  - injection Hf as <- <-. rewrite Nat.sub_diag. repeat split; try done. lia.
  - apply IH in Hf as (Hle & Hi & Hdone & Hbefore).
    split; [lia|]. replace (i - base)%nat with (S (i - S base)) by lia.
    split; [done|]. split; [done|].
    intros [|j] fu' Hj Hfu'.
    + cbn in Hfu'. congruence.
    + apply (Hbefore j); [lia|done].
Qed.

Lemma first_done_none (base : nat) (fus : list FU.t) :
  first_done base fus = None -> Forall (fun fu => FU.done fu = false) fus.
Proof.
  revert base. induction fus as [|f fus IH]; intros base Hf; [constructor|].
  cbn in Hf. destruct (FU.done f) eqn:Hd; [done|].
  constructor; [done|]. by eapply IH.
Qed.

(** The drain loop on an empty bus. *)
Lemma drain_first_done (base : nat) (fus : list FU.t) :
  drain fus None =
  match first_done base fus with
  | None => Ok (fus, None)
  | Some (i, fu) => Ok (<[(i - base)%nat := FU.clear fu]> fus, Some (FU.get_output fu))
  end.
Proof.
  revert base. induction fus as [|f fus IH]; intros base; [done|].
  cbn [drain first_done]. destruct (FU.done f) eqn:Hd.
  - cbn. by rewrite cdb_data_eta, Nat.sub_diag.
  - rewrite (IH (S base)). destruct (first_done (S base) fus) as [[i fu]|] eqn:Hf; [|done].
    apply first_done_lookup in Hf as (Hle & _).
    cbn. by replace (i - base)%nat with (S (i - S base)) by lia.
Qed.

(** The dispatch loop leaves every busy unit as it is. *)
Lemma dispatch_keeps_busy `{Collaborators} (n : nat) (rs_index : Z) (rs rs' : RS.t)
    (fus fus' : list FU.t) :
  dispatch n rs_index rs fus = Ok (rs', fus') ->
  forall j fu, fus !! j = Some fu -> FU.busy fu = true -> fus' !! j = Some fu.
Proof.
  revert rs_index rs fus. induction n as [|n IH]; intros rs_index rs fus Hd j fu Hj Hb.
  - cbn in Hd. by injection Hd as <- <-.
  - cbn [dispatch] in Hd.
    apply obind_Ok in Hd as (entry & He & Hd).
    apply obind_Ok in Hd as ([rs1 fus1] & Hone & Hd).
    apply (IH _ _ _ Hd); [|done].
    destruct (_ && _ && _ && _).
    + apply obind_Ok in Hone as (instr & Hi & Hone).
      apply obind_Ok in Hone as (fu0 & Hfu0 & Hone).
      destruct (FU.busy fu0) eqn:Hb0; cbn in Hone; injection Hone as <- <-; [done|].
      rewrite list_lookup_insert_ne; [done|].
      intros <-. destruct (fus !! getFUType instr) eqn:Hl; [|done].
      cbn in Hfu0. congruence.
    + by injection Hone as <- <-.
Qed.

Lemma fu_execute_done `{Collaborators} (fu : FU.t) :
  FU.done fu = true -> FU.execute fu = fu.
Proof. unfold FU.execute, FU.done. intros ->. by rewrite andb_false_r. Qed.

Lemma fu_execute_wf `{Collaborators} (fu : FU.t) : fu_wf fu -> fu_wf (FU.execute fu).
Proof.
  unfold fu_wf, FU.execute, FU.done, FU.busy. intros Hwf.
  destruct (FU.busy_ fu) eqn:Hb, (FU.done_ fu) eqn:Hd; cbn; try done.
  - destruct (FU.input_ fu), (FU.wait_ fu); cbn; done.
  - specialize (Hwf eq_refl). congruence.
  - intros Hx. congruence.
Qed.

(** ** Units, bus and reservation stations *)

Lemma fu_shape_wf (fu : FU.t) : fu_shape fu -> fu_wf fu.
Proof. by intros [? _]. Qed.

Lemma fu_execute_holder `{Collaborators} (fu : FU.t) :
  fu_holder (FU.execute fu) = fu_holder fu.
Proof.
  unfold fu_holder, FU.execute, FU.busy.
  destruct (FU.busy_ fu) eqn:Hb; cbn [andb]; [|by rewrite Hb].
  destruct (FU.done_ fu); cbn [negb]; [by rewrite Hb|].
  destruct (FU.input_ fu) as [i|] eqn:Hi; [|by rewrite Hb, Hi].
  destruct (FU.wait_ fu); cbn; by rewrite ?Hi.
Qed.

Lemma fu_execute_shape `{Collaborators} (fu : FU.t) :
  fu_shape fu -> fu_shape (FU.execute fu).
Proof.
  intros (Hdb & Hbi & Hout). unfold FU.execute.
  destruct (FU.busy_ fu) eqn:Hb; [|done].
  destruct (FU.done_ fu) eqn:Hd; cbn [andb negb]; [done|].
  destruct (Hbi Hb) as [i Hi]. rewrite Hi.
  destruct (FU.wait_ fu); unfold fu_shape, FU.done, FU.busy; cbn.
  - split; [done|]. split; [by eexists|]. by intros _ i' [= <-].
  - split; [done|]. split; [by eexists|]. done.
Qed.

Lemma holders_execute `{Collaborators} (fus : list FU.t) (bus : CDB.t) :
  holders (FU.execute <$> fus) bus = holders fus bus.
Proof.
  unfold holders. f_equal. induction fus as [|fu fus IH]; [done|].
  csimpl. by rewrite fu_execute_holder, IH.
Qed.

Lemma sched_ok_execute `{Collaborators} (rs : RS.t) (fus : list FU.t) (bus : CDB.t) :
  sched_ok rs fus bus -> sched_ok rs (FU.execute <$> fus) bus.
Proof.
  intros (Hnd & Hh & Hs). unfold sched_ok. rewrite holders_execute.
  split; [done|]. split; [done|].
  apply Forall_fmap. eapply Forall_impl; [exact Hs|]. intros fu. apply fu_execute_shape.
Qed.

Lemma lookup_split {A : Type} (l : list A) (i : nat) (x y : A) :
  l !! i = Some x ->
  l = take i l ++ x :: drop (S i) l /\
  <[i := y]> l = take i l ++ y :: drop (S i) l.
Proof.
  intros Hi. split.
  - by rewrite take_drop_middle.
  - apply insert_take_drop. by eapply lookup_lt_Some.
Qed.

(** Replacing a unit moves its holder out of the list and the new one in. *)
Lemma omap_holder_insert (fus : list FU.t) (i : nat) (fu fu' : FU.t) :
  fus !! i = Some fu ->
  exists l1 l2,
    omap fu_holder fus = l1 ++ option_list (fu_holder fu) ++ l2 /\
    omap fu_holder (<[i := fu']> fus) = l1 ++ option_list (fu_holder fu') ++ l2.
Proof.
  intros Hi. destruct (lookup_split fus i fu fu' Hi) as [H1 H2].
  exists (omap fu_holder (take i fus)), (omap fu_holder (drop (S i) fus)).
  split.
  - rewrite H1 at 1. rewrite omap_app. f_equal. csimpl. by destruct (fu_holder fu).
  - rewrite H2. rewrite omap_app. f_equal. csimpl. by destruct (fu_holder fu').
Qed.

Lemma fu_clear_holder (fu : FU.t) : fu_holder (FU.clear fu) = None.
Proof. done. Qed.

Lemma fu_clear_shape (fu : FU.t) : fu_shape (FU.clear fu).
Proof. unfold fu_shape, FU.clear, FU.done, FU.busy. cbn. done. Qed.

Lemma done_holder (fu : FU.t) :
  fu_shape fu -> FU.done fu = true ->
  fu_holder fu = Some (CDB.rs_index (FU.get_output fu)).
Proof.
  intros (Hdb & Hbi & Hout) Hd. unfold fu_holder, FU.get_output. rewrite (Hdb Hd).
  destruct (Hbi (Hdb Hd)) as [i Hi]. rewrite Hi. cbn.
  by destruct (Hout Hd i Hi) as [-> _].
Qed.

(** The drain loop moves the holder of the first completed unit to the
    bus. *)
Lemma drain_sched (rs : RS.t) (fus fus' : list FU.t) (bus' : CDB.t) :
  sched_ok rs fus None -> drain fus None = Ok (fus', bus') ->
  sched_ok rs fus' bus' /\ holders fus' bus' ≡ₚ holders fus None.
Proof.
  intros (Hnd & Hh & Hs) Hd. rewrite (drain_first_done 0) in Hd.
  destruct (first_done 0 fus) as [[i fu]|] eqn:Hf.
  - injection Hd as <- <-.
    apply first_done_lookup in Hf as (_ & Hi & Hdone & _).
    rewrite Nat.sub_0_r in Hi |- *.
    assert (Hshape : fu_shape fu) by (eapply Forall_lookup_1; eauto).
    destruct (omap_holder_insert fus i fu (FU.clear fu) Hi) as (l1 & l2 & E1 & E2).
    rewrite fu_clear_holder in E2. rewrite (done_holder fu Hshape Hdone) in E1.
    assert (Hperm : holders (<[i := FU.clear fu]> fus) (Some (FU.get_output fu))
                    ≡ₚ holders fus None).
    { unfold holders. rewrite E1, E2. cbn. apply Permutation_middle. }
    split; [|done]. unfold sched_ok. rewrite Hperm.
    split; [done|]. split; [done|].
    apply Forall_insert; [done|]. apply fu_clear_shape.
  - by injection Hd as <- <-.
Qed.

Lemma zinsert_same_image {A B : Type} (f : A -> B) (l : list A) (i : Z) (x y : A) :
  zlookup l i = Some x -> f y = f x -> f <$> zinsert i y l = f <$> l.
Proof.
  unfold zlookup, zinsert. destruct (i <? 0); [done|]. intros Hi Hf.
  rewrite list_fmap_insert, Hf. apply list_insert_id. by rewrite list_lookup_fmap, Hi.
Qed.

Lemma holds_zinsert_ne (rs : RS.t) (i k : Z) (e : RS.entry_t) :
  i <> k -> holds rs k -> holds (zinsert i e rs) k.
Proof.
  intros Hne (e' & He' & Hv & Hr). exists e'. by rewrite zlookup_zinsert_ne.
Qed.

(** One pass of the dispatch loop that sends the entry at [k] to the idle
    unit at [t]. *)
Lemma dispatch_one_sched `{Collaborators} (rs : RS.t) (fus : list FU.t) (bus : CDB.t)
    (k : Z) (entry : RS.entry_t) (t : nat) (fu : FU.t) (i : Instr) :
  sched_ok rs fus bus ->
  zlookup rs k = Some entry -> RS.valid entry = true -> RS.running entry = false ->
  fus !! t = Some fu -> FU.busy fu = false ->
  sched_ok (zinsert k (RS.set_running entry) rs)
           (<[t := FU.issue i (RS.rob_index entry) k (RS.rs1_data entry)
                     (RS.rs2_data entry) fu]> fus) bus.
Proof.
  intros (Hnd & Hh & Hs) Hk Hv Hr Ht Hb.
  set (fu' := FU.issue _ _ _ _ _ _).
  destruct (omap_holder_insert fus t fu fu' Ht) as (l1 & l2 & E1 & E2).
  assert (Hnone : fu_holder fu = None) by (unfold fu_holder; by rewrite Hb).
  rewrite Hnone in E1. cbn in E1, E2.
  assert (Hperm : holders (<[t := fu']> fus) bus ≡ₚ k :: holders fus bus).
  { unfold holders. rewrite E1, E2.
    rewrite (app_assoc (bus_holder bus) l1 (k :: l2)).
    rewrite <- Permutation_middle. by rewrite <- app_assoc. }
  assert (Hfresh : k ∉ holders fus bus).
  { intros Hin. rewrite Forall_forall in Hh.
    destruct (Hh k Hin) as (e & He & _ & Hrun). congruence. }
  unfold sched_ok. rewrite Hperm. split; [|split].
  - apply NoDup_cons. done.
  - constructor.
    + exists (RS.set_running entry). split; [by eapply zlookup_zinsert_eq|done].
    + rewrite Forall_forall in Hh |- *. intros h Hin.
      apply holds_zinsert_ne; [|by apply Hh]. intros <-. done.
  - apply Forall_insert; [done|].
    unfold fu_shape, fu', FU.issue, FU.done, FU.busy. cbn.
    split; [done|]. split; [by eexists|done].
Qed.

Lemma dispatch_sched `{Collaborators} (n : nat) (k : Z) (rs rs' : RS.t)
    (fus fus' : list FU.t) (bus : CDB.t) :
  dispatch n k rs fus = Ok (rs', fus') -> sched_ok rs fus bus ->
  sched_ok rs' fus' bus /\ RS.valid <$> rs' = RS.valid <$> rs.
Proof.
  revert k rs fus. induction n as [|n IH]; intros k rs fus Hd Hok.
  - cbn in Hd. by injection Hd as <- <-.
  - cbn [dispatch] in Hd.
    apply obind_Ok in Hd as (entry & He & Hd).
    apply obind_Ok in Hd as ([rs1 fus1] & Hone & Hd).
    assert (Hstep : sched_ok rs1 fus1 bus /\ RS.valid <$> rs1 = RS.valid <$> rs).
    { unfold RS.get_entry in He.
      destruct (zlookup rs k) as [e0|] eqn:Hk; [|done]. injection He as ->.
      destruct (RS.valid entry) eqn:Hv; cbn [andb] in Hone;
        [|by injection Hone as <- <-].
      destruct (RS.running entry) eqn:Hr; cbn [andb negb] in Hone;
        [by injection Hone as <- <-|].
      destruct (_ && _); [|by injection Hone as <- <-].
      apply obind_Ok in Hone as (instr & Hi & Hone).
      apply obind_Ok in Hone as (fu & Hfu & Hone).
      destruct (fus !! getFUType instr) as [fu0|] eqn:Ht; [|done].
      injection Hfu as ->.
      destruct (FU.busy fu) eqn:Hb; cbn [negb] in Hone; injection Hone as <- <-; [done|].
      split; [by apply dispatch_one_sched|].
      by apply (zinsert_same_image RS.valid rs k entry). }
    destruct Hstep as [Hok1 Hv1].
    destruct (IH _ _ _ Hd Hok1) as [Hok' Hv']. split; [done|congruence].
Qed.

(** The drain loop on any bus: either no unit is done and nothing changes,
    or the bus was empty. *)
Lemma drain_cases_from (base : nat) (fus fus' : list FU.t) (bus bus' : CDB.t) :
  drain fus bus = Ok (fus', bus') ->
  (first_done base fus = None /\ fus' = fus /\ bus' = bus) \/
  (bus = None /\ first_done base fus <> None).
Proof.
  revert base fus'. induction fus as [|f fus IH]; intros base fus' Hd.
  - left. by injection Hd as <- <-.
  - cbn [drain first_done] in Hd |- *. destruct (FU.done f).
    + right. split; [|done]. by destruct bus.
    + apply obind_Ok in Hd as ([rest b] & Hr & Hd). injection Hd as <- <-.
      destruct (IH (S base) rest Hr) as [(Hn & -> & ->)|[Hb Hn]]; [by left|by right].
Qed.

Lemma drain_cases (fus fus' : list FU.t) (bus bus' : CDB.t) :
  drain fus bus = Ok (fus', bus') ->
  (first_done 0 fus = None /\ fus' = fus /\ bus' = bus) \/
  (bus = None /\ first_done 0 fus <> None).
Proof. apply drain_cases_from. Qed.

Lemma execute_sched `{Collaborators} (c c' : Core) :
  sched_ok (RS_ c) (FUs_ c) (CDB_ c) -> execute c = Ok c' ->
  sched_ok (RS_ c') (FUs_ c') (CDB_ c') /\ RS.valid <$> RS_ c' = RS.valid <$> RS_ c.
Proof.
  intros Hok He.
  apply execute_frame in He as (_ & _ & _ & _ & _ & _ & _ & _ & _ & fus & bus & Hd & Hs & ->).
  apply sched_ok_execute in Hok.
  assert (Hok1 : sched_ok (RS_ c) fus bus).
  { destruct (drain_cases _ _ _ _ Hd) as [(_ & -> & ->)|[Hbus _]]; [done|].
    rewrite Hbus in Hd, Hok. by destruct (drain_sched _ _ _ _ Hok Hd). }
  by apply (dispatch_sched _ _ _ _ _ _ _ Hs).
Qed.

Lemma valid_count_app (l1 l2 : RS.t) :
  valid_count (l1 ++ l2) = (valid_count l1 + valid_count l2)%nat.
Proof. induction l1 as [|e l1 IH]; [done|]. cbn. rewrite IH. lia. Qed.

Lemma valid_count_cons (e : RS.entry_t) (l : RS.t) :
  valid_count (e :: l) = ((if RS.valid e then 1 else 0) + valid_count l)%nat.
Proof. done. Qed.

Lemma valid_count_zinsert (rs : RS.t) (i : Z) (old new : RS.entry_t) :
  zlookup rs i = Some old ->
  (valid_count (zinsert i new rs) + (if RS.valid old then 1 else 0) =
   valid_count rs + (if RS.valid new then 1 else 0))%nat.
Proof.
  unfold zlookup, zinsert. destruct (i <? 0); [done|]. intros Hi.
  destruct (lookup_split rs (Z.to_nat i) old new Hi) as [H1 H2].
  rewrite H2. generalize (take (Z.to_nat i) rs) (drop (S (Z.to_nat i)) rs) H1.
  intros l1 l2 ->.
  rewrite !valid_count_app, !valid_count_cons. lia.
Qed.

Lemma valid_count_image (rs rs' : RS.t) :
  RS.valid <$> rs' = RS.valid <$> rs -> valid_count rs' = valid_count rs.
Proof.
  revert rs'. induction rs as [|e rs IH]; intros [|e' rs'] Hv; try done.
  injection Hv as Hv1 Hv2. rewrite !valid_count_cons, Hv1. f_equal. by apply IH.
Qed.

Lemma wakeup_valid (data : CDB.data_t) (rs : RS.t) :
  RS.valid <$> wakeup data rs = RS.valid <$> rs.
Proof.
  unfold wakeup. rewrite <- list_fmap_compose. apply list_fmap_ext.
  intros i e _. cbn. destruct (RS.valid e) eqn:Hv; [|done].
  by destruct (update_operands_spec data e) as [-> _].
Qed.

Lemma holds_wakeup (data : CDB.data_t) (rs : RS.t) (k : Z) :
  holds rs k -> holds (wakeup data rs) k.
Proof.
  intros (e & He & Hv & Hr). unfold holds, wakeup. rewrite zlookup_fmap, He. cbn.
  rewrite Hv. eexists. split; [done|].
  destruct (update_operands_spec data e) as (-> & -> & _). done.
Qed.

Lemma issue_sched (c c' : Core) :
  issue c = Ok c' -> core_sched c -> core_sched c' /\ backlog c' = backlog c.
Proof.
  intros Hi Hok. apply issue_cases in Hi as [->|Hi]; [done|].
  destruct Hi as (instr & q & d1 & a1 & d2 & a2 & index & old & Hq & _ & _ & _ & _
                  & _ & Hold & Hv & _ & _ & _ & Hrs & _ & Hq' & _ & _ & Hbus & Hfus & _).
  unfold core_sched, backlog. rewrite Hrs, Hq', Hbus, Hfus, Hq.
  destruct Hok as (Hnd & Hh & Hs). split.
  - split; [done|]. split; [|done].
    rewrite Forall_forall in Hh |- *. intros h Hin.
    apply holds_zinsert_ne; [|by apply Hh].
    intros <-. destruct (Hh index Hin) as (e & He & Hve & _). congruence.
  - pose proof (valid_count_zinsert (RS_ c) index old
                  (RS.mk_entry true false (Some instr)
                     (Z.of_nat (ROB.tail_index_ (ROB_ c))) a1 a2 d1 d2) Hold) as Hc.
    rewrite Hv in Hc. cbn in Hc |- *. lia.
Qed.

Lemma writeback_sched (c c' : Core) :
  writeback c = Ok c' -> core_sched c ->
  core_sched c' /\ CDB_ c' = None /\
  (CDB_ c <> None -> (backlog c' + 1 = backlog c)%nat) /\
  (CDB_ c = None -> c' = c).
Proof.
  intros Hw Hok. apply writeback_cases in Hw as [[Hbus ->]|Hw]; [done|].
  destruct Hw as (data & Hbus & Hrel & _ & Hbus' & _ & _ & _ & _ & Hq & Hfus & _).
  unfold core_sched, backlog in *. rewrite Hbus', Hfus, Hq. rewrite Hbus in Hok.
  destruct Hok as (Hnd & Hh & Hs).
  unfold holders in Hnd, Hh. cbn in Hnd, Hh.
  apply NoDup_cons in Hnd as [Hfresh Hnd]. apply Forall_cons in Hh as [Hk Hh].
  unfold RS.release, RS.get_entry in Hrel.
  destruct (zlookup (wakeup data (RS_ c)) (CDB.rs_index data)) as [w|] eqn:Hw; [|done].
  cbn in Hrel. injection Hrel as Hrel.
  split; [|split; [done|split; [|congruence]]].
  - split; [done|]. split; [|done]. rewrite <- Hrel.
    rewrite Forall_forall in Hh |- *. intros h Hin.
    apply holds_zinsert_ne; [by intros <-|]. apply holds_wakeup. by apply Hh.
  - intros _. rewrite <- Hrel.
    pose proof (valid_count_zinsert _ _ _ (RS.set_free w) Hw) as Hc.
    apply (holds_wakeup data) in Hk. destruct Hk as (w' & Hw' & Hv & _).
    assert (w' = w) as -> by congruence. rewrite Hv in Hc. cbn in Hc.
    rewrite (valid_count_image _ _ (wakeup_valid data (RS_ c))) in Hc. lia.
Qed.

Lemma commit_frame (c c' : Core) :
  commit c = Ok c' ->
  RS_ c' = RS_ c /\ FUs_ c' = FUs_ c /\ CDB_ c' = CDB_ c /\
  issue_queue_ c' = issue_queue_ c /\ RST_ c' = RST_ c.
Proof.
  intros Hc. pose proof Hc as Hc'.
  apply commit_cases in Hc' as [->|(e & Hne & He & Hready & Hrd & Hperf)]; [done|].
  destruct (commit_ready_head c e Hne He Hready Hrd Hperf) as (c1 & Hc1 & H).
  assert (c1 = c') as -> by congruence. 
  destruct H as (_ & _ & _ & _ & _ & _ & ? & ? & ? & ? & ? & _). done.
Qed.

Lemma commit_sched (c c' : Core) :
  commit c = Ok c' -> core_sched c -> core_sched c' /\ backlog c' = backlog c.
Proof.
  intros Hc Hok. apply commit_frame in Hc as (Hrs & Hfus & Hbus & Hq & _).
  unfold core_sched, backlog. by rewrite Hrs, Hfus, Hbus, Hq.
Qed.

Lemma core_sched_init (num_regs rob_size rs_size num_fus : nat) :
  core_sched (init num_regs rob_size rs_size num_fus).
Proof.
  unfold core_sched, sched_ok, holders. cbn.
  assert (Hnone : omap fu_holder (replicate num_fus FU.idle) = []).
  { induction num_fus as [|n IH]; [done|]. csimpl. by rewrite IH. }
  rewrite Hnone. split; [constructor|]. split; [constructor|].
  apply Forall_replicate. unfold fu_shape, FU.idle, FU.done, FU.busy. cbn. done.
Qed.

Lemma step_sched `{Collaborators} (a : action) (c c' : Core) :
  core_sched c -> step a c = Ok c' -> core_sched c'.
Proof.
  intros Hok Hstep. destruct a as [i| | | |]; cbn [step] in Hstep.
  - injection Hstep as <-. done.
  - by eapply issue_sched.
  - by eapply execute_sched.
  - by eapply writeback_sched.
  - by eapply commit_sched.
Qed.

Lemma run_sched `{Collaborators} (acts : list action) (c c' : Core) :
  core_sched c -> run acts c = Ok c' -> core_sched c'.
Proof.
  revert c. induction acts as [|a acts IH]; intros c Hinv Hrun; cbn [run] in Hrun.
  - congruence.
  - apply obind_Ok in Hrun as (c1 & Hstep & Hrun).
    apply (IH c1); [|done]. by eapply step_sched.
Qed.

(** ** Contention for the bus *)

Lemma first_done_of_done (base : nat) (fus : list FU.t) (j : nat) (fu : FU.t) :
  fus !! j = Some fu -> FU.done fu = true ->
  exists i fui, first_done base fus = Some (i, fui).
Proof.
  intros Hj Hd. destruct (first_done base fus) as [[i fui]|] eqn:Hf; [by eauto|].
  apply first_done_none in Hf. rewrite Forall_lookup in Hf.
  specialize (Hf j fu Hj). cbn in Hf. congruence.
Qed.

(** An execute on a drained bus: the first completed unit takes the bus, and
    every other completed unit is left as it is. *)
Lemma execute_contention `{Collaborators} (c c' : Core) :
  CDB_ c = None -> Forall fu_wf (FUs_ c) -> execute c = Ok c' ->
  match first_done 0 (FU.execute <$> FUs_ c) with
  | None => CDB_ c' = None
  | Some (i, fu) =>
      CDB_ c' = Some (FU.get_output fu) /\
      forall j fu', j <> i -> (FU.execute <$> FUs_ c) !! j = Some fu' ->
        FU.done fu' = true -> FUs_ c' !! j = Some fu'
  end.
Proof.
  intros Hbus Hwf He.
  apply execute_frame in He as (_ & _ & _ & _ & _ & _ & _ & _ & _ & fus & bus & Hd & Hs & ->).
  rewrite Hbus, (drain_first_done 0) in Hd.
  destruct (first_done 0 (FU.execute <$> FUs_ c)) as [[i fu]|] eqn:Hf.
  - injection Hd as <- <-. split; [done|].
    intros j fu' Hne Hj Hdone.
    apply (dispatch_keeps_busy _ _ _ _ _ _ Hs).
    + rewrite Nat.sub_0_r. by rewrite list_lookup_insert_ne.
    + rewrite list_lookup_fmap in Hj.
      destruct (FUs_ c !! j) as [fu0|] eqn:Hfu0; [|done]. injection Hj as <-.
      apply fu_execute_wf; [|done]. eapply Forall_lookup_1; eauto.
  - by injection Hd as <- <-.
Qed.

Lemma issue_frame (c c' : Core) :
  issue c = Ok c' -> CDB_ c' = CDB_ c /\ FUs_ c' = FUs_ c.
Proof.
  intros Hi. apply issue_cases in Hi as [->|Hi]; [done|].
  destruct Hi as (instr & q & d1 & a1 & d2 & a2 & index & old & Hi).
  destruct Hi as (_ & _ & _ & _ & _ & _ & _ & _ & _ & _ & _ & _ & _ & _ & _ & _ & ? & ? & _).
  done.
Qed.

Lemma core_sched_wf (c : Core) : core_sched c -> Forall fu_wf (FUs_ c).
Proof.
  intros (_ & _ & Hs). eapply Forall_impl; [exact Hs|]. apply fu_shape_wf.
Qed.

(** One cycle seen from a completed unit: either its result is on the bus at
    the end of the cycle, or it keeps its completion state and result while
    the bus carries another result; in the second case the backlog does not
    grow, and shrinks when the cycle started with a broadcast to write
    back. *)
Lemma tick_contention `{Collaborators} (c c' : Core) (j : nat) (fu : FU.t) :
  core_sched c -> tick c = Ok c' ->
  FUs_ c !! j = Some fu -> FU.done fu = true ->
  core_sched c' /\
  (CDB_ c' = Some (FU.get_output fu) \/
   (FUs_ c' !! j = Some fu /\ CDB_ c' <> None /\
    (backlog c' <= backlog c)%nat /\
    (CDB_ c <> None -> (backlog c' + 1 = backlog c)%nat))).
Proof.
  intros Hok Ht Hj Hdone. unfold tick in Ht.
  apply obind_Ok in Ht as (c1 & Hc & Ht).
  apply obind_Ok in Ht as (c2 & Hw & Ht).
  apply obind_Ok in Ht as (c3 & He & Hi).
  destruct (commit_sched _ _ Hc Hok) as [Hok1 Hb1].
  apply commit_frame in Hc as (_ & Hfus1 & Hbus1 & _).
  destruct (writeback_sched _ _ Hw Hok1) as (Hok2 & Hbus2 & Hb2 & Hsame).
  assert (Hfus2 : FUs_ c2 = FUs_ c1).
  { apply writeback_cases in Hw as [[_ ->]|(d & Hw)]; [done|]. apply Hw. }
  destruct (execute_sched _ _ Hok2 He) as [Hok3 Hv3].
  pose proof (execute_contention _ _ Hbus2 (core_sched_wf _ Hok2) He) as Hcont.
  pose proof He as Hfr.
  apply execute_frame in Hfr as (_ & _ & _ & _ & _ & Hq3 & _).
  destruct (issue_sched _ _ Hi Hok3) as [Hok' Hb'].
  apply issue_frame in Hi as [Hbus' Hfus'].
  split; [done|].
  assert (Hj2 : (FU.execute <$> FUs_ c2) !! j = Some fu).
  { rewrite list_lookup_fmap, Hfus2, Hfus1, Hj. cbn. by rewrite fu_execute_done. }
  destruct (first_done_of_done 0 _ j fu Hj2 Hdone) as (i & fui & Hf).
  rewrite Hf in Hcont. destruct Hcont as [Hbus3 Hkeep].
  destruct (decide (j = i)) as [->|Hne].
  - left. apply first_done_lookup in Hf as (_ & Hi' & _).
    rewrite Nat.sub_0_r in Hi'. rewrite Hbus', Hbus3. congruence.
  - right. rewrite Hbus', Hfus', Hbus3. split; [by apply Hkeep|]. split; [done|].
    assert (Hb3 : backlog c3 = backlog c2).
    { unfold backlog. by rewrite Hq3, (valid_count_image _ _ Hv3). }
    split.
    + destruct (CDB_ c1) eqn:Hb; [|rewrite (Hsame eq_refl) in *; lia].
      assert (backlog c2 + 1 = backlog c1)%nat by (by apply Hb2). lia.
    + intros Hne'. rewrite <- Hbus1 in Hne'. specialize (Hb2 Hne'). lia.
Qed.

(** A completed unit keeps its result until the cycle in which it is
    broadcast. *)
Lemma ticks_keep_or_broadcast `{Collaborators} (n : nat) (c cn : Core) (j : nat) (fu : FU.t) :
  core_sched c -> FUs_ c !! j = Some fu -> FU.done fu = true ->
  ticks n c = Ok cn ->
  FUs_ cn !! j = Some fu \/
  exists k ck, (k < n)%nat /\ ticks (S k) c = Ok ck /\ CDB_ ck = Some (FU.get_output fu).
Proof.
  revert c. induction n as [|n IH]; intros c Hok Hj Hdone Ht.
  - left. cbn in Ht. congruence.
  - cbn [ticks] in Ht. apply obind_Ok in Ht as (c1 & Ht1 & Ht).
    destruct (tick_contention c c1 j fu Hok Ht1 Hj Hdone) as [Hok1 [Hwon|(Hj1 & _)]].
    + right. exists 0%nat, c1. split; [lia|]. split; [|done].
      cbn. by rewrite Ht1.
    + destruct (IH c1 Hok1 Hj1 Hdone Ht) as [Hkeep|(k & ck & Hk & Htk & Hbus)];
        [by left|right].
      exists (S k), ck. split; [lia|]. split; [|done].
      cbn [ticks]. by rewrite Ht1.
Qed.

(** With a broadcast to write back at the start, a completed unit is
    broadcast within as many cycles as the backlog counts, plus one. *)
Lemma ticks_broadcast `{Collaborators} (m n : nat) (c cn : Core) (j : nat) (fu : FU.t) :
  core_sched c -> FUs_ c !! j = Some fu -> FU.done fu = true ->
  CDB_ c <> None -> (backlog c <= m)%nat -> (m + 1 <= n)%nat ->
  ticks n c = Ok cn ->
  exists k ck, (k < n)%nat /\ ticks (S k) c = Ok ck /\ CDB_ ck = Some (FU.get_output fu).
Proof.
  revert n c. induction m as [|m IH]; intros n c Hok Hj Hdone Hbus Hm Hn Ht;
    (destruct n as [|n]; [lia|]);
    cbn [ticks] in Ht; apply obind_Ok in Ht as (c1 & Ht1 & Ht);
    destruct (tick_contention c c1 j fu Hok Ht1 Hj Hdone)
      as [Hok1 [Hwon|(Hj1 & Hbus1 & _ & Hdec)]].
  - exists 0%nat, c1. split; [lia|]. split; [|done]. cbn. by rewrite Ht1.
  - specialize (Hdec Hbus). lia.
  - exists 0%nat, c1. split; [lia|]. split; [|done]. cbn. by rewrite Ht1.
  - specialize (Hdec Hbus).
    destruct (IH n c1 Hok1 Hj1 Hdone Hbus1 ltac:(lia) ltac:(lia) Ht)
      as (k & ck & Hk & Htk & Hck).
    exists (S k), ck. split; [lia|]. split; [|done].
    cbn [ticks]. by rewrite Ht1.
Qed.

(** ** Pending operands never name a free reservation station *)

Lemma zinsert_of_nat {A : Type} (l : list A) (i : nat) (x : A) :
  zinsert (Z.of_nat i) x l = <[i := x]> l.
Proof.
  unfold zinsert. destruct (Z.ltb_spec (Z.of_nat i) 0); [lia|]. by rewrite Nat2Z.id.
Qed.

Lemma holder_in_holders (fus : list FU.t) (bus : CDB.t) (j : nat) (fu : FU.t) (k : Z) :
  fus !! j = Some fu -> fu_holder fu = Some k -> k ∈ holders fus bus.
Proof.
  intros Hj Hk. unfold holders. apply elem_of_app. right.
  apply list_elem_of_omap. exists fu. split; [|done].
  apply list_elem_of_lookup. by exists j.
Qed.

Lemma busy_holds (rs : RS.t) (fus : list FU.t) (bus : CDB.t) (fu : FU.t) (i : FU.input_t) :
  sched_ok rs fus bus -> fu ∈ fus -> FU.busy fu = true -> FU.input_ fu = Some i ->
  holds rs (FU.rs_index i).
Proof.
  intros (_ & Hh & _) Hin Hb Hi.
  apply list_elem_of_lookup in Hin as [j Hj].
  rewrite Forall_forall in Hh. apply Hh.
  apply (holder_in_holders fus bus j fu); [done|].
  unfold fu_holder. by rewrite Hb, Hi.
Qed.

Lemma bus_holds (rs : RS.t) (fus : list FU.t) (d : CDB.data_t) :
  sched_ok rs fus (Some d) -> holds rs (CDB.rs_index d).
Proof.
  intros (_ & Hh & _). unfold holders in Hh. cbn in Hh.
  by apply Forall_cons in Hh as [? _].
Qed.

(** The dispatch loop changes nothing but running flags. *)
Lemma dispatch_static `{Collaborators} (n : nat) (k : Z) (rs rs' : RS.t)
    (fus fus' : list FU.t) :
  dispatch n k rs fus = Ok (rs', fus') ->
  RS.set_running <$> rs' = RS.set_running <$> rs.
Proof.
  revert k rs fus. induction n as [|n IH]; intros k rs fus Hd.
  - cbn in Hd. by injection Hd as <- <-.
  - cbn [dispatch] in Hd.
    apply obind_Ok in Hd as (entry & He & Hd).
    apply obind_Ok in Hd as ([rs1 fus1] & Hone & Hd).
    rewrite (IH _ _ _ Hd).
    unfold RS.get_entry in He.
    destruct (zlookup rs k) as [e0|] eqn:Hk; [|done]. injection He as ->.
    destruct (_ && _ && _ && _); [|by injection Hone as <- <-].
    apply obind_Ok in Hone as (instr & Hi & Hone).
    apply obind_Ok in Hone as (fu & Hfu & Hone).
    destruct (negb (FU.busy fu)); injection Hone as <- <-; [|done].
    by apply (zinsert_same_image RS.set_running rs k entry).
Qed.

Lemma static_lookup (rs rs' : RS.t) (i : Z) (e' : RS.entry_t) :
  RS.set_running <$> rs' = RS.set_running <$> rs ->
  zlookup rs' i = Some e' ->
  exists e, zlookup rs i = Some e /\
    RS.valid e' = RS.valid e /\ RS.rob_index e' = RS.rob_index e /\
    RS.rs1_index e' = RS.rs1_index e /\ RS.rs2_index e' = RS.rs2_index e /\
    RS.instr e' = RS.instr e.
Proof.
  intros Hst Hi.
  assert (Hl : zlookup (RS.set_running <$> rs') i = Some (RS.set_running e'))
    by (by rewrite zlookup_fmap, Hi).
  rewrite Hst, zlookup_fmap in Hl.
  destruct (zlookup rs i) as [e|]; [|done].
  injection Hl as Hv Hins Hrob Hr1 Hr2 Hd1 Hd2.
  exists e. done.
Qed.

Lemma pending_ok_static (rs rs' : RS.t) :
  RS.set_running <$> rs' = RS.set_running <$> rs -> pending_ok rs -> pending_ok rs'.
Proof.
  intros Hst Hp i e' p Hi Hv Hp' Hne.
  destruct (static_lookup _ _ _ _ Hst Hi) as (e & He & Ev & _ & E1 & E2 & _).
  destruct (Hp i e p He) as (t & Ht & Hvt); [congruence|by rewrite <- E1, <- E2|done|].
  assert (Hl : zlookup (RS.set_running <$> rs) p = Some (RS.set_running t))
    by (by rewrite zlookup_fmap, Ht).
  rewrite <- Hst, zlookup_fmap in Hl.
  destruct (zlookup rs' p) as [t'|]; [|done].
  injection Hl as Hv' _ _ _ _ _ _.
  exists t'. split; [done|]. congruence.
Qed.

Lemma static_sym_lookup (rs rs' : RS.t) (i : Z) (e : RS.entry_t) :
  RS.set_running <$> rs' = RS.set_running <$> rs ->
  zlookup rs i = Some e ->
  exists e', zlookup rs' i = Some e' /\
    RS.valid e' = RS.valid e /\ RS.rob_index e' = RS.rob_index e.
Proof.
  intros Hst Hi. symmetry in Hst.
  destruct (static_lookup _ _ _ _ Hst Hi) as (e' & He' & Ev & Er & _).
  exists e'. done.
Qed.

Lemma pair_ok_static (rs rs' : RS.t) (fus : list FU.t) (bus : CDB.t) :
  RS.set_running <$> rs' = RS.set_running <$> rs ->
  pair_ok rs fus bus -> pair_ok rs' fus bus.
Proof.
  intros Hst [Hbus Hfus]. split.
  - intros d Hd. destruct (Hbus d Hd) as (e & He & Hr).
    destruct (static_sym_lookup _ _ _ _ Hst He) as (e' & He' & _ & Hr').
    exists e'. split; [done|congruence].
  - eapply Forall_impl; [exact Hfus|]. intros fu Hfu Hb i Hi.
    destruct (Hfu Hb i Hi) as (e & He & Hr).
    destruct (static_sym_lookup _ _ _ _ Hst He) as (e' & He' & _ & Hr').
    exists e'. split; [done|congruence].
Qed.

Lemma dispatch_pair `{Collaborators} (n : nat) (k : Z) (rs rs' : RS.t)
    (fus fus' : list FU.t) (bus : CDB.t) :
  dispatch n k rs fus = Ok (rs', fus') -> pair_ok rs fus bus -> pair_ok rs' fus' bus.
Proof.
  revert k rs fus. induction n as [|n IH]; intros k rs fus Hd Hok.
  - cbn in Hd. by injection Hd as <- <-.
  - cbn [dispatch] in Hd.
    apply obind_Ok in Hd as (entry & He & Hd).
    apply obind_Ok in Hd as ([rs1 fus1] & Hone & Hd).
    apply (IH _ _ _ Hd).
    unfold RS.get_entry in He.
    destruct (zlookup rs k) as [e0|] eqn:Hk; [|done]. injection He as ->.
    destruct (_ && _ && _ && _); [|by injection Hone as <- <-].
    apply obind_Ok in Hone as (instr & Hi & Hone).
    apply obind_Ok in Hone as (fu & Hfu & Hone).
    destruct (negb (FU.busy fu)); injection Hone as <- <-; [|done].
    assert (Hst : RS.set_running <$> zinsert k (RS.set_running entry) rs
                  = RS.set_running <$> rs)
      by (by apply (zinsert_same_image RS.set_running rs k entry)).
    destruct (pair_ok_static _ _ fus bus Hst Hok) as [Hbus Hfus].
    split; [done|]. apply Forall_insert; [done|].
    intros _ i [= <-]. cbn.
    exists (RS.set_running entry). split; [by eapply zlookup_zinsert_eq|done].
Qed.

Lemma fu_execute_input `{Collaborators} (fu : FU.t) :
  FU.busy (FU.execute fu) = FU.busy fu /\ FU.input_ (FU.execute fu) = FU.input_ fu.
Proof.
  unfold FU.execute, FU.busy.
  destruct (FU.busy_ fu) eqn:Hb; cbn [andb]; [|done].
  destruct (FU.done_ fu); cbn [negb]; [done|].
  destruct (FU.input_ fu) as [i|] eqn:Hi; [|done].
  destruct (FU.wait_ fu); cbn; done.
Qed.

Lemma execute_pair `{Collaborators} (c c' : Core) :
  core_sched c -> pair_ok (RS_ c) (FUs_ c) (CDB_ c) -> execute c = Ok c' ->
  pair_ok (RS_ c') (FUs_ c') (CDB_ c') /\
  RS.set_running <$> RS_ c' = RS.set_running <$> RS_ c.
Proof.
  intros Hsched [Hbus Hfus] He.
  apply execute_frame in He as (_ & _ & _ & _ & _ & _ & _ & _ & _ & fus & bus & Hd & Hs & ->).
  split; [|by eapply dispatch_static].
  apply (dispatch_pair _ _ _ _ _ _ _ Hs).
  assert (Hfus1 : Forall (fun fu =>
            FU.busy fu = true -> forall i, FU.input_ fu = Some i ->
            exists e, zlookup (RS_ c) (FU.rs_index i) = Some e /\
                      RS.rob_index e = FU.rob_index i) (FU.execute <$> FUs_ c)).
  { apply Forall_fmap. eapply Forall_impl; [exact Hfus|]. intros fu Hfu. cbn.
    destruct (fu_execute_input fu) as [-> ->]. done. }
  destruct (drain_cases _ _ _ _ Hd) as [(_ & -> & ->)|[Hnone Hsome]]; [done|].
  rewrite Hnone, (drain_first_done 0) in Hd.
  destruct (first_done 0 (FU.execute <$> FUs_ c)) as [[i fu]|] eqn:Hf; [|done].
  injection Hd as <- <-.
  apply first_done_lookup in Hf as (_ & Hi & Hdone & _). rewrite Nat.sub_0_r in Hi |- *.
  split.
  - intros d [= <-].
    apply sched_ok_execute in Hsched. destruct Hsched as (_ & _ & Hshape).
    rewrite Forall_lookup in Hshape, Hfus1.
    destruct (Hshape i fu Hi) as (Hdb & Hbi & Hout).
    destruct (Hbi (Hdb Hdone)) as [inp Hinp].
    destruct (Hfus1 i fu Hi (Hdb Hdone) inp Hinp) as (e & He & Hr).
    destruct (Hout Hdone inp Hinp) as [E1 E2].
    exists e. unfold FU.get_output. rewrite E1, E2. done.
  - apply Forall_insert; [done|]. intros Hb. done.
Qed.

Lemma execute_rename `{Collaborators} (c c' : Core) :
  rename_inv c -> execute c = Ok c' -> rename_inv c'.
Proof.
  intros (Hsched & Hpair & Hprod & Hpend) He.
  destruct (execute_sched _ _ Hsched He) as [Hsched' _].
  destruct (execute_pair _ _ Hsched Hpair He) as [Hpair' Hst].
  apply execute_frame in He as (Hrob & _ & _ & Hrst & _).
  split; [done|]. split; [done|]. split.
  - intros s e. rewrite Hrob, Hrst. intros Hs Hr.
    destruct (Hprod s e Hs Hr) as (k & ek & Hk & Hek & Hv & Hri).
    destruct (static_sym_lookup _ _ _ _ Hst Hek) as (ek' & Hek' & Ev & Er).
    exists k, ek'. split; [done|]. split; [done|]. split; congruence.
  - by eapply pending_ok_static.
Qed.

(** An operand read yields "available" or the producer that the reverse
    producer index lists for an entry that is not ready. *)
Lemma read_operand_pending (c : Core) (used : bool) (r : nat) (data index : Z) :
  read_operand c used r = Ok (data, index) ->
  index = -1 \/
  exists s e, ROB.get_entry (ROB_ c) s = Ok e /\ ROB.ready e = false /\
              zlookup (RST_ c) s = Some index.
Proof.
  unfold read_operand. destruct used; [|intros [= _ <-]; by left].
  destruct (RAT_ c !! r) as [s|].
  - intros Hr. apply obind_Ok in Hr as (e & He & Hr).
    destruct (ROB.ready e) eqn:Hready; [injection Hr as _ <-; by left|].
    apply obind_Ok in Hr as (k & Hk & Hr). injection Hr as _ <-.
    right. exists s, e. split; [done|]. split; [done|].
    destruct (zlookup (RST_ c) s); [by injection Hk as ->|done].
  - intros Hr. apply obind_Ok in Hr as (v & _ & Hr). injection Hr as _ <-. by left.
Qed.

Lemma rob_get_entry_insert_ne (rob : ROB.t)
    (h t c : nat) (i : nat) (x : option ROB.entry_t) (s : Z) :
  s <> Z.of_nat i ->
  ROB.get_entry (ROB.mk (<[i := x]> (ROB.store_ rob)) h t c) s = ROB.get_entry rob s.
Proof.
  intros Hne. unfold ROB.get_entry. cbn [ROB.store_].
  rewrite <- zinsert_of_nat. by rewrite zlookup_zinsert_ne.
Qed.

Lemma issue_rename (c c' : Core) :
  rename_inv c -> issue c = Ok c' -> rename_inv c'.
Proof.
  intros (Hsched & Hpair & Hprod & Hpend) Hi.
  destruct (issue_sched _ _ Hi Hsched) as [Hsched' _].
  apply issue_cases in Hi as [->|Hi]; [done|].
  destruct Hi as (instr & q & d1 & a1 & d2 & a2 & index & old & Hq & _ & Hfull & Hr1 & Hr2
                  & Hidx & Hold & Hv & Htail & Hrob & _ & Hrs & Hrst & _ & _ & _ & Hbus
                  & Hfus & _).
  set (slot := Z.of_nat (ROB.tail_index_ (ROB_ c))) in *.
  set (new := RS.mk_entry true false (Some instr) slot a1 a2 d1 d2) in *.
  assert (Hkeep : forall k e, zlookup (RS_ c) k = Some e -> RS.valid e = true ->
                    zlookup (RS_ c') k = Some e).
  { intros k e Hk Hve. rewrite Hrs, zlookup_zinsert_ne; [done|]. intros <-. congruence. }
  assert (Hnew : zlookup (RS_ c') index = Some new).
  { rewrite Hrs. by eapply zlookup_zinsert_eq. }
  split; [done|]. split; [|split].
  - destruct Hpair as [Hpb Hpf]. rewrite Hbus, Hfus. unfold core_sched in Hsched. split.
    + intros d Hd. destruct (Hpb d Hd) as (e & He & Hr).
      rewrite Hd in Hsched. destruct (bus_holds _ _ _ Hsched) as (e' & He' & Hve & _).
      assert (e' = e) as -> by congruence. exists e. split; [by apply Hkeep|done].
    + rewrite Forall_forall in Hpf |- *. intros fu Hin Hb i Hinp.
      destruct (Hpf fu Hin Hb i Hinp) as (e & He & Hr).
      destruct (busy_holds _ _ _ fu i Hsched Hin Hb Hinp) as (e' & He' & Hve & _).
      assert (e' = e) as -> by congruence. exists e. split; [by apply Hkeep|done].
  - intros s e Hs Hready.
    unfold ROB.allocate in Hrob. rewrite Hfull in Hrob. cbn [snd] in Hrob.
    destruct (decide (s = slot)) as [->|Hne].
    + exists index, new. split; [|split; [exact Hnew|split; reflexivity]].
      rewrite Hrst. destruct (zlookup_lt (RST_ c) slot) as [y Hy]; [unfold slot; lia|].
      by eapply zlookup_zinsert_eq.
    + rewrite Hrob in Hs. rewrite rob_get_entry_insert_ne in Hs by exact Hne.
      destruct (Hprod s e Hs Hready) as (k & ek & Hk & Hek & Hvk & Hrk).
      exists k, ek. split; [by rewrite Hrst, zlookup_zinsert_ne|].
      split; [by apply Hkeep|done].
  - intros i e p Hie Hve Hp Hp1.
    assert (Hrefs : forall a, a <> -1 ->
              (exists s e, ROB.get_entry (ROB_ c) s = Ok e /\ ROB.ready e = false /\
                           zlookup (RST_ c) s = Some a) ->
              exists e', zlookup (RS_ c') a = Some e' /\ RS.valid e' = true).
    { intros a _ (s & es & Hs & Hready & Ha).
      destruct (Hprod s es Hs Hready) as (k & ek & Hk & Hek & Hvk & _).
      assert (k = a) as -> by congruence. exists ek. split; [by apply Hkeep|done]. }
    destruct (decide (i = index)) as [->|Hne].
    + assert (e = new) as -> by congruence. cbn in Hp.
      destruct Hp as [->| ->].
      * destruct (read_operand_pending _ _ _ _ _ Hr1) as [?|Hx]; [done|by apply Hrefs].
      * destruct (read_operand_pending _ _ _ _ _ Hr2) as [?|Hx]; [done|by apply Hrefs].
    + rewrite Hrs, zlookup_zinsert_ne in Hie by done.
      destruct (Hpend i e p Hie Hve Hp Hp1) as (e' & He' & Hve').
      exists e'. split; [by apply Hkeep|done].
Qed.

Lemma release_wakeup_lookup (data : CDB.data_t) (rs rs' : RS.t) (i : Z) (e : RS.entry_t) :
  RS.release (CDB.rs_index data) (wakeup data rs) = Ok rs' ->
  zlookup rs i = Some e ->
  exists e', zlookup rs' i = Some e' /\ RS.rob_index e' = RS.rob_index e /\
    (i <> CDB.rs_index data ->
     e' = (if RS.valid e then RS.update_operands data e else e)) /\
    (i = CDB.rs_index data -> RS.valid e' = false).
Proof.
  intros Hrel Hi. unfold RS.release, RS.get_entry in Hrel.
  destruct (zlookup (wakeup data rs) (CDB.rs_index data)) as [w|] eqn:Hw; [|done].
  cbn in Hrel. injection Hrel as <-.
  assert (Hwi : zlookup (wakeup data rs) i
                = Some (if RS.valid e then RS.update_operands data e else e)).
  { unfold wakeup. by rewrite zlookup_fmap, Hi. }
  assert (Hrob : RS.rob_index (if RS.valid e then RS.update_operands data e else e)
                 = RS.rob_index e).
  { destruct (RS.valid e); [|done].
    by destruct (update_operands_spec data e) as (_ & _ & _ & -> & _). }
  destruct (decide (i = CDB.rs_index data)) as [->|Hne].
  - exists (RS.set_free w). split; [by eapply zlookup_zinsert_eq|].
    assert (w = if RS.valid e then RS.update_operands data e else e) as -> by congruence.
    split; [done|]. split; done.
  - eexists. split; [by rewrite zlookup_zinsert_ne|]. split; [done|]. split; done.
Qed.

Lemma release_wakeup_lookup_inv (data : CDB.data_t) (rs rs' : RS.t) (i : Z)
    (e' : RS.entry_t) :
  RS.release (CDB.rs_index data) (wakeup data rs) = Ok rs' ->
  zlookup rs' i = Some e' -> RS.valid e' = true ->
  i <> CDB.rs_index data /\
  exists e, zlookup rs i = Some e /\ RS.valid e = true /\ e' = RS.update_operands data e.
Proof.
  intros Hrel Hi Hv.
  assert (He : exists e, zlookup rs i = Some e).
  { apply zlookup_Some_lt in Hi as Hr.
    unfold RS.release, RS.get_entry in Hrel.
    destruct (zlookup (wakeup data rs) (CDB.rs_index data)) as [w|]; [|done].
    cbn in Hrel. injection Hrel as <-.
    rewrite length_zinsert in Hr. unfold wakeup in Hr. rewrite length_fmap in Hr.
    by apply zlookup_lt. }
  destruct He as [e He].
  destruct (release_wakeup_lookup _ _ _ _ _ Hrel He) as (e1 & He1 & _ & Hne & Heq).
  assert (e1 = e') as -> by congruence.
  destruct (decide (i = CDB.rs_index data)) as [Hik|Hik]; [specialize (Heq Hik); congruence|].
  split; [done|]. exists e. split; [done|].
  specialize (Hne Hik). destruct (RS.valid e) eqn:Hve; [done|]. congruence.
Qed.

Lemma rob_update_get_entry (data : CDB.data_t) (rob rob' : ROB.t) (s : Z) (e : ROB.entry_t) :
  ROB.update data rob = Ok rob' -> ROB.get_entry rob' s = Ok e ->
  (s = CDB.rob_index data /\ ROB.ready e = true) \/ ROB.get_entry rob s = Ok e.
Proof.
  unfold ROB.update. intros Hu Hs.
  apply obind_Ok in Hu as (e0 & He0 & Hu). injection Hu as <-.
  unfold ROB.get_entry in *. cbn [ROB.store_] in Hs.
  destruct (decide (s = CDB.rob_index data)) as [->|Hne].
  - left. split; [done|].
    destruct (zlookup (ROB.store_ rob) (CDB.rob_index data)) as [x|] eqn:Hx; [|done].
    erewrite zlookup_zinsert_eq in Hs by done. by injection Hs as <-.
  - right. by rewrite zlookup_zinsert_ne in Hs.
Qed.

Lemma rob_update_ready (data : CDB.data_t) (rob rob' : ROB.t) (e : ROB.entry_t) :
  ROB.update data rob = Ok rob' -> ROB.get_entry rob' (CDB.rob_index data) = Ok e ->
  ROB.ready e = true.
Proof.
  unfold ROB.update. intros Hu Hs.
  apply obind_Ok in Hu as (e0 & He0 & Hu). injection Hu as <-.
  unfold ROB.get_entry in *. cbn [ROB.store_] in Hs.
  destruct (zlookup (ROB.store_ rob) (CDB.rob_index data)) as [x|] eqn:Hx; [|done].
  erewrite zlookup_zinsert_eq in Hs by done. by injection Hs as <-.
Qed.

Lemma writeback_rename (c c' : Core) :
  rename_inv c -> writeback c = Ok c' -> rename_inv c'.
Proof.
  intros (Hsched & Hpair & Hprod & Hpend) Hw.
  destruct (writeback_sched _ _ Hw Hsched) as (Hsched' & _).
  apply writeback_cases in Hw as [[_ ->]|Hw]; [done|].
  destruct Hw as (data & Hbus & Hrel & Hup & Hbus' & _ & _ & Hrst & _ & _ & Hfus & _).
  destruct Hpair as [Hpb Hpf].
  split; [done|]. split; [|split].
  - rewrite Hbus', Hfus. split; [done|].
    eapply Forall_impl; [exact Hpf|]. intros fu Hfu Hb i Hi.
    destruct (Hfu Hb i Hi) as (e & He & Hr).
    destruct (release_wakeup_lookup _ _ _ _ _ Hrel He) as (e' & He' & Hr' & _).
    exists e'. split; [done|congruence].
  - intros s e Hs Hready. rewrite Hrst.
    destruct (rob_update_get_entry _ _ _ _ _ Hup Hs) as [[_ Hr]|Hs0]; [congruence|].
    destruct (Hprod s e Hs0 Hready) as (k & ek & Hk & Hek & Hvk & Hrk).
    destruct (Hpb data Hbus) as (eb & Heb & Hrb).
    destruct (release_wakeup_lookup _ _ _ _ _ Hrel Hek) as (ek' & Hek' & Hr' & Hne & _).
    exists k, ek'. split; [done|]. split; [done|]. split; [|congruence].
    assert (Hkne : k <> CDB.rs_index data).
    { intros ->. assert (eb = ek) as -> by congruence.
      rewrite <- Hrk, Hrb in Hs.
      pose proof (rob_update_ready _ _ _ _ Hup Hs). congruence. }
    rewrite (Hne Hkne), Hvk.
    by destruct (update_operands_spec data ek) as (-> & _).
  - intros i e' p Hi Hv Hp Hp1.
    destruct (release_wakeup_lookup_inv _ _ _ _ _ Hrel Hi Hv) as (Hik & e & He & Hve & ->).
    pose proof (update_operands_spec data e) as (_ & _ & _ & _ & A1 & B1 & A2 & B2).
    cbn zeta in *.
    assert (Hpe : (p = RS.rs1_index e \/ p = RS.rs2_index e) /\ p <> CDB.rs_index data).
    { destruct Hp as [->| ->].
      - destruct (decide (RS.rs1_index e = CDB.rs_index data)) as [E|E].
        + destruct (A1 E) as [E' _]. congruence.
        + destruct (B1 E) as [E' _]. rewrite E'. split; [by left|done].
      - destruct (decide (RS.rs2_index e = CDB.rs_index data)) as [E|E].
        + destruct (A2 E) as [E' _]. congruence.
        + destruct (B2 E) as [E' _]. rewrite E'. split; [by right|done]. }
    destruct Hpe as [Hpe Hpk].
    destruct (Hpend i e p He Hve Hpe Hp1) as (t & Ht & Hvt).
    destruct (release_wakeup_lookup _ _ _ _ _ Hrel Ht) as (t' & Ht' & _ & Hne & _).
    exists t'. split; [done|]. rewrite (Hne Hpk), Hvt.
    by destruct (update_operands_spec data t) as (-> & _).
Qed.

Lemma rob_pop_get_entry (rob : ROB.t) (s : Z) (e : ROB.entry_t) :
  ROB.get_entry (ROB.pop rob) s = Ok e -> ROB.get_entry rob s = Ok e.
Proof.
  unfold ROB.pop. destruct (ROB.empty rob); [done|].
  destruct (decide (s = Z.of_nat (ROB.head_index_ rob))) as [->|Hne].
  - unfold ROB.get_entry. cbn [ROB.store_]. rewrite <- zinsert_of_nat.
    destruct (zlookup (ROB.store_ rob) (Z.of_nat (ROB.head_index_ rob))) as [x|] eqn:Hx.
    + by erewrite zlookup_zinsert_eq.
    + unfold zlookup, zinsert in *.
      destruct (Z.of_nat (ROB.head_index_ rob) <? 0); [done|].
      rewrite list_insert_ge; [by rewrite Hx|].
      by apply lookup_ge_None.
  - by rewrite rob_get_entry_insert_ne.
Qed.

Lemma commit_rename (c c' : Core) :
  rename_inv c -> commit c = Ok c' -> rename_inv c'.
Proof.
  intros (Hsched & Hpair & Hprod & Hpend) Hc.
  destruct (commit_sched _ _ Hc Hsched) as [Hsched' _].
  pose proof (commit_frame _ _ Hc) as (Hrs & Hfus & Hbus & _ & Hrst).
  split; [done|]. unfold producer_ok. rewrite Hrs, Hfus, Hbus, Hrst.
  split; [done|]. split; [|done].
  intros s e Hs Hready. apply (Hprod s e); [|done].
  pose proof Hc as Hc'.
  apply commit_cases in Hc' as [->|(eh & Hne & He & Hrdy & Hrd & Hperf)]; [done|].
  destruct (commit_ready_head c eh Hne He Hrdy Hrd Hperf) as (c1 & Hc1 & _ & _ & Hrob & _).
  assert (c1 = c') as -> by congruence.
  rewrite Hrob in Hs. by apply rob_pop_get_entry.
Qed.

Lemma rename_inv_init (num_regs rob_size rs_size num_fus : nat) :
  rename_inv (init num_regs rob_size rs_size num_fus).
Proof.
  split; [apply core_sched_init|]. split; [|split].
  - split; [done|]. apply Forall_replicate. done.
  - intros s e Hs _. exfalso. unfold ROB.get_entry, zlookup in Hs. cbn in Hs.
    destruct (s <? 0); [done|].
    destruct (replicate rob_size None !! Z.to_nat s) as [x|] eqn:Hx; [|done].
    apply lookup_replicate in Hx as [-> _]. done.
  - intros i e p Hi Hv. exfalso. unfold zlookup in Hi. cbn in Hi.
    destruct (i <? 0); [done|].
    apply lookup_replicate in Hi as [-> _]. done.
Qed.

Lemma run_rename `{Collaborators} (acts : list action) (c c' : Core) :
  rename_inv c -> run acts c = Ok c' -> rename_inv c'.
Proof.
  revert c. induction acts as [|a acts IH]; intros c Hinv Hrun; cbn [run] in Hrun.
  - congruence.
  - apply obind_Ok in Hrun as (c1 & Hstep & Hrun).
    apply (IH c1); [|done]. destruct a as [i| | | |]; cbn [step] in Hstep.
    + injection Hstep as <-. done.
    + by eapply issue_rename.
    + by eapply execute_rename.
    + by eapply writeback_rename.
    + by eapply commit_rename.
Qed.

(** A valid reservation station stays valid through every action but the
    writeback of its own broadcast. *)
Lemma step_release `{Collaborators} (a : action) (c c' : Core) (k : Z) (e e' : RS.entry_t) :
  step a c = Ok c' ->
  zlookup (RS_ c) k = Some e -> RS.valid e = true ->
  zlookup (RS_ c') k = Some e' -> RS.valid e' = false ->
  a = Writeback /\ exists data, CDB_ c = Some data /\ k = CDB.rs_index data.
Proof.
  intros Hstep Hk Hv Hk' Hv'. destruct a as [i| | | |]; cbn [step] in Hstep.
  - exfalso. injection Hstep as <-. cbn in Hk'. congruence.
  - exfalso. apply issue_cases in Hstep as [->|Hi]; [congruence|].
    destruct Hi as (instr & q & d1 & a1 & d2 & a2 & index & old & _ & _ & _ & _ & _
                    & _ & Hold & Hvo & _ & _ & _ & Hrs & _).
    rewrite Hrs in Hk'. destruct (decide (index = k)) as [->|Hne].
    + congruence.
    + rewrite zlookup_zinsert_ne in Hk' by done. congruence.
  - exfalso. apply execute_frame in Hstep
      as (_ & _ & _ & _ & _ & _ & _ & _ & _ & fus & bus & _ & Hs & _).
    apply dispatch_static in Hs.
    destruct (static_lookup _ _ _ _ Hs Hk') as (e0 & He0 & Ev & _). congruence.
  - split; [done|].
    apply writeback_cases in Hstep as [[_ ->]|Hw]; [congruence|].
    destruct Hw as (data & Hbus & Hrel & _). exists data. split; [done|].
    destruct (release_wakeup_lookup _ _ _ _ _ Hrel Hk) as (e1 & He1 & _ & Hne & _).
    destruct (decide (k = CDB.rs_index data)) as [|Hkne]; [done|]. exfalso.
    assert (e1 = e') as -> by congruence.
    rewrite (Hne Hkne), Hv in Hv'.
    destruct (update_operands_spec data e) as (Ev & _). cbn zeta in Ev. congruence.
  - exfalso. apply commit_frame in Hstep as (Hrs & _). congruence.
Qed.

(** C4: in every core reached from the initial state, (1) every pending
    operand of a valid reservation station names a valid reservation
    station, so that no released slot is referred to; (2) the slot that an
    issue fills is one that no valid station is pending on; (3) a valid slot
    is released by no action other than the writeback of its own broadcast;
    (4) that writeback delivers the value to every valid station pending on
    the slot before the release: the release acts on the stations as the
    wakeup left them, where nothing valid refers to the slot any more. *)
Theorem released_slot_is_unreferenced `{Collaborators}
    (num_regs rob_size rs_size num_fus : nat) (acts : list action) (c : Core) :
  run acts (init num_regs rob_size rs_size num_fus) = Ok c ->
  (forall i e p,
     zlookup (RS_ c) i = Some e -> RS.valid e = true ->
     p = RS.rs1_index e \/ p = RS.rs2_index e -> p <> -1 ->
     exists e', zlookup (RS_ c) p = Some e' /\ RS.valid e' = true) /\
  (forall c' k,
     issue c = Ok c' -> zlookup (RS_ c') k <> zlookup (RS_ c) k ->
     forall i e, zlookup (RS_ c) i = Some e -> RS.valid e = true ->
       RS.rs1_index e <> k /\ RS.rs2_index e <> k) /\
  (forall a c' k e e',
     step a c = Ok c' ->
     zlookup (RS_ c) k = Some e -> RS.valid e = true ->
     zlookup (RS_ c') k = Some e' -> RS.valid e' = false ->
     a = Writeback /\ exists data, CDB_ c = Some data /\ k = CDB.rs_index data) /\
  (forall data old target,
     CDB_ c = Some data ->
     zlookup (RS_ c) (CDB.rs_index data) = Some old ->
     ROB.get_entry (ROB_ c) (CDB.rob_index data) = Ok target ->
     exists c', writeback c = Ok c' /\
       RS.release (CDB.rs_index data) (wakeup data (RS_ c)) = Ok (RS_ c') /\
       (forall i e, zlookup (wakeup data (RS_ c)) i = Some e -> RS.valid e = true ->
          RS.rs1_index e <> CDB.rs_index data /\ RS.rs2_index e <> CDB.rs_index data) /\
       (forall i e, zlookup (RS_ c) i = Some e -> RS.valid e = true ->
          i <> CDB.rs_index data ->
          exists e', zlookup (RS_ c') i = Some e' /\ RS.valid e' = true /\
            (RS.rs1_index e = CDB.rs_index data ->
             RS.rs1_index e' = -1 /\ RS.rs1_data e' = CDB.result data) /\
            (RS.rs2_index e = CDB.rs_index data ->
             RS.rs2_index e' = -1 /\ RS.rs2_data e' = CDB.result data)) /\
       (exists e, zlookup (RS_ c') (CDB.rs_index data) = Some e /\ RS.valid e = false) /\
       (forall i e, zlookup (RS_ c') i = Some e -> RS.valid e = true ->
          RS.rs1_index e <> CDB.rs_index data /\ RS.rs2_index e <> CDB.rs_index data)).
Proof.
  intros Hrun.
  pose proof (run_rename _ _ _ (rename_inv_init _ _ _ _) Hrun) as (_ & _ & _ & Hpend).
  split; [exact Hpend|]. split; [|split].
  - intros c' k Hi Hchg i e Hie Hve.
    apply issue_cases in Hi as [->|Hi]; [done|].
    destruct Hi as (instr & q & d1 & a1 & d2 & a2 & index & old & _ & _ & _ & _ & _
                    & Hidx & Hold & Hvo & _ & _ & _ & Hrs & _).
    assert (k = index) as ->.
    { destruct (decide (k = index)) as [|Hne]; [done|]. exfalso. apply Hchg.
      rewrite Hrs. by rewrite zlookup_zinsert_ne. }
    split.
    + intros Hp. destruct (Hpend i e index Hie Hve) as (t & Ht & Hvt);
        [by left|lia|congruence].
    + intros Hp. destruct (Hpend i e index Hie Hve) as (t & Ht & Hvt);
        [by right|lia|congruence].
  - intros a c' k e e'. apply step_release.
  - intros data old target. apply writeback_wakeup_then_release.
Qed.

Lemma released_slot_is_unreferenced_witness :
  let c := after dependent_waiting (init 8 2 2 2) in
  CDB_ c = Some (CDB.mk_data 5 0 0) /\
  RS.rs1_index <$> zlookup (RS_ c) 1 = Some 0 /\
  exists c', writeback c = Ok c' /\
    (exists e', zlookup (RS_ c') 1 = Some e' /\ RS.valid e' = true /\
       RS.rs1_index e' = -1 /\ RS.rs1_data e' = 5) /\
    (exists e, zlookup (RS_ c') 0 = Some e /\ RS.valid e = false).
Proof.
  cbn zeta. split; [reflexivity|]. split; [reflexivity|].
  destruct (@released_slot_is_unreferenced adder 8 2 2 2 dependent_waiting
              (after dependent_waiting (init 8 2 2 2)) ltac:(vm_compute; reflexivity))
    as (_ & _ & _ & H4).
  destruct (H4 (CDB.mk_data 5 0 0)
              (RS.mk_entry true true (Some (ADDI 0 1 0 5)) 0 (-1) (-1) 0 0)
              (ROB.mk_entry (ADDI 0 1 0 5) false 0) eq_refl eq_refl eq_refl)
    as (c' & Hc & _ & _ & Hwake & Hfree & _).
  exists c'. split; [exact Hc|]. split; [|exact Hfree].
  destruct (Hwake 1 (RS.mk_entry true false (Some (ADD 0 4 1 5)) 1 0 (-1) 0 0)
              eq_refl eq_refl ltac:(discriminate))
    as (e' & He' & Hv & H1 & _).
  exists e'. split; [exact He'|]. split; [exact Hv|]. exact (H1 eq_refl).
Defined.

(** ** Runs without faults *)

Lemma rob_tail_fresh (rob : ROB.t) :
  rob_wf rob -> ROB.full rob = false -> ROB.tail_index_ rob ∉ ROB.slots rob.
Proof.
  intros (Hcount & Hhead & Htail & _) Hfull.
  unfold ROB.full in Hfull. apply Nat.eqb_neq in Hfull.
  unfold ROB.slots. intros Hin.
  apply list_elem_of_fmap in Hin as (k & Hk & Hin).
  apply elem_of_seq in Hin. rewrite Htail in Hk.
  apply mod_add_inj in Hk; lia.
Qed.

Lemma rob_allocate_get_entry (i : Instr) (rob : ROB.t) (s : Z) (e : ROB.entry_t) :
  ROB.full rob = false ->
  ROB.get_entry (ROB.allocate i rob).2 s = Ok e ->
  (s = Z.of_nat (ROB.tail_index_ rob) /\ e = ROB.mk_entry i false 0) \/
  (s <> Z.of_nat (ROB.tail_index_ rob) /\ ROB.get_entry rob s = Ok e).
Proof.
  intros Hfull. unfold ROB.allocate. rewrite Hfull. cbn [snd].
  destruct (decide (s = Z.of_nat (ROB.tail_index_ rob))) as [->|Hne].
  - intros Hs. left. split; [done|].
    unfold ROB.get_entry in Hs. cbn [ROB.store_] in Hs.
    rewrite <- zinsert_of_nat in Hs.
    destruct (zlookup (ROB.store_ rob) (Z.of_nat (ROB.tail_index_ rob))) as [x|] eqn:Hx.
    + erewrite zlookup_zinsert_eq in Hs by done. by injection Hs as <-.
    + exfalso. unfold zlookup, zinsert in *.
      destruct (Z.of_nat (ROB.tail_index_ rob) <? 0); [done|].
      rewrite list_insert_ge in Hs; [by rewrite Hx in Hs|]. by apply lookup_ge_None.
  - rewrite rob_get_entry_insert_ne by done. by right.
Qed.

Lemma rob_allocate_get_tail (i : Instr) (rob : ROB.t) :
  rob_wf rob -> ROB.full rob = false ->
  ROB.get_entry (ROB.allocate i rob).2 (Z.of_nat (ROB.tail_index_ rob))
    = Ok (ROB.mk_entry i false 0).
Proof.
  intros Hwf Hfull.
  destruct (rob_allocate_queue i rob Hwf Hfull) as (rob' & Ha & _ & _ & Hst & Hlt & _).
  rewrite Ha. cbn [snd]. unfold ROB.get_entry, zlookup.
  destruct (Z.ltb_spec (Z.of_nat (ROB.tail_index_ rob)) 0); [lia|].
  rewrite Nat2Z.id, Hst, list_lookup_insert_eq; [done|]. exact Hlt.
Qed.

Lemma rob_pop_get_entry_ne (rob : ROB.t) (s : Z) :
  ROB.empty rob = false -> s <> ROB.head_index rob ->
  ROB.get_entry (ROB.pop rob) s = ROB.get_entry rob s.
Proof.
  intros Hne Hs. unfold ROB.pop. rewrite Hne. by apply rob_get_entry_insert_ne.
Qed.

Lemma rob_pop_get_entry_head (rob : ROB.t) (e : ROB.entry_t) :
  rob_wf rob -> ROB.empty rob = false ->
  ROB.get_entry (ROB.pop rob) (ROB.head_index rob) <> Ok e.
Proof.
  intros Hwf Hne Hs.
  destruct (rob_pop_queue rob Hwf Hne) as (_ & _ & _ & Hfree & _).
  unfold ROB.get_entry, ROB.head_index, zlookup in Hs.
  destruct (Z.ltb_spec (Z.of_nat (ROB.head_index_ rob)) 0); [lia|].
  by rewrite Nat2Z.id, Hfree in Hs.
Qed.

Lemma rob_update_get_entry_inv (data : CDB.data_t) (rob rob' : ROB.t) (s : Z)
    (e' : ROB.entry_t) :
  ROB.update data rob = Ok rob' -> ROB.get_entry rob' s = Ok e' ->
  exists e, ROB.get_entry rob s = Ok e /\ ROB.instr e' = ROB.instr e.
Proof.
  intros Hu Hs. pose proof Hu as Hu'. unfold ROB.update in Hu'.
  apply obind_Ok in Hu' as (e0 & He0 & Hu'). injection Hu' as <-.
  destruct (decide (s = CDB.rob_index data)) as [->|Hne].
  - exists e0. split; [done|].
    unfold ROB.get_entry in Hs, He0. cbn [ROB.store_] in Hs.
    destruct (zlookup (ROB.store_ rob) (CDB.rob_index data)) as [x|] eqn:Hx; [|done].
    erewrite zlookup_zinsert_eq in Hs by done. by injection Hs as <-.
  - exists e'. split; [|done].
    unfold ROB.get_entry in *. cbn [ROB.store_] in Hs.
    by rewrite zlookup_zinsert_ne in Hs.
Qed.

Lemma rob_update_get_entry_ne (data : CDB.data_t) (rob rob' : ROB.t) (s : Z) :
  ROB.update data rob = Ok rob' -> s <> CDB.rob_index data ->
  ROB.get_entry rob' s = ROB.get_entry rob s.
Proof.
  intros Hu Hne. unfold ROB.update in Hu.
  apply obind_Ok in Hu as (e0 & He0 & Hu). injection Hu as <-.
  unfold ROB.get_entry. cbn [ROB.store_]. by rewrite zlookup_zinsert_ne.
Qed.

Lemma get_entry_nonneg (rob : ROB.t) (s : Z) (e : ROB.entry_t) :
  ROB.get_entry rob s = Ok e -> 0 <= s.
Proof. intros Hs. by apply rob_get_entry_store in Hs as [? _]. Qed.

Lemma commit_safe (c : Core) :
  safe_inv c -> exists c', commit c = Ok c' /\ safe_inv c'.
Proof.
  intros Hs. destruct (ROB.empty (ROB_ c)) eqn:Hne.
  { exists c. split; [|done]. unfold commit. by rewrite Hne. }
  destruct (rob_head_entry _ (safe_rob c Hs) Hne) as (e & He & Hst & _).
  destruct (ROB.ready e) eqn:Hready; cycle 1.
  { exists c. split; [|done]. unfold commit. rewrite Hne, He. cbn [obind].
    by rewrite Hready. }
  pose proof (safe_flight c Hs _ _ He) as (_ & _ & Hrd & _).
  destruct (safe_count c Hs) as [Hp0 Hcnt].
  assert (Hpos : (0 < ROB.count_ (ROB_ c))%nat).
  { unfold ROB.empty in Hne. apply Nat.eqb_neq in Hne. lia. }
  destruct (commit_ready_head c e Hne He Hready Hrd ltac:(lia))
    as (c' & Hc & Hrf & Hrat & Hrob & Htr & Hperf & Hex & Hq & Hrs & Hrst & Hbus & Hfus & Hfet).
  exists c'. split; [done|].
  destruct (rob_pop_queue _ (safe_rob c Hs) Hne) as (Hwf' & Hsize' & Hcount' & _ & _).
  assert (Hlen : length (reg_file_ c') = length (reg_file_ c)).
  { rewrite Hrf. destruct (use_rd _); [apply length_insert|done]. }
  assert (Hget : forall s x, ROB.get_entry (ROB_ c') s = Ok x ->
            s <> ROB.head_index (ROB_ c) /\ ROB.get_entry (ROB_ c) s = Ok x).
  { intros s x Hx. rewrite Hrob in Hx.
    destruct (decide (s = ROB.head_index (ROB_ c))) as [->|Hsne].
    - by apply rob_pop_get_entry_head in Hx; [|apply Hs|].
    - split; [done|]. by rewrite rob_pop_get_entry_ne in Hx. }
  assert (Hkeep : forall s x, ROB.get_entry (ROB_ c) s = Ok x -> ROB.ready x = false ->
            ROB.get_entry (ROB_ c') s = Ok x).
  { intros s x Hx Hr. rewrite Hrob, rob_pop_get_entry_ne; [done|done|].
    intros ->. congruence. }
  constructor.
  - by rewrite Hrob.
  - rewrite Hrst, Hrob, Hsize'. apply Hs.
  - intros s x Hx. destruct (Hget s x Hx) as [Hsne Hx0].
    pose proof (safe_slots c Hs s x Hx0) as Hin.
    rewrite (rob_pop_slots _ (safe_rob c Hs) Hne) in Hin. rewrite Hrob.
    apply elem_of_cons in Hin as [Heq|Hin]; [|done].
    exfalso. apply Hsne. unfold ROB.head_index. apply get_entry_nonneg in Hx0. lia.
  - intros r s Hr.
    assert (Hr0 : RAT_ c !! r = Some s /\
                  ~ (use_rd (getExeFlags (ROB.instr e)) = true /\ r = getRd (ROB.instr e)
                     /\ s = ROB.head_index (ROB_ c))).
    { rewrite Hrat in Hr. destruct (use_rd _) eqn:Hu; cbn [andb] in Hr.
      - case_bool_decide as Hd.
        + destruct (decide (r = getRd (ROB.instr e))) as [->|Hrne].
          * by rewrite lookup_delete_eq in Hr.
          * rewrite lookup_delete_ne in Hr by done. split; [done|]. intros (_ & ? & _). done.
        + split; [done|]. intros (_ & -> & ->). done.
      - split; [done|]. intros (? & _). done. }
    destruct Hr0 as [Hr0 Hnot].
    destruct (safe_rat c Hs r s Hr0) as (x & Hx & Hu & Hrdx).
    exists x. split; [|done]. rewrite Hrob, rob_pop_get_entry_ne; [done|done|].
    intros ->. apply Hnot. assert (x = e) as -> by congruence. done.
  - intros k x. rewrite Hrs, Hrst, Hfus. intros Hk Hv.
    destruct (safe_rs c Hs k x Hk Hv) as ((re & Hre & Hnr) & Hl & Hi).
    split; [|done]. exists re. split; [by apply Hkeep|done].
  - rewrite Hlen, Hfus, Hq. apply Hs.
  - intros s x Hx. rewrite Hlen, Hfus. destruct (Hget s x Hx) as [_ Hx0].
    by apply (safe_flight c Hs s).
  - rewrite Hperf, Hq, Hrob, Hcount', Hfet.
    pose proof (wrap_range 64 (perf_instrs_ c + 1) ltac:(lia)).
    pose proof (wrap_le 64 (perf_instrs_ c + 1) ltac:(lia) ltac:(lia)). lia.
  - eapply commit_rename; [apply Hs|done].
Qed.

Lemma rob_update_get_entry_fwd (data : CDB.data_t) (rob rob' : ROB.t) (s : Z)
    (e : ROB.entry_t) :
  ROB.update data rob = Ok rob' -> ROB.get_entry rob s = Ok e ->
  exists e', ROB.get_entry rob' s = Ok e' /\ ROB.instr e' = ROB.instr e /\
    (s <> CDB.rob_index data -> e' = e).
Proof.
  intros Hu Hs.
  destruct (decide (s = CDB.rob_index data)) as [->|Hne].
  - unfold ROB.update in Hu. rewrite Hs in Hu. cbn [obind] in Hu. injection Hu as <-.
    exists (ROB.mk_entry (ROB.instr e) true (CDB.result data)).
    split; [|split; [reflexivity|done]].
    unfold ROB.get_entry in *. cbn [ROB.store_].
    destruct (zlookup (ROB.store_ rob) (CDB.rob_index data)) as [x|] eqn:Hx; [|done].
    by erewrite zlookup_zinsert_eq.
  - exists e. split; [|done]. by rewrite (rob_update_get_entry_ne _ _ _ _ Hu Hne).
Qed.

Lemma writeback_safe (c : Core) :
  safe_inv c -> exists c', writeback c = Ok c' /\ safe_inv c' /\ CDB_ c' = None.
Proof.
  intros Hs. destruct (CDB_ c) as [data|] eqn:Hbus; cycle 1.
  { exists c. unfold writeback. by rewrite Hbus. }
  destruct (safe_rename c Hs) as (Hsched & [Hpb _] & _ & _).
  unfold core_sched in Hsched. rewrite Hbus in Hsched.
  destruct (bus_holds _ _ _ Hsched) as (ek & Hek & Hvk & _).
  destruct (Hpb data Hbus) as (ek' & Hek' & Hrk).
  assert (ek' = ek) as -> by congruence.
  destruct (safe_rs c Hs _ _ Hek Hvk) as ((re & Hre & Hnr) & Hlk & _).
  rewrite Hrk in Hre, Hlk.
  destruct (writeback_wakeup_then_release c data ek re Hbus Hek Hre) as (c' & Hw & _).
  exists c'. split; [done|].
  pose proof Hw as Hw'.
  apply writeback_cases in Hw' as [[Hx _]|Hw']; [congruence|].
  destruct Hw' as (data' & Hbus' & Hrel & Hup & Hnone & Htr & Hrat & Hrst & Hrf & Hq
                   & Hfus & Hperf & Hfet & Hex).
  assert (data' = data) as -> by congruence.
  split; [|done].
  destruct (rob_update_queue _ _ _ Hup (safe_rob c Hs))
    as (Hwf' & Hslots & _ & Hsize & Hcount & _).
  constructor.
  - done.
  - rewrite Hrst, Hsize. apply Hs.
  - intros s x Hx. rewrite Hslots.
    destruct (rob_update_get_entry_inv _ _ _ _ _ Hup Hx) as (x0 & Hx0 & _).
    by apply (safe_slots c Hs s x0).
  - intros r s. rewrite Hrat. intros Hr.
    destruct (safe_rat c Hs r s Hr) as (x & Hx & Hu & Hrd).
    destruct (rob_update_get_entry_fwd _ _ _ _ _ Hup Hx) as (x' & Hx' & Hi & _).
    exists x'. rewrite Hi. done.
  - intros k x Hk Hv. rewrite Hrst, Hfus.
    destruct (release_wakeup_lookup_inv _ _ _ _ _ Hrel Hk Hv) as (Hkne & x0 & Hx0 & Hv0 & ->).
    destruct (safe_rs c Hs k x0 Hx0 Hv0) as ((r0 & Hr0 & Hn0) & Hl0 & Hi0).
    destruct (update_operands_spec data x0) as (_ & _ & Ei & Er & _). cbn zeta in Ei, Er.
    rewrite Ei, Er.
    assert (Hne : RS.rob_index x0 <> CDB.rob_index data).
    { intros Heq. rewrite Heq in Hl0. congruence. }
    split; [|done]. exists r0. split; [|done].
    by rewrite (rob_update_get_entry_ne _ _ _ _ Hup Hne).
  - rewrite Hrf, Hfus, Hq. apply Hs.
  - intros s x Hx. rewrite Hrf, Hfus.
    destruct (rob_update_get_entry_inv _ _ _ _ _ Hup Hx) as (x0 & Hx0 & ->).
    by apply (safe_flight c Hs s).
  - rewrite Hperf, Hq, Hcount, Hfet. apply Hs.
  - eapply writeback_rename; [apply Hs|done].
Qed.

Lemma rob_allocate_get_entry_ne (i : Instr) (rob : ROB.t) (s : Z) :
  ROB.full rob = false -> s <> Z.of_nat (ROB.tail_index_ rob) ->
  ROB.get_entry (ROB.allocate i rob).2 s = ROB.get_entry rob s.
Proof.
  intros Hfull Hne. unfold ROB.allocate. rewrite Hfull. cbn [snd].
  by apply rob_get_entry_insert_ne.
Qed.

Lemma read_operand_safe (c : Core) (used : bool) (r : nat) :
  safe_inv c -> (used = true -> (r < length (reg_file_ c))%nat) ->
  exists data index, read_operand c used r = Ok (data, index).
Proof.
  intros Hs Hr. unfold read_operand. destruct used; [|by eexists _, _].
  destruct (RAT_ c !! r) as [s|] eqn:Hrat.
  - destruct (safe_rat c Hs r s Hrat) as (e & He & _). rewrite He. cbn [obind].
    destruct (ROB.ready e); [by eexists _, _|].
    destruct (zlookup_lt (RST_ c) s) as [k Hk].
    { rewrite (safe_rst c Hs). unfold ROB.get_entry in He.
      destruct (zlookup (ROB.store_ (ROB_ c)) s) as [x|] eqn:Hx; [|done].
      apply zlookup_Some_lt in Hx. exact Hx. }
    rewrite Hk. by eexists _, _.
  - destruct (lookup_lt_from_option (reg_file_ c) r (Hr eq_refl)) as [v Hv].
    rewrite Hv. by eexists _, _.
Qed.

Lemma issue_succeeds (c : Core) : safe_inv c -> exists c', issue c = Ok c'.
Proof.
  intros Hs.
  destruct (issue_queue_ c) as [|instr q] eqn:Hq.
  { exists c. unfold issue, issue_with. by rewrite Hq. }
  destruct (RS.full (RS_ c)) eqn:Hrs.
  { exists c. unfold issue, issue_with. by rewrite Hq, Hrs. }
  destruct (ROB.full (ROB_ c)) eqn:Hrob.
  { exists c. unfold issue, issue_with. by rewrite Hq, Hrs, Hrob. }
  pose proof (safe_queue c Hs) as Hok. rewrite Hq in Hok.
  apply Forall_cons in Hok as [(H1 & H2 & _) _].
  destruct (read_operand_safe c _ _ Hs H1) as (d1 & a1 & Hr1).
  destruct (read_operand_safe c _ _ Hs H2) as (d2 & a2 & Hr2).
  unfold issue. rewrite (issue_with_read_operand _ _ c instr q Hq) by (by rewrite Hrs, Hrob).
  rewrite Hr1, Hr2. cbn [obind].
  destruct (rob_allocate_queue instr _ (safe_rob c Hs) Hrob) as (rob' & -> & _ & _ & _ & Hlt & _).
  set (slot := Z.of_nat (ROB.tail_index_ (ROB_ c))).
  destruct (Z.ltb_spec slot 0); [lia|].
  set (c1 := if use_rd _ then _ else _).
  destruct (rs_issue_free slot a1 a2 d1 d2 instr (RS_ c) Hrs) as (index & old & -> & Hidx & _).
  destruct (Z.ltb_spec index 0); [lia|].
  destruct (zlookup_lt (RST_ c) slot) as [y Hy].
  { rewrite (safe_rst c Hs). unfold slot. lia. }
  rewrite Hy. by eexists.
Qed.

Lemma issue_safe (c : Core) :
  safe_inv c -> exists c', issue c = Ok c' /\ safe_inv c'.
Proof.
  intros Hs. destruct (issue_succeeds c Hs) as [c' Hi]. exists c'. split; [exact Hi|].
  destruct (issue_cases c c' Hi) as [->|Hc]; [exact Hs|].
  destruct Hc as (instr & q & d1 & a1 & d2 & a2 & index & old & Hq & Hrs & Hrob & Hr1 & Hr2
    & Hidx & Hold & Hfree & Htail & HROB & HRAT & HRS & HRST & Hq' & Htr & Hreg & Hcdb & Hfus
    & Hperf & Hfetched & Hexit).
  pose proof (safe_rob c Hs) as Hwf.
  destruct (rob_allocate_slots instr _ Hwf Hrob) as (Hslots & _ & Hwf').
  destruct (rob_allocate_queue instr _ Hwf Hrob) as (rob' & Hal & _ & Hsize & _ & Hlt & _).
  pose proof (rob_tail_fresh _ Hwf Hrob) as Hfresh.
  pose proof (safe_queue c Hs) as Hok. rewrite Hq in Hok.
  apply Forall_cons in Hok as [Hinstr Hrest].
  set (slot := Z.of_nat (ROB.tail_index_ (ROB_ c))) in *.
  assert (Hold_ne : forall s e, ROB.get_entry (ROB_ c) s = Ok e -> s <> slot).
  { intros s e He ->. apply (safe_slots c Hs) in He. unfold slot in He.
    rewrite Nat2Z.id in He. by apply Hfresh. }
  assert (Hkeep : forall s e, ROB.get_entry (ROB_ c) s = Ok e ->
            ROB.get_entry (ROB_ c') s = Ok e).
  { intros s e He. rewrite HROB, rob_allocate_get_entry_ne; eauto. }
  assert (Hnew : ROB.get_entry (ROB_ c') slot = Ok (ROB.mk_entry instr false 0)).
  { rewrite HROB. by apply rob_allocate_get_tail. }
  assert (Hcount : ROB.count_ (ROB_ c') = S (ROB.count_ (ROB_ c))).
  { rewrite HROB. unfold ROB.allocate. rewrite Hrob. cbn. lia. }
  assert (Hsz : ROB.size (ROB_ c') = ROB.size (ROB_ c)).
  { rewrite HROB, Hal. exact Hsize. }
  split.
  - by rewrite HROB.
  - by rewrite HRST, length_zinsert, Hsz, (safe_rst c Hs).
  - intros s e He. rewrite HROB in He |- *. rewrite Hslots.
    apply (rob_allocate_get_entry _ _ _ _ Hrob) in He as [[-> _]|[_ He]].
    + rewrite Nat2Z.id. apply elem_of_app. right. by apply list_elem_of_singleton.
    + apply elem_of_app. left. by apply (safe_slots c Hs) in He.
  - intros r s Hr. rewrite HRAT in Hr.
    destruct (use_rd (getExeFlags instr)) eqn:Hrd.
    + destruct (decide (r = getRd instr)) as [->|Hne].
      * rewrite lookup_insert_eq in Hr. injection Hr as <-.
        eexists. split; [exact Hnew|]. by split.
      * rewrite lookup_insert_ne in Hr by done.
        destruct (safe_rat c Hs r s Hr) as (e & He & Hx). exists e. split; [eauto|exact Hx].
    + destruct (safe_rat c Hs r s Hr) as (e & He & Hx). exists e. split; [eauto|exact Hx].
  - intros k e Hk Hv. rewrite Hfus. rewrite HRS in Hk. rewrite HRST.
    destruct (decide (k = index)) as [->|Hne].
    + rewrite (zlookup_zinsert_eq _ _ _ _ Hold) in Hk. injection Hk as <-. cbn.
      split; [by eexists|]. split.
      * destruct (zlookup_lt (RST_ c) slot) as [y Hy]; [unfold slot; lia|].
        by apply (zlookup_zinsert_eq _ _ _ y).
      * exists instr. split; [done|]. apply Hinstr.
    + rewrite zlookup_zinsert_ne in Hk by done.
      destruct (safe_rs c Hs k e Hk Hv) as ((re & Hre & Hnr) & Hrst & Hin).
      split; [exists re; split; eauto|]. split; [|exact Hin].
      rewrite zlookup_zinsert_ne; [exact Hrst|]. intros Heq. symmetry in Heq.
      by apply (Hold_ne _ _ Hre).
  - by rewrite Hreg, Hfus, Hq'.
  - intros s e He. rewrite Hreg, Hfus. rewrite HROB in He.
    apply (rob_allocate_get_entry _ _ _ _ Hrob) in He as [[_ ->]|[_ He]]; [exact Hinstr|].
    by apply (safe_flight c Hs s).
  - rewrite Hperf, Hfetched, Hq', Hcount. pose proof (safe_count c Hs) as Hc.
    rewrite Hq in Hc. cbn [length] in Hc. lia.
  - by apply (issue_rename c c' (safe_rename c Hs)).
Qed.

Lemma drain_length (fus fus' : list FU.t) (bus bus' : CDB.t) :
  drain fus bus = Ok (fus', bus') -> length fus' = length fus.
Proof.
  revert fus' bus'. induction fus as [|fu rest IH]; intros fus' bus' Hd; cbn in Hd.
  - by injection Hd as <- _.
  - destruct (FU.done fu).
    + apply obind_Ok in Hd as (b & _ & Hd). by injection Hd as <- _.
    + apply obind_Ok in Hd as ([rest' b] & Hr & Hd). injection Hd as <- _.
      cbn. f_equal. by eapply IH.
Qed.

Lemma drain_free_bus (fus : list FU.t) :
  exists fus' bus', drain fus None = Ok (fus', bus').
Proof.
  induction fus as [|fu rest (rest' & b & IH)]; cbn; [by eexists _, _|].
  destruct (FU.done fu); cbn; [by eexists _, _|]. rewrite IH. cbn. by eexists _, _.
Qed.

Lemma dispatch_length `{Collaborators} (n : nat) (k : Z) (rs rs' : RS.t)
    (fus fus' : list FU.t) :
  dispatch n k rs fus = Ok (rs', fus') ->
  length fus' = length fus /\ length rs' = length rs.
Proof.
  revert k rs fus. induction n as [|n IH]; intros k rs fus Hd; cbn in Hd.
  - by injection Hd as <- <-.
  - apply obind_Ok in Hd as (entry & _ & Hd).
    apply obind_Ok in Hd as ([rs1 fus1] & Hone & Hd).
    apply IH in Hd as [-> ->].
    destruct (_ && _) in Hone; [|by injection Hone as <- <-].
    apply obind_Ok in Hone as (i & _ & Hone).
    apply obind_Ok in Hone as (fu & _ & Hone).
    destruct (negb _) in Hone; injection Hone as <- <-; [|done].
    by rewrite length_insert, length_zinsert.
Qed.

Lemma dispatch_succeeds `{Collaborators} (n : nat) (k : Z) (rs : RS.t) (fus : list FU.t) :
  0 <= k -> k + Z.of_nat n <= Z.of_nat (length rs) ->
  (forall j e, zlookup rs j = Some e -> RS.valid e = true ->
     exists i, RS.instr e = Some i /\ (getFUType i < length fus)%nat) ->
  exists rs' fus', dispatch n k rs fus = Ok (rs', fus').
Proof.
  revert k rs fus. induction n as [|n IH]; intros k rs fus Hk Hn Hin; cbn [dispatch].
  - by eexists _, _.
  - destruct (zlookup_lt rs k) as [entry He]; [lia|].
    unfold RS.get_entry. rewrite He. cbn [from_option obind].
    assert (Hnext : forall rs1 fus1,
              length rs1 = length rs -> length fus1 = length fus ->
              RS.set_running <$> rs1 = RS.set_running <$> rs ->
              exists rs' fus', dispatch n (k + 1) rs1 fus1 = Ok (rs', fus')).
    { intros rs1 fus1 Hl1 Hl2 Hst. apply IH; [lia|lia|].
      intros j e Hj Hv. destruct (static_lookup _ _ _ _ Hst Hj) as (e0 & Hj0 & Hv0 & _ & _ & _ & Hi0).
      rewrite Hl2, Hi0. apply (Hin j e0 Hj0). congruence. }
    destruct (RS.valid entry && negb (RS.running entry) && RS.operands_ready entry
              && negb (rs_locked rs k)) eqn:Hc; [|by apply Hnext].
    apply andb_prop in Hc as [Hc _]. apply andb_prop in Hc as [Hc _].
    apply andb_prop in Hc as [Hv _].
    destruct (Hin k entry He Hv) as (i & Hi & Hfu). rewrite Hi. cbn [from_option obind].
    destruct (lookup_lt_from_option fus _ Hfu) as [fu Hfu'].
    rewrite Hfu'. cbn [obind].
    destruct (negb (FU.busy fu)); cbn [obind]; [|by apply Hnext].
    apply Hnext.
    + by rewrite length_zinsert.
    + by rewrite length_insert.
    + by apply (zinsert_same_image _ _ _ entry).
Qed.

Lemma execute_keeps_safe `{Collaborators} (c c' : Core) :
  safe_inv c -> execute c = Ok c' -> safe_inv c'.
Proof.
  intros Hs Hex.
  destruct (execute_frame c c' Hex) as (HROB & Htr & HRAT & HRST & Hreg & Hq & Hperf & Hfetched
    & Hexit & fus1 & bus1 & Hd & Hdi & Hcdb).
  apply drain_length in Hd as Hl1. rewrite length_fmap in Hl1.
  apply dispatch_length in Hdi as Hl2. destruct Hl2 as [Hl2 _].
  apply dispatch_static in Hdi as Hst.
  assert (Hfus : length (FUs_ c') = length (FUs_ c)) by congruence.
  split; rewrite ?HROB, ?HRST, ?HRAT, ?Hreg, ?Hq, ?Hperf, ?Hfetched, ?Hfus.
  - apply Hs.
  - apply Hs.
  - apply Hs.
  - apply Hs.
  - intros k e' Hk Hv.
    destruct (static_lookup _ _ _ _ Hst Hk) as (e & Hk0 & Hv0 & Hr0 & _ & _ & Hi0).
    rewrite Hr0, Hi0. apply (safe_rs c Hs k e Hk0). congruence.
  - apply Hs.
  - apply Hs.
  - apply Hs.
  - by apply (execute_rename c c' (safe_rename c Hs)).
Qed.

Lemma execute_safe `{Collaborators} (c : Core) :
  safe_inv c -> CDB_ c = None -> exists c', execute c = Ok c' /\ safe_inv c'.
Proof.
  intros Hs Hbus.
  assert (Hex : exists c', execute c = Ok c').
  { unfold execute. rewrite Hbus.
    destruct (drain_free_bus (FU.execute <$> FUs_ c)) as (fus1 & bus1 & Hd).
    rewrite Hd. cbn [obind]. apply drain_length in Hd as Hl. rewrite length_fmap in Hl.
    destruct (dispatch_succeeds (RS.size (RS_ c)) 0 (RS_ c) fus1) as (rs' & fus' & Hdi).
    - lia.
    - unfold RS.size. lia.
    - intros j e Hj Hv. rewrite Hl. by apply (safe_rs c Hs j e Hj Hv).
    - rewrite Hdi. cbn [obind]. by eexists. }
  destruct Hex as [c' Hex]. exists c'. split; [exact Hex|]. by eapply execute_keeps_safe.
Qed.

Lemma fetch_safe (i : Instr) (c : Core) :
  safe_inv c -> instr_ok (length (reg_file_ c)) (length (FUs_ c)) i ->
  safe_inv (fetch i c).
Proof.
  intros Hs Hi. split; cbn.
  - apply Hs.
  - apply Hs.
  - apply Hs.
  - apply Hs.
  - apply Hs.
  - apply Forall_app. split; [apply Hs|]. by apply Forall_singleton.
  - apply Hs.
  - pose proof (safe_count c Hs) as Hc. rewrite length_app. cbn. lia.
  - exact (safe_rename c Hs).
Qed.

Lemma safe_inv_init (num_regs rob_size rs_size num_fus : nat) :
  safe_inv (init num_regs rob_size rs_size num_fus).
Proof.
  assert (Hnone : forall s e,
            ROB.get_entry (ROB_ (init num_regs rob_size rs_size num_fus)) s = Ok e -> False).
  { intros s e Hs. unfold ROB.get_entry, zlookup in Hs. cbn in Hs.
    destruct (s <? 0); [done|].
    destruct (replicate rob_size None !! Z.to_nat s) as [x|] eqn:Hx; [|done].
    apply lookup_replicate in Hx as [-> _]. done. }
  split.
  - apply rob_wf_create.
  - cbn. unfold ROB.size. cbn. by rewrite !length_replicate.
  - intros s e He. by destruct (Hnone s e).
  - intros r s Hr. cbn in Hr. by rewrite lookup_empty in Hr.
  - intros k e Hk Hv. exfalso. unfold zlookup in Hk. cbn in Hk.
    destruct (k <? 0); [done|]. apply lookup_replicate in Hk as [-> _]. done.
  - cbn. constructor.
  - intros s e He. by destruct (Hnone s e).
  - cbn. lia.
  - apply rename_inv_init.
Qed.

Lemma tick_safe `{Collaborators} (c : Core) :
  safe_inv c -> exists c', tick c = Ok c' /\ safe_inv c'.
Proof.
  intros Hs. unfold tick.
  destruct (commit_safe c Hs) as (c1 & -> & Hs1). cbn [obind].
  destruct (writeback_safe c1 Hs1) as (c2 & -> & Hs2 & Hbus). cbn [obind].
  destruct (execute_safe c2 Hs2 Hbus) as (c3 & -> & Hs3). cbn [obind].
  by apply issue_safe.
Qed.

Lemma ticks_safe `{Collaborators} (n : nat) (c : Core) :
  safe_inv c -> exists cn, ticks n c = Ok cn /\ safe_inv cn.
Proof.
  revert c. induction n as [|n IH]; intros c Hs; cbn [ticks]; [by exists c|].
  destruct (tick_safe c Hs) as (c1 & -> & Hs1). cbn [obind]. by apply IH.
Qed.

Lemma step_sized `{Collaborators} (a : action) (c c' : Core) :
  step a c = Ok c' ->
  length (reg_file_ c') = length (reg_file_ c) /\ length (FUs_ c') = length (FUs_ c).
Proof.
  destruct a as [i| | | |]; cbn [step]; intros Hstep.
  - by injection Hstep as <-.
  - apply issue_cases in Hstep as [->|Hc]; [done|].
    destruct Hc as (instr & q & d1 & a1 & d2 & a2 & index & old & _ & _ & _ & _ & _
      & _ & _ & _ & _ & _ & _ & _ & _ & _ & _ & -> & _ & -> & _). done.
  - destruct (execute_frame c c' Hstep) as (_ & _ & _ & _ & -> & _ & _ & _
      & _ & fus1 & bus1 & Hd & Hdi & _).
    split; [done|]. apply drain_length in Hd. rewrite length_fmap in Hd.
    apply dispatch_length in Hdi as [Hl _]. congruence.
  - apply writeback_cases in Hstep as [[_ ->]|(data & _ & _ & _ & _ & _ & _ & _ & -> & _ & -> & _)];
      done.
  - pose proof Hstep as Hc.
    apply commit_cases in Hc as [->|(e & Hne & He & Hready & Hrd & Hperf)]; [done|].
    destruct (commit_ready_head c e Hne He Hready Hrd Hperf) as (c1 & Hc1 & Hrf & H1).
    assert (c1 = c') as -> by congruence.
    destruct H1 as (_ & _ & _ & _ & _ & _ & _ & _ & _ & -> & _). split; [|done].
    rewrite Hrf. destruct (use_rd _); [apply length_insert|done].
Qed.

Lemma step_safe `{Collaborators} (a : action) (c c' : Core) :
  well_formed (length (reg_file_ c)) (length (FUs_ c)) a ->
  safe_inv c -> step a c = Ok c' -> safe_inv c'.
Proof.
  intros Hwf Hs Hstep. destruct a as [i| | | |]; cbn [step] in Hstep.
  - injection Hstep as <-. by apply fetch_safe.
  - destruct (issue_safe c Hs) as (c1 & H1 & Hs1). congruence.
  - by eapply execute_keeps_safe.
  - destruct (writeback_safe c Hs) as (c1 & H1 & Hs1 & _). congruence.
  - destruct (commit_safe c Hs) as (c1 & H1 & Hs1). congruence.
Qed.

Lemma run_safe `{Collaborators} (acts : list action) (c c' : Core) :
  Forall (well_formed (length (reg_file_ c)) (length (FUs_ c))) acts ->
  safe_inv c -> run acts c = Ok c' ->
  safe_inv c' /\
  length (reg_file_ c') = length (reg_file_ c) /\ length (FUs_ c') = length (FUs_ c).
Proof.
  revert c. induction acts as [|a acts IH]; intros c Hwf Hs Hrun; cbn [run] in Hrun.
  - by injection Hrun as <-.
  - apply obind_Ok in Hrun as (c1 & Hstep & Hrun).
    apply Forall_cons in Hwf as [Ha Hwf].
    destruct (step_sized a c c1 Hstep) as [Hl1 Hl2].
    destruct (IH c1) as (Hs' & Hl1' & Hl2'); [by rewrite Hl1, Hl2|by eapply step_safe|done|].
    split; [done|]. split; congruence.
Qed.

Lemma run_app `{Collaborators} (acts1 acts2 : list action) (c : Core) :
  run (acts1 ++ acts2) c = do c1 <- run acts1 c; run acts2 c1.
Proof.
  revert c. induction acts1 as [|a acts1 IH]; intros c; cbn; [done|].
  destruct (step a c) as [c1|]; cbn; [apply IH|done].
Qed.

Lemma run_driven `{Collaborators} (prog : list (list Instr)) (c : Core) :
  Forall (Forall (instr_ok (length (reg_file_ c)) (length (FUs_ c)))) prog ->
  safe_inv c ->
  exists c', run (driven prog) c = Ok c' /\ safe_inv c'.
Proof.
  revert c. induction prog as [|batch prog IH]; intros c Hok Hs; [by exists c|].
  apply Forall_cons in Hok as [Hb Hok].
  unfold driven. cbn [fmap list_fmap concat]. fold (driven prog).
  assert (Hfetch : exists c1, run (Fetch <$> batch) c = Ok c1 /\ safe_inv c1 /\
            length (reg_file_ c1) = length (reg_file_ c) /\
            length (FUs_ c1) = length (FUs_ c)).
  { clear IH Hok. revert c Hb Hs. induction batch as [|i batch IHb]; intros c Hb Hs.
    - by exists c.
    - apply Forall_cons in Hb as [Hi Hb]. cbn.
      destruct (IHb (fetch i c)) as (c1 & H1 & Hs1 & Hl); [done|by apply fetch_safe|].
      by exists c1. }
  destruct Hfetch as (c1 & Hf & Hs1 & Hl1 & Hl2).
  destruct (tick_safe c1 Hs1) as (c2 & Ht & Hs2).
  assert (Hcycle : run cycle c1 = Ok c2).
  { unfold tick in Ht. cbn. 
    destruct (commit c1) as [x1|]; [|done]. cbn in Ht |- *.
    destruct (writeback x1) as [x2|]; [|done]. cbn in Ht |- *.
    destruct (execute x2) as [x3|]; [|done]. cbn in Ht |- *.
    destruct (issue x3) as [x4|]; [|done]. done. }
  destruct (run_safe cycle c1 c2) as (_ & Hl3 & Hl4); [by repeat constructor|done|done|].
  destruct (IH c2) as (c3 & Hr & Hs3); [|done|].
  { by rewrite Hl3, Hl4, Hl1, Hl2. }
  exists c3. split; [|done].
  rewrite <- app_assoc, run_app, Hf. cbn [obind]. by rewrite run_app, Hcycle.
Qed.

(** ** Every completed unit broadcasts *)

(** C3: in every core reached from the initial state, (1) an execute on a
    drained bus puts on the bus the output of the first completed unit in
    scan order, and leaves every other completed unit completed, with its
    result; (2) over the following cycles a completed unit keeps its result
    until the cycle at the end of which the bus carries it; (3) that cycle
    comes within as many cycles as there are instructions waiting in the
    issue queue or occupying a reservation station, plus two; (4) when every
    instruction handed over names registers and a unit that the core has,
    those cycles run without a fault, so that the bus does carry the result
    at the end of one of them. *)
Theorem one_broadcast_per_cycle `{Collaborators}
    (num_regs rob_size rs_size num_fus : nat) (acts : list action) (c : Core) :
  run acts (init num_regs rob_size rs_size num_fus) = Ok c ->
  (forall c', CDB_ c = None -> execute c = Ok c' ->
     match first_done 0 (FU.execute <$> FUs_ c) with
     | None => CDB_ c' = None
     | Some (i, fu) =>
         CDB_ c' = Some (FU.get_output fu) /\
         forall j fu', j <> i -> (FU.execute <$> FUs_ c) !! j = Some fu' ->
           FU.done fu' = true -> FUs_ c' !! j = Some fu'
     end) /\
  (forall j fu n cn,
     FUs_ c !! j = Some fu -> FU.done fu = true -> ticks n c = Ok cn ->
     FUs_ cn !! j = Some fu \/
     exists k ck, (k < n)%nat /\ ticks (S k) c = Ok ck /\
       CDB_ ck = Some (FU.get_output fu)) /\
  (forall j fu n cn,
     FUs_ c !! j = Some fu -> FU.done fu = true ->
     (backlog c + 2 <= n)%nat -> ticks n c = Ok cn ->
     exists k ck, (k < n)%nat /\ ticks (S k) c = Ok ck /\
       CDB_ ck = Some (FU.get_output fu)) /\
  (Forall (well_formed num_regs num_fus) acts ->
   forall j fu,
     FUs_ c !! j = Some fu -> FU.done fu = true ->
     exists k ck, (k < backlog c + 2)%nat /\ ticks (S k) c = Ok ck /\
       CDB_ ck = Some (FU.get_output fu)).
Proof.
  intros Hrun.
  pose proof (run_sched _ _ _ (core_sched_init _ _ _ _) Hrun) as Hok.
  assert (Hbound : forall j fu n cn,
            FUs_ c !! j = Some fu -> FU.done fu = true ->
            (backlog c + 2 <= n)%nat -> ticks n c = Ok cn ->
            exists k ck, (k < n)%nat /\ ticks (S k) c = Ok ck /\
              CDB_ ck = Some (FU.get_output fu)).
  { intros j fu n cn Hj Hdone Hn Ht.
    destruct n as [|n]; [lia|]. cbn [ticks] in Ht.
    apply obind_Ok in Ht as (c1 & Ht1 & Ht).
    destruct (tick_contention c c1 j fu Hok Ht1 Hj Hdone)
      as [Hok1 [Hwon|(Hj1 & Hbus1 & Hle & _)]].
    - exists 0%nat, c1. split; [lia|]. split; [|done]. cbn. by rewrite Ht1.
    - destruct (ticks_broadcast (backlog c) n c1 cn j fu Hok1 Hj1 Hdone Hbus1
                  ltac:(lia) ltac:(lia) Ht) as (k & ck & Hk & Htk & Hck).
      exists (S k), ck. split; [lia|]. split; [|done].
      cbn [ticks]. by rewrite Ht1. }
  split; [|split; [|split; [exact Hbound|]]].
  - intros c' Hbus He. by apply execute_contention; [|apply core_sched_wf|].
  - intros j fu n cn Hj Hdone Ht. by eapply ticks_keep_or_broadcast.
  - intros Hwf j fu Hj Hdone.
    destruct (run_safe acts (init num_regs rob_size rs_size num_fus) c) as (Hs & _).
    + cbn. by rewrite !length_replicate.
    + apply safe_inv_init.
    + exact Hrun.
    + destruct (ticks_safe (backlog c + 2) c Hs) as (cn & Hcn & _).
      by apply (Hbound j fu (backlog c + 2)%nat cn).
Qed.

Lemma one_broadcast_per_cycle_witness :
  let c := after both_complete (init 8 2 2 2) in
  CDB_ c = None /\
  FU.done <$> (@FU.execute adder <$> FUs_ c) = [true; true] /\
  exists c', @execute adder c = Ok c' /\
    CDB_ c' = Some (CDB.mk_data 22 1 1) /\
    (exists fu, FUs_ c' !! 1%nat = Some fu /\ FU.done fu = true /\
                FU.get_output fu = CDB.mk_data 11 0 0) /\
    exists k ck, (k < 4)%nat /\ @ticks adder (S k) c' = Ok ck /\
      CDB_ ck = Some (CDB.mk_data 11 0 0).
Proof.
  cbn zeta. split; [reflexivity|]. split; [reflexivity|].
  exists (after (both_complete ++ [Execute]) (init 8 2 2 2)).
  split; [vm_compute; reflexivity|].
  destruct (@one_broadcast_per_cycle adder 8 2 2 2 both_complete
              (after both_complete (init 8 2 2 2)) ltac:(vm_compute; reflexivity))
    as (H1 & _ & _).
  specialize (H1 (after (both_complete ++ [Execute]) (init 8 2 2 2)) eq_refl
                 ltac:(vm_compute; reflexivity)).
  vm_compute first_done in H1. destruct H1 as [Hbus Hkeep].
  split; [exact Hbus|]. split.
  - eexists. split; [apply (Hkeep 1%nat); [discriminate|reflexivity|reflexivity]|].
    split; reflexivity.
  - destruct (@one_broadcast_per_cycle adder 8 2 2 2 (both_complete ++ [Execute])
                (after (both_complete ++ [Execute]) (init 8 2 2 2))
                ltac:(vm_compute; reflexivity))
      as (_ & _ & _ & H4).
    assert (Hwf : Forall (well_formed 8 2) (both_complete ++ [Execute])).
    { unfold both_complete, cycles, cycle. cbn.
      repeat (constructor;
              [cbn [well_formed];
               first [exact I | unfold instr_ok; cbn; repeat split; intros; lia]|]).
      constructor. }
    apply (H4 Hwf 1%nat
             (FU.mk true true (Some (FU.mk_input (ADDI 1 1 0 11) 0 0 0 0)) 0
                    (CDB.mk_data 11 0 0))).
    + reflexivity.
    + reflexivity.
Defined.

(** * Further properties of the code *)

(** ** Branch prediction *)

Lemma mask_ones (w s : Z) :
  0 <= w -> 0 <= s -> wrap w ((1 ≪ s) - 1) = Z.ones (Z.min s w).
Proof.
  intros Hw Hs. rewrite Z.shiftl_1_l. unfold wrap.
  replace (2 ^ s - 1) with (Z.ones s) by (rewrite Z.ones_equiv; lia).
  apply Z.bits_inj'. intros i Hi.
  rewrite Z.testbit_mod_pow2 by done. rewrite !Z.testbit_ones_nonneg by lia.
  destruct (Z.ltb_spec i w), (Z.ltb_spec i s), (Z.ltb_spec i (Z.min s w)); cbn; lia.
Qed.

Lemma testbit_bit (t : bool) (i : Z) :
  Z.testbit (if t then 1 else 0) i = t && (i =? 0).
Proof.
  destruct t; [|by rewrite Z.bits_0].
  destruct i as [|p|p]; [done| |done]. by destruct p.
Qed.

Lemma history_step (w n bhr i : Z) (t : bool) :
  0 <= n <= w -> 0 <= i ->
  Z.testbit (wrap w (Z.land (Z.lor (bhr ≪ 1) (if t then 1 else 0)) (Z.ones n))) i
  = (i <? n) && (if i =? 0 then t else Z.testbit bhr (i - 1)).
Proof.
  intros Hn Hi. unfold wrap.
  rewrite Z.testbit_mod_pow2 by lia.
  rewrite Z.land_spec, Z.lor_spec, Z.shiftl_spec, testbit_bit by done.
  rewrite Z.testbit_ones_nonneg by lia.
  destruct (Z.eqb_spec i 0) as [->|Hne].
  - rewrite Z.testbit_neg_r by lia.
    destruct (Z.ltb_spec 0 w), (Z.ltb_spec 0 n), t; cbn; lia.
  - rewrite andb_false_r, orb_false_r.
    destruct (Z.ltb_spec i w), (Z.ltb_spec i n), (Z.testbit bhr (i - 1)); cbn; lia.
Qed.

Lemma ones_saturated (w n i : Z) :
  0 <= n <= w -> 0 <= i ->
  Z.testbit (wrap w (Z.land (Z.lor (Z.ones n ≪ 1) 1) (Z.ones n))) i = Z.testbit (Z.ones n) i.
Proof.
  intros Hn Hi. rewrite (history_step w n (Z.ones n) i true) by done.
  rewrite !Z.testbit_ones by lia.
  destruct (Z.eqb_spec i 0), (Z.ltb_spec i n), (Z.leb_spec 0 i), (Z.leb_spec 0 (i - 1)),
    (Z.ltb_spec (i - 1) n); cbn; lia.
Qed.

Lemma nth_rev_snoc {A : Type} (l : list A) (x d : A) (i : Z) :
  0 <= i ->
  nth (Z.to_nat i) (rev (l ++ [x])) d
  = if i =? 0 then x else nth (Z.to_nat (i - 1)) (rev l) d.
Proof.
  intros Hi. rewrite rev_app_distr. cbn [rev app].
  destruct (Z.eqb_spec i 0) as [->|Hne]; [done|].
  replace (Z.to_nat i) with (S (Z.to_nat (i - 1))) by lia. done.
Qed.

(** Two addresses with the same position and the same tag in a target
    buffer whose size is a power of two are in the same word. *)
Lemma index_tag_word (k PC PC' : Z) :
  0 <= k <= 31 -> 0 <= PC < 2 ^ 32 -> 0 <= PC' < 2 ^ 32 ->
  btb_index (wrap 32 (2 ^ k - 1)) PC = btb_index (wrap 32 (2 ^ k - 1)) PC' ->
  btb_tag_of (log2ceil (2 ^ k)) PC = btb_tag_of (log2ceil (2 ^ k)) PC' ->
  PC ≫ 2 = PC' ≫ 2.
Proof.
  intros Hk HPC HPC'. unfold btb_index, btb_tag_of, log2ceil.
  rewrite Z.log2_up_pow2 by lia.
  assert (H2k : 0 < 2 ^ k) by (apply Z.pow_pos_nonneg; lia).
  assert (Hle : 2 ^ k <= 2 ^ 31) by (apply Z.pow_le_mono_r; lia).
  rewrite (wrap_small 32 (2 ^ k - 1)) by lia.
  replace (2 ^ k - 1) with (Z.ones k) by (rewrite Z.ones_equiv; lia).
  rewrite !Z.land_ones by lia. rewrite !Z.shiftr_div_pow2 by lia.
  assert (Hx : forall x, 0 <= x < 2 ^ 32 -> 0 <= x / 2 ^ 2 < 2 ^ 30).
  { intros x Hx. split; [apply Z.div_pos; lia|]. apply Z.div_lt_upper_bound; lia. }
  pose proof (Hx PC HPC) as H1. pose proof (Hx PC' HPC') as H2.
  set (x := PC / 2 ^ 2) in *. set (y := PC' / 2 ^ 2) in *.
  pose proof (Z.mod_pos_bound x (2 ^ k) H2k). pose proof (Z.mod_pos_bound y (2 ^ k) H2k).
  assert (0 <= x / 2 ^ k <= x) by (split; [apply Z.div_pos; lia|apply Z.div_le_upper_bound; nia]).
  assert (0 <= y / 2 ^ k <= y) by (split; [apply Z.div_pos; lia|apply Z.div_le_upper_bound; nia]).
  rewrite !wrap_small by lia. intros Hm Hd.
  rewrite (Z.div_mod x (2 ^ k)), (Z.div_mod y (2 ^ k)) by lia. congruence.
Qed.

Lemma pht_next_up (i ctr : Z) (pht : list Z) :
  two_bit ctr -> zlookup pht i = Some ctr ->
  zlookup (pht_next true i ctr pht) i = Some (Z.min (ctr + 1) 3).
Proof.
  unfold two_bit, pht_next. intros Hc Hi. destruct (Z.ltb_spec ctr 3).
  - rewrite (zlookup_zinsert_eq _ _ _ _ Hi), wrap_small by lia. f_equal. lia.
  - rewrite Hi. f_equal. lia.
Qed.

Lemma pht_next_down (i ctr : Z) (pht : list Z) :
  two_bit ctr -> zlookup pht i = Some ctr ->
  zlookup (pht_next false i ctr pht) i = Some (Z.max (ctr - 1) 0).
Proof.
  unfold two_bit, pht_next. intros Hc Hi. destruct (Z.ltb_spec 0 ctr).
  - rewrite (zlookup_zinsert_eq _ _ _ _ Hi), wrap_small by lia. f_equal. lia.
  - rewrite Hi. f_equal. lia.
Qed.

Lemma rev_replicate {A : Type} (k : nat) (x : A) : rev (replicate k x) = replicate k x.
Proof.
  induction k as [|k IH]; [done|]. cbn [replicate rev]. rewrite IH.
  clear. induction k as [|k IH]; [done|]. cbn. by rewrite IH.
Qed.

Lemma GShare_updates_app (a b : list (Z * Z * bool)) (g : GShare.t) :
  GShare.updates (a ++ b) g = do g1 <- GShare.updates a g; GShare.updates b g1.
Proof.
  revert g. induction a as [|[[PC next_PC] taken] a IH]; intros g; [done|].
  cbn. destruct (GShare.update g PC next_PC taken) as [g1|]; cbn; [apply IH|done].
Qed.

Lemma GShare_update_fields (g g' : GShare.t) (PC next_PC : Z) (taken : bool) :
  GShare.update g PC next_PC taken = Ok g' ->
  GShare.BTB_mask_ g' = GShare.BTB_mask_ g /\
  GShare.BHR_mask_ g' = GShare.BHR_mask_ g /\
  GShare.BTB_shift_ g' = GShare.BTB_shift_ g /\
  GShare.BHR_ g' =
    wrap 8%Z (Z.land (Z.lor (GShare.BHR_ g ≪ 1) (if taken then 1 else 0)) (GShare.BHR_mask_ g)) /\
  GShare.BTB_ g' =
    (if taken
     then zinsert (btb_index (GShare.BTB_mask_ g) PC)
            (mkBTB true (btb_tag_of (GShare.BTB_shift_ g) PC) next_PC) (GShare.BTB_ g)
     else GShare.BTB_ g) /\
  (taken = true -> is_Some (zlookup (GShare.BTB_ g) (btb_index (GShare.BTB_mask_ g) PC))) /\
  exists ctr,
    zlookup (GShare.PHT_ g) (pht_index 8%Z (GShare.BHR_ g) (GShare.BHR_mask_ g) PC) = Some ctr /\
    GShare.PHT_ g' =
      pht_next taken (pht_index 8%Z (GShare.BHR_ g) (GShare.BHR_mask_ g) PC) ctr (GShare.PHT_ g).
Proof.
  unfold GShare.update. fold (pht_index 8%Z (GShare.BHR_ g) (GShare.BHR_mask_ g) PC).
  fold (btb_index (GShare.BTB_mask_ g) PC). fold (btb_tag_of (GShare.BTB_shift_ g) PC).
  intros Hu. apply obind_Ok in Hu as (ctr & Hctr & Hu).
  destruct (zlookup (GShare.PHT_ g) _) as [c|] eqn:Hc; [|done].
  cbn in Hctr. injection Hctr as ->.
  destruct taken.
  - apply obind_Ok in Hu as (e & He & Hu).
    destruct (zlookup (GShare.BTB_ g) _) as [e0|] eqn:He0; [|done].
    injection Hu as <-. cbn. repeat (split; [done|]). by exists ctr.
  - injection Hu as <-. cbn. repeat (split; [done|]). by exists ctr.
Qed.

Lemma GShare_updates_frame (calls : list (Z * Z * bool)) (g g' : GShare.t) :
  GShare.updates calls g = Ok g' ->
  GShare.BTB_mask_ g' = GShare.BTB_mask_ g /\
  GShare.BHR_mask_ g' = GShare.BHR_mask_ g /\
  GShare.BTB_shift_ g' = GShare.BTB_shift_ g.
Proof.
  revert g. induction calls as [|[[PC next_PC] taken] rest IH]; intros g Hu; cbn in Hu.
  - by injection Hu as <-.
  - apply obind_Ok in Hu as (g1 & H1 & Hu).
    apply IH in Hu as (-> & -> & ->). by apply GShare_update_fields in H1 as (-> & -> & -> & _).
Qed.

Lemma GShare_init_mask (BTB_size BHR_size : Z) :
  0 <= BHR_size ->
  GShare.BHR_mask_ (GShare.GShare BTB_size BHR_size) = Z.ones (Z.min BHR_size 8%Z).
Proof. intros H. cbn. by apply mask_ones. Qed.

Lemma GShare_history_bits (BTB_size BHR_size : Z) (calls : list (Z * Z * bool))
    (g : GShare.t) (i : Z) :
  0 <= BHR_size -> 0 <= i ->
  GShare.updates calls (GShare.GShare BTB_size BHR_size) = Ok g ->
  Z.testbit (GShare.BHR_ g) i
  = (i <? Z.min BHR_size 8%Z) && nth (Z.to_nat i) (rev (outcomes calls)) false.
Proof.
  intros Hs. revert g i.
  induction calls as [|[[PC next_PC] taken] calls IH] using rev_ind; intros g i Hi Hu.
  - cbn in Hu. injection Hu as <-. cbn. rewrite Z.bits_0.
    destruct (Z.to_nat i); by rewrite andb_false_r.
  - rewrite GShare_updates_app in Hu. apply obind_Ok in Hu as (g1 & H1 & Hu).
    cbn in Hu. apply obind_Ok in Hu as (g2 & H2 & Hu). injection Hu as <-.
    apply GShare_updates_frame in H1 as Hfr. destruct Hfr as (_ & Hmask & _).
    rewrite GShare_init_mask in Hmask by done.
    apply GShare_update_fields in H2 as (_ & _ & _ & -> & _).
    rewrite Hmask, history_step by lia.
    unfold outcomes. rewrite fmap_app. cbn [fmap list_fmap snd].
    rewrite nth_rev_snoc by done.
    destruct (Z.eqb_spec i 0) as [->|Hne]; [done|].
    rewrite (IH g1 (i - 1)) by (done || lia). unfold outcomes.
    destruct (Z.ltb_spec i (Z.min BHR_size 8%Z)), (Z.ltb_spec (i - 1) (Z.min BHR_size 8%Z));
      cbn; (done || lia).
Qed.

(** After as many updates in one direction as the history has bits, the
    history register equals its mask, or is zero. *)
Lemma GShare_history_full (BTB_size BHR_size : Z) (calls : list (Z * Z * bool)) (k : nat)
    (c : Z * Z) (b : bool) (g : GShare.t) :
  0 <= BHR_size -> (Z.to_nat BHR_size <= k)%nat ->
  GShare.updates (calls ++ replicate k (c, b)) (GShare.GShare BTB_size BHR_size) = Ok g ->
  GShare.BHR_ g = if b then GShare.BHR_mask_ g else 0.
Proof.
  intros Hs Hk Hu.
  apply GShare_updates_frame in Hu as Hfr. destruct Hfr as (_ & -> & _).
  rewrite GShare_init_mask by done.
  apply Z.bits_inj'. intros i Hi.
  rewrite (GShare_history_bits _ _ _ _ i Hs Hi Hu).
  replace (Z.testbit (if b then Z.ones (Z.min BHR_size 8%Z) else 0) i)
    with ((i <? Z.min BHR_size 8%Z) && b)
    by (destruct b; [by rewrite Z.testbit_ones_nonneg, andb_true_r by lia
                    |by rewrite Z.bits_0, andb_false_r]).
  destruct (Z.ltb_spec i (Z.min BHR_size 8%Z)); [|done]. cbn.
  unfold outcomes. rewrite fmap_app, rev_app_distr, fmap_replicate. cbn [snd].
  rewrite app_nth1 by (rewrite length_rev, length_replicate; lia).
  rewrite rev_replicate. apply nth_lookup_Some with (d := false).
  apply lookup_replicate. split; [done|lia].
Qed.

Lemma GShare_btb_inv (BTB_size BHR_size : Z) (calls : list (Z * Z * bool)) (g : GShare.t) :
  GShare.updates calls (GShare.GShare BTB_size BHR_size) = Ok g ->
  forall idx e, zlookup (GShare.BTB_ g) idx = Some e -> btb_valid e = true ->
    btb_latest (wrap 32 (BTB_size - 1)) (log2ceil BTB_size) calls idx e.
Proof.
  revert g. induction calls as [|[[PC next_PC] taken] calls IH] using rev_ind;
    intros g Hu idx e He Hv.
  - cbn in Hu. injection Hu as <-. cbn in He. unfold zlookup in He.
    destruct (idx <? 0); [done|]. apply lookup_replicate in He as [-> _]. done.
  - rewrite GShare_updates_app in Hu. apply obind_Ok in Hu as (g1 & H1 & Hu).
    cbn in Hu. apply obind_Ok in Hu as (g2 & H2 & Hu). injection Hu as <-.
    apply GShare_updates_frame in H1 as Hfr. destruct Hfr as (Hmask & _ & Hshift).
    cbn in Hmask, Hshift.
    apply GShare_update_fields in H2 as (_ & _ & _ & _ & Hbtb & Hsome & _).
    rewrite Hmask, Hshift in Hbtb. rewrite Hmask in Hsome. rewrite Hbtb in He.
    assert (Hold : forall e0, zlookup (GShare.BTB_ g1) idx = Some e0 -> btb_valid e0 = true ->
              (taken = true -> btb_index (wrap 32 (BTB_size - 1)) PC <> idx) ->
              btb_latest (wrap 32 (BTB_size - 1)) (log2ceil BTB_size)
                (calls ++ [(PC, next_PC, taken)]) idx e0).
    { intros e0 He0 Hv0 Hne.
      destruct (IH g1 H1 idx e0 He0 Hv0) as (before & after & PC' & -> & Hi & Ht & Hno).
      exists before, (after ++ [(PC, next_PC, taken)]), PC'.
      split; [by rewrite <- app_assoc|]. split; [done|]. split; [done|].
      apply Forall_app. split; [done|]. by apply Forall_singleton. }
    destruct taken; [|by apply Hold].
    destruct (decide (btb_index (wrap 32 (BTB_size - 1)) PC = idx)) as [<-|Hne].
    + destruct (Hsome eq_refl) as [e0 He0].
      rewrite (zlookup_zinsert_eq _ _ _ _ He0) in He. injection He as <-.
      exists calls, [], PC. cbn. split; [done|]. split; [done|]. split; [done|].
      constructor.
    + rewrite zlookup_zinsert_ne in He by done. by apply Hold.
Qed.

Lemma GShare_predict_cases (g : GShare.t) (PC : Z) :
  pred_inv (GShare.BTB_ g) (GShare.PHT_ g) (GShare.BTB_mask_ g) (GShare.BHR_mask_ g) ->
  exists ctr e,
    zlookup (GShare.PHT_ g) (pht_index 8%Z (GShare.BHR_ g) (GShare.BHR_mask_ g) PC) = Some ctr /\
    zlookup (GShare.BTB_ g) (btb_index (GShare.BTB_mask_ g) PC) = Some e /\
    GShare.predict g PC =
      Ok (if (2 <=? ctr) && btb_valid e && (btb_tag e =? btb_tag_of (GShare.BTB_shift_ g) PC)
          then btb_target e else wrap 32 (PC + 4)).
Proof.
  intros (_ & Hbhr & Hbtb). unfold GShare.predict.
  fold (pht_index 8%Z (GShare.BHR_ g) (GShare.BHR_mask_ g) PC).
  fold (btb_index (GShare.BTB_mask_ g) PC). fold (btb_tag_of (GShare.BTB_shift_ g) PC).
  destruct (zlookup_lt (GShare.PHT_ g) (pht_index 8%Z (GShare.BHR_ g) (GShare.BHR_mask_ g) PC))
    as [ctr Hctr]; [apply index_in_range; [lia|done]|].
  destruct (zlookup_lt (GShare.BTB_ g) (btb_index (GShare.BTB_mask_ g) PC))
    as [e He]; [apply index_in_range; [lia|done]|].
  exists ctr, e. rewrite Hctr, He. cbn [from_option obind].
  split; [done|]. split; [done|].
  destruct (2 <=? ctr); [|done]. cbn [andb obind].
  by destruct (btb_valid e && _).
Qed.

Lemma GShare_taken_step (g g' : GShare.t) (PC target : Z) :
  pred_inv (GShare.BTB_ g) (GShare.PHT_ g) (GShare.BTB_mask_ g) (GShare.BHR_mask_ g) ->
  (exists n, 0 <= n <= 8%Z /\ GShare.BHR_mask_ g = Z.ones n) ->
  GShare.BHR_ g = GShare.BHR_mask_ g ->
  GShare.update g PC target true = Ok g' ->
  pred_inv (GShare.BTB_ g') (GShare.PHT_ g') (GShare.BTB_mask_ g') (GShare.BHR_mask_ g') /\
  GShare.BHR_mask_ g' = GShare.BHR_mask_ g /\
  GShare.BTB_mask_ g' = GShare.BTB_mask_ g /\
  GShare.BTB_shift_ g' = GShare.BTB_shift_ g /\
  GShare.BHR_ g' = GShare.BHR_mask_ g /\
  zlookup (GShare.BTB_ g') (btb_index (GShare.BTB_mask_ g) PC)
    = Some (mkBTB true (btb_tag_of (GShare.BTB_shift_ g) PC) target) /\
  exists ctr,
    zlookup (GShare.PHT_ g) (pht_index 8%Z (GShare.BHR_mask_ g) (GShare.BHR_mask_ g) PC)
      = Some ctr /\
    zlookup (GShare.PHT_ g') (pht_index 8%Z (GShare.BHR_mask_ g) (GShare.BHR_mask_ g) PC)
      = Some (Z.min (ctr + 1) 3).
Proof.
  intros Hinv (n & Hn & Hmask) Hbhr Hu.
  destruct (GShare_update_inv g PC target true Hinv) as (g1 & _ & _ & Hu1 & Hinv' & _).
  assert (g1 = g') as -> by congruence.
  apply GShare_update_fields in Hu as (Hm1 & Hm2 & Hm3 & Hb & Hbtb & Hsome & ctr & Hctr & Hpht).
  split; [done|]. split; [done|]. split; [done|]. split; [done|]. split.
  { rewrite Hb, Hbhr, Hmask. apply Z.bits_inj'. intros i Hi. by apply ones_saturated. }
  split.
  { destruct (Hsome eq_refl) as [e He]. rewrite Hbtb. by apply (zlookup_zinsert_eq _ _ _ e). }
  rewrite Hbhr in Hctr, Hpht. exists ctr. split; [done|]. rewrite Hpht.
  apply pht_next_up; [|done]. destruct Hinv as [Hall _]. by eapply Forall_zlookup.
Qed.

Lemma GShare_not_taken_step (g g' : GShare.t) (PC target : Z) :
  pred_inv (GShare.BTB_ g) (GShare.PHT_ g) (GShare.BTB_mask_ g) (GShare.BHR_mask_ g) ->
  GShare.BHR_ g = 0 ->
  GShare.update g PC target false = Ok g' ->
  pred_inv (GShare.BTB_ g') (GShare.PHT_ g') (GShare.BTB_mask_ g') (GShare.BHR_mask_ g') /\
  GShare.BHR_mask_ g' = GShare.BHR_mask_ g /\
  GShare.BHR_ g' = 0 /\
  exists ctr,
    zlookup (GShare.PHT_ g) (pht_index 8%Z 0 (GShare.BHR_mask_ g) PC) = Some ctr /\
    zlookup (GShare.PHT_ g') (pht_index 8%Z 0 (GShare.BHR_mask_ g) PC)
      = Some (Z.max (ctr - 1) 0).
Proof.
  intros Hinv Hbhr Hu.
  destruct (GShare_update_inv g PC target false Hinv) as (g1 & _ & _ & Hu1 & Hinv' & _).
  assert (g1 = g') as -> by congruence.
  apply GShare_update_fields in Hu as (Hm1 & Hm2 & Hm3 & Hb & Hbtb & Hsome & ctr & Hctr & Hpht).
  split; [done|]. split; [done|]. split.
  { rewrite Hb, Hbhr. cbn. by rewrite Z.land_0_l. }
  rewrite Hbhr in Hctr, Hpht. exists ctr. split; [done|]. rewrite Hpht.
  apply pht_next_down; [|done]. destruct Hinv as [Hall _]. by eapply Forall_zlookup.
Qed.

Lemma GShare_learns (BTB_size BHR_size : Z) (calls : list (Z * Z * bool)) (k : nat)
    (PC target : Z) (b : bool) :
  1 <= BTB_size < 2 ^ 32 -> 0 <= BHR_size <= 30 -> (Z.to_nat BHR_size + 2 <= k)%nat ->
  exists g,
    GShare.updates (calls ++ replicate k (PC, target, b)) (GShare.GShare BTB_size BHR_size)
      = Ok g /\
    GShare.predict g PC = Ok (if b then target else wrap 32 (PC + 4)).
Proof.
  intros Hbtb Hbhr Hk.
  replace k with ((k - 2) + 2)%nat by lia. rewrite replicate_add, app_assoc.
  cbn [replicate]. rewrite GShare_updates_app.
  destruct (GShare_updates_inv (calls ++ replicate (k - 2) (PC, target, b))
              (GShare.GShare BTB_size BHR_size)) as (g0 & Hg0 & Hinv0).
  { cbn. apply pred_inv_init; unfold two_bit; lia. }
  rewrite Hg0. cbn [obind GShare.updates].
  pose proof (GShare_history_full BTB_size BHR_size calls (k - 2) (PC, target) b g0
                ltac:(lia) ltac:(lia) Hg0) as Hfull.
  apply GShare_updates_frame in Hg0 as Hfr. destruct Hfr as (_ & Hmask & _).
  rewrite GShare_init_mask in Hmask by lia.
  destruct (GShare_update_inv g0 PC target b Hinv0) as (g1 & _ & _ & Hu1 & Hinv1 & _).
  destruct (GShare_update_inv g1 PC target b Hinv1) as (g2 & _ & _ & Hu2 & Hinv2 & _).
  rewrite Hu1. cbn [obind]. rewrite Hu2. cbn [obind]. exists g2. split; [done|].
  destruct (GShare_predict_cases g2 PC Hinv2) as (ctr & e & Hctr & He & ->). f_equal.
  destruct b.
  - destruct (GShare_taken_step g0 g1 PC target Hinv0) as (_ & Hm1 & Hbm1 & Hs1 & Hb1 & _ & c0 & Hc0 & Hc1);
      [exists (Z.min BHR_size 8%Z); split; [lia|done]|done|done|].
    destruct (GShare_taken_step g1 g2 PC target Hinv1) as (_ & Hm2 & Hbm2 & Hs2 & Hb2 & He2 & c1 & Hc1' & Hc2);
      [exists (Z.min BHR_size 8%Z); split; [lia|congruence]|congruence|done|].
    rewrite Hb2, Hm2, Hm1 in Hctr. rewrite Hm1 in Hc1', Hc2.
    assert (c1 = Z.min (c0 + 1) 3) as -> by congruence.
    assert (ctr = Z.min (Z.min (c0 + 1) 3 + 1) 3) as -> by congruence.
    assert (two_bit c0) as Hc by (destruct Hinv0 as [Hall _]; by eapply Forall_zlookup).
    unfold two_bit in Hc.
    rewrite Hbm2, He2 in He. injection He as <-. rewrite Hs2. cbn.
    rewrite Z.eqb_refl, andb_true_r. destruct (Z.leb_spec 2 (Z.min (Z.min (c0 + 1) 3 + 1) 3)); [done|lia].
  - destruct (GShare_not_taken_step g0 g1 PC target Hinv0) as (_ & Hm1 & Hb1 & c0 & Hc0 & Hc1); [done..|].
    destruct (GShare_not_taken_step g1 g2 PC target Hinv1) as (_ & Hm2 & Hb2 & c1 & Hc1' & Hc2); [done..|].
    rewrite Hm1 in Hc1', Hc2. rewrite Hb2, Hm2, Hm1 in Hctr.
    assert (c1 = Z.max (c0 - 1) 0) as -> by congruence.
    assert (ctr = Z.max (Z.max (c0 - 1) 0 - 1) 0) as -> by congruence.
    assert (two_bit c0) as Hc by (destruct Hinv0 as [Hall _]; by eapply Forall_zlookup).
    unfold two_bit in Hc.
    destruct (Z.leb_spec 2 (Z.max (Z.max (c0 - 1) 0 - 1) 0)); [lia|done].
Qed.

Lemma GShare_predict_latest (BTB_size BHR_size : Z) (calls : list (Z * Z * bool)) (PC : Z) :
  1 <= BTB_size < 2 ^ 32 -> 0 <= BHR_size <= 30 ->
  exists g v,
    GShare.updates calls (GShare.GShare BTB_size BHR_size) = Ok g /\
    GShare.predict g PC = Ok v /\
    (v = wrap 32 (PC + 4) \/
     latest_taken (wrap 32 (BTB_size - 1)) (log2ceil BTB_size) calls PC v).
Proof.
  intros Hbtb Hbhr.
  destruct (GShare_updates_inv calls (GShare.GShare BTB_size BHR_size)) as (g & Hg & Hinv).
  { cbn. apply pred_inv_init; unfold two_bit; lia. }
  destruct (GShare_predict_cases g PC Hinv) as (ctr & e & Hctr & He & Hp).
  eexists g, _. split; [done|]. split; [exact Hp|].
  apply GShare_updates_frame in Hg as Hfr. destruct Hfr as (Hmask & _ & Hshift).
  cbn in Hmask, Hshift. rewrite Hmask in He. rewrite Hshift.
  destruct (2 <=? ctr); [|by left]. destruct (btb_valid e) eqn:Hv; [|by left].
  cbn [andb]. destruct (Z.eqb_spec (btb_tag e) (btb_tag_of (log2ceil BTB_size) PC))
    as [Ht|_]; [|by left].
  right. destruct (GShare_btb_inv _ _ _ _ Hg _ _ He Hv) as (before & after & PC' & Hc & Hi & Ht' & Hno).
  exists before, after, PC'. split; [done|]. split; [done|]. split; [congruence|done].
Qed.

Lemma GSharePlus_updates_app (a b : list (Z * Z * bool)) (g : GSharePlus.t) :
  GSharePlus.updates (a ++ b) g = do g1 <- GSharePlus.updates a g; GSharePlus.updates b g1.
Proof.
  revert g. induction a as [|[[PC next_PC] taken] a IH]; intros g; [done|].
  cbn. destruct (GSharePlus.update g PC next_PC taken) as [g1|]; cbn; [apply IH|done].
Qed.

Lemma GSharePlus_update_fields (g g' : GSharePlus.t) (PC next_PC : Z) (taken : bool) :
  GSharePlus.update g PC next_PC taken = Ok g' ->
  GSharePlus.BTB_mask_ g' = GSharePlus.BTB_mask_ g /\
  GSharePlus.BHR_mask_ g' = GSharePlus.BHR_mask_ g /\
  GSharePlus.BTB_shift_ g' = GSharePlus.BTB_shift_ g /\
  GSharePlus.BHR_ g' =
    wrap 16%Z (Z.land (Z.lor (GSharePlus.BHR_ g ≪ 1) (if taken then 1 else 0)) (GSharePlus.BHR_mask_ g)) /\
  GSharePlus.BTB_ g' =
    (if taken
     then zinsert (btb_index (GSharePlus.BTB_mask_ g) PC)
            (mkBTB true (btb_tag_of (GSharePlus.BTB_shift_ g) PC) next_PC) (GSharePlus.BTB_ g)
     else GSharePlus.BTB_ g) /\
  (taken = true -> is_Some (zlookup (GSharePlus.BTB_ g) (btb_index (GSharePlus.BTB_mask_ g) PC))) /\
  exists ctr,
    zlookup (GSharePlus.PHT_ g) (pht_index 16%Z (GSharePlus.BHR_ g) (GSharePlus.BHR_mask_ g) PC) = Some ctr /\
    GSharePlus.PHT_ g' =
      pht_next taken (pht_index 16%Z (GSharePlus.BHR_ g) (GSharePlus.BHR_mask_ g) PC) ctr (GSharePlus.PHT_ g).
Proof.
  unfold GSharePlus.update. fold (pht_index 16%Z (GSharePlus.BHR_ g) (GSharePlus.BHR_mask_ g) PC).
  fold (btb_index (GSharePlus.BTB_mask_ g) PC). fold (btb_tag_of (GSharePlus.BTB_shift_ g) PC).
  intros Hu. apply obind_Ok in Hu as (ctr & Hctr & Hu).
  destruct (zlookup (GSharePlus.PHT_ g) _) as [c|] eqn:Hc; [|done].
  cbn in Hctr. injection Hctr as ->.
  destruct taken.
  - apply obind_Ok in Hu as (e & He & Hu).
    destruct (zlookup (GSharePlus.BTB_ g) _) as [e0|] eqn:He0; [|done].
    injection Hu as <-. cbn. repeat (split; [done|]). by exists ctr.
  - injection Hu as <-. cbn. repeat (split; [done|]). by exists ctr.
Qed.

Lemma GSharePlus_updates_frame (calls : list (Z * Z * bool)) (g g' : GSharePlus.t) :
  GSharePlus.updates calls g = Ok g' ->
  GSharePlus.BTB_mask_ g' = GSharePlus.BTB_mask_ g /\
  GSharePlus.BHR_mask_ g' = GSharePlus.BHR_mask_ g /\
  GSharePlus.BTB_shift_ g' = GSharePlus.BTB_shift_ g.
Proof.
  revert g. induction calls as [|[[PC next_PC] taken] rest IH]; intros g Hu; cbn in Hu.
  - by injection Hu as <-.
  - apply obind_Ok in Hu as (g1 & H1 & Hu).
    apply IH in Hu as (-> & -> & ->). by apply GSharePlus_update_fields in H1 as (-> & -> & -> & _).
Qed.

Lemma GSharePlus_init_mask (BTB_size BHR_size : Z) :
  0 <= BHR_size ->
  GSharePlus.BHR_mask_ (GSharePlus.GSharePlus BTB_size BHR_size) = Z.ones (Z.min BHR_size 16%Z).
Proof. intros H. cbn. by apply mask_ones. Qed.

Lemma GSharePlus_history_bits (BTB_size BHR_size : Z) (calls : list (Z * Z * bool))
    (g : GSharePlus.t) (i : Z) :
  0 <= BHR_size -> 0 <= i ->
  GSharePlus.updates calls (GSharePlus.GSharePlus BTB_size BHR_size) = Ok g ->
  Z.testbit (GSharePlus.BHR_ g) i
  = (i <? Z.min BHR_size 16%Z) && nth (Z.to_nat i) (rev (outcomes calls)) false.
Proof.
  intros Hs. revert g i.
  induction calls as [|[[PC next_PC] taken] calls IH] using rev_ind; intros g i Hi Hu.
  - cbn in Hu. injection Hu as <-. cbn. rewrite Z.bits_0.
    destruct (Z.to_nat i); by rewrite andb_false_r.
  - rewrite GSharePlus_updates_app in Hu. apply obind_Ok in Hu as (g1 & H1 & Hu).
    cbn in Hu. apply obind_Ok in Hu as (g2 & H2 & Hu). injection Hu as <-.
    apply GSharePlus_updates_frame in H1 as Hfr. destruct Hfr as (_ & Hmask & _).
    rewrite GSharePlus_init_mask in Hmask by done.
    apply GSharePlus_update_fields in H2 as (_ & _ & _ & -> & _).
    rewrite Hmask, history_step by lia.
    unfold outcomes. rewrite fmap_app. cbn [fmap list_fmap snd].
    rewrite nth_rev_snoc by done.
    destruct (Z.eqb_spec i 0) as [->|Hne]; [done|].
    rewrite (IH g1 (i - 1)) by (done || lia). unfold outcomes.
    destruct (Z.ltb_spec i (Z.min BHR_size 16%Z)), (Z.ltb_spec (i - 1) (Z.min BHR_size 16%Z));
      cbn; (done || lia).
Qed.

(** After as many updates in one direction as the history has bits, the
    history register equals its mask, or is zero. *)
Lemma GSharePlus_history_full (BTB_size BHR_size : Z) (calls : list (Z * Z * bool)) (k : nat)
    (c : Z * Z) (b : bool) (g : GSharePlus.t) :
  0 <= BHR_size -> (Z.to_nat BHR_size <= k)%nat ->
  GSharePlus.updates (calls ++ replicate k (c, b)) (GSharePlus.GSharePlus BTB_size BHR_size) = Ok g ->
  GSharePlus.BHR_ g = if b then GSharePlus.BHR_mask_ g else 0.
Proof.
  intros Hs Hk Hu.
  apply GSharePlus_updates_frame in Hu as Hfr. destruct Hfr as (_ & -> & _).
  rewrite GSharePlus_init_mask by done.
  apply Z.bits_inj'. intros i Hi.
  rewrite (GSharePlus_history_bits _ _ _ _ i Hs Hi Hu).
  replace (Z.testbit (if b then Z.ones (Z.min BHR_size 16%Z) else 0) i)
    with ((i <? Z.min BHR_size 16%Z) && b)
    by (destruct b; [by rewrite Z.testbit_ones_nonneg, andb_true_r by lia
                    |by rewrite Z.bits_0, andb_false_r]).
  destruct (Z.ltb_spec i (Z.min BHR_size 16%Z)); [|done]. cbn.
  unfold outcomes. rewrite fmap_app, rev_app_distr, fmap_replicate. cbn [snd].
  rewrite app_nth1 by (rewrite length_rev, length_replicate; lia).
  rewrite rev_replicate. apply nth_lookup_Some with (d := false).
  apply lookup_replicate. split; [done|lia].
Qed.

Lemma GSharePlus_btb_inv (BTB_size BHR_size : Z) (calls : list (Z * Z * bool)) (g : GSharePlus.t) :
  GSharePlus.updates calls (GSharePlus.GSharePlus BTB_size BHR_size) = Ok g ->
  forall idx e, zlookup (GSharePlus.BTB_ g) idx = Some e -> btb_valid e = true ->
    btb_latest (wrap 32 (BTB_size - 1)) (log2ceil BTB_size) calls idx e.
Proof.
  revert g. induction calls as [|[[PC next_PC] taken] calls IH] using rev_ind;
    intros g Hu idx e He Hv.
  - cbn in Hu. injection Hu as <-. cbn in He. unfold zlookup in He.
    destruct (idx <? 0); [done|]. apply lookup_replicate in He as [-> _]. done.
  - rewrite GSharePlus_updates_app in Hu. apply obind_Ok in Hu as (g1 & H1 & Hu).
    cbn in Hu. apply obind_Ok in Hu as (g2 & H2 & Hu). injection Hu as <-.
    apply GSharePlus_updates_frame in H1 as Hfr. destruct Hfr as (Hmask & _ & Hshift).
    cbn in Hmask, Hshift.
    apply GSharePlus_update_fields in H2 as (_ & _ & _ & _ & Hbtb & Hsome & _).
    rewrite Hmask, Hshift in Hbtb. rewrite Hmask in Hsome. rewrite Hbtb in He.
    assert (Hold : forall e0, zlookup (GSharePlus.BTB_ g1) idx = Some e0 -> btb_valid e0 = true ->
              (taken = true -> btb_index (wrap 32 (BTB_size - 1)) PC <> idx) ->
              btb_latest (wrap 32 (BTB_size - 1)) (log2ceil BTB_size)
                (calls ++ [(PC, next_PC, taken)]) idx e0).
    { intros e0 He0 Hv0 Hne.
      destruct (IH g1 H1 idx e0 He0 Hv0) as (before & after & PC' & -> & Hi & Ht & Hno).
      exists before, (after ++ [(PC, next_PC, taken)]), PC'.
      split; [by rewrite <- app_assoc|]. split; [done|]. split; [done|].
      apply Forall_app. split; [done|]. by apply Forall_singleton. }
    destruct taken; [|by apply Hold].
    destruct (decide (btb_index (wrap 32 (BTB_size - 1)) PC = idx)) as [<-|Hne].
    + destruct (Hsome eq_refl) as [e0 He0].
      rewrite (zlookup_zinsert_eq _ _ _ _ He0) in He. injection He as <-.
      exists calls, [], PC. cbn. split; [done|]. split; [done|]. split; [done|].
      constructor.
    + rewrite zlookup_zinsert_ne in He by done. by apply Hold.
Qed.

Lemma GSharePlus_predict_cases (g : GSharePlus.t) (PC : Z) :
  pred_inv (GSharePlus.BTB_ g) (GSharePlus.PHT_ g) (GSharePlus.BTB_mask_ g) (GSharePlus.BHR_mask_ g) ->
  exists ctr e,
    zlookup (GSharePlus.PHT_ g) (pht_index 16%Z (GSharePlus.BHR_ g) (GSharePlus.BHR_mask_ g) PC) = Some ctr /\
    zlookup (GSharePlus.BTB_ g) (btb_index (GSharePlus.BTB_mask_ g) PC) = Some e /\
    GSharePlus.predict g PC =
      Ok (if (2 <=? ctr) && btb_valid e && (btb_tag e =? btb_tag_of (GSharePlus.BTB_shift_ g) PC)
          then btb_target e else wrap 32 (PC + 4)).
Proof.
  intros (_ & Hbhr & Hbtb). unfold GSharePlus.predict.
  fold (pht_index 16%Z (GSharePlus.BHR_ g) (GSharePlus.BHR_mask_ g) PC).
  fold (btb_index (GSharePlus.BTB_mask_ g) PC). fold (btb_tag_of (GSharePlus.BTB_shift_ g) PC).
  destruct (zlookup_lt (GSharePlus.PHT_ g) (pht_index 16%Z (GSharePlus.BHR_ g) (GSharePlus.BHR_mask_ g) PC))
    as [ctr Hctr]; [apply index_in_range; [lia|done]|].
  destruct (zlookup_lt (GSharePlus.BTB_ g) (btb_index (GSharePlus.BTB_mask_ g) PC))
    as [e He]; [apply index_in_range; [lia|done]|].
  exists ctr, e. rewrite Hctr, He. cbn [from_option obind].
  split; [done|]. split; [done|].
  destruct (2 <=? ctr); [|done]. cbn [andb obind].
  by destruct (btb_valid e && _).
Qed.

Lemma GSharePlus_taken_step (g g' : GSharePlus.t) (PC target : Z) :
  pred_inv (GSharePlus.BTB_ g) (GSharePlus.PHT_ g) (GSharePlus.BTB_mask_ g) (GSharePlus.BHR_mask_ g) ->
  (exists n, 0 <= n <= 16%Z /\ GSharePlus.BHR_mask_ g = Z.ones n) ->
  GSharePlus.BHR_ g = GSharePlus.BHR_mask_ g ->
  GSharePlus.update g PC target true = Ok g' ->
  pred_inv (GSharePlus.BTB_ g') (GSharePlus.PHT_ g') (GSharePlus.BTB_mask_ g') (GSharePlus.BHR_mask_ g') /\
  GSharePlus.BHR_mask_ g' = GSharePlus.BHR_mask_ g /\
  GSharePlus.BTB_mask_ g' = GSharePlus.BTB_mask_ g /\
  GSharePlus.BTB_shift_ g' = GSharePlus.BTB_shift_ g /\
  GSharePlus.BHR_ g' = GSharePlus.BHR_mask_ g /\
  zlookup (GSharePlus.BTB_ g') (btb_index (GSharePlus.BTB_mask_ g) PC)
    = Some (mkBTB true (btb_tag_of (GSharePlus.BTB_shift_ g) PC) target) /\
  exists ctr,
    zlookup (GSharePlus.PHT_ g) (pht_index 16%Z (GSharePlus.BHR_mask_ g) (GSharePlus.BHR_mask_ g) PC)
      = Some ctr /\
    zlookup (GSharePlus.PHT_ g') (pht_index 16%Z (GSharePlus.BHR_mask_ g) (GSharePlus.BHR_mask_ g) PC)
      = Some (Z.min (ctr + 1) 3).
Proof.
  intros Hinv (n & Hn & Hmask) Hbhr Hu.
  destruct (GSharePlus_update_inv g PC target true Hinv) as (g1 & _ & _ & Hu1 & Hinv' & _).
  assert (g1 = g') as -> by congruence.
  apply GSharePlus_update_fields in Hu as (Hm1 & Hm2 & Hm3 & Hb & Hbtb & Hsome & ctr & Hctr & Hpht).
  split; [done|]. split; [done|]. split; [done|]. split; [done|]. split.
  { rewrite Hb, Hbhr, Hmask. apply Z.bits_inj'. intros i Hi. by apply ones_saturated. }
  split.
  { destruct (Hsome eq_refl) as [e He]. rewrite Hbtb. by apply (zlookup_zinsert_eq _ _ _ e). }
  rewrite Hbhr in Hctr, Hpht. exists ctr. split; [done|]. rewrite Hpht.
  apply pht_next_up; [|done]. destruct Hinv as [Hall _]. by eapply Forall_zlookup.
Qed.

Lemma GSharePlus_not_taken_step (g g' : GSharePlus.t) (PC target : Z) :
  pred_inv (GSharePlus.BTB_ g) (GSharePlus.PHT_ g) (GSharePlus.BTB_mask_ g) (GSharePlus.BHR_mask_ g) ->
  GSharePlus.BHR_ g = 0 ->
  GSharePlus.update g PC target false = Ok g' ->
  pred_inv (GSharePlus.BTB_ g') (GSharePlus.PHT_ g') (GSharePlus.BTB_mask_ g') (GSharePlus.BHR_mask_ g') /\
  GSharePlus.BHR_mask_ g' = GSharePlus.BHR_mask_ g /\
  GSharePlus.BHR_ g' = 0 /\
  exists ctr,
    zlookup (GSharePlus.PHT_ g) (pht_index 16%Z 0 (GSharePlus.BHR_mask_ g) PC) = Some ctr /\
    zlookup (GSharePlus.PHT_ g') (pht_index 16%Z 0 (GSharePlus.BHR_mask_ g) PC)
      = Some (Z.max (ctr - 1) 0).
Proof.
  intros Hinv Hbhr Hu.
  destruct (GSharePlus_update_inv g PC target false Hinv) as (g1 & _ & _ & Hu1 & Hinv' & _).
  assert (g1 = g') as -> by congruence.
  apply GSharePlus_update_fields in Hu as (Hm1 & Hm2 & Hm3 & Hb & Hbtb & Hsome & ctr & Hctr & Hpht).
  split; [done|]. split; [done|]. split.
  { rewrite Hb, Hbhr. cbn. by rewrite Z.land_0_l. }
  rewrite Hbhr in Hctr, Hpht. exists ctr. split; [done|]. rewrite Hpht.
  apply pht_next_down; [|done]. destruct Hinv as [Hall _]. by eapply Forall_zlookup.
Qed.

Lemma GSharePlus_learns (BTB_size BHR_size : Z) (calls : list (Z * Z * bool)) (k : nat)
    (PC target : Z) (b : bool) :
  1 <= BTB_size < 2 ^ 32 -> 0 <= BHR_size <= 30 -> (Z.to_nat BHR_size + 2 <= k)%nat ->
  exists g,
    GSharePlus.updates (calls ++ replicate k (PC, target, b)) (GSharePlus.GSharePlus BTB_size BHR_size)
      = Ok g /\
    GSharePlus.predict g PC = Ok (if b then target else wrap 32 (PC + 4)).
Proof.
  intros Hbtb Hbhr Hk.
  replace k with ((k - 2) + 2)%nat by lia. rewrite replicate_add, app_assoc.
  cbn [replicate]. rewrite GSharePlus_updates_app.
  destruct (GSharePlus_updates_inv (calls ++ replicate (k - 2) (PC, target, b))
              (GSharePlus.GSharePlus BTB_size BHR_size)) as (g0 & Hg0 & Hinv0).
  { cbn. apply pred_inv_init; unfold two_bit; lia. }
  rewrite Hg0. cbn [obind GSharePlus.updates].
  pose proof (GSharePlus_history_full BTB_size BHR_size calls (k - 2) (PC, target) b g0
                ltac:(lia) ltac:(lia) Hg0) as Hfull.
  apply GSharePlus_updates_frame in Hg0 as Hfr. destruct Hfr as (_ & Hmask & _).
  rewrite GSharePlus_init_mask in Hmask by lia.
  destruct (GSharePlus_update_inv g0 PC target b Hinv0) as (g1 & _ & _ & Hu1 & Hinv1 & _).
  destruct (GSharePlus_update_inv g1 PC target b Hinv1) as (g2 & _ & _ & Hu2 & Hinv2 & _).
  rewrite Hu1. cbn [obind]. rewrite Hu2. cbn [obind]. exists g2. split; [done|].
  destruct (GSharePlus_predict_cases g2 PC Hinv2) as (ctr & e & Hctr & He & ->). f_equal.
  destruct b.
  - destruct (GSharePlus_taken_step g0 g1 PC target Hinv0) as (_ & Hm1 & Hbm1 & Hs1 & Hb1 & _ & c0 & Hc0 & Hc1);
      [exists (Z.min BHR_size 16%Z); split; [lia|done]|done|done|].
    destruct (GSharePlus_taken_step g1 g2 PC target Hinv1) as (_ & Hm2 & Hbm2 & Hs2 & Hb2 & He2 & c1 & Hc1' & Hc2);
      [exists (Z.min BHR_size 16%Z); split; [lia|congruence]|congruence|done|].
    rewrite Hb2, Hm2, Hm1 in Hctr. rewrite Hm1 in Hc1', Hc2.
    assert (c1 = Z.min (c0 + 1) 3) as -> by congruence.
    assert (ctr = Z.min (Z.min (c0 + 1) 3 + 1) 3) as -> by congruence.
    assert (two_bit c0) as Hc by (destruct Hinv0 as [Hall _]; by eapply Forall_zlookup).
    unfold two_bit in Hc.
    rewrite Hbm2, He2 in He. injection He as <-. rewrite Hs2. cbn.
    rewrite Z.eqb_refl, andb_true_r. destruct (Z.leb_spec 2 (Z.min (Z.min (c0 + 1) 3 + 1) 3)); [done|lia].
  - destruct (GSharePlus_not_taken_step g0 g1 PC target Hinv0) as (_ & Hm1 & Hb1 & c0 & Hc0 & Hc1); [done..|].
    destruct (GSharePlus_not_taken_step g1 g2 PC target Hinv1) as (_ & Hm2 & Hb2 & c1 & Hc1' & Hc2); [done..|].
    rewrite Hm1 in Hc1', Hc2. rewrite Hb2, Hm2, Hm1 in Hctr.
    assert (c1 = Z.max (c0 - 1) 0) as -> by congruence.
    assert (ctr = Z.max (Z.max (c0 - 1) 0 - 1) 0) as -> by congruence.
    assert (two_bit c0) as Hc by (destruct Hinv0 as [Hall _]; by eapply Forall_zlookup).
    unfold two_bit in Hc.
    destruct (Z.leb_spec 2 (Z.max (Z.max (c0 - 1) 0 - 1) 0)); [lia|done].
Qed.

Lemma GSharePlus_predict_latest (BTB_size BHR_size : Z) (calls : list (Z * Z * bool)) (PC : Z) :
  1 <= BTB_size < 2 ^ 32 -> 0 <= BHR_size <= 30 ->
  exists g v,
    GSharePlus.updates calls (GSharePlus.GSharePlus BTB_size BHR_size) = Ok g /\
    GSharePlus.predict g PC = Ok v /\
    (v = wrap 32 (PC + 4) \/
     latest_taken (wrap 32 (BTB_size - 1)) (log2ceil BTB_size) calls PC v).
Proof.
  intros Hbtb Hbhr.
  destruct (GSharePlus_updates_inv calls (GSharePlus.GSharePlus BTB_size BHR_size)) as (g & Hg & Hinv).
  { cbn. apply pred_inv_init; unfold two_bit; lia. }
  destruct (GSharePlus_predict_cases g PC Hinv) as (ctr & e & Hctr & He & Hp).
  eexists g, _. split; [done|]. split; [exact Hp|].
  apply GSharePlus_updates_frame in Hg as Hfr. destruct Hfr as (Hmask & _ & Hshift).
  cbn in Hmask, Hshift. rewrite Hmask in He. rewrite Hshift.
  destruct (2 <=? ctr); [|by left]. destruct (btb_valid e) eqn:Hv; [|by left].
  cbn [andb]. destruct (Z.eqb_spec (btb_tag e) (btb_tag_of (log2ceil BTB_size) PC))
    as [Ht|_]; [|by left].
  right. destruct (GSharePlus_btb_inv _ _ _ _ Hg _ _ He Hv) as (before & after & PC' & Hc & Hi & Ht' & Hno).
  exists before, after, PC'. split; [done|]. split; [done|]. split; [congruence|done].
Qed.

(** X1: in every state that [update] calls lead to from the constructor,
    [predict] returns a value, for [GShare] and for [GSharePlus]: either the
    address of the next word, or the target given by the most recent taken
    [update] at the position of the address in the target buffer, and then
    that [update] was for an address with the same tag. *)
Theorem predict_returns_latest_target (BTB_size BHR_size : Z) (calls : list (Z * Z * bool))
    (PC : Z) :
  1 <= BTB_size < 2 ^ 32 -> 0 <= BHR_size <= 30 ->
  (exists g v,
     GShare.updates calls (GShare.GShare BTB_size BHR_size) = Ok g /\
     GShare.predict g PC = Ok v /\
     (v = wrap 32 (PC + 4) \/
      latest_taken (wrap 32 (BTB_size - 1)) (log2ceil BTB_size) calls PC v)) /\
  (exists g v,
     GSharePlus.updates calls (GSharePlus.GSharePlus BTB_size BHR_size) = Ok g /\
     GSharePlus.predict g PC = Ok v /\
     (v = wrap 32 (PC + 4) \/
      latest_taken (wrap 32 (BTB_size - 1)) (log2ceil BTB_size) calls PC v)).
Proof.
  intros Hbtb Hbhr. split.
  - by apply GShare_predict_latest.
  - by apply GSharePlus_predict_latest.
Qed.

Lemma predict_returns_latest_target_witness :
  exists g v,
    GShare.updates [(64, 128, true); (64, 128, true); (80, 96, true)] (GShare.GShare 4 0) = Ok g /\
    GShare.predict g 64 = Ok v /\
    (v = wrap 32 (64 + 4) \/
     latest_taken (wrap 32 (4 - 1)) (log2ceil 4)
       [(64, 128, true); (64, 128, true); (80, 96, true)] 64 v).
Proof.
  apply (predict_returns_latest_target 4 0
           [(64, 128, true); (64, 128, true); (80, 96, true)] 64); lia.
Defined.

Lemma latest_taken_word (k : Z) (calls : list (Z * Z * bool)) (PC v : Z) :
  0 <= k <= 31 -> 0 <= PC < 2 ^ 32 ->
  Forall (fun c => 0 <= c.1.1 < 2 ^ 32) calls ->
  latest_taken (wrap 32 (2 ^ k - 1)) (log2ceil (2 ^ k)) calls PC v ->
  latest_taken_in_word calls PC v.
Proof.
  intros Hk HPC Hall (before & after & PC' & -> & Hi & Ht & Hno).
  exists before, after, PC'. split; [done|]. split.
  - apply (index_tag_word k); try done.
    apply Forall_app in Hall as [_ Hall]. by apply Forall_cons in Hall as [Hall _].
  - eapply Forall_impl; [exact Hno|]. cbn. intros c Hc Htaken Heq.
    apply (Hc Htaken). unfold btb_index. by rewrite Heq.
Qed.

(** X2: when the size of the target buffer is a power of two, position and
    tag together identify the word of an address: what [predict] returns is
    the address of the next word or the target given by the most recent
    taken [update] for an address in the same word, never the target of
    another branch. *)
Theorem predict_target_is_of_same_word (k BHR_size : Z) (calls : list (Z * Z * bool))
    (PC : Z) :
  0 <= k <= 31 -> 0 <= BHR_size <= 30 -> 0 <= PC < 2 ^ 32 ->
  Forall (fun c => 0 <= c.1.1 < 2 ^ 32) calls ->
  (exists g v,
     GShare.updates calls (GShare.GShare (2 ^ k) BHR_size) = Ok g /\
     GShare.predict g PC = Ok v /\
     (v = wrap 32 (PC + 4) \/ latest_taken_in_word calls PC v)) /\
  (exists g v,
     GSharePlus.updates calls (GSharePlus.GSharePlus (2 ^ k) BHR_size) = Ok g /\
     GSharePlus.predict g PC = Ok v /\
     (v = wrap 32 (PC + 4) \/ latest_taken_in_word calls PC v)).
Proof.
  intros Hk Hbhr HPC Hall.
  assert (H2k : 1 <= 2 ^ k < 2 ^ 32).
  { split; [pose proof (Z.pow_pos_nonneg 2 k); lia|apply Z.pow_lt_mono_r; lia]. }
  split.
  - destruct (GShare_predict_latest (2 ^ k) BHR_size calls PC H2k Hbhr) as (g & v & Hg & Hp & Hv).
    exists g, v. split; [done|]. split; [done|].
    destruct Hv as [->|Hv]; [by left|right]. by apply (latest_taken_word k).
  - destruct (GSharePlus_predict_latest (2 ^ k) BHR_size calls PC H2k Hbhr)
      as (g & v & Hg & Hp & Hv).
    exists g, v. split; [done|]. split; [done|].
    destruct Hv as [->|Hv]; [by left|right]. by apply (latest_taken_word k).
Qed.

Lemma predict_target_is_of_same_word_witness :
  exists g v,
    GShare.updates [(64, 128, true); (64, 128, true); (80, 96, true)] (GShare.GShare (2 ^ 2) 0)
      = Ok g /\
    GShare.predict g 64 = Ok v /\
    (v = wrap 32 (64 + 4) \/
     latest_taken_in_word [(64, 128, true); (64, 128, true); (80, 96, true)] 64 v).
Proof.
  apply (predict_target_is_of_same_word 2 0
           [(64, 128, true); (64, 128, true); (80, 96, true)] 64); try lia.
  repeat constructor; cbn; lia.
Defined.

(** X3: the history register holds the directions of the most recent
    [update] calls, the latest in bit 0, as many as the history has bits and
    the register is wide: 8 for [GShare], 16 for [GSharePlus].  Older
    directions and the bits above are zero. *)
Theorem history_register_holds_last_outcomes (BTB_size BHR_size : Z)
    (calls : list (Z * Z * bool)) (i : Z) :
  1 <= BTB_size < 2 ^ 32 -> 0 <= BHR_size <= 30 -> 0 <= i ->
  (exists g,
     GShare.updates calls (GShare.GShare BTB_size BHR_size) = Ok g /\
     Z.testbit (GShare.BHR_ g) i
     = (i <? Z.min BHR_size 8) && nth (Z.to_nat i) (rev (outcomes calls)) false) /\
  (exists g,
     GSharePlus.updates calls (GSharePlus.GSharePlus BTB_size BHR_size) = Ok g /\
     Z.testbit (GSharePlus.BHR_ g) i
     = (i <? Z.min BHR_size 16) && nth (Z.to_nat i) (rev (outcomes calls)) false).
Proof.
  intros Hbtb Hbhr Hi. split.
  - destruct (GShare_updates_inv calls (GShare.GShare BTB_size BHR_size)) as (g & Hg & _).
    { cbn. apply pred_inv_init; unfold two_bit; lia. }
    exists g. split; [done|]. apply (GShare_history_bits BTB_size); (done || lia).
  - destruct (GSharePlus_updates_inv calls (GSharePlus.GSharePlus BTB_size BHR_size))
      as (g & Hg & _).
    { cbn. apply pred_inv_init; unfold two_bit; lia. }
    exists g. split; [done|]. apply (GSharePlus_history_bits BTB_size); (done || lia).
Qed.

Lemma history_register_holds_last_outcomes_witness :
  exists g,
    GShare.updates [(64, 128, true); (68, 72, false); (64, 128, true)] (GShare.GShare 4 3)
      = Ok g /\
    Z.testbit (GShare.BHR_ g) 1
    = (1 <? Z.min 3 8) && nth (Z.to_nat 1) (rev (outcomes [(64, 128, true); (68, 72, false);
                                                            (64, 128, true)])) false.
Proof.
  apply (history_register_holds_last_outcomes 4 3
           [(64, 128, true); (68, 72, false); (64, 128, true)] 1); lia.
Defined.

(** X4: a branch that goes the same way often enough is predicted that way.
    After any history, once [update] has been called for an address with the
    same direction two more times than the history has bits, [predict]
    returns the target given when the direction is taken, and the address
    of the next word when it is not taken. *)
Theorem predictor_learns_direction (BTB_size BHR_size : Z) (calls : list (Z * Z * bool))
    (k : nat) (PC target : Z) (taken : bool) :
  1 <= BTB_size < 2 ^ 32 -> 0 <= BHR_size <= 30 -> (Z.to_nat BHR_size + 2 <= k)%nat ->
  (exists g,
     GShare.updates (calls ++ replicate k (PC, target, taken))
                    (GShare.GShare BTB_size BHR_size) = Ok g /\
     GShare.predict g PC = Ok (if taken then target else wrap 32 (PC + 4))) /\
  (exists g,
     GSharePlus.updates (calls ++ replicate k (PC, target, taken))
                        (GSharePlus.GSharePlus BTB_size BHR_size) = Ok g /\
     GSharePlus.predict g PC = Ok (if taken then target else wrap 32 (PC + 4))).
Proof.
  intros Hbtb Hbhr Hk. split.
  - by apply GShare_learns.
  - by apply GSharePlus_learns.
Qed.

Lemma predictor_learns_direction_witness :
  exists g,
    GShare.updates ([(68, 72, false)] ++ replicate 5 (64, 128, true)) (GShare.GShare 4 3) = Ok g /\
    GShare.predict g 64 = Ok (if true then 128 else wrap 32 (64 + 4)).
Proof.
  apply (predictor_learns_direction 4 3 [(68, 72, false)] 5 64 128 true); (lia || cbn; lia).
Defined.

(** ** Forwarding in the in-order pipelines *)

Lemma regfile_write_cases (instr : Instr) (v : Z) (rf rf' : list Z) :
  InOrder.regfile_write instr v rf = Ok rf' ->
  length rf' = length rf /\
  ((use_rd (getExeFlags instr) = true /\ getRd instr <> 0%nat /\
    (getRd instr < length rf)%nat /\ rf' = <[getRd instr := v]> rf) \/
   ((use_rd (getExeFlags instr) = false \/ getRd instr = 0%nat) /\ rf' = rf)).
Proof.
  unfold InOrder.regfile_write. destruct (use_rd (getExeFlags instr)); cbn [andb].
  - destruct (Nat.eqb_spec (getRd instr) 0) as [H0|H0]; cbn [negb].
    + intros [= <-]. split; [done|]. right. split; [by right|done].
    + destruct (rf !! getRd instr) as [x|] eqn:Hx; [|done]. cbn. intros [= <-].
      split; [by rewrite length_insert|]. left. apply lookup_lt_Some in Hx. done.
  - intros [= <-]. split; [done|]. right. split; [by left|done].
Qed.

(** A register after an instruction has written its result. *)
Lemma regfile_write_lookup (instr : Instr) (v : Z) (rf rf' : list Z) (r : nat) :
  InOrder.regfile_write instr v rf = Ok rf' ->
  rf' !! r =
    if use_rd (getExeFlags instr) && (getRd instr =? r)%nat && negb (r =? 0)%nat
    then Some v else rf !! r.
Proof.
  intros Hw. apply regfile_write_cases in Hw as [_ [(Hu & H0 & Hlt & ->)|([Hu|H0] & ->)]].
  - rewrite Hu. cbn [andb]. destruct (Nat.eqb_spec (getRd instr) r) as [<-|Hne]; cbn [andb].
    + destruct (Nat.eqb_spec (getRd instr) 0); [done|]. cbn. by apply list_lookup_insert_eq.
    + by apply list_lookup_insert_ne.
  - by rewrite Hu.
  - rewrite H0. destruct (use_rd _); [|done]. cbn [andb].
    destruct (Nat.eqb_spec 0 r) as [<-|]; [|done]. done.
Qed.

Lemma retired_lookup (mem_access : Instr -> Z -> Z -> Z) (c : InOrder.Core)
    (rf' : list Z) (r : nat) :
  retired mem_access c = Ok rf' ->
  length rf' = length (InOrder.reg_file_ c) /\
  rf' !! r =
    match InOrder.ex_mem_ c with
    | Some d =>
        if use_rd (getExeFlags (InOrder.em_instr d)) && (getRd (InOrder.em_instr d) =? r)%nat
           && negb (r =? 0)%nat
        then Some (mem_access (InOrder.em_instr d) (InOrder.em_result d)
                     (InOrder.em_rs2_data d))
        else match InOrder.mem_wb_ c with
             | Some w =>
                 if use_rd (getExeFlags (InOrder.mw_instr w))
                    && (getRd (InOrder.mw_instr w) =? r)%nat && negb (r =? 0)%nat
                 then Some (InOrder.mw_result w)
                 else InOrder.reg_file_ c !! r
             | None => InOrder.reg_file_ c !! r
             end
    | None =>
        match InOrder.mem_wb_ c with
        | Some w =>
            if use_rd (getExeFlags (InOrder.mw_instr w))
               && (getRd (InOrder.mw_instr w) =? r)%nat && negb (r =? 0)%nat
            then Some (InOrder.mw_result w)
            else InOrder.reg_file_ c !! r
        | None => InOrder.reg_file_ c !! r
        end
    end.
Proof.
  unfold retired. intros Hr. apply obind_Ok in Hr as (rf1 & H1 & H2).
  assert (Hl1 : length rf1 = length (InOrder.reg_file_ c) /\
          rf1 !! r = match InOrder.mem_wb_ c with
                     | Some w =>
                         if use_rd (getExeFlags (InOrder.mw_instr w))
                            && (getRd (InOrder.mw_instr w) =? r)%nat && negb (r =? 0)%nat
                         then Some (InOrder.mw_result w)
                         else InOrder.reg_file_ c !! r
                     | None => InOrder.reg_file_ c !! r
                     end).
  { destruct (InOrder.mem_wb_ c) as [w|].
    - split; [by apply regfile_write_cases in H1 as [-> _]|by apply regfile_write_lookup].
    - by injection H1 as <-. }
  destruct Hl1 as [Hl1 Hv1].
  destruct (InOrder.ex_mem_ c) as [d|].
  - split; [apply regfile_write_cases in H2 as [-> _]; done|].
    rewrite (regfile_write_lookup _ _ _ _ r H2). by rewrite Hv1.
  - by injection H2 as <-.
Qed.

Lemma forwarded_operand (mem_access : Instr -> Z -> Z -> Z) (c : InOrder.Core)
    (rf' : list Z) (r : nat) :
  retired mem_access c = Ok rf' -> r <> 0%nat ->
  stage_result_final mem_access c r ->
  (let (forwarded, data) := InOrder.data_forwarding c r 0 in
   if negb forwarded then from_option OutOfRange (InOrder.reg_file_ c !! r) else Ok data)
  = from_option OutOfRange (rf' !! r).
Proof.
  intros Hr Hne Hfin. destruct (retired_lookup mem_access c rf' r Hr) as [_ ->].
  unfold InOrder.data_forwarding.
  assert (Hnz : negb (r =? 0)%nat = true) by (by destruct (Nat.eqb_spec r 0)).
  rewrite Hnz. unfold stage_result_final in Hfin.
  destruct (InOrder.ex_mem_ c) as [d|].
  - specialize (Hfin d eq_refl). rewrite andb_true_r.
    destruct (use_rd (getExeFlags (InOrder.em_instr d))); cbn [andb].
    + destruct (Nat.eqb_spec (getRd (InOrder.em_instr d)) r) as [Heq|_].
      * rewrite (Hfin eq_refl Heq). done.
      * cbn. destruct (InOrder.mem_wb_ c) as [w|]; cbn; rewrite ?andb_true_r;
          repeat (match goal with |- context [if ?b then _ else _] => destruct b; cbn end);
          done.
    + cbn. destruct (InOrder.mem_wb_ c) as [w|]; cbn; rewrite ?andb_true_r;
        repeat (match goal with |- context [if ?b then _ else _] => destruct b; cbn end);
        done.
  - cbn. destruct (InOrder.mem_wb_ c) as [w|]; cbn; rewrite ?andb_true_r;
      repeat (match goal with |- context [if ?b then _ else _] => destruct b; cbn end);
      done.
Qed.

(** X5: in the pipeline that forwards at decode, when [check_data_hazards]
    reports no hazard for the decoded instruction and the memory stage
    leaves the result of an instruction other than a load as it is, what
    [regfile_read] returns is what it returns once the instructions in
    MEM/WB and EX/MEM have gone through the rest of the pipeline and
    written the register file (for the one in EX/MEM, the value that the
    memory stage hands on), provided that these two writes are in range. *)
Theorem regfile_read_forwards_retired_values (get_csr : Z -> Z)
    (mem_access : Instr -> Z -> Z -> Z) (c : InOrder.Core) (instr : Instr)
    (rf' : list Z) :
  InOrder.check_data_hazards c instr = false ->
  result_kept mem_access c ->
  retired mem_access c = Ok rf' ->
  InOrder.regfile_read get_csr c instr
  = InOrder.regfile_read get_csr (InOrder.mk_core rf' None None) instr.
Proof.
  intros Hhz Hkept Hr. unfold InOrder.regfile_read.
  assert (Hfin : forall (used : bool) (r : nat),
            used && negb (r =? 0)%nat = true ->
            (forall d, InOrder.ex_mem_ c = Some d ->
               is_load (getExeFlags (InOrder.em_instr d)) = true ->
               use_rd (getExeFlags (InOrder.em_instr d)) = true ->
               used && (r =? getRd (InOrder.em_instr d))%nat = false) ->
            stage_result_final mem_access c r).
  { intros used r Hu Hno d Hd Hrd Heq.
    destruct (is_load (getExeFlags (InOrder.em_instr d))) eqn:Hload;
      [|by apply Hkept].
    exfalso. specialize (Hno d Hd Hload Hrd).
    apply andb_prop in Hu as [-> _]. rewrite Heq, Nat.eqb_refl in Hno. done. }
  assert (Hhaz : forall d, InOrder.ex_mem_ c = Some d ->
            is_load (getExeFlags (InOrder.em_instr d)) = true ->
            use_rd (getExeFlags (InOrder.em_instr d)) = true ->
            getRd (InOrder.em_instr d) <> 0%nat ->
            use_rs1 (getExeFlags instr) && (getRs1 instr =? getRd (InOrder.em_instr d))%nat
              = false /\
            use_rs2 (getExeFlags instr) && (getRs2 instr =? getRd (InOrder.em_instr d))%nat
              = false).
  { intros d Hd Hload Hrd Hnz. unfold InOrder.check_data_hazards in Hhz.
    rewrite Hd, Hload, Hrd in Hhz. cbn [andb] in Hhz.
    destruct (Nat.eqb_spec (getRd (InOrder.em_instr d)) 0); [done|]. cbn [negb] in Hhz.
    destruct (use_rs1 (getExeFlags instr) && _); [done|].
    destruct (use_rs2 (getExeFlags instr) && _); done. }
  assert (Hop : forall (used : bool) (r : nat),
            (forall d, InOrder.ex_mem_ c = Some d ->
               is_load (getExeFlags (InOrder.em_instr d)) = true ->
               use_rd (getExeFlags (InOrder.em_instr d)) = true ->
               getRd (InOrder.em_instr d) <> 0%nat ->
               used && (r =? getRd (InOrder.em_instr d))%nat = false) ->
            (if used && negb (r =? 0)%nat
             then let (forwarded, data) := InOrder.data_forwarding c r 0 in
                  if negb forwarded then from_option OutOfRange (InOrder.reg_file_ c !! r)
                  else Ok data
             else Ok 0)
            = (if used && negb (r =? 0)%nat
               then let (forwarded, data) :=
                      InOrder.data_forwarding (InOrder.mk_core rf' None None) r 0 in
                    if negb forwarded
                    then from_option OutOfRange
                           (InOrder.reg_file_ (InOrder.mk_core rf' None None) !! r)
                    else Ok data
               else Ok 0)).
  { intros used r Hno. destruct (used && negb (r =? 0)%nat) eqn:Hu; [|done].
    assert (Hne : r <> 0%nat).
    { apply andb_prop in Hu as [_ Hu]. by destruct (Nat.eqb_spec r 0). }
    rewrite (forwarded_operand mem_access c rf' r Hr Hne); [done|].
    apply (Hfin used r Hu). intros d Hd Hload Hrd.
    destruct (Nat.eq_dec (getRd (InOrder.em_instr d)) 0) as [H0|H0].
    - rewrite H0. destruct used; [|done]. cbn. by destruct (Nat.eqb_spec r 0).
    - by apply Hno. }
  rewrite (Hop (use_rs1 (getExeFlags instr)) (getRs1 instr))
    by (intros d Hd Hl Hrd Hnz; by apply (Hhaz d Hd Hl Hrd Hnz)).
  rewrite (Hop (use_rs2 (getExeFlags instr)) (getRs2 instr))
    by (intros d Hd Hl Hrd Hnz; by apply (Hhaz d Hd Hl Hrd Hnz)).
  done.
Qed.

Lemma regfile_read_forwards_retired_values_witness :
  let load := mkInstr (mkExeFlags true true false true false false) 5 2 0 0 0 in
  let add := mkInstr (mkExeFlags true true true false false false) 6 5 7 0 0 in
  let c := InOrder.mk_core [0; 1; 2; 3; 4; 5; 6; 7]
             (Some (InOrder.mk_ex_mem add 50 7 57 8 2))
             (Some (InOrder.mk_mem_wb load 50 4 1)) in
  let instr := mkInstr (mkExeFlags true true true false false false) 1 5 6 0 0 in
  InOrder.check_data_hazards c instr = false /\
  result_kept mem_access_99 c /\
  retired mem_access_99 c = Ok [0; 1; 2; 3; 4; 50; 57; 7] /\
  InOrder.regfile_read (fun _ => 0) c instr = Ok (50, 57).
Proof.
  cbn zeta. split; [reflexivity|].
  assert (Hk : result_kept mem_access_99
                 (InOrder.mk_core [0; 1; 2; 3; 4; 5; 6; 7]
                    (Some (InOrder.mk_ex_mem
                             (mkInstr (mkExeFlags true true true false false false) 6 5 7 0 0)
                             50 7 57 8 2))
                    (Some (InOrder.mk_mem_wb
                             (mkInstr (mkExeFlags true true false true false false) 5 2 0 0 0)
                             50 4 1)))).
  { intros d [= <-] _. reflexivity. }
  split; [exact Hk|]. split; [reflexivity|].
  etransitivity.
  - apply (regfile_read_forwards_retired_values (fun _ => 0) mem_access_99);
      [reflexivity|exact Hk|reflexivity].
  - reflexivity.
Defined.

(** X6: in the pipeline of Project 2, when no load in EX/MEM writes the
    register and the memory stage leaves the result of an instruction
    other than a load as it is, [data_forwarding] turns the value read from
    the register file at decode into the value that the register has once
    the instructions in MEM/WB and EX/MEM have gone through the rest of the
    pipeline and written the register file; for register 0 that is the
    value read, as neither stage writes it. *)
Theorem data_forwarding_gives_retired_value (mem_access : Instr -> Z -> Z -> Z)
    (c : InOrder.Core) (reg : nat) (data : Z) (rf' : list Z) :
  no_load_into reg c ->
  result_kept mem_access c ->
  retired mem_access c = Ok rf' ->
  InOrder.reg_file_ c !! reg = Some data ->
  rf' !! reg = Some (Project2.data_forwarding c reg data).
Proof.
  intros Hno Hkept Hr Hd. destruct (retired_lookup mem_access c rf' reg Hr) as [_ ->].
  unfold Project2.data_forwarding. rewrite Hd.
  destruct (Nat.eqb_spec reg 0) as [->|Hne]; cbn [negb].
  - destruct (InOrder.ex_mem_ c), (InOrder.mem_wb_ c); by rewrite ?andb_false_r.
  - assert (Hfin : forall d, InOrder.ex_mem_ c = Some d ->
              use_rd (getExeFlags (InOrder.em_instr d)) = true ->
              getRd (InOrder.em_instr d) = reg ->
              mem_access (InOrder.em_instr d) (InOrder.em_result d) (InOrder.em_rs2_data d)
              = InOrder.em_result d).
    { intros d Hem Hrd Heq.
      destruct (is_load (getExeFlags (InOrder.em_instr d))) eqn:Hload; [|by apply Hkept].
      by destruct (Hno d Hem Hload Hrd). }
    destruct (InOrder.ex_mem_ c) as [d|].
    + specialize (Hfin d eq_refl). rewrite ?andb_true_r.
      destruct (use_rd (getExeFlags (InOrder.em_instr d))); cbn [andb].
      * destruct (Nat.eqb_spec (getRd (InOrder.em_instr d)) reg) as [Heq|_].
        -- by rewrite (Hfin eq_refl Heq).
        -- destruct (InOrder.mem_wb_ c) as [w|]; [|done]. rewrite ?andb_true_r.
           by destruct (use_rd _ && _).
      * destruct (InOrder.mem_wb_ c) as [w|]; [|done]. rewrite ?andb_true_r.
        by destruct (use_rd _ && _).
    + destruct (InOrder.mem_wb_ c) as [w|]; [|done]. rewrite ?andb_true_r.
      by destruct (use_rd _ && _).
Qed.

Lemma data_forwarding_gives_retired_value_witness :
  let load := mkInstr (mkExeFlags true true false true false false) 5 2 0 0 0 in
  let add := mkInstr (mkExeFlags true true true false false false) 5 5 7 0 0 in
  let c := InOrder.mk_core [0; 1; 2; 3; 4; 5; 6; 7]
             (Some (InOrder.mk_ex_mem add 50 7 57 8 2))
             (Some (InOrder.mk_mem_wb load 50 4 1)) in
  no_load_into 5 c /\
  result_kept mem_access_99 c /\
  retired mem_access_99 c = Ok [0; 1; 2; 3; 4; 57; 6; 7] /\
  [0; 1; 2; 3; 4; 57; 6; 7] !! 5%nat = Some (Project2.data_forwarding c 5 5).
Proof.
  cbn zeta.
  assert (Hn : no_load_into 5
                 (InOrder.mk_core [0; 1; 2; 3; 4; 5; 6; 7]
                    (Some (InOrder.mk_ex_mem
                             (mkInstr (mkExeFlags true true true false false false) 5 5 7 0 0)
                             50 7 57 8 2))
                    (Some (InOrder.mk_mem_wb
                             (mkInstr (mkExeFlags true true false true false false) 5 2 0 0 0)
                             50 4 1)))).
  { intros d [= <-] Hl. discriminate Hl. }
  assert (Hk : result_kept mem_access_99
                 (InOrder.mk_core [0; 1; 2; 3; 4; 5; 6; 7]
                    (Some (InOrder.mk_ex_mem
                             (mkInstr (mkExeFlags true true true false false false) 5 5 7 0 0)
                             50 7 57 8 2))
                    (Some (InOrder.mk_mem_wb
                             (mkInstr (mkExeFlags true true false true false false) 5 2 0 0 0)
                             50 4 1)))).
  { intros d [= <-] _. reflexivity. }
  split; [exact Hn|]. split; [exact Hk|]. split; [reflexivity|].
  apply (data_forwarding_gives_retired_value mem_access_99 _ 5 5 _ Hn Hk); reflexivity.
Defined.

(** X7: when [check_data_hazards] reports no hazard, a load in EX/MEM has no
    part in what [regfile_read] returns: the result of a load in that stage,
    which is still its address, is never forwarded as an operand. *)
Theorem no_hazard_no_forwarding_from_load (get_csr : Z -> Z) (c : InOrder.Core)
    (instr : Instr) (d : InOrder.ex_mem_t) :
  InOrder.ex_mem_ c = Some d ->
  is_load (getExeFlags (InOrder.em_instr d)) = true ->
  InOrder.check_data_hazards c instr = false ->
  InOrder.regfile_read get_csr c instr
  = InOrder.regfile_read get_csr
      (InOrder.mk_core (InOrder.reg_file_ c) None (InOrder.mem_wb_ c)) instr.
Proof.
  intros Hd Hload Hhz. unfold InOrder.check_data_hazards in Hhz.
  rewrite Hd, Hload in Hhz. cbn [andb] in Hhz.
  assert (Hfw : forall (used : bool) (r : nat),
            used && (r =? getRd (InOrder.em_instr d))%nat = false \/
            use_rd (getExeFlags (InOrder.em_instr d))
              && negb (getRd (InOrder.em_instr d) =? 0)%nat = false ->
            used && negb (r =? 0)%nat = true ->
            InOrder.data_forwarding c r 0
            = InOrder.data_forwarding
                (InOrder.mk_core (InOrder.reg_file_ c) None (InOrder.mem_wb_ c)) r 0).
  { intros used r Hno Hu. unfold InOrder.data_forwarding. rewrite Hd. cbn.
    apply andb_prop in Hu as [-> Hnz]. cbn [andb] in Hno.
    destruct (use_rd (getExeFlags (InOrder.em_instr d))); [|done]. cbn [andb] in Hno |- *.
    destruct (Nat.eqb_spec (getRd (InOrder.em_instr d)) r) as [Heq|]; [|done].
    exfalso. subst r. rewrite Nat.eqb_refl in Hno. rewrite Hnz in Hno. by destruct Hno. }
  assert (Hcases :
            (use_rs1 (getExeFlags instr) && (getRs1 instr =? getRd (InOrder.em_instr d))%nat = false /\
             use_rs2 (getExeFlags instr) && (getRs2 instr =? getRd (InOrder.em_instr d))%nat = false) \/
            use_rd (getExeFlags (InOrder.em_instr d))
              && negb (getRd (InOrder.em_instr d) =? 0)%nat = false).
  { destruct (use_rd (getExeFlags (InOrder.em_instr d))
              && negb (getRd (InOrder.em_instr d) =? 0)%nat); [|by right].
    left. destruct (use_rs1 (getExeFlags instr) && _); [done|].
    destruct (use_rs2 (getExeFlags instr) && _); done. }
  assert (Hop : forall (used : bool) (r : nat),
            used && (r =? getRd (InOrder.em_instr d))%nat = false \/
            use_rd (getExeFlags (InOrder.em_instr d))
              && negb (getRd (InOrder.em_instr d) =? 0)%nat = false ->
            (if used && negb (r =? 0)%nat
             then let (forwarded, data) := InOrder.data_forwarding c r 0 in
                  if negb forwarded then from_option OutOfRange (InOrder.reg_file_ c !! r)
                  else Ok data
             else Ok 0)
            = (if used && negb (r =? 0)%nat
               then let (forwarded, data) :=
                      InOrder.data_forwarding
                        (InOrder.mk_core (InOrder.reg_file_ c) None (InOrder.mem_wb_ c)) r 0 in
                    if negb forwarded then from_option OutOfRange (InOrder.reg_file_ c !! r)
                    else Ok data
               else Ok 0)).
  { intros used r Hno. destruct (used && negb (r =? 0)%nat) eqn:Hu; [|done].
    by rewrite (Hfw used r Hno Hu). }
  unfold InOrder.regfile_read. cbn [InOrder.reg_file_].
  rewrite (Hop (use_rs1 (getExeFlags instr)) (getRs1 instr))
    by (destruct Hcases as [[? ?]|?]; [by left|by right]).
  rewrite (Hop (use_rs2 (getExeFlags instr)) (getRs2 instr))
    by (destruct Hcases as [[? ?]|?]; [by left|by right]).
  done.
Qed.

Lemma no_hazard_no_forwarding_from_load_witness :
  let load := mkInstr (mkExeFlags true true false true false false) 5 2 0 0 0 in
  let c := InOrder.mk_core [0; 1; 2; 3; 4; 5; 6; 7]
             (Some (InOrder.mk_ex_mem load 50 0 50 8 2)) None in
  let add := mkInstr (mkExeFlags true true true false false false) 1 6 7 0 0 in
  InOrder.check_data_hazards c add = false /\
  InOrder.regfile_read (fun _ => 0) c add
  = InOrder.regfile_read (fun _ => 0) (InOrder.mk_core [0; 1; 2; 3; 4; 5; 6; 7] None None) add.
Proof.
  cbn zeta. split; [reflexivity|].
  apply (no_hazard_no_forwarding_from_load (fun _ => 0)
           (InOrder.mk_core [0; 1; 2; 3; 4; 5; 6; 7]
              (Some (InOrder.mk_ex_mem
                       (mkInstr (mkExeFlags true true false true false false) 5 2 0 0 0)
                       50 0 50 8 2)) None)
           (mkInstr (mkExeFlags true true true false false false) 1 6 7 0 0)
           (InOrder.mk_ex_mem (mkInstr (mkExeFlags true true false true false false) 5 2 0 0 0)
              50 0 50 8 2)); reflexivity.
Defined.

(** ** No instruction is lost *)

Lemma step_handed `{Collaborators} (a : action) (c c' : Core) :
  step a c = Ok c' ->
  issued (trace_ c') ++ issue_queue_ c'
  = (issued (trace_ c) ++ issue_queue_ c) ++ handed [a].
Proof.
  destruct a as [i| | | |]; cbn [step handed omap]; intros Hstep; rewrite ?app_nil_r.
  - injection Hstep as <-. cbn. by rewrite app_assoc.
  - apply issue_cases in Hstep as [->|Hi]; [done|].
    destruct Hi as (instr & q & d1 & a1 & d2 & a2 & index & old & Hq & _ & _ & _ & _
                    & _ & _ & _ & _ & _ & _ & _ & _ & Hq' & Htr & _).
    rewrite Htr, Hq', Hq, issued_app. cbn. by rewrite <- app_assoc.
  - destruct (execute_frame c c' Hstep) as (_ & -> & _ & _ & _ & -> & _). done.
  - apply writeback_cases in Hstep
      as [[_ ->]|(data & _ & _ & _ & _ & -> & _ & _ & _ & -> & _)]; done.
  - pose proof (commit_frame c c' Hstep) as (_ & _ & _ & -> & _). f_equal.
    pose proof Hstep as Hc.
    apply commit_cases in Hc as [->|(e & Hne & He & Hready & Hrd & Hperf)]; [done|].
    destruct (commit_ready_head c e Hne He Hready Hrd Hperf)
      as (c1 & Hc1 & _ & _ & _ & Htr & _).
    assert (c1 = c') as -> by congruence.
    rewrite Htr, issued_app. cbn. by rewrite app_nil_r.
Qed.

Lemma run_handed `{Collaborators} (acts : list action) (c c' : Core) :
  run acts c = Ok c' ->
  issued (trace_ c') ++ issue_queue_ c'
  = (issued (trace_ c) ++ issue_queue_ c) ++ handed acts.
Proof.
  revert c. induction acts as [|a acts IH]; intros c Hrun; cbn [run] in Hrun.
  - injection Hrun as <-. cbn. by rewrite app_nil_r.
  - apply obind_Ok in Hrun as (c1 & Hstep & Hrun).
    rewrite (IH c1 Hrun), (step_handed a c c1 Hstep).
    rewrite <- !app_assoc. f_equal. f_equal. unfold handed. cbn.
    by destruct a.
Qed.

(** X8: whatever the order of the phases, the instructions handed to the
    core are, in the order of the hand-over, those committed, then those in
    the reorder buffer from its head on, then those still in the issue
    queue: no instruction is lost, duplicated or overtaken. *)
Theorem no_instruction_lost `{Collaborators}
    (num_regs rob_size rs_size num_fus : nat) (acts : list action) (c : Core) :
  run acts (init num_regs rob_size rs_size num_fus) = Ok c ->
  handed acts = committed (trace_ c) ++ in_flight (ROB_ c) ++ issue_queue_ c.
Proof.
  intros Hrun.
  pose proof (run_fifo _ _ _ (fifo_inv_init _ _ _ _) Hrun) as [_ Hfifo].
  pose proof (run_handed acts _ c Hrun) as Hh. cbn in Hh.
  rewrite <- Hh, Hfifo. by rewrite <- app_assoc.
Qed.

Lemma no_instruction_lost_witness :
  let c := after slow_then_fast (init 8 2 2 2) in
  @run adder slow_then_fast (init 8 2 2 2) = Ok c /\
  handed slow_then_fast = committed (trace_ c) ++ in_flight (ROB_ c) ++ issue_queue_ c.
Proof.
  cbn zeta. split; [vm_compute; reflexivity|].
  apply (@no_instruction_lost adder 8 2 2 2 slow_then_fast).
  vm_compute. reflexivity.
Defined.

(** ** Runs without faults *)

(** X9: a core that is handed, before each of its cycles, instructions whose
    registers and functional unit exist, runs every cycle to its end: no
    access of the four phases is out of range, no reorder-buffer or
    reservation-station slot is read while free, the bus is free whenever a
    unit pushes a result, and the assertion of commit holds. *)
Theorem driven_core_never_faults `{Collaborators}
    (num_regs rob_size rs_size num_fus : nat) (prog : list (list Instr)) :
  Forall (Forall (instr_ok num_regs num_fus)) prog ->
  exists c, run (driven prog) (init num_regs rob_size rs_size num_fus) = Ok c.
Proof.
  intros Hok.
  destruct (run_driven prog (init num_regs rob_size rs_size num_fus)) as (c & Hrun & _).
  - cbn. by rewrite !length_replicate.
  - apply safe_inv_init.
  - by exists c.
Qed.

Lemma driven_core_never_faults_witness :
  exists c,
    @run adder (driven [[ADD 1 1 2 3; ADD 0 4 1 6]; []; [ADDI 0 7 4 5]; []; []; []])
         (init 8 2 2 2) = Ok c.
Proof.
  apply (@driven_core_never_faults adder 8 2 2 2).
  repeat (constructor; [repeat (constructor; [unfold instr_ok; cbn; repeat split; intros; lia|]);
                        constructor|]).
  constructor.
Defined.

(** ** Values follow the program order *)

Lemma exec_one_length `{Collaborators} (rf : list Z) (i : Instr) :
  length (exec_one rf i) = length rf.
Proof. unfold exec_one. destruct (use_rd _); [apply length_insert|done]. Qed.

Lemma exec_seq_length `{Collaborators} (prog : list Instr) (rf : list Z) :
  length (exec_seq rf prog) = length rf.
Proof.
  revert rf. induction prog as [|i prog IH]; intros rf; [done|].
  cbn. unfold exec_seq in IH. by rewrite IH, exec_one_length.
Qed.

Lemma exec_seq_app `{Collaborators} (rf : list Z) (p1 p2 : list Instr) :
  exec_seq rf (p1 ++ p2) = exec_seq (exec_seq rf p1) p2.
Proof. apply foldl_app. Qed.

Lemma exec_one_lookup `{Collaborators} (rf : list Z) (i : Instr) (r : nat) :
  (r < length rf)%nat ->
  exec_one rf i !! r = if writesb r i then Some (result_of i rf) else rf !! r.
Proof.
  intros Hr. unfold exec_one, writesb. destruct (use_rd _); [|done]. cbn [andb].
  destruct (Nat.eqb_spec (getRd i) r) as [->|Hne].
  - by apply list_lookup_insert_eq.
  - by apply list_lookup_insert_ne.
Qed.

Lemma exec_seq_no_writer `{Collaborators} (prog : list Instr) (rf : list Z) (r : nat) :
  no_writer r prog -> exec_seq rf prog !! r = rf !! r.
Proof.
  revert rf. induction prog as [|i prog IH]; intros rf Hno; [done|].
  apply Forall_cons in Hno as [Hi Hno]. cbn. unfold exec_seq in IH. rewrite IH by done.
  destruct (decide (r < length rf)%nat) as [Hr|Hr].
  - by rewrite exec_one_lookup, Hi.
  - rewrite !lookup_ge_None_2; [done|lia|rewrite exec_one_length; lia].
Qed.

Lemma exec_seq_last_writer `{Collaborators} (p1 p2 : list Instr) (i : Instr) (rf : list Z)
    (r : nat) :
  (r < length rf)%nat -> writesb r i = true -> no_writer r p2 ->
  exec_seq rf (p1 ++ i :: p2) !! r = Some (result_of i (exec_seq rf p1)).
Proof.
  intros Hr Hw Hno. rewrite exec_seq_app. cbn.
  change (foldl exec_one ?a p2) with (exec_seq a p2).
  rewrite exec_seq_no_writer by done.
  rewrite exec_one_lookup by (by rewrite exec_seq_length). by rewrite Hw.
Qed.

Lemma older_notin (s : nat) (l : list nat) : s ∉ l -> older s l = l.
Proof.
  induction l as [|x l IH]; [done|]. intros Hn. cbn.
  apply not_elem_of_cons in Hn as [Hne Hn]. destruct (decide (x = s)); [done|].
  by rewrite IH.
Qed.

Lemma older_split (s : nat) (pre post : list nat) :
  s ∉ pre -> older s (pre ++ s :: post) = pre.
Proof.
  induction pre as [|x pre IH]; intros Hn; cbn.
  - by destruct (decide (s = s)).
  - apply not_elem_of_cons in Hn as [Hne Hn]. destruct (decide (x = s)); [done|].
    by rewrite IH.
Qed.

Lemma older_app_in (s : nat) (l l' : list nat) : s ∈ l -> older s (l ++ l') = older s l.
Proof.
  induction l as [|x l IH]; intros Hin; [by apply elem_of_nil in Hin|].
  cbn. destruct (decide (x = s)); [done|].
  apply elem_of_cons in Hin as [->|Hin]; [done|]. by rewrite IH.
Qed.

Lemma older_subseteq (s : nat) (l : list nat) : older s l ⊆ l.
Proof.
  induction l as [|x l IH]; [done|]. cbn. destruct (decide (x = s)).
  - apply list_subseteq_nil.
  - intros y Hy. apply elem_of_cons in Hy as [->|Hy]; [left|right; by apply IH].
Qed.

Lemma older_not_in (s : nat) (l : list nat) : s ∉ older s l.
Proof.
  induction l as [|x l IH]; cbn; [apply not_elem_of_nil|].
  destruct (decide (x = s)); [apply not_elem_of_nil|].
  apply not_elem_of_cons. split; [done|done].
Qed.

Lemma in_split_first (s : nat) (l : list nat) :
  s ∈ l -> l = older s l ++ s :: drop (S (length (older s l))) l.
Proof.
  induction l as [|x l IH]; intros Hin; [by apply elem_of_nil in Hin|].
  cbn. destruct (decide (x = s)) as [->|Hne]; [by rewrite drop_0|].
  apply elem_of_cons in Hin as [->|Hin]; [done|]. cbn. f_equal. by apply IH.
Qed.

Lemma instrs_at_app (rob : ROB.t) (l l' : list nat) :
  instrs_at rob (l ++ l') = instrs_at rob l ++ instrs_at rob l'.
Proof. apply omap_app. Qed.

Lemma instrs_at_ext (rob rob' : ROB.t) (l : list nat) :
  (forall s, s ∈ l ->
     ROB.instr <$> mjoin (ROB.store_ rob' !! s) = ROB.instr <$> mjoin (ROB.store_ rob !! s)) ->
  instrs_at rob' l = instrs_at rob l.
Proof.
  induction l as [|x l IH]; intros Hext; [done|].
  unfold instrs_at. cbn. rewrite (Hext x) by left.
  unfold instrs_at in IH. rewrite IH; [done|]. intros s Hs. apply Hext. by right.
Qed.

Lemma in_flight_instrs_at (rob : ROB.t) : in_flight rob = instrs_at rob (ROB.slots rob).
Proof.
  unfold in_flight, instrs_at, ROB.contents.
  induction (ROB.slots rob) as [|x l IH]; [done|]. cbn. by rewrite IH.
Qed.

Lemma instrs_at_entry (rob : ROB.t) (s : Z) (e : ROB.entry_t) :
  ROB.get_entry rob s = Ok e -> instrs_at rob [Z.to_nat s] = [ROB.instr e].
Proof.
  intros He. apply rob_get_entry_store in He as [_ He]. unfold instrs_at. cbn.
  by rewrite He.
Qed.

Lemma rob_slots_NoDup (rob : ROB.t) : rob_wf rob -> NoDup (ROB.slots rob).
Proof.
  intros (Hc & Hh & _ & _). unfold ROB.slots.
  apply NoDup_fmap_2_strong; [|apply NoDup_seq].
  intros a b Ha Hb Heq. apply elem_of_seq in Ha, Hb.
  destruct Hh as [Hz|Hh]; [lia|].
  apply (mod_add_inj (ROB.size rob) (ROB.head_index_ rob)); (done || lia).
Qed.

Lemma split_older (rob : ROB.t) (s : nat) (pre post : list nat) :
  rob_wf rob -> ROB.slots rob = pre ++ s :: post ->
  older s (ROB.slots rob) = pre /\ (s ∉ pre) /\ (s ∉ post).
Proof.
  intros Hwf Hs. pose proof (rob_slots_NoDup rob Hwf) as Hnd. rewrite Hs in Hnd |- *.
  apply NoDup_app in Hnd as (_ & Hpre & Hpost). apply NoDup_cons in Hpost as [Hpost _].
  assert (s ∉ pre) by (intros Hin; apply (Hpre s Hin); left).
  split; [by apply older_split|done].
Qed.

(** The value that the alias table names for a register is the value of the
    register after the instructions in flight. *)
Lemma rat_value `{Collaborators} (c : Core) (r : nat) (s : Z) :
  safe_inv c -> dataflow_inv c -> RAT_ c !! r = Some s ->
  exists e, ROB.get_entry (ROB_ c) s = Ok e /\
    exec_seq (reg_file_ c) (in_flight (ROB_ c)) !! r = Some (value c s e).
Proof.
  intros Hs Hd Hr.
  destruct (safe_rat c Hs r s Hr) as (e & He & Hu & Hrd).
  destruct (df_rat_some c Hd r s Hr) as (pre & post & Hsl & Hno).
  destruct (split_older _ _ _ _ (safe_rob c Hs) Hsl) as (Hold & _ & _).
  exists e. split; [done|].
  rewrite in_flight_instrs_at, Hsl, instrs_at_app.
  change (Z.to_nat s :: post) with ([Z.to_nat s] ++ post).
  rewrite instrs_at_app, (instrs_at_entry _ _ _ He). cbn [app].
  rewrite exec_seq_last_writer; [|..|done].
  - unfold value, env. by rewrite Hold.
  - destruct (safe_flight c Hs s e He) as (_ & _ & Hlt & _). rewrite <- Hrd. by apply Hlt.
  - unfold writesb. rewrite Hu, Hrd. by rewrite Nat.eqb_refl.
Qed.

Lemma rob_update_instrs_at (data : CDB.data_t) (rob rob' : ROB.t) (l : list nat) :
  ROB.update data rob = Ok rob' -> instrs_at rob' l = instrs_at rob l.
Proof.
  intros Hu. apply instrs_at_ext. intros s _.
  unfold ROB.update in Hu. apply obind_Ok in Hu as (e & He & Hu). injection Hu as <-.
  cbn [ROB.store_]. apply rob_get_entry_store in He as [H0 He].
  unfold zinsert. destruct (Z.ltb_spec (CDB.rob_index data) 0); [lia|].
  destruct (decide (s = Z.to_nat (CDB.rob_index data))) as [->|Hne].
  - rewrite list_lookup_insert_eq by (by apply lookup_lt_Some in He). by rewrite He.
  - by rewrite list_lookup_insert_ne.
Qed.

Lemma env_writeback `{Collaborators} (c c' : Core) (data : CDB.data_t) (s : Z) :
  rob_wf (ROB_ c) ->
  ROB.update data (ROB_ c) = Ok (ROB_ c') -> reg_file_ c' = reg_file_ c ->
  env c' s = env c s.
Proof.
  intros Hwf Hu Hrf. unfold env. rewrite Hrf.
  destruct (rob_update_queue _ _ _ Hu Hwf) as (_ & -> & _).
  by rewrite (rob_update_instrs_at _ _ _ _ Hu).
Qed.

Lemma env_issue_old `{Collaborators} (c c' : Core) (i : Instr) (s : Z) :
  rob_wf (ROB_ c) -> ROB.full (ROB_ c) = false ->
  ROB_ c' = (ROB.allocate i (ROB_ c)).2 -> reg_file_ c' = reg_file_ c ->
  Z.to_nat s ∈ ROB.slots (ROB_ c) ->
  env c' s = env c s.
Proof.
  intros Hwf Hfull Hrob Hrf Hin. unfold env. rewrite Hrf, Hrob.
  destruct (rob_allocate_slots i _ Hwf Hfull) as (-> & _ & _).
  rewrite older_app_in by done. f_equal. apply instrs_at_ext. intros x Hx.
  apply older_subseteq in Hx.
  unfold ROB.allocate. rewrite Hfull. cbn [snd ROB.store_].
  rewrite list_lookup_insert_ne; [done|]. intros <-.
  by apply (rob_tail_fresh _ Hwf Hfull).
Qed.

Lemma env_issue_new `{Collaborators} (c c' : Core) (i : Instr) :
  rob_wf (ROB_ c) -> ROB.full (ROB_ c) = false ->
  ROB_ c' = (ROB.allocate i (ROB_ c)).2 -> reg_file_ c' = reg_file_ c ->
  env c' (Z.of_nat (ROB.tail_index_ (ROB_ c)))
  = exec_seq (reg_file_ c) (in_flight (ROB_ c)).
Proof.
  intros Hwf Hfull Hrob Hrf. unfold env. rewrite Hrf, Hrob, Nat2Z.id.
  destruct (rob_allocate_slots i _ Hwf Hfull) as (-> & _ & _).
  pose proof (rob_tail_fresh _ Hwf Hfull) as Hfresh.
  rewrite older_split by done. rewrite in_flight_instrs_at. f_equal.
  apply instrs_at_ext. intros x Hx.
  unfold ROB.allocate. rewrite Hfull. cbn [snd ROB.store_].
  rewrite list_lookup_insert_ne; [done|]. by intros <-.
Qed.

Lemma env_head `{Collaborators} (c : Core) :
  rob_wf (ROB_ c) -> ROB.empty (ROB_ c) = false ->
  env c (ROB.head_index (ROB_ c)) = reg_file_ c.
Proof.
  intros Hwf Hne. unfold env, ROB.head_index. rewrite Nat2Z.id.
  rewrite (rob_pop_slots _ Hwf Hne). cbn. by destruct (decide _).
Qed.

Lemma env_commit `{Collaborators} (c c' : Core) (e : ROB.entry_t) (s : Z) :
  rob_wf (ROB_ c) -> ROB.empty (ROB_ c) = false ->
  ROB.get_entry (ROB_ c) (ROB.head_index (ROB_ c)) = Ok e ->
  ROB_ c' = ROB.pop (ROB_ c) ->
  reg_file_ c' = exec_one (reg_file_ c) (ROB.instr e) ->
  Z.to_nat s <> ROB.head_index_ (ROB_ c) ->
  env c' s = env c s.
Proof.
  intros Hwf Hne He Hrob Hrf Hs. unfold env. rewrite Hrf, Hrob.
  pose proof (rob_slots_NoDup _ Hwf) as Hnd.
  rewrite (rob_pop_slots _ Hwf Hne) in Hnd |- *. apply NoDup_cons in Hnd as [Hfresh _].
  cbn [older]. destruct (decide (ROB.head_index_ (ROB_ c) = Z.to_nat s)); [congruence|].
  change (?x :: ?l) with ([x] ++ l). rewrite instrs_at_app.
  replace [ROB.head_index_ (ROB_ c)] with [Z.to_nat (ROB.head_index (ROB_ c))]
    by (unfold ROB.head_index; by rewrite Nat2Z.id).
  rewrite (instrs_at_entry _ _ _ He). cbn. f_equal.
  apply instrs_at_ext. intros x Hx. apply older_subseteq in Hx.
  unfold ROB.pop. rewrite Hne. cbn [ROB.store_].
  rewrite list_lookup_insert_ne; [done|]. by intros <-.
Qed.

Lemma value_same `{Collaborators} (c c' : Core) (s : Z) (e e' : ROB.entry_t) :
  env c' s = env c s -> ROB.instr e' = ROB.instr e -> value c' s e' = value c s e.
Proof. unfold value. by intros -> ->. Qed.

Lemma env_same `{Collaborators} (c c' : Core) (s : Z) :
  ROB_ c' = ROB_ c -> reg_file_ c' = reg_file_ c -> env c' s = env c s.
Proof. unfold env. by intros -> ->. Qed.

(** An operand stays right when the entry keeps what program order gives it
    and the producer it waits for stays as it is. *)
Lemma operand_ok_transport `{Collaborators} (c c' : Core) (s : Z) (used : bool) (r : nat)
    (index data : Z) :
  env c' s = env c s ->
  (forall q eq, ROB.get_entry (ROB_ c) q = Ok eq -> ROB.ready eq = false ->
     zlookup (RST_ c) q = Some index ->
     ROB.get_entry (ROB_ c') q = Ok eq /\ zlookup (RST_ c') q = Some index /\
     env c' q = env c q) ->
  operand_ok c s used r index data -> operand_ok c' s used r index data.
Proof.
  intros Henv Hq [H1 H2]. split.
  - intros Hi. rewrite Henv. by apply H1.
  - intros Hi. destruct (H2 Hi) as (Hu & q & eq & Hg & Hr & Hrst & Hv).
    split; [done|]. destruct (Hq q eq Hg Hr Hrst) as (Hg' & Hrst' & Henvq).
    exists q, eq. split; [done|]. split; [done|]. split; [done|].
    rewrite Henv, Hv. f_equal. symmetry. by apply value_same.
Qed.

Lemma fu_ok_transport `{Collaborators} (c c' : Core) (fu : FU.t) :
  (forall inp e, FU.busy fu = true -> FU.input_ fu = Some inp ->
     ROB.get_entry (ROB_ c) (FU.rob_index inp) = Ok e ->
     (exists e', ROB.get_entry (ROB_ c') (FU.rob_index inp) = Ok e' /\
                 ROB.instr e' = ROB.instr e) /\
     env c' (FU.rob_index inp) = env c (FU.rob_index inp)) ->
  fu_ok c fu -> fu_ok c' fu.
Proof.
  intros Hq Hok Hb inp Hinp. destruct (Hok Hb inp Hinp) as [(e & He & Hi & H1 & H2) Hd].
  split; [|done]. destruct (Hq inp e Hb Hinp He) as [(e' & He' & Hie) Henv].
  exists e'. rewrite Hie, Henv. done.
Qed.

Lemma fu_ok_execute `{Collaborators} (c : Core) (fu : FU.t) :
  fu_ok c fu -> fu_ok c (FU.execute fu).
Proof.
  intros Hok. unfold fu_ok. destruct (fu_execute_input fu) as [-> ->].
  intros Hb inp Hinp. destruct (Hok Hb inp Hinp) as [He Hd]. split; [done|].
  unfold FU.execute, FU.done. unfold FU.busy in Hb. rewrite Hb. cbn [andb].
  destruct (FU.done_ fu) eqn:Hdn; cbn [negb]; [by apply Hd|].
  rewrite Hinp. by destruct (FU.wait_ fu).
Qed.

Lemma dispatch_dataflow `{Collaborators} (c : Core) (n : nat) (k : Z) (rs rs' : RS.t)
    (fus fus' : list FU.t) :
  dispatch n k rs fus = Ok (rs', fus') ->
  (forall j x, zlookup rs j = Some x -> RS.valid x = true -> rs_ok c x) ->
  Forall (fu_ok c) fus ->
  (forall j x, zlookup rs' j = Some x -> RS.valid x = true -> rs_ok c x) /\
  Forall (fu_ok c) fus'.
Proof.
  revert k rs fus. induction n as [|n IH]; intros k rs fus Hd Hrs Hfus.
  - cbn in Hd. by injection Hd as <- <-.
  - cbn [dispatch] in Hd.
    apply obind_Ok in Hd as (entry & He & Hd).
    apply obind_Ok in Hd as ([rs1 fus1] & Hone & Hd).
    unfold RS.get_entry in He.
    destruct (zlookup rs k) as [e0|] eqn:Hk; [|done]. injection He as ->.
    destruct (RS.valid entry && negb (RS.running entry) && RS.operands_ready entry
              && negb (rs_locked rs k)) eqn:Hc;
      [|injection Hone as <- <-; by apply (IH _ _ _ Hd)].
    apply andb_prop in Hc as [Hc _]. apply andb_prop in Hc as [Hc Hready].
    apply andb_prop in Hc as [Hv _].
    apply obind_Ok in Hone as (instr & Hi & Hone).
    apply obind_Ok in Hone as (fu & Hfu & Hone).
    destruct (negb (FU.busy fu)); injection Hone as <- <-; [|by apply (IH _ _ _ Hd)].
    apply (IH _ _ _ Hd).
    + intros j x Hj Hvx. destruct (decide (k = j)) as [<-|Hne].
      * rewrite (zlookup_zinsert_eq _ _ _ _ Hk) in Hj. injection Hj as <-.
        by apply (Hrs k entry).
      * rewrite zlookup_zinsert_ne in Hj by done. by apply (Hrs j x).
    + apply Forall_insert; [done|].
      intros _ inp [= <-]. cbn. split; [|done].
      destruct (Hrs k entry Hk Hv) as (e & Hge & Hin & [H1 _] & [H2 _]).
      unfold RS.operands_ready in Hready. apply andb_prop in Hready as [E1 E2].
      apply Z.eqb_eq in E1, E2.
      destruct (RS.instr entry) as [i0|]; [|done]. cbn in Hi. injection Hi as <-.
      injection Hin as ->. exists e. split; [done|]. split; [done|].
      split; [by apply H1|by apply H2].
Qed.

Lemma rs_ok_frame `{Collaborators} (c c' : Core) (x : RS.entry_t) :
  ROB_ c' = ROB_ c -> RST_ c' = RST_ c -> reg_file_ c' = reg_file_ c ->
  rs_ok c x -> rs_ok c' x.
Proof.
  unfold rs_ok, operand_ok, value, env. by intros -> -> ->.
Qed.

Lemma fu_ok_frame `{Collaborators} (c c' : Core) (fu : FU.t) :
  ROB_ c' = ROB_ c -> reg_file_ c' = reg_file_ c -> fu_ok c fu -> fu_ok c' fu.
Proof.
  unfold fu_ok, env. by intros -> ->.
Qed.

Lemma execute_dataflow `{Collaborators} (c c' : Core) :
  safe_inv c -> dataflow_inv c -> execute c = Ok c' -> dataflow_inv c'.
Proof.
  intros Hs Hd He.
  destruct (execute_frame c c' He) as (HROB & _ & HRAT & HRST & Hreg & _ & _ & _ & _
    & fus1 & bus1 & Hdr & Hdi & Hcdb).
  destruct (safe_rename c Hs) as (Hsched & _).
  assert (Hshape : Forall fu_shape (FU.execute <$> FUs_ c)).
  { apply sched_ok_execute in Hsched. apply Hsched. }
  assert (Hfus0 : Forall (fu_ok c) (FU.execute <$> FUs_ c)).
  { apply Forall_fmap. eapply Forall_impl; [apply (df_fus c Hd)|].
    intros fu Hfu. by apply fu_ok_execute. }
  assert (Hdrain : Forall (fu_ok c) fus1 /\
            forall d, bus1 = Some d ->
              exists e, ROB.get_entry (ROB_ c) (CDB.rob_index d) = Ok e /\
                CDB.result d = value c (CDB.rob_index d) e).
  { destruct (drain_cases _ _ _ _ Hdr) as [(_ & -> & ->)|[Hnone Hsome]].
    { split; [done|apply (df_bus c Hd)]. }
    rewrite Hnone, (drain_first_done 0) in Hdr.
    destruct (first_done 0 (FU.execute <$> FUs_ c)) as [[i fu]|] eqn:Hf; [|done].
    injection Hdr as <- <-.
    apply first_done_lookup in Hf as (_ & Hi & Hdone & _). rewrite Nat.sub_0_r in Hi |- *.
    split.
    - apply Forall_insert; [done|]. intros Hb. done.
    - intros d [= <-].
      rewrite Forall_lookup in Hshape, Hfus0.
      destruct (Hshape i fu Hi) as (Hdb & Hbi & Hout).
      destruct (Hbi (Hdb Hdone)) as [inp Hinp].
      destruct (Hfus0 i fu Hi (Hdb Hdone) inp Hinp) as [(e & Hge & Hin & H1 & H2) Hres].
      destruct (Hout Hdone inp Hinp) as [_ E2].
      unfold FU.get_output. rewrite E2. exists e. split; [done|].
      rewrite (Hres Hdone). unfold value, result_of. by rewrite Hin, H1, H2. }
  destruct Hdrain as [Hfus1 Hbus1].
  destruct (dispatch_dataflow c _ _ _ _ _ _ Hdi (df_rs c Hd) Hfus1) as [Hrs' Hfus'].
  split.
  - intros s e He' Hr. rewrite HROB in He'.
    rewrite (value_same c c' s e e); [by apply (df_ready c Hd)|by apply env_same|done].
  - intros d Hbd. rewrite Hcdb in Hbd. rewrite HROB.
    destruct (Hbus1 d Hbd) as (e & Hge & Hres). exists e. split; [done|].
    rewrite (value_same c c' _ e e); [done|by apply env_same|done].
  - eapply Forall_impl; [exact Hfus'|]. intros fu. by apply fu_ok_frame.
  - intros j x Hj Hv. apply (rs_ok_frame c c'); try done. by apply (Hrs' j).
  - rewrite HRAT, HROB. apply (df_rat_some c Hd).
  - rewrite HRAT, HROB. apply (df_rat_none c Hd).
Qed.

Lemma rob_update_at (data : CDB.data_t) (rob rob' : ROB.t) (e : ROB.entry_t) :
  ROB.update data rob = Ok rob' -> ROB.get_entry rob (CDB.rob_index data) = Ok e ->
  ROB.get_entry rob' (CDB.rob_index data)
  = Ok (ROB.mk_entry (ROB.instr e) true (CDB.result data)).
Proof.
  intros Hu He. unfold ROB.update in Hu. rewrite He in Hu. cbn in Hu. injection Hu as <-.
  unfold ROB.get_entry in He |- *. cbn [ROB.store_].
  destruct (zlookup (ROB.store_ rob) (CDB.rob_index data)) as [x|] eqn:Hx; [|done].
  by rewrite (zlookup_zinsert_eq _ _ _ _ Hx).
Qed.

(** The entry that the bus names is the only one that waits for the
    reservation station that the bus names. *)
Lemma bus_producer (c : Core) (d : CDB.data_t) :
  safe_inv c -> CDB_ c = Some d ->
  0 <= CDB.rs_index d /\
  zlookup (RST_ c) (CDB.rob_index d) = Some (CDB.rs_index d) /\
  (exists e, ROB.get_entry (ROB_ c) (CDB.rob_index d) = Ok e /\ ROB.ready e = false) /\
  forall q eq, ROB.get_entry (ROB_ c) q = Ok eq -> ROB.ready eq = false ->
    zlookup (RST_ c) q = Some (CDB.rs_index d) -> q = CDB.rob_index d.
Proof.
  intros Hs Hbus. destruct (safe_rename c Hs) as (Hsched & [Hpb _] & Hprod & _).
  unfold core_sched in Hsched. rewrite Hbus in Hsched.
  destruct (bus_holds _ _ _ Hsched) as (x0 & Hx0 & Hv0 & _).
  destruct (Hpb d Hbus) as (x1 & Hx1 & Hr1). assert (x1 = x0) as -> by congruence.
  destruct (safe_rs c Hs _ _ Hx0 Hv0) as (Hre & Hrst & _). rewrite Hr1 in Hre, Hrst.
  split; [apply zlookup_Some_lt in Hx0; lia|]. split; [done|]. split; [done|].
  intros q eq Hq Hready Hk.
  destruct (Hprod q eq Hq Hready) as (k & ek & Hk' & Hek & _ & Hrk).
  assert (k = CDB.rs_index d) as -> by congruence. congruence.
Qed.

Lemma wakeup_operand `{Collaborators} (c c' : Core) (d : CDB.data_t) (eq : ROB.entry_t)
    (s : Z) (used : bool) (r : nat) (index data index' data' : Z) :
  safe_inv c -> CDB_ c = Some d ->
  ROB.get_entry (ROB_ c) (CDB.rob_index d) = Ok eq ->
  CDB.result d = value c (CDB.rob_index d) eq ->
  ROB.update d (ROB_ c) = Ok (ROB_ c') -> reg_file_ c' = reg_file_ c -> RST_ c' = RST_ c ->
  (index = CDB.rs_index d -> index' = -1 /\ data' = CDB.result d) ->
  (index <> CDB.rs_index d -> index' = index /\ data' = data) ->
  operand_ok c s used r index data -> operand_ok c' s used r index' data'.
Proof.
  intros Hs Hbus Hq Hres Hu Hrf Hrst Heq Hne [H1 H2].
  destruct (bus_producer c d Hs Hbus) as (H0 & Hrq & _ & Huniq).
  assert (Henv : forall x, env c' x = env c x).
  { intros x. by apply (env_writeback c c' d); [apply Hs|..]. }
  destruct (decide (index = CDB.rs_index d)) as [Hi|Hi].
  - destruct (Heq Hi) as [-> ->]. split; [|done]. intros _.
    destruct (H2 ltac:(lia)) as (-> & q & e0 & Hq0 & Hr0 & Hk0 & Hv0).
    rewrite Hi in Hk0. pose proof (Huniq q e0 Hq0 Hr0 Hk0) as ->.
    assert (e0 = eq) as -> by congruence.
    unfold operand. rewrite Henv, Hv0. by cbn.
  - destruct (Hne Hi) as [-> ->]. split.
    + intros Hm. rewrite Henv. by apply H1.
    + intros Hm. destruct (H2 Hm) as (Hused & q & e0 & Hq0 & Hr0 & Hk0 & Hv0).
      split; [done|]. exists q, e0.
      assert (q <> CDB.rob_index d) by (intros ->; congruence).
      rewrite (rob_update_get_entry_ne _ _ _ _ Hu) by done. rewrite Hrst.
      split; [done|]. split; [done|]. split; [done|].
      rewrite Henv, Hv0. f_equal. symmetry. by apply value_same.
Qed.

Lemma writeback_dataflow `{Collaborators} (c c' : Core) :
  safe_inv c -> dataflow_inv c -> writeback c = Ok c' -> dataflow_inv c'.
Proof.
  intros Hs Hd Hw.
  apply writeback_cases in Hw as [[_ ->]|Hw]; [done|].
  destruct Hw as (d & Hbus & Hrel & Hu & Hbus' & _ & HRAT & HRST & Hreg & _ & HFUs & _).
  destruct (df_bus c Hd d Hbus) as (eq & Hq & Hres).
  destruct (bus_producer c d Hs Hbus) as (H0 & Hrq & (eq0 & Hq0 & Hnr) & Huniq).
  assert (eq0 = eq) as -> by congruence.
  assert (Henv : forall x, env c' x = env c x).
  { intros x. by apply (env_writeback c c' d); [apply Hs|..]. }
  pose proof (rob_update_at _ _ _ _ Hu Hq) as Hq'.
  destruct (rob_update_queue _ _ _ Hu (safe_rob c Hs)) as (_ & Hslots & Hfl & _).
  split.
  - intros s e He Hready. destruct (decide (s = CDB.rob_index d)) as [->|Hne].
    + rewrite Hq' in He. injection He as <-. cbn [ROB.result]. rewrite Hres.
      symmetry. by apply value_same.
    + rewrite (rob_update_get_entry_ne _ _ _ _ Hu) in He by done.
      rewrite (df_ready c Hd s e He Hready). symmetry. by apply value_same.
  - intros d'. by rewrite Hbus'.
  - rewrite HFUs. eapply Forall_impl; [apply (df_fus c Hd)|]. intros fu.
    apply fu_ok_transport. intros inp e _ _ He. split; [|apply Henv].
    destruct (rob_update_get_entry_fwd _ _ _ _ _ Hu He) as (e' & He' & Hi & _).
    by exists e'.
  - intros j x' Hj Hv.
    destruct (release_wakeup_lookup_inv _ _ _ _ _ Hrel Hj Hv) as (Hjne & x & Hx & Hvx & ->).
    destruct (df_rs c Hd j x Hx Hvx) as (e & He & Hin & O1 & O2).
    destruct (update_operands_spec d x) as (_ & _ & Ei & Er & A1 & A2 & B1 & B2).
    cbn zeta in Ei, Er, A1, A2, B1, B2.
    destruct (rob_update_get_entry_fwd _ _ _ _ _ Hu He) as (e' & He' & Hie & _).
    exists e'. rewrite Er, Ei, Hie. split; [done|]. split; [done|]. split.
    + by eapply (wakeup_operand c c' d eq).
    + by eapply (wakeup_operand c c' d eq).
  - intros r s. rewrite HRAT, Hslots. intros Hr.
    destruct (df_rat_some c Hd r s Hr) as (pre & post & Hsl & Hno).
    exists pre, post. split; [done|]. by rewrite (rob_update_instrs_at _ _ _ _ Hu).
  - intros r. rewrite HRAT, Hfl. apply (df_rat_none c Hd).
Qed.

(** A unit that is busy works for an entry that is not ready. *)
Lemma busy_entry_pending (c : Core) (fu : FU.t) (inp : FU.input_t) (e : ROB.entry_t) :
  safe_inv c -> fu ∈ FUs_ c -> FU.busy fu = true -> FU.input_ fu = Some inp ->
  ROB.get_entry (ROB_ c) (FU.rob_index inp) = Ok e -> ROB.ready e = false.
Proof.
  intros Hs Hin Hb Hinp He. destruct (safe_rename c Hs) as (Hsched & [_ Hpf] & _).
  destruct (busy_holds _ _ _ fu inp Hsched Hin Hb Hinp) as (x & Hx & Hv & _).
  rewrite Forall_forall in Hpf. destruct (Hpf fu Hin Hb inp Hinp) as (x' & Hx' & Hr).
  assert (x' = x) as -> by congruence.
  destruct (safe_rs c Hs _ _ Hx Hv) as ((re & Hre & Hnr) & _). congruence.
Qed.

Lemma station_entry_pending (c : Core) (j : Z) (x : RS.entry_t) (e : ROB.entry_t) :
  safe_inv c -> zlookup (RS_ c) j = Some x -> RS.valid x = true ->
  ROB.get_entry (ROB_ c) (RS.rob_index x) = Ok e -> ROB.ready e = false.
Proof.
  intros Hs Hx Hv He. destruct (safe_rs c Hs _ _ Hx Hv) as ((re & Hre & Hnr) & _).
  congruence.
Qed.

Lemma commit_dataflow `{Collaborators} (c c' : Core) :
  safe_inv c -> dataflow_inv c -> commit c = Ok c' ->
  dataflow_inv c' /\
  (c' = c \/
   exists e, ROB.get_entry (ROB_ c) (ROB.head_index (ROB_ c)) = Ok e /\
     reg_file_ c' = exec_one (reg_file_ c) (ROB.instr e) /\
     trace_ c' = trace_ c ++ [TrCommit (ROB.instr e)]).
Proof.
  intros Hs Hd Hc. pose proof Hc as Hc0.
  apply commit_cases in Hc0 as [->|(e & Hne & He & Hready & Hrd & Hperf)];
    [split; [done|by left]|].
  destruct (commit_ready_head c e Hne He Hready Hrd Hperf)
    as (c1 & Hc1 & Hrf & Hrat & Hrob & Htr & _ & _ & _ & Hrs & Hrst & Hbus & Hfus & _).
  assert (c1 = c') as -> by congruence.
  pose proof (safe_rob c Hs) as Hwf.
  assert (Hrf' : reg_file_ c' = exec_one (reg_file_ c) (ROB.instr e)).
  { rewrite Hrf. unfold exec_one.
    rewrite (df_ready c Hd _ e He Hready). unfold value. by rewrite (env_head c Hwf Hne). }
  split; [|right; by exists e].
  assert (Hget : forall s x, ROB.get_entry (ROB_ c') s = Ok x ->
            s <> ROB.head_index (ROB_ c) /\ ROB.get_entry (ROB_ c) s = Ok x).
  { intros s x Hx. rewrite Hrob in Hx.
    destruct (decide (s = ROB.head_index (ROB_ c))) as [->|Hsne].
    - by apply rob_pop_get_entry_head in Hx.
    - split; [done|]. by rewrite rob_pop_get_entry_ne in Hx. }
  assert (Henv : forall s, 0 <= s -> s <> ROB.head_index (ROB_ c) -> env c' s = env c s).
  { intros s H0 Hsne. apply (env_commit c c' e); try done.
    unfold ROB.head_index in Hsne. lia. }
  assert (Hkeep : forall s x, ROB.get_entry (ROB_ c) s = Ok x -> ROB.ready x = false ->
            ROB.get_entry (ROB_ c') s = Ok x /\ env c' s = env c s).
  { intros s x Hx Hr.
    assert (s <> ROB.head_index (ROB_ c)) by (intros ->; congruence).
    split; [by rewrite Hrob, rob_pop_get_entry_ne|].
    apply Henv; [by apply get_entry_nonneg in Hx|done]. }
  pose proof (rob_slots_NoDup _ Hwf) as Hnd.
  pose proof (rob_pop_slots _ Hwf Hne) as Hslots.
  rewrite Hslots in Hnd. apply NoDup_cons in Hnd as [Hfresh _].
  assert (Hinstrs : forall l, ROB.head_index_ (ROB_ c) ∉ l ->
            instrs_at (ROB_ c') l = instrs_at (ROB_ c) l).
  { intros l Hl. apply instrs_at_ext. intros x Hx. rewrite Hrob.
    unfold ROB.pop. rewrite Hne. cbn [ROB.store_].
    rewrite list_lookup_insert_ne; [done|]. by intros <-. }
  split.
  - intros s x Hx Hr. destruct (Hget s x Hx) as [Hsne Hx0].
    rewrite (df_ready c Hd s x Hx0 Hr). symmetry. apply value_same; [|done].
    apply Henv; [by apply get_entry_nonneg in Hx0|done].
  - rewrite Hbus. intros d Hbd.
    destruct (df_bus c Hd d Hbd) as (x & Hx & Hres).
    destruct (bus_producer c d Hs Hbd) as (_ & _ & (x0 & Hx0 & Hnr) & _).
    assert (x0 = x) as -> by congruence.
    destruct (Hkeep _ x Hx Hnr) as [Hx' Henv']. exists x. split; [done|].
    rewrite Hres. symmetry. by apply value_same.
  - rewrite Hfus. apply Forall_forall. intros fu Hin.
    pose proof (df_fus c Hd) as Hall. rewrite Forall_forall in Hall.
    apply (fu_ok_transport c c'); [|by apply Hall].
    intros inp x Hb Hinp Hx.
    destruct (Hkeep _ x Hx (busy_entry_pending c fu inp x Hs Hin Hb Hinp Hx)) as [Hx' Henv'].
    split; [by exists x|done].
  - rewrite Hrs. intros j x Hj Hv.
    destruct (df_rs c Hd j x Hj Hv) as (x0 & Hx0 & Hin & O1 & O2).
    destruct (Hkeep _ x0 Hx0 (station_entry_pending c j x x0 Hs Hj Hv Hx0)) as [Hx' Henv'].
    exists x0. split; [done|]. split; [done|].
    split; (eapply operand_ok_transport; [exact Henv'| |eassumption]);
      intros q eq Hq Hr Hk; destruct (Hkeep q eq Hq Hr) as [? ?]; by rewrite Hrst.
  - intros r s Hr.
    assert (Hr0 : RAT_ c !! r = Some s /\ s <> ROB.head_index (ROB_ c)).
    { rewrite Hrat in Hr.
      assert (Hold : RAT_ c !! r = Some s).
      { destruct (use_rd _ && _); [|done].
        destruct (decide (r = getRd (ROB.instr e))) as [->|Hrne].
        - by rewrite lookup_delete_eq in Hr.
        - by rewrite lookup_delete_ne in Hr. }
      split; [done|]. intros ->.
      destruct (safe_rat c Hs r _ Hold) as (x & Hx & Hu & Hrdx).
      assert (x = e) as -> by congruence. rewrite Hu, <- Hrdx in Hr. cbn [andb] in Hr.
      rewrite Hrdx in Hr. rewrite bool_decide_eq_true_2 in Hr by done.
      by rewrite lookup_delete_eq in Hr. }
    destruct Hr0 as [Hr0 Hsne].
    destruct (df_rat_some c Hd r s Hr0) as (pre & post & Hsl & Hno).
    rewrite Hslots in Hsl. destruct pre as [|p pre].
    { cbn in Hsl. injection Hsl as Hh _. exfalso. apply Hsne.
      destruct (safe_rat c Hs r s Hr0) as (x & Hx & _). apply get_entry_nonneg in Hx.
      unfold ROB.head_index. lia. }
    cbn in Hsl. injection Hsl as _ Hsl. rewrite Hrob. exists pre, post. split; [done|].
    rewrite <- Hrob, Hinstrs; [done|]. intros Hin. apply Hfresh. rewrite Hsl.
    apply elem_of_app. right. by right.
  - intros r Hr. rewrite in_flight_instrs_at.
    rewrite Hinstrs by (rewrite Hrob; exact Hfresh). rewrite Hrob.
    assert (Hcases : RAT_ c !! r = None \/
              RAT_ c !! r = Some (ROB.head_index (ROB_ c))).
    { rewrite Hrat in Hr. destruct (use_rd _ && _) eqn:Hcond; [|by left].
      apply andb_prop in Hcond as [_ Hbd]. apply bool_decide_eq_true in Hbd.
      destruct (decide (r = getRd (ROB.instr e))) as [->|Hrne]; [by right|].
      rewrite lookup_delete_ne in Hr by done. by left. }
    destruct Hcases as [Hnone|Hsome].
    + pose proof (df_rat_none c Hd r Hnone) as Hno.
      rewrite in_flight_instrs_at, Hslots in Hno.
      change (?x :: ?l) with ([x] ++ l) in Hno. rewrite instrs_at_app in Hno.
      by apply Forall_app in Hno as [_ Hno].
    + destruct (df_rat_some c Hd r _ Hsome) as (pre & post & Hsl & Hno).
      unfold ROB.head_index in Hsl. rewrite Nat2Z.id, Hslots in Hsl.
      destruct pre as [|p pre].
      * cbn in Hsl. injection Hsl as <-. done.
      * cbn in Hsl. injection Hsl as Hp Hsl. exfalso. apply Hfresh. rewrite Hsl.
        apply elem_of_app. right. left.
Qed.

(** What [Core::issue] reads for a source operand is its value after the
    instructions in flight, or the station that will produce that value. *)
Lemma read_operand_ok `{Collaborators} (c : Core) (used : bool) (r : nat) (data index : Z) :
  safe_inv c -> dataflow_inv c ->
  read_operand c used r = Ok (data, index) ->
  (index = -1 -> data = operand used r (exec_seq (reg_file_ c) (in_flight (ROB_ c)))) /\
  (index <> -1 ->
   used = true /\
   exists q eq, ROB.get_entry (ROB_ c) q = Ok eq /\ ROB.ready eq = false /\
     zlookup (RST_ c) q = Some index /\
     exec_seq (reg_file_ c) (in_flight (ROB_ c)) !! r = Some (value c q eq)).
Proof.
  intros Hs Hd Hr. unfold read_operand in Hr.
  destruct used; [|injection Hr as <- <-; by split].
  destruct (RAT_ c !! r) as [s|] eqn:Hrat.
  - apply obind_Ok in Hr as (e & He & Hr).
    destruct (rat_value c r s Hs Hd Hrat) as (e' & He' & Hval).
    assert (e' = e) as -> by congruence.
    destruct (ROB.ready e) eqn:Hready.
    + injection Hr as <- <-. split; [|done]. intros _.
      unfold operand. rewrite Hval. cbn. by apply (df_ready c Hd).
    + apply obind_Ok in Hr as (k & Hk & Hr). injection Hr as <- <-.
      destruct (zlookup (RST_ c) s) as [k'|] eqn:Hk'; [|done]. injection Hk as ->.
      destruct (safe_rename c Hs) as (_ & _ & Hprod & _).
      destruct (Hprod s e He Hready) as (k0 & ek & Hk0 & Hek & _).
      assert (k0 = k) as -> by congruence. apply zlookup_Some_lt in Hek.
      split; [lia|]. intros _. split; [done|]. by exists s, e.
  - apply obind_Ok in Hr as (v & Hv & Hr). injection Hr as <- <-.
    split; [|done]. intros _. unfold operand.
    rewrite exec_seq_no_writer by (by apply (df_rat_none c Hd)).
    destruct (reg_file_ c !! r); [by injection Hv as ->|done].
Qed.

Lemma issue_dataflow `{Collaborators} (c c' : Core) :
  safe_inv c -> dataflow_inv c -> issue c = Ok c' -> dataflow_inv c'.
Proof.
  intros Hs Hd Hi.
  apply issue_cases in Hi as [->|Hi]; [done|].
  destruct Hi as (instr & q & d1 & a1 & d2 & a2 & index & old & Hq & Hrsf & Hfull & Hr1 & Hr2
    & Hidx & Hold & Hfree & Htail & HROB & HRAT & HRS & HRST & _ & _ & Hreg & Hbus & Hfus & _).
  pose proof (safe_rob c Hs) as Hwf.
  pose proof (rob_tail_fresh _ Hwf Hfull) as Hfresh.
  destruct (rob_allocate_slots instr _ Hwf Hfull) as (Hslots & Hfl & _).
  set (t := Z.of_nat (ROB.tail_index_ (ROB_ c))) in *.
  assert (Hold_ne : forall s e, ROB.get_entry (ROB_ c) s = Ok e -> s <> t).
  { intros s e He ->. apply (safe_slots c Hs) in He. unfold t in He.
    rewrite Nat2Z.id in He. by apply Hfresh. }
  assert (Hkeep : forall s e, ROB.get_entry (ROB_ c) s = Ok e ->
            ROB.get_entry (ROB_ c') s = Ok e /\ env c' s = env c s /\
            zlookup (RST_ c') s = zlookup (RST_ c) s).
  { intros s e He. split; [|split].
    - rewrite HROB, rob_allocate_get_entry_ne; eauto.
    - apply (env_issue_old c c' instr); try done. by apply (safe_slots c Hs s e).
    - rewrite HRST. apply zlookup_zinsert_ne. intros Heq. by apply (Hold_ne s e He). }
  assert (Hnew : ROB.get_entry (ROB_ c') t = Ok (ROB.mk_entry instr false 0)).
  { rewrite HROB. by apply rob_allocate_get_tail. }
  assert (Henvt : env c' t = exec_seq (reg_file_ c) (in_flight (ROB_ c))).
  { by apply (env_issue_new c c' instr). }
  assert (Hinstrs : forall l, ROB.tail_index_ (ROB_ c) ∉ l ->
            instrs_at (ROB_ c') l = instrs_at (ROB_ c) l).
  { intros l Hl. apply instrs_at_ext. intros x Hx. rewrite HROB.
    unfold ROB.allocate. rewrite Hfull. cbn [snd ROB.store_].
    rewrite list_lookup_insert_ne; [done|]. by intros <-. }
  assert (Hinstr_t : instrs_at (ROB_ c') [ROB.tail_index_ (ROB_ c)] = [instr]).
  { rewrite <- (Nat2Z.id (ROB.tail_index_ (ROB_ c))). fold t.
    by rewrite (instrs_at_entry _ _ _ Hnew). }
  assert (Hop : forall used r data idx,
            read_operand c used r = Ok (data, idx) -> operand_ok c' t used r idx data).
  { intros used r data idx Hr.
    destruct (read_operand_ok c used r data idx Hs Hd Hr) as [H1 H2]. split.
    - intros Hm. rewrite Henvt. by apply H1.
    - intros Hm. destruct (H2 Hm) as (Hu & s & es & Hes & Hnr & Hk & Hv).
      split; [done|]. destruct (Hkeep s es Hes) as (Hes' & Henv' & Hk').
      exists s, es. split; [done|]. split; [done|]. split; [congruence|].
      rewrite Henvt, Hv. f_equal. symmetry. by apply value_same. }
  split.
  - intros s e He Hready. rewrite HROB in He.
    apply (rob_allocate_get_entry _ _ _ _ Hfull) in He as [[_ ->]|[_ He]]; [done|].
    destruct (Hkeep s e He) as (_ & Henv' & _).
    rewrite (df_ready c Hd s e He Hready). symmetry. by apply value_same.
  - rewrite Hbus. intros d Hbd. destruct (df_bus c Hd d Hbd) as (x & Hx & Hres).
    destruct (Hkeep _ x Hx) as (Hx' & Henv' & _). exists x. split; [done|].
    rewrite Hres. symmetry. by apply value_same.
  - rewrite Hfus. eapply Forall_impl; [apply (df_fus c Hd)|]. intros fu.
    apply fu_ok_transport. intros inp x _ _ Hx.
    destruct (Hkeep _ x Hx) as (Hx' & Henv' & _). split; [by exists x|done].
  - intros j x Hj Hv. rewrite HRS in Hj.
    destruct (decide (j = index)) as [->|Hne].
    + rewrite (zlookup_zinsert_eq _ _ _ _ Hold) in Hj. injection Hj as <-.
      exists (ROB.mk_entry instr false 0). cbn. split; [done|]. split; [done|].
      split; by apply Hop.
    + rewrite zlookup_zinsert_ne in Hj by done.
      destruct (df_rs c Hd j x Hj Hv) as (x0 & Hx0 & Hin & O1 & O2).
      destruct (Hkeep _ x0 Hx0) as (Hx' & Henv' & _).
      exists x0. split; [done|]. split; [done|].
      split; (eapply operand_ok_transport; [exact Henv'| |eassumption]);
        intros s es Hes Hnr Hk; destruct (Hkeep s es Hes) as (? & ? & Hk');
        (split; [done|split; [congruence|done]]).
  - intros r s Hr. rewrite HROB, Hslots, <- HROB.
    assert (Hcases : (use_rd (getExeFlags instr) = true /\ getRd instr = r /\ s = t) \/
              (writesb r instr = false /\ RAT_ c !! r = Some s)).
    { rewrite HRAT in Hr. unfold writesb. destruct (use_rd (getExeFlags instr)); [|by right].
      destruct (decide (getRd instr = r)) as [<-|Hrne].
      - rewrite lookup_insert_eq in Hr. injection Hr as <-. by left.
      - rewrite lookup_insert_ne in Hr by done. right. split; [|done].
        cbn. by apply Nat.eqb_neq. }
    destruct Hcases as [(_ & _ & ->)|[Hnw Hr0]].
    + exists (ROB.slots (ROB_ c)), []. unfold t. rewrite Nat2Z.id. split; [done|].
      constructor.
    + destruct (df_rat_some c Hd r s Hr0) as (pre & post & Hsl & Hno).
      exists pre, (post ++ [ROB.tail_index_ (ROB_ c)]).
      split; [by rewrite Hsl, <- app_assoc|].
      rewrite instrs_at_app, Hinstr_t, Hinstrs.
      * apply Forall_app. split; [done|]. by apply Forall_singleton.
      * intros Hin. apply Hfresh. rewrite Hsl. apply elem_of_app. right. by right.
  - intros r Hr. rewrite HROB, Hfl.
    assert (Hcases : writesb r instr = false /\ RAT_ c !! r = None).
    { rewrite HRAT in Hr. unfold writesb. destruct (use_rd (getExeFlags instr)); [|done].
      destruct (decide (getRd instr = r)) as [<-|Hrne].
      - by rewrite lookup_insert_eq in Hr.
      - rewrite lookup_insert_ne in Hr by done. split; [|done]. cbn. by apply Nat.eqb_neq. }
    destruct Hcases as [Hnw Hr0]. apply Forall_app. split; [by apply (df_rat_none c Hd)|].
    by apply Forall_singleton.
Qed.

Lemma dataflow_inv_init `{Collaborators} (num_regs rob_size rs_size num_fus : nat) :
  dataflow_inv (init num_regs rob_size rs_size num_fus).
Proof.
  assert (Hnone : forall s e,
            ROB.get_entry (ROB_ (init num_regs rob_size rs_size num_fus)) s = Ok e -> False).
  { intros s e Hs. unfold ROB.get_entry, zlookup in Hs. cbn in Hs.
    destruct (s <? 0); [done|].
    destruct (replicate rob_size None !! Z.to_nat s) as [x|] eqn:Hx; [|done].
    apply lookup_replicate in Hx as [-> _]. done. }
  split.
  - intros s e He. by destruct (Hnone s e).
  - intros d Hd. done.
  - cbn. apply Forall_replicate. intros Hb. done.
  - intros j x Hj Hv. exfalso. unfold zlookup in Hj. cbn in Hj.
    destruct (j <? 0); [done|]. apply lookup_replicate in Hj as [-> _]. done.
  - intros r s Hr. cbn in Hr. by rewrite lookup_empty in Hr.
  - intros r _. cbn. constructor.
Qed.

Lemma fetch_dataflow `{Collaborators} (i : Instr) (c : Core) :
  dataflow_inv c -> dataflow_inv (fetch i c).
Proof. intros [A B C D E F]. split; [exact A|exact B|exact C|exact D|exact E|exact F]. Qed.

Lemma step_dataflow `{Collaborators} (rf0 : list Z) (a : action) (c c' : Core) :
  safe_inv c -> dataflow_inv c ->
  reg_file_ c = exec_seq rf0 (committed (trace_ c)) ->
  step a c = Ok c' ->
  dataflow_inv c' /\ reg_file_ c' = exec_seq rf0 (committed (trace_ c')).
Proof.
  intros Hs Hd Harch Hstep. destruct a as [i| | | |]; cbn [step] in Hstep.
  - injection Hstep as <-. split; [by apply fetch_dataflow|done].
  - split; [by eapply issue_dataflow|].
    apply issue_cases in Hstep as [->|Hi]; [done|].
    destruct Hi as (instr & q & d1 & a1 & d2 & a2 & index & old & _ & _ & _ & _ & _
      & _ & _ & _ & _ & _ & _ & _ & _ & _ & -> & -> & _).
    rewrite committed_app. cbn. by rewrite app_nil_r.
  - split; [by eapply execute_dataflow|].
    destruct (execute_frame c c' Hstep) as (_ & -> & _ & _ & -> & _). done.
  - split; [by eapply writeback_dataflow|].
    apply writeback_cases in Hstep
      as [[_ ->]|(data & _ & _ & _ & _ & -> & _ & _ & -> & _)]; done.
  - destruct (commit_dataflow c c' Hs Hd Hstep) as [Hd' [->|(e & _ & -> & ->)]]; [done|].
    split; [done|]. rewrite committed_app, exec_seq_app, <- Harch. done.
Qed.

Lemma run_dataflow `{Collaborators} (rf0 : list Z) (acts : list action) (c c' : Core) :
  Forall (well_formed (length (reg_file_ c)) (length (FUs_ c))) acts ->
  safe_inv c -> dataflow_inv c ->
  reg_file_ c = exec_seq rf0 (committed (trace_ c)) ->
  run acts c = Ok c' ->
  safe_inv c' /\ dataflow_inv c' /\ reg_file_ c' = exec_seq rf0 (committed (trace_ c')).
Proof.
  revert c. induction acts as [|a acts IH]; intros c Hwf Hs Hd Harch Hrun; cbn [run] in Hrun.
  - by injection Hrun as <-.
  - apply obind_Ok in Hrun as (c1 & Hstep & Hrun).
    apply Forall_cons in Hwf as [Ha Hwf].
    destruct (step_sized a c c1 Hstep) as [Hl1 Hl2].
    destruct (step_dataflow rf0 a c c1 Hs Hd Harch Hstep) as [Hd1 Harch1].
    apply (IH c1); try done.
    + by rewrite Hl1, Hl2.
    + by eapply step_safe.
Qed.

(** X10: the register file of the out-of-order core is, at every moment and
    for every order of the phases, the register file that executing the
    committed instructions one after the other gives, each instruction
    reading its source registers and writing what its unit computes from
    them; and the committed instructions are the first ones of the program
    handed over.  Register renaming, wakeup by broadcast and commit never
    give an instruction another operand than program order does. *)
Theorem registers_follow_program_order `{Collaborators}
    (num_regs rob_size rs_size num_fus : nat) (acts : list action) (c : Core) :
  Forall (well_formed num_regs num_fus) acts ->
  run acts (init num_regs rob_size rs_size num_fus) = Ok c ->
  reg_file_ c = exec_seq (replicate num_regs 0) (committed (trace_ c)) /\
  committed (trace_ c) `prefix_of` handed acts.
Proof.
  intros Hwf Hrun. split.
  - destruct (run_dataflow (replicate num_regs 0) acts
                (init num_regs rob_size rs_size num_fus) c) as (_ & _ & Harch); try done.
    + cbn. by rewrite !length_replicate.
    + apply safe_inv_init.
    + apply dataflow_inv_init.
  - pose proof (run_fifo _ _ _ (fifo_inv_init _ _ _ _) Hrun) as [_ Hfifo].
    pose proof (run_handed acts _ c Hrun) as Hh. cbn in Hh.
    exists (in_flight (ROB_ c) ++ issue_queue_ c). rewrite <- Hh, Hfifo.
    by rewrite <- app_assoc.
Qed.

Lemma registers_follow_program_order_witness :
  let c := after dependent_pair (init 8 2 2 2) in
  committed (trace_ c) = [ADDI 1 1 0 5; ADD 0 4 1 1] /\
  reg_file_ c = [0; 5; 0; 0; 10; 0; 0; 0] /\
  reg_file_ c = @exec_seq adder (replicate 8 0) (committed (trace_ c)) /\
  committed (trace_ c) `prefix_of` handed dependent_pair.
Proof.
  cbn zeta. split; [vm_compute; reflexivity|]. split; [vm_compute; reflexivity|].
  apply (@registers_follow_program_order adder 8 2 2 2 dependent_pair).
  - unfold dependent_pair, cycles, cycle. cbn.
    repeat (constructor;
            [cbn [well_formed];
             first [exact I | unfold instr_ok; cbn; repeat split; intros; lia]|]).
    constructor.
  - vm_compute. reflexivity.
Defined.

(** X11: in every core reached, a register that the alias table maps is
    mapped to the slot of the youngest instruction in flight that writes
    it, and a register that the table does not map is written by no
    instruction in flight: issue and commit keep the table exact. *)
Theorem alias_table_names_youngest_writer `{Collaborators}
    (num_regs rob_size rs_size num_fus : nat) (acts : list action) (c : Core) (r : nat) :
  Forall (well_formed num_regs num_fus) acts ->
  run acts (init num_regs rob_size rs_size num_fus) = Ok c ->
  match RAT_ c !! r with
  | Some s =>
      exists pre post e,
        ROB.slots (ROB_ c) = pre ++ Z.to_nat s :: post /\
        ROB.get_entry (ROB_ c) s = Ok e /\
        writesb r (ROB.instr e) = true /\
        no_writer r (instrs_at (ROB_ c) post)
  | None => no_writer r (in_flight (ROB_ c))
  end.
Proof.
  intros Hwf Hrun.
  destruct (run_dataflow (replicate num_regs 0) acts
              (init num_regs rob_size rs_size num_fus) c) as (Hs & Hd & _); try done.
  { cbn. by rewrite !length_replicate. }
  { apply safe_inv_init. }
  { apply dataflow_inv_init. }
  destruct (RAT_ c !! r) as [s|] eqn:Hr; [|by apply (df_rat_none c Hd)].
  destruct (df_rat_some c Hd r s Hr) as (pre & post & Hsl & Hno).
  destruct (safe_rat c Hs r s Hr) as (e & He & Hu & Hrd).
  exists pre, post, e. split; [done|]. split; [done|]. split; [|done].
  unfold writesb. rewrite Hu, Hrd. by rewrite Nat.eqb_refl.
Qed.

Lemma alias_table_names_youngest_writer_witness :
  let acts := [Fetch (ADD 1 1 2 3); Fetch (ADD 0 1 5 6)] ++ cycles 2 in
  let c := after acts (init 8 2 2 2) in
  RAT_ c !! 1%nat = Some 1 /\
  exists pre post e,
    ROB.slots (ROB_ c) = pre ++ Z.to_nat 1 :: post /\
    ROB.get_entry (ROB_ c) 1 = Ok e /\
    writesb 1 (ROB.instr e) = true /\
    no_writer 1 (instrs_at (ROB_ c) post).
Proof.
  cbn zeta. split; [vm_compute; reflexivity|].
  pose proof (@alias_table_names_youngest_writer adder 8 2 2 2
                ([Fetch (ADD 1 1 2 3); Fetch (ADD 0 1 5 6)] ++ cycles 2)
                (after ([Fetch (ADD 1 1 2 3); Fetch (ADD 0 1 5 6)] ++ cycles 2) (init 8 2 2 2))
                1%nat) as Hx.
  assert (Hwf : Forall (well_formed 8 2) ([Fetch (ADD 1 1 2 3); Fetch (ADD 0 1 5 6)] ++ cycles 2)).
  { unfold cycles, cycle. cbn.
    repeat (constructor;
            [cbn [well_formed];
             first [exact I | unfold instr_ok; cbn; repeat split; intros; lia]|]).
    constructor. }
  specialize (Hx Hwf ltac:(vm_compute; reflexivity)).
  exact Hx.
Defined.

(** ** Every instruction commits *)

Lemma total_app {A : Type} (w : A -> nat) (l1 l2 : list A) :
  total w (l1 ++ l2) = (total w l1 + total w l2)%nat.
Proof. induction l1 as [|x l1 IH]; cbn; [done|]. rewrite IH. lia. Qed.

Lemma total_fmap {A B : Type} (w : B -> nat) (f : A -> B) (l : list A) :
  total w (f <$> l) = total (fun x => w (f x)) l.
Proof. induction l as [|x l IH]; cbn; [done|]. by rewrite IH. Qed.

Lemma total_insert {A : Type} (w : A -> nat) (l : list A) (i : nat) (x y : A) :
  l !! i = Some x ->
  (total w (<[i := y]> l) + w x = total w l + w y)%nat.
Proof.
  intros Hi. destruct (lookup_split l i x y Hi) as [E1 E2].
  rewrite E2.
  replace (total w l) with (total w (take i l ++ x :: drop (S i) l)) by (by rewrite <- E1).
  rewrite !total_app. cbn. lia.
Qed.

Lemma total_zinsert {A : Type} (w : A -> nat) (l : list A) (i : Z) (x y : A) :
  zlookup l i = Some x ->
  (total w (zinsert i y l) + w x = total w l + w y)%nat.
Proof.
  unfold zlookup, zinsert. destruct (i <? 0); [done|]. apply total_insert.
Qed.

Lemma total_le {A : Type} (w w' : A -> nat) (l : list A) :
  (forall x, x ∈ l -> (w' x <= w x)%nat) -> (total w' l <= total w l)%nat.
Proof.
  induction l as [|x l IH]; intros Hle; cbn; [done|].
  pose proof (Hle x ltac:(left)). specialize (IH (fun y Hy => Hle y ltac:(by right))). lia.
Qed.

Lemma total_lt {A : Type} (w w' : A -> nat) (l : list A) (x : A) :
  (forall y, y ∈ l -> (w' y <= w y)%nat) -> x ∈ l -> (w' x < w x)%nat ->
  (total w' l < total w l)%nat.
Proof.
  induction l as [|y l IH]; intros Hle Hin Hlt; [by apply elem_of_nil in Hin|].
  cbn. pose proof (Hle y ltac:(left)).
  pose proof (total_le w w' l (fun z Hz => Hle z ltac:(by right))).
  apply elem_of_cons in Hin as [->|Hin]; [lia|].
  specialize (IH (fun z Hz => Hle z ltac:(by right)) Hin Hlt). lia.
Qed.

Lemma total_zero {A : Type} (w : A -> nat) (l : list A) (x : A) :
  total w l = 0%nat -> x ∈ l -> w x = 0%nat.
Proof.
  induction l as [|y l IH]; intros Ht Hin; [by apply elem_of_nil in Hin|].
  cbn in Ht. apply elem_of_cons in Hin as [->|Hin]; [lia|]. apply IH; [lia|done].
Qed.

(** One cycle of a unit. *)
Lemma fu_weight_execute `{Collaborators} (fu : FU.t) :
  fu_shape fu ->
  (fu_weight (FU.execute fu) <= fu_weight fu)%nat /\
  (FU.busy fu = true -> FU.done fu = false ->
   (fu_weight (FU.execute fu) < fu_weight fu)%nat).
Proof.
  intros (_ & Hin & _). unfold fu_weight, FU.execute, FU.busy, FU.done in *.
  destruct (FU.busy_ fu) eqn:Hb; cbn [andb]; [|rewrite Hb; split; [lia|done]].
  destruct (FU.done_ fu) eqn:Hd; cbn [negb]; [rewrite Hb, Hd; split; [lia|done]|].
  destruct (Hin eq_refl) as [inp Hinp]. rewrite Hinp.
  destruct (FU.wait_ fu) as [|n] eqn:Hw; cbn; split; intros; lia.
Qed.

Lemma execute_units_weight `{Collaborators} (fus : list FU.t) :
  Forall fu_shape fus ->
  (total fu_weight (FU.execute <$> fus) <= total fu_weight fus)%nat /\
  (forall fu, fu ∈ fus -> FU.busy fu = true -> FU.done fu = false ->
     (total fu_weight (FU.execute <$> fus) < total fu_weight fus)%nat).
Proof.
  intros Hsh. rewrite Forall_forall in Hsh. rewrite total_fmap. split.
  - apply total_le. intros fu Hfu. by apply fu_weight_execute, Hsh.
  - intros fu Hfu Hb Hd. apply (total_lt _ _ _ fu); [|done|].
    + intros y Hy. by apply fu_weight_execute, Hsh.
    + by apply fu_weight_execute; [apply Hsh|..].
Qed.

(** The scan for a completed unit, on a free bus. *)
Lemma drain_weight (fus fus' : list FU.t) (bus' : CDB.t) :
  Forall fu_shape fus -> drain fus None = Ok (fus', bus') ->
  match first_done 0 fus with
  | None => fus' = fus /\ bus' = None
  | Some _ =>
      (total fu_weight fus' + 3 = total fu_weight fus)%nat /\ exists d, bus' = Some d
  end.
Proof.
  intros Hsh Hd. rewrite (drain_first_done 0) in Hd.
  destruct (first_done 0 fus) as [[i fu]|] eqn:Hf; [|by injection Hd as <- <-].
  injection Hd as <- <-.
  apply first_done_lookup in Hf as (_ & Hi & Hdone & _). rewrite Nat.sub_0_r in Hi |- *.
  split; [|by eexists].
  pose proof (total_insert fu_weight fus i fu (FU.clear fu) Hi) as Ht.
  rewrite Forall_lookup in Hsh. destruct (Hsh i fu Hi) as (Hdb & _).
  assert (fu_weight fu = 3%nat) as E1 by (unfold fu_weight; by rewrite (Hdb Hdone), Hdone).
  assert (fu_weight (FU.clear fu) = 0%nat) as E2 by done.
  lia.
Qed.

(** The dispatch loop: a station that is dispatched stops waiting, and its
    unit starts counting down from a latency of at most [L]. *)
Lemma dispatch_weight `{Collaborators} (L N : nat) (n : nat) (k : Z) (rs rs' : RS.t)
    (fus fus' : list FU.t) :
  bounded_units L N -> (length fus <= N)%nat -> 0 <= k ->
  dispatch n k rs fus = Ok (rs', fus') ->
  ((L + 5) * total rs_waiting rs' + total fu_weight fus'
   <= (L + 5) * total rs_waiting rs + total fu_weight fus)%nat /\
  (forall j x i fu,
     k <= j < k + Z.of_nat n -> zlookup rs j = Some x ->
     RS.valid x = true -> RS.running x = false -> RS.operands_ready x = true ->
     RS.instr x = Some i -> fus !! getFUType i = Some fu -> FU.busy fu = false ->
     ((L + 5) * total rs_waiting rs' + total fu_weight fus'
      < (L + 5) * total rs_waiting rs + total fu_weight fus)%nat).
Proof.
  intros [Hlat Hlock] HN Hk. revert k rs fus HN Hk.
  induction n as [|n IH]; intros k rs fus HN Hk Hd.
  - cbn in Hd. injection Hd as <- <-. split; [done|]. intros j x i fu Hj. lia.
  - cbn [dispatch] in Hd.
    apply obind_Ok in Hd as (entry & He & Hd).
    apply obind_Ok in Hd as ([rs1 fus1] & Hone & Hd).
    unfold RS.get_entry in He.
    destruct (zlookup rs k) as [e0|] eqn:Hzk; [|done]. injection He as ->.
    rewrite Hlock in Hone. cbn [negb] in Hone. rewrite andb_true_r in Hone.
    assert (Hlen1 : length fus1 = length fus).
    { destruct (RS.valid entry && negb (RS.running entry) && RS.operands_ready entry);
        [|by injection Hone as <- <-].
      apply obind_Ok in Hone as (i & Hi & Hone).
      apply obind_Ok in Hone as (fu & Hfu & Hone).
      destruct (negb (FU.busy fu)); injection Hone as <- <-; [|done].
      by rewrite length_insert. }
    destruct (IH (k + 1) rs1 fus1 ltac:(lia) ltac:(lia) Hd) as [Hle Hlt].
    assert (Hstep :
      (rs1 = rs /\ fus1 = fus /\
       (RS.valid entry && negb (RS.running entry) && RS.operands_ready entry = false \/
        exists i fu, RS.instr entry = Some i /\ fus !! getFUType i = Some fu /\
                     FU.busy fu = true)) \/
      ((L + 5) * total rs_waiting rs1 + total fu_weight fus1
       < (L + 5) * total rs_waiting rs + total fu_weight fus)%nat).
    { destruct (RS.valid entry && negb (RS.running entry) && RS.operands_ready entry) eqn:Hc;
        [|injection Hone as <- <-; left; split; [done|split; [done|by left]]].
      apply obind_Ok in Hone as (i & Hi & Hone).
      apply obind_Ok in Hone as (fu & Hfu & Hone).
      destruct (RS.instr entry) as [i0|] eqn:Hin; [|done]. cbn in Hi. injection Hi as ->.
      destruct (fus !! getFUType i) as [fu0|] eqn:Hf; [|done]. cbn in Hfu.
      injection Hfu as ->.
      destruct (FU.busy fu) eqn:Hb; cbn [negb] in Hone; injection Hone as <- <-.
      { left. split; [done|]. split; [done|]. right. by exists i, fu. }
      right.
      pose proof (total_zinsert rs_waiting rs k entry (RS.set_running entry) Hzk) as Hr.
      pose proof (total_insert fu_weight fus (getFUType i) fu
                    (FU.issue i (RS.rob_index entry) k (RS.rs1_data entry)
                       (RS.rs2_data entry) fu) Hf) as Hu.
      assert (rs_waiting entry = 1%nat) as E1.
      { unfold rs_waiting. apply andb_prop in Hc as [Hc _]. by rewrite Hc. }
      assert (rs_waiting (RS.set_running entry) = 0%nat) as E2.
      { unfold rs_waiting. cbn. by rewrite andb_false_r. }
      assert (fu_weight fu = 0%nat) as E3 by (unfold fu_weight; by rewrite Hb).
      assert (fu_weight (FU.issue i (RS.rob_index entry) k (RS.rs1_data entry)
                           (RS.rs2_data entry) fu)
              <= L + 4)%nat as E4.
      { unfold fu_weight. cbn.
        apply lookup_lt_Some in Hf.
        pose proof (Hlat i (RS.rs1_data entry) (RS.rs2_data entry) ltac:(lia)). lia. }
      nia. }
    split.
    + destruct Hstep as [(-> & -> & _)|Hstep]; lia.
    + intros j x i fu Hj Hx Hv Hr Hrd Hi Hf Hb.
      destruct Hstep as [(-> & -> & Hno)|Hstep]; [|lia].
      destruct (decide (j = k)) as [->|Hne].
      * exfalso. assert (x = entry) as -> by congruence.
        destruct Hno as [Hno|(i' & fu' & Hi' & Hf' & Hb')].
        -- rewrite Hv, Hr, Hrd in Hno. done.
        -- congruence.
      * apply (Hlt j x i fu); (done || lia).
Qed.

Lemma total_fmap_change {A B : Type} `{EqDecision A} (w : B -> nat) (f f' : A -> B) (l : list A) (x0 : A) :
  NoDup l -> x0 ∈ l -> (forall y, y ∈ l -> y <> x0 -> f' y = f y) ->
  (total w (f' <$> l) + w (f x0) = total w (f <$> l) + w (f' x0))%nat.
Proof.
  induction l as [|y l IH]; intros Hnd Hin Hext; [by apply elem_of_nil in Hin|].
  apply NoDup_cons in Hnd as [Hy Hnd]. cbn.
  destruct (decide (y = x0)) as [->|Hne].
  - assert (f' <$> l = f <$> l) as ->.
    { apply list_fmap_ext. intros i z Hz. apply Hext; [right; by eapply list_elem_of_lookup_2|].
      intros ->. apply Hy. by eapply list_elem_of_lookup_2. }
    lia.
  - apply elem_of_cons in Hin as [->|Hin]; [done|].
    rewrite (Hext y) by (done || left).
    specialize (IH Hnd Hin (fun z Hz => Hext z ltac:(by right))). lia.
Qed.

(** A broadcast makes one more entry ready. *)
Lemma rob_update_ready_count (data : CDB.data_t) (rob rob' : ROB.t) (e : ROB.entry_t) :
  rob_wf rob -> ROB.update data rob = Ok rob' ->
  ROB.get_entry rob (CDB.rob_index data) = Ok e -> ROB.ready e = false ->
  Z.to_nat (CDB.rob_index data) ∈ ROB.slots rob ->
  total entry_ready (ROB.contents rob') = S (total entry_ready (ROB.contents rob)).
Proof.
  intros Hwf Hu He Hnr Hin.
  destruct (rob_update_queue _ _ _ Hu Hwf) as (_ & Hslots & _).
  unfold ROB.contents. rewrite Hslots.
  pose proof (rob_update_at _ _ _ _ Hu He) as He'.
  apply rob_get_entry_store in He as [H0 He]. apply rob_get_entry_store in He' as [_ He'].
  assert (Ht := total_fmap_change entry_ready
                (fun s => mjoin (ROB.store_ rob !! s))
                (fun s => mjoin (ROB.store_ rob' !! s))
                (ROB.slots rob) (Z.to_nat (CDB.rob_index data))
                (rob_slots_NoDup _ Hwf) Hin).
  cbn beta in Ht. rewrite He, He' in Ht. cbn in Ht. rewrite Hnr in Ht.
  rewrite <- Nat.add_1_r. rewrite <- Ht; [lia|].
  intros y Hy Hne.
  unfold ROB.update in Hu. apply obind_Ok in Hu as (e0 & _ & Hu). injection Hu as <-.
  cbn [ROB.store_]. unfold zinsert. destruct (Z.ltb_spec (CDB.rob_index data) 0); [lia|].
  by rewrite list_lookup_insert_ne.
Qed.

Lemma wakeup_release_waiting (data : CDB.data_t) (rs rs' : RS.t) :
  holds rs (CDB.rs_index data) ->
  RS.release (CDB.rs_index data) (wakeup data rs) = Ok rs' ->
  total rs_waiting rs' = total rs_waiting rs.
Proof.
  intros (x & Hx & Hv & Hr) Hrel.
  assert (Hw : total rs_waiting (wakeup data rs) = total rs_waiting rs).
  { unfold wakeup. rewrite total_fmap. clear. induction rs as [|e rs IH]; [done|].
    cbn. rewrite IH. f_equal. destruct (RS.valid e) eqn:Hv; [|done].
    destruct (update_operands_spec data e) as (Ev & Er & _). cbn zeta in Ev, Er.
    unfold rs_waiting. by rewrite Ev, Er. }
  unfold RS.release, RS.get_entry in Hrel.
  destruct (zlookup (wakeup data rs) (CDB.rs_index data)) as [x'|] eqn:Hx'; [|done].
  cbn in Hrel. injection Hrel as <-.
  pose proof (total_zinsert rs_waiting _ _ x' (RS.set_free x') Hx') as Ht.
  destruct (zlookup_wakeup _ _ _ _ Hx') as (x0 & Hx0 & ->).
  assert (x0 = x) as -> by congruence. rewrite Hv in Ht |- *.
  destruct (update_operands_spec data x) as (Ev & Er & _). cbn zeta in Ev, Er.
  assert (rs_waiting (RS.update_operands data x) = 0%nat) as E1.
  { unfold rs_waiting. by rewrite Ev, Er, Hv, Hr. }
  assert (rs_waiting (RS.set_free (RS.update_operands data x)) = 0%nat) as E2 by done.
  lia.
Qed.

Lemma commit_ready_facts (c c' : Core) (e : ROB.entry_t) :
  commit c = Ok c' -> ROB.empty (ROB_ c) = false ->
  ROB.get_entry (ROB_ c) (ROB.head_index (ROB_ c)) = Ok e -> ROB.ready e = true ->
  (use_rd (getExeFlags (ROB.instr e)) = true ->
   (getRd (ROB.instr e) < length (reg_file_ c))%nat) /\
  perf_instrs_ c <= fetched_instrs_ c.
Proof.
  unfold commit. intros Hc Hne He Hready. rewrite Hne, He in Hc. cbn [obind] in Hc.
  rewrite Hready in Hc.
  apply obind_Ok in Hc as (c1 & Hc1 & Hc).
  assert (Hperf : perf_instrs_ c1 = perf_instrs_ c /\ fetched_instrs_ c1 = fetched_instrs_ c /\
                  (use_rd (getExeFlags (ROB.instr e)) = true ->
                   (getRd (ROB.instr e) < length (reg_file_ c))%nat)).
  { destruct (use_rd _).
    - apply obind_Ok in Hc1 as (x & Hx & Hc1).
      destruct (reg_file_ c !! getRd (ROB.instr e)) as [y|] eqn:Hy; [|done].
      apply lookup_lt_Some in Hy.
      cbn in Hc1. destruct (RAT_ c !! _) as [slot|]; [destruct (slot =? _)|];
        injection Hc1 as <-; cbn; done.
    - injection Hc1 as <-. done. }
  destruct Hperf as (Hp & Hf & Hrd). split; [done|].
  cbn in Hc. rewrite Hp, Hf in Hc.
  destruct (Z.leb_spec (perf_instrs_ c) (fetched_instrs_ c)); [done|done].
Qed.

Lemma commit_potential (L : nat) (c c' : Core) :
  rob_wf (ROB_ c) -> commit c = Ok c' ->
  (potential L c' + 1 = potential L c)%nat \/
  (c' = c /\
   (ROB.empty (ROB_ c) = true \/
    exists e, ROB.get_entry (ROB_ c) (ROB.head_index (ROB_ c)) = Ok e /\ ROB.ready e = false)).
Proof.
  intros Hwf Hc. destruct (ROB.empty (ROB_ c)) eqn:Hne.
  { right. unfold commit in Hc. rewrite Hne in Hc. injection Hc as <-. split; [done|by left]. }
  destruct (rob_head_entry _ Hwf Hne) as (e & He & Hst & _).
  destruct (ROB.ready e) eqn:Hready.
  - left. destruct (commit_ready_facts c c' e Hc Hne He Hready) as [Hrd Hperf].
    destruct (commit_ready_head c e Hne He Hready Hrd Hperf)
      as (c1 & Hc1 & _ & _ & Hrob & _ & _ & _ & Hq & Hrs & _ & Hbus & Hfus & _).
    assert (c1 = c') as -> by congruence.
    destruct (rob_pop_queue _ Hwf Hne) as (_ & _ & _ & _ & Hcont).
    unfold potential. rewrite Hq, Hrs, Hbus, Hfus, Hrob. rewrite Hcont, Hst. cbn.
    rewrite Hready. lia.
  - right. unfold commit in Hc. rewrite Hne, He in Hc. cbn [obind] in Hc.
    rewrite Hready in Hc. injection Hc as <-. split; [done|]. right. by exists e.
Qed.

Lemma writeback_potential (L : nat) (c c' : Core) :
  safe_inv c -> writeback c = Ok c' ->
  (CDB_ c = None /\ c' = c) \/ (potential L c' + 1 = potential L c)%nat.
Proof.
  intros Hs Hw. apply writeback_cases in Hw as [?|Hw]; [by left|right].
  destruct Hw as (d & Hbus & Hrel & Hu & Hbus' & _ & _ & _ & _ & Hq & Hfus & _).
  destruct (safe_rename c Hs) as (Hsched & _). unfold core_sched in Hsched.
  rewrite Hbus in Hsched.
  destruct (bus_producer c d Hs Hbus) as (_ & _ & (e & He & Hnr) & _).
  pose proof (wakeup_release_waiting d _ _ (bus_holds _ _ _ Hsched) Hrel) as Hwait.
  pose proof (rob_update_ready_count d _ _ e (safe_rob c Hs) Hu He Hnr
                (safe_slots c Hs _ _ He)) as Hready.
  unfold potential. rewrite Hq, Hfus, Hbus, Hbus', Hwait, Hready. lia.
Qed.

Lemma issue_potential (L : nat) (c c' : Core) :
  safe_inv c -> issue c = Ok c' ->
  (potential L c' + 1 = potential L c)%nat \/
  (c' = c /\
   (issue_queue_ c = [] \/ RS.full (RS_ c) = true \/ ROB.full (ROB_ c) = true)).
Proof.
  intros Hs Hi.
  destruct (issue_queue_ c) as [|instr q] eqn:Hq.
  { right. unfold issue, issue_with in Hi. rewrite Hq in Hi. injection Hi as <-.
    split; [done|by left]. }
  destruct (RS.full (RS_ c)) eqn:Hrs.
  { right. unfold issue, issue_with in Hi. rewrite Hq, Hrs in Hi. injection Hi as <-.
    split; [done|right; by left]. }
  destruct (ROB.full (ROB_ c)) eqn:Hrob.
  { right. unfold issue, issue_with in Hi. rewrite Hq, Hrs, Hrob in Hi. injection Hi as <-.
    split; [done|right; by right]. }
  left. pose proof (issue_pops c c' instr q Hq Hrs Hrob Hi) as Hpop.
  apply issue_cases in Hi as [->|Hi].
  { exfalso. rewrite Hq in Hpop. apply (f_equal length) in Hpop. cbn in Hpop. lia. }
  destruct Hi as (instr' & q' & d1 & a1 & d2 & a2 & index & old & Hq0 & _ & _ & _ & _
    & _ & Hold & Hfree & _ & HROB & _ & HRS & _ & Hq' & _ & _ & Hbus & Hfus & _).
  destruct (rob_allocate_queue instr' _ (safe_rob c Hs) Hrob)
    as (rob' & Hal & _ & _ & _ & _ & Hcont).
  rewrite Hal in HROB. cbn in HROB.
  pose proof (total_zinsert rs_waiting (RS_ c) index old
                (RS.mk_entry true false (Some instr')
                   (Z.of_nat (ROB.tail_index_ (ROB_ c))) a1 a2 d1 d2) Hold) as Ht.
  assert (rs_waiting old = 0%nat) as E1 by (unfold rs_waiting; by rewrite Hfree).
  assert (rs_waiting (RS.mk_entry true false (Some instr')
                        (Z.of_nat (ROB.tail_index_ (ROB_ c))) a1 a2 d1 d2) = 1%nat) as E2
    by done.
  unfold potential. rewrite Hq', Hbus, Hfus, HRS, HROB, Hcont, total_app.
  rewrite Hq in Hq0 |- *. injection Hq0 as _ <-. cbn [length total entry_ready ROB.ready].
  nia.
Qed.

Lemma execute_potential `{Collaborators} (L : nat) (c c' : Core) :
  bounded_units L (length (FUs_ c)) -> safe_inv c -> CDB_ c = None -> execute c = Ok c' ->
  (potential L c' <= potential L c)%nat /\
  ((exists fu, fu ∈ FUs_ c /\ FU.busy fu = true) -> (potential L c' < potential L c)%nat) /\
  (forall j x,
     zlookup (RS_ c) j = Some x -> RS.valid x = true -> RS.running x = false ->
     RS.operands_ready x = true ->
     (forall fu, fu ∈ FUs_ c -> FU.busy fu = false) ->
     (potential L c' < potential L c)%nat).
Proof.
  intros Hb Hs Hbus He.
  destruct (execute_frame c c' He) as (HROB & _ & _ & _ & _ & Hq & _ & _ & _
    & fus1 & bus1 & Hdr & Hdi & Hcdb).
  destruct (safe_rename c Hs) as (Hsched & _).
  assert (Hshape : Forall fu_shape (FUs_ c)) by apply Hsched.
  assert (Hshape1 : Forall fu_shape (FU.execute <$> FUs_ c)).
  { apply sched_ok_execute in Hsched. apply Hsched. }
  destruct (execute_units_weight (FUs_ c) Hshape) as [Hle Hlt].
  rewrite Hbus in Hdr. pose proof (drain_weight _ _ _ Hshape1 Hdr) as Hdw.
  assert (Hlen : (length fus1 <= length (FUs_ c))%nat).
  { apply drain_length in Hdr. rewrite length_fmap in Hdr. lia. }
  destruct (dispatch_weight L _ _ 0 _ _ _ _ Hb Hlen ltac:(lia) Hdi) as [Hdle Hdlt].
  unfold potential. rewrite Hq, HROB, Hcdb, Hbus.
  set (Q := ((L + 6) * length (issue_queue_ c))%nat).
  set (R := total entry_ready (ROB.contents (ROB_ c))).
  split; [|split].
  - destruct (first_done 0 (FU.execute <$> FUs_ c)) as [[i fu]|].
    + destruct Hdw as [Hw [d ->]]. lia.
    + destruct Hdw as [-> ->]. lia.
  - intros (fu & Hin & Hbusy). destruct (FU.done fu) eqn:Hdone.
    + apply list_elem_of_lookup_1 in Hin as [k Hk].
      assert (Hk' : (FU.execute <$> FUs_ c) !! k = Some fu).
      { rewrite list_lookup_fmap, Hk. cbn. by rewrite fu_execute_done. }
      destruct (first_done_of_done 0 _ k fu Hk' Hdone) as (i & fui & Hf).
      rewrite Hf in Hdw. destruct Hdw as [Hw [d ->]]. lia.
    + specialize (Hlt fu Hin Hbusy Hdone).
      destruct (first_done 0 (FU.execute <$> FUs_ c)) as [[i fu']|].
      * destruct Hdw as [Hw [d ->]]. lia.
      * destruct Hdw as [-> ->]. lia.
  - intros j x Hx Hv Hr Hrd Hidle.
    assert (Hfus : FU.execute <$> FUs_ c = FUs_ c).
    { rewrite <- (list_fmap_id (FUs_ c)) at 2. apply list_fmap_ext. intros k fu Hk. cbn.
      unfold FU.execute. pose proof (Hidle fu ltac:(by eapply list_elem_of_lookup_2)) as Hnb.
      unfold FU.busy in Hnb. by rewrite Hnb. }
    rewrite Hfus in Hdw, Hdr.
    assert (Hnone : first_done 0 (FUs_ c) = None).
    { destruct (first_done 0 (FUs_ c)) as [[i fu]|] eqn:Hf; [|done].
      apply first_done_lookup in Hf as (_ & Hi & Hdone & _).
      rewrite Forall_lookup in Hshape. destruct (Hshape _ _ Hi) as (Hdb & _).
      pose proof (Hidle fu ltac:(by eapply list_elem_of_lookup_2)). rewrite Hdb in H0; done. }
    rewrite Hnone in Hdw. destruct Hdw as [-> ->].
    destruct (safe_rs c Hs j x Hx Hv) as (_ & _ & i & Hi & Hty).
    destruct (lookup_lt_is_Some_2 (FUs_ c) _ Hty) as [fu Hfu].
    apply zlookup_Some_lt in Hx as Hj.
    specialize (Hdlt j x i fu ltac:(unfold RS.size; lia) Hx Hv Hr Hrd Hi Hfu
                  (Hidle fu ltac:(by eapply list_elem_of_lookup_2))).
    lia.
Qed.

(** *** Running stations are held *)

Lemma dispatch_held `{Collaborators} (n : nat) (k : Z) (rs rs' : RS.t)
    (fus fus' : list FU.t) (bus : CDB.t) :
  dispatch n k rs fus = Ok (rs', fus') ->
  (forall j x, zlookup rs j = Some x -> RS.valid x = true -> RS.running x = true ->
     j ∈ holders fus bus) ->
  (forall j x, zlookup rs' j = Some x -> RS.valid x = true -> RS.running x = true ->
     j ∈ holders fus' bus).
Proof.
  revert k rs fus. induction n as [|n IH]; intros k rs fus Hd Hheld.
  - cbn in Hd. by injection Hd as <- <-.
  - cbn [dispatch] in Hd.
    apply obind_Ok in Hd as (entry & He & Hd).
    apply obind_Ok in Hd as ([rs1 fus1] & Hone & Hd).
    apply (IH _ _ _ Hd).
    unfold RS.get_entry in He.
    destruct (zlookup rs k) as [e0|] eqn:Hk; [|done]. injection He as ->.
    destruct (_ && _ && _ && _); [|by injection Hone as <- <-].
    apply obind_Ok in Hone as (instr & Hi & Hone).
    apply obind_Ok in Hone as (fu & Hfu & Hone).
    destruct (fus !! getFUType instr) as [fu0|] eqn:Hf; [|done]. cbn in Hfu.
    injection Hfu as ->.
    destruct (FU.busy fu) eqn:Hb; cbn [negb] in Hone; injection Hone as <- <-; [done|].
    destruct (omap_holder_insert fus (getFUType instr) fu
                (FU.issue instr (RS.rob_index entry) k (RS.rs1_data entry)
                   (RS.rs2_data entry) fu) Hf) as (l1 & l2 & E1 & E2).
    assert (fu_holder fu = None) as Hh by (unfold fu_holder; by rewrite Hb).
    rewrite Hh in E1. cbn in E1.
    assert (Hnew : fu_holder (FU.issue instr (RS.rob_index entry) k (RS.rs1_data entry)
                                (RS.rs2_data entry) fu) = Some k) by done.
    rewrite Hnew in E2. cbn in E2.
    intros j x Hj Hv Hr. unfold holders. rewrite E2.
    destruct (decide (k = j)) as [<-|Hne].
    + apply elem_of_app. right. apply elem_of_app. right. left.
    + rewrite zlookup_zinsert_ne in Hj by done.
      specialize (Hheld j x Hj Hv Hr). unfold holders in Hheld. rewrite E1 in Hheld.
      apply elem_of_app in Hheld as [Hin|Hin]; [apply elem_of_app; by left|].
      apply elem_of_app in Hin as [Hin|Hin].
      * apply elem_of_app. right. apply elem_of_app. by left.
      * apply elem_of_app. right. apply elem_of_app. right. by right.
Qed.

Lemma execute_held `{Collaborators} (c c' : Core) :
  core_sched c -> running_held c -> execute c = Ok c' -> running_held c'.
Proof.
  intros Hsched Hheld He.
  apply execute_frame in He as (_ & _ & _ & _ & _ & _ & _ & _ & _ & fus & bus & Hd & Hdi & Hb).
  unfold running_held. rewrite Hb. apply (dispatch_held _ _ _ _ _ _ _ Hdi).
  intros j x Hj Hv Hr. specialize (Hheld j x Hj Hv Hr).
  rewrite <- holders_execute in Hheld.
  destruct (drain_cases _ _ _ _ Hd) as [(_ & -> & ->)|[Hnone _]]; [done|].
  rewrite Hnone in Hd, Hheld.
  apply sched_ok_execute in Hsched. unfold core_sched in Hsched. rewrite Hnone in Hsched.
  destruct (drain_sched _ _ _ _ Hsched Hd) as [_ Hperm]. by rewrite Hperm.
Qed.

Lemma writeback_held (c c' : Core) :
  running_held c -> writeback c = Ok c' -> running_held c'.
Proof.
  intros Hheld Hw. apply writeback_cases in Hw as [[_ ->]|Hw]; [done|].
  destruct Hw as (d & Hbus & Hrel & _ & Hbus' & _ & _ & _ & _ & _ & Hfus & _).
  intros j x' Hj Hv Hr. rewrite Hbus', Hfus.
  destruct (release_wakeup_lookup_inv _ _ _ _ _ Hrel Hj Hv) as (Hne & x & Hx & Hvx & ->).
  destruct (update_operands_spec d x) as (_ & Er & _). cbn zeta in Er. rewrite Er in Hr.
  specialize (Hheld j x Hx Hvx Hr). rewrite Hbus in Hheld. unfold holders in Hheld |- *.
  cbn in Hheld |- *. apply elem_of_cons in Hheld as [?|?]; done.
Qed.

Lemma commit_held (c c' : Core) :
  running_held c -> commit c = Ok c' -> running_held c'.
Proof.
  intros Hheld Hc. apply commit_frame in Hc as (Hrs & Hfus & Hbus & _).
  unfold running_held. by rewrite Hrs, Hfus, Hbus.
Qed.

Lemma issue_held (c c' : Core) :
  running_held c -> issue c = Ok c' -> running_held c'.
Proof.
  intros Hheld Hi. apply issue_cases in Hi as [->|Hi]; [done|].
  destruct Hi as (instr & q & d1 & a1 & d2 & a2 & index & old & _ & _ & _ & _ & _
    & _ & Hold & _ & _ & _ & _ & HRS & _ & _ & _ & _ & Hbus & Hfus & _).
  intros j x Hj Hv Hr. rewrite Hbus, Hfus. rewrite HRS in Hj.
  destruct (decide (j = index)) as [->|Hne].
  - rewrite (zlookup_zinsert_eq _ _ _ _ Hold) in Hj. injection Hj as <-. done.
  - rewrite zlookup_zinsert_ne in Hj by done. by apply (Hheld j x).
Qed.

(** *** Producers are older *)

Lemma execute_older `{Collaborators} (c c' : Core) :
  producers_older c -> execute c = Ok c' -> producers_older c'.
Proof.
  intros Hold He.
  destruct (execute_frame c c' He) as (HROB & _ & _ & HRST & _ & _ & _ & _ & _
    & fus & bus & _ & Hdi & _).
  apply dispatch_static in Hdi.
  intros j x' p q eq Hj Hv Hp Hp1. rewrite HROB, HRST. intros Hq Hnr Hk.
  destruct (static_lookup _ _ _ _ Hdi Hj) as (x & Hx & Ev & Er & E1 & E2 & _).
  rewrite Er. apply (Hold j x p q eq); try done; congruence.
Qed.

Lemma writeback_older (c c' : Core) :
  safe_inv c -> producers_older c -> writeback c = Ok c' -> producers_older c'.
Proof.
  intros Hs Hold Hw. apply writeback_cases in Hw as [[_ ->]|Hw]; [done|].
  destruct Hw as (d & Hbus & Hrel & Hu & _ & _ & _ & HRST & _).
  destruct (rob_update_queue _ _ _ Hu (safe_rob c Hs)) as (_ & Hslots & _).
  destruct (bus_producer c d Hs Hbus) as (H0 & _).
  intros j x' p q eq Hj Hv Hp Hp1 Hq Hnr Hk. rewrite Hslots. rewrite HRST in Hk.
  destruct (release_wakeup_lookup_inv _ _ _ _ _ Hrel Hj Hv) as (Hne & x & Hx & Hvx & ->).
  destruct (update_operands_spec d x) as (_ & _ & _ & Er & A1 & A2 & B1 & B2).
  cbn zeta in Er, A1, A2, B1, B2. rewrite Er.
  assert (Hq0 : ROB.get_entry (ROB_ c) q = Ok eq).
  { destruct (rob_update_get_entry _ _ _ _ _ Hu Hq) as [[_ Hr]|?]; [congruence|done]. }
  apply (Hold j x p q eq); try done.
  destruct Hp as [->| ->].
  - left. destruct (decide (RS.rs1_index x = CDB.rs_index d)) as [Heq|Hneq].
    + destruct (A1 Heq) as [E _]. congruence.
    + by destruct (A2 Hneq) as [-> _].
  - right. destruct (decide (RS.rs2_index x = CDB.rs_index d)) as [Heq|Hneq].
    + destruct (B1 Heq) as [E _]. congruence.
    + by destruct (B2 Hneq) as [-> _].
Qed.

Lemma commit_older (c c' : Core) :
  safe_inv c -> producers_older c -> commit c = Ok c' -> producers_older c'.
Proof.
  intros Hs Hold Hc. pose proof Hc as Hc0.
  apply commit_cases in Hc0 as [->|(e & Hne & He & Hready & Hrd & Hperf)]; [done|].
  destruct (commit_ready_head c e Hne He Hready Hrd Hperf)
    as (c1 & Hc1 & _ & _ & Hrob & _ & _ & _ & _ & Hrs & Hrst & _).
  assert (c1 = c') as -> by congruence.
  pose proof (safe_rob c Hs) as Hwf.
  pose proof (rob_pop_slots _ Hwf Hne) as Hslots.
  intros j x p q eq Hj Hv Hp Hp1 Hq Hnr Hk.
  rewrite Hrs in Hj. rewrite Hrst in Hk. rewrite Hrob in Hq |- *.
  assert (Hqne : q <> ROB.head_index (ROB_ c)).
  { intros ->. by apply rob_pop_get_entry_head in Hq. }
  apply rob_pop_get_entry in Hq as Hq0.
  pose proof (Hold j x p q eq Hj Hv Hp Hp1 Hq0 Hnr Hk) as Hin.
  destruct (safe_rs c Hs j x Hj Hv) as ((re & Hre & Hrnr) & _).
  assert (Hxne : RS.rob_index x <> ROB.head_index (ROB_ c)) by (intros Heq; congruence).
  apply get_entry_nonneg in Hq0, Hre. unfold ROB.head_index in Hqne, Hxne.
  rewrite Hslots in Hin. cbn [older] in Hin.
  destruct (decide (ROB.head_index_ (ROB_ c) = Z.to_nat (RS.rob_index x))); [lia|].
  apply elem_of_cons in Hin as [Hin|Hin]; [lia|done].
Qed.

Lemma issue_older (c c' : Core) :
  safe_inv c -> producers_older c -> issue c = Ok c' -> producers_older c'.
Proof.
  intros Hs Hold Hi.
  apply issue_cases in Hi as [->|Hi]; [done|].
  destruct Hi as (instr & q0 & d1 & a1 & d2 & a2 & index & old & Hq & Hrsf & Hfull & Hr1 & Hr2
    & Hidx & Holdx & Hfree & Htail & HROB & _ & HRS & HRST & _).
  pose proof (safe_rob c Hs) as Hwf.
  pose proof (rob_tail_fresh _ Hwf Hfull) as Hfresh.
  destruct (rob_allocate_slots instr _ Hwf Hfull) as (Hslots & _ & _).
  destruct (safe_rename c Hs) as (_ & _ & Hprod & Hpend).
  set (t := Z.of_nat (ROB.tail_index_ (ROB_ c))) in *.
  assert (Hvalid_ne : forall a, (exists e', zlookup (RS_ c) a = Some e' /\ RS.valid e' = true) ->
            a <> index).
  { intros a (e' & He' & Hv') ->. congruence. }
  assert (Hread : forall used r data a, read_operand c used r = Ok (data, a) -> a <> -1 ->
            a <> index).
  { intros used r data a Hr Ha.
    destruct (read_operand_pending _ _ _ _ _ Hr) as [?|(s & e & He & Hnr & Hk)]; [done|].
    destruct (Hprod s e He Hnr) as (k & ek & Hk' & Hek & Hvk & _).
    apply Hvalid_ne. exists ek. split; [congruence|done]. }
  intros j x p q eq Hj Hv Hp Hp1 Hqe Hnr Hk. rewrite HROB, Hslots.
  rewrite HRS in Hj. rewrite HROB in Hqe. rewrite HRST in Hk.
  assert (Hpne : p <> index).
  { destruct (decide (j = index)) as [->|Hne].
    - rewrite (zlookup_zinsert_eq _ _ _ _ Holdx) in Hj. injection Hj as <-. cbn in Hp.
      destruct Hp as [->| ->]; [by eapply Hread|by eapply Hread].
    - rewrite zlookup_zinsert_ne in Hj by done.
      apply Hvalid_ne. by apply (Hpend j x p). }
  assert (Hqne : q <> t).
  { intros ->. destruct (zlookup_lt (RST_ c) t) as [y Hy]; [unfold t; lia|].
    rewrite (zlookup_zinsert_eq _ _ _ _ Hy) in Hk. congruence. }
  rewrite zlookup_zinsert_ne in Hk by done.
  apply (rob_allocate_get_entry _ _ _ _ Hfull) in Hqe as [[? _]|[_ Hqe]]; [done|].
  destruct (decide (j = index)) as [->|Hne].
  - rewrite (zlookup_zinsert_eq _ _ _ _ Holdx) in Hj. injection Hj as <-. cbn [RS.rob_index].
    unfold t. rewrite Nat2Z.id. rewrite older_split by done.
    by apply (safe_slots c Hs q eq).
  - rewrite zlookup_zinsert_ne in Hj by done.
    destruct (safe_rs c Hs j x Hj Hv) as ((re & Hre & _) & _).
    rewrite older_app_in by (by apply (safe_slots c Hs _ re)).
    by apply (Hold j x p q eq).
Qed.

(** *** The invariant of the progress argument *)

Lemma commit_sized (c c' : Core) :
  safe_inv c -> commit c = Ok c' ->
  ROB.size (ROB_ c') = ROB.size (ROB_ c) /\ length (RS_ c') = length (RS_ c).
Proof.
  intros Hs Hc. pose proof Hc as Hc0.
  apply commit_cases in Hc0 as [->|(e & Hne & He & Hready & Hrd & Hperf)]; [done|].
  destruct (commit_ready_head c e Hne He Hready Hrd Hperf)
    as (c1 & Hc1 & _ & _ & Hrob & _ & _ & _ & _ & Hrs & Hrst & _).
  assert (c1 = c') as -> by congruence.
  rewrite Hrob, Hrs. split; [|done]. by apply rob_pop_queue; [apply Hs|].
Qed.

Lemma writeback_sized (c c' : Core) :
  safe_inv c -> writeback c = Ok c' ->
  ROB.size (ROB_ c') = ROB.size (ROB_ c) /\ length (RS_ c') = length (RS_ c).
Proof.
  intros Hs Hw. apply writeback_cases in Hw as [[_ ->]|Hw]; [done|].
  destruct Hw as (d & Hbus & Hrel & Hu & _).
  destruct (rob_update_queue _ _ _ Hu (safe_rob c Hs)) as (_ & _ & _ & Hsz & _).
  split; [done|].
  unfold RS.release in Hrel. apply obind_Ok in Hrel as (e & _ & Hrel). injection Hrel as <-.
  rewrite length_zinsert. unfold wakeup. by rewrite length_fmap.
Qed.

Lemma execute_sized `{Collaborators} (c c' : Core) :
  execute c = Ok c' ->
  ROB.size (ROB_ c') = ROB.size (ROB_ c) /\ length (RS_ c') = length (RS_ c).
Proof.
  intros He.
  destruct (execute_frame c c' He) as (-> & _ & _ & _ & _ & _ & _ & _ & _
    & fus & bus & _ & Hdi & _).
  split; [done|]. by apply dispatch_length in Hdi as [_ ?].
Qed.

Lemma issue_sized (c c' : Core) :
  safe_inv c -> issue c = Ok c' ->
  ROB.size (ROB_ c') = ROB.size (ROB_ c) /\ length (RS_ c') = length (RS_ c).
Proof.
  intros Hs Hi. apply issue_cases in Hi as [->|Hi]; [done|].
  destruct Hi as (instr & q0 & d1 & a1 & d2 & a2 & index & old & Hq & Hrsf & Hfull & Hr1 & Hr2
    & Hidx & Holdx & Hfree & Htail & HROB & _ & HRS & _).
  destruct (rob_allocate_queue instr _ (safe_rob c Hs) Hfull) as (rob' & Ha & _ & Hsz & _).
  rewrite HROB, HRS, Ha, length_zinsert. done.
Qed.

Lemma commit_live `{Collaborators} (c c' : Core) :
  live_inv c -> commit c = Ok c' -> live_inv c'.
Proof.
  intros [Hs Hd Hh Ho Hr1 Hr2] Hc.
  destruct (commit_safe c Hs) as (c1 & Hc1 & Hs1). assert (c1 = c') as -> by congruence.
  destruct (commit_sized c c' Hs Hc) as [E1 E2].
  split; [done|by apply (commit_dataflow c c' Hs Hd Hc)|by apply (commit_held c c')
         |by apply (commit_older c c')|lia|lia].
Qed.

Lemma writeback_live `{Collaborators} (c c' : Core) :
  live_inv c -> writeback c = Ok c' -> live_inv c' /\ CDB_ c' = None.
Proof.
  intros [Hs Hd Hh Ho Hr1 Hr2] Hw.
  destruct (writeback_safe c Hs) as (c1 & Hc1 & Hs1 & Hb1).
  assert (c1 = c') as -> by congruence.
  destruct (writeback_sized c c' Hs Hw) as [E1 E2].
  split; [|done].
  split; [done|by apply (writeback_dataflow c c')|by apply (writeback_held c c')
         |by apply (writeback_older c c')|lia|lia].
Qed.

Lemma execute_live `{Collaborators} (c c' : Core) :
  live_inv c -> CDB_ c = None -> execute c = Ok c' -> live_inv c'.
Proof.
  intros [Hs Hd Hh Ho Hr1 Hr2] Hb He.
  destruct (execute_safe c Hs Hb) as (c1 & Hc1 & Hs1).
  assert (c1 = c') as -> by congruence.
  destruct (execute_sized c c' He) as [E1 E2].
  split; [done|by apply (execute_dataflow c c')
         |apply (execute_held c c'); [apply (safe_rename c Hs)|done|done]
         |by apply (execute_older c c')|lia|lia].
Qed.

Lemma issue_live `{Collaborators} (c c' : Core) :
  live_inv c -> issue c = Ok c' -> live_inv c'.
Proof.
  intros [Hs Hd Hh Ho Hr1 Hr2] Hi.
  destruct (issue_safe c Hs) as (c1 & Hc1 & Hs1). assert (c1 = c') as -> by congruence.
  destruct (issue_sized c c' Hs Hi) as [E1 E2].
  split; [done|by apply (issue_dataflow c c')|by apply (issue_held c c')
         |by apply (issue_older c c')|lia|lia].
Qed.

Lemma fetch_live `{Collaborators} (i : Instr) (c : Core) :
  instr_ok (length (reg_file_ c)) (length (FUs_ c)) i ->
  live_inv c -> live_inv (fetch i c).
Proof.
  intros Hi [Hs Hd Hh Ho Hr1 Hr2].
  split; [by apply fetch_safe|by apply fetch_dataflow|exact Hh|exact Ho|exact Hr1|exact Hr2].
Qed.

Lemma live_inv_init `{Collaborators} (num_regs rob_size rs_size num_fus : nat) :
  (0 < rob_size)%nat -> (0 < rs_size)%nat ->
  live_inv (init num_regs rob_size rs_size num_fus).
Proof.
  intros Hrob Hrs. split.
  - apply safe_inv_init.
  - apply dataflow_inv_init.
  - intros j x Hx Hv. cbn in Hx. unfold RS.create in Hx.
    unfold zlookup in Hx. destruct (j <? 0); [done|].
    apply lookup_replicate in Hx as [-> _]. done.
  - intros j x p q eq Hx Hv. cbn in Hx. unfold RS.create in Hx.
    unfold zlookup in Hx. destruct (j <? 0); [done|].
    apply lookup_replicate in Hx as [-> _]. done.
  - cbn. unfold ROB.size, ROB.create. cbn. by rewrite length_replicate.
  - cbn. unfold RS.create. by rewrite length_replicate.
Qed.

(** *** Something moves in every cycle *)

Lemma idle_holders (fus : list FU.t) :
  (forall fu, fu ∈ fus -> FU.busy fu = false) -> omap fu_holder fus = [].
Proof.
  induction fus as [|fu fus IH]; intros Hidle; [done|].
  cbn. unfold fu_holder at 1. rewrite (Hidle fu) by left.
  apply IH. intros fu' Hin. apply Hidle. by right.
Qed.

Lemma total_all_zero {A : Type} (w : A -> nat) (l : list A) :
  (forall x, x ∈ l -> w x = 0%nat) -> total w l = 0%nat.
Proof.
  induction l as [|x l IH]; intros Hz; [done|].
  cbn. rewrite (Hz x) by left. apply IH. intros y Hy. apply Hz. by right.
Qed.

Lemma zlookup_elem_of {A : Type} (l : list A) (i : Z) (x : A) :
  zlookup l i = Some x -> x ∈ l.
Proof.
  unfold zlookup. destruct (i <? 0); [done|]. apply list_elem_of_lookup_2.
Qed.

Lemma rob_empty_slots (rob : ROB.t) : ROB.empty rob = true -> ROB.slots rob = [].
Proof.
  unfold ROB.empty, ROB.slots. intros He. apply Nat.eqb_eq in He. by rewrite He.
Qed.

Lemma empty_no_station (c : Core) (j : Z) (x : RS.entry_t) :
  safe_inv c -> ROB.empty (ROB_ c) = true -> zlookup (RS_ c) j = Some x ->
  RS.valid x = false.
Proof.
  intros Hs He Hx. destruct (RS.valid x) eqn:Hv; [|done].
  destruct (safe_rs c Hs j x Hx Hv) as ((re & Hre & _) & _).
  apply (safe_slots c Hs) in Hre. rewrite (rob_empty_slots _ He) in Hre.
  by apply elem_of_nil in Hre.
Qed.

(** With the bus empty and every unit idle, the reservation station of the
    oldest entry that is not ready can be dispatched: its operands do not
    wait for anything. *)
Lemma head_dispatchable `{Collaborators} (c : Core) (e : ROB.entry_t) :
  live_inv c -> CDB_ c = None -> (forall fu, fu ∈ FUs_ c -> FU.busy fu = false) ->
  ROB.empty (ROB_ c) = false ->
  ROB.get_entry (ROB_ c) (ROB.head_index (ROB_ c)) = Ok e -> ROB.ready e = false ->
  exists j x, zlookup (RS_ c) j = Some x /\ RS.valid x = true /\ RS.running x = false /\
    RS.operands_ready x = true.
Proof.
  intros [Hs Hd Hh Ho _ _] Hbus Hidle Hne He Hnr.
  destruct (safe_rename c Hs) as (_ & _ & Hprod & _).
  destruct (Hprod _ e He Hnr) as (k & x & Hk & Hx & Hv & Hrob).
  exists k, x. split; [done|]. split; [done|].
  assert (Hrun : RS.running x = false).
  { destruct (RS.running x) eqn:Hr; [|done].
    pose proof (Hh k x Hx Hv Hr) as Hin. unfold holders in Hin.
    rewrite Hbus, (idle_holders _ Hidle) in Hin. cbn in Hin. by apply elem_of_nil in Hin. }
  split; [done|].
  pose proof (rob_pop_slots _ (safe_rob c Hs) Hne) as Hslots.
  assert (Hnone : forall p, p = RS.rs1_index x \/ p = RS.rs2_index x -> p = -1).
  { intros p Hp. destruct (decide (p = -1)) as [|Hp1]; [done|]. exfalso.
    destruct (df_rs c Hd k x Hx Hv) as (e' & He' & _ & Ho1 & Ho2).
    assert (exists q eq, ROB.get_entry (ROB_ c) q = Ok eq /\ ROB.ready eq = false /\
              zlookup (RST_ c) q = Some p) as (q & eq & Hq & Hqr & Hqk).
    { destruct Hp as [->| ->].
      - destruct Ho1 as [_ Ho1]. destruct (Ho1 Hp1) as (_ & q & eq & ? & ? & ? & _).
        by exists q, eq.
      - destruct Ho2 as [_ Ho2]. destruct (Ho2 Hp1) as (_ & q & eq & ? & ? & ? & _).
        by exists q, eq. }
    pose proof (Ho k x p q eq Hx Hv Hp Hp1 Hq Hqr Hqk) as Hin.
    rewrite Hrob, Hslots in Hin. unfold ROB.head_index in Hin. rewrite Nat2Z.id in Hin.
    cbn [older] in Hin. destruct (decide _) in Hin; [|done]. by apply elem_of_nil in Hin. }
  unfold RS.operands_ready.
  rewrite (Hnone (RS.rs1_index x)), (Hnone (RS.rs2_index x)) by auto. done.
Qed.

Lemma potential_drained `{Collaborators} (L : nat) (c : Core) :
  live_inv c -> potential L c = 0%nat -> drained c.
Proof.
  intros Hl Hp. pose proof (live_safe c Hl) as Hs. unfold potential in Hp.
  assert (Hq : length (issue_queue_ c) = 0%nat) by nia.
  assert (Hw : total rs_waiting (RS_ c) = 0%nat) by nia.
  assert (Hf : total fu_weight (FUs_ c) = 0%nat) by lia.
  assert (Hr : total entry_ready (ROB.contents (ROB_ c)) = 0%nat) by lia.
  assert (Hbus : CDB_ c = None) by (destruct (CDB_ c); [lia|done]).
  split; [by apply length_zero_iff_nil|].
  destruct (ROB.empty (ROB_ c)) eqn:Hne; [done|]. exfalso.
  assert (Hidle : forall fu, fu ∈ FUs_ c -> FU.busy fu = false).
  { intros fu Hin. pose proof (total_zero _ _ _ Hf Hin) as Hz. unfold fu_weight in Hz.
    destruct (FU.busy fu); [|done]. destruct (FU.done fu); lia. }
  destruct (rob_head_entry _ (safe_rob c Hs) Hne) as (e & He & _ & Hhd).
  assert (Hnr : ROB.ready e = false).
  { assert (Hin : Some e ∈ ROB.contents (ROB_ c)).
    { destruct (ROB.contents (ROB_ c)) as [|o l]; [done|]. cbn in Hhd.
      injection Hhd as ->. left. }
    pose proof (total_zero _ _ _ Hr Hin) as Hz. cbn in Hz.
    destruct (ROB.ready e); [lia|done]. }
  destruct (head_dispatchable c e Hl Hbus Hidle Hne He Hnr) as (j & x & Hx & Hv & Hrun & _).
  pose proof (total_zero _ _ _ Hw (zlookup_elem_of _ _ _ Hx)) as Hz.
  unfold rs_waiting in Hz. rewrite Hv, Hrun in Hz. cbn in Hz. lia.
Qed.

Lemma tick_progress `{Collaborators} (L : nat) (c : Core) :
  bounded_units L (length (FUs_ c)) -> live_inv c ->
  exists c', tick c = Ok c' /\ live_inv c' /\
    length (FUs_ c') = length (FUs_ c) /\
    (potential L c' <= potential L c - 1)%nat.
Proof.
  intros Hb Hl. unfold tick.
  pose proof (live_safe c Hl) as Hs.
  destruct (commit_safe c Hs) as (c1 & Hc1 & Hs1). rewrite Hc1. cbn [obind].
  pose proof (commit_live c c1 Hl Hc1) as Hl1.
  destruct (step_sized Commit c c1 Hc1) as [_ Hf1].
  destruct (writeback_safe c1 Hs1) as (c2 & Hc2 & Hs2 & Hbus2). rewrite Hc2. cbn [obind].
  destruct (writeback_live c1 c2 Hl1 Hc2) as [Hl2 _].
  destruct (step_sized Writeback c1 c2 Hc2) as [_ Hf2].
  destruct (execute_safe c2 Hs2 Hbus2) as (c3 & Hc3 & Hs3). rewrite Hc3. cbn [obind].
  pose proof (execute_live c2 c3 Hl2 Hbus2 Hc3) as Hl3.
  destruct (step_sized Execute c2 c3 Hc3) as [_ Hf3].
  destruct (issue_safe c3 Hs3) as (c4 & Hc4 & Hs4). rewrite Hc4.
  pose proof (issue_live c3 c4 Hl3 Hc4) as Hl4.
  destruct (step_sized Issue c3 c4 Hc4) as [_ Hf4].
  exists c4. split; [done|]. split; [done|]. split; [congruence|].
  assert (Hb2 : bounded_units L (length (FUs_ c2))) by (by rewrite Hf2, Hf1).
  pose proof (commit_potential L c c1 (safe_rob c Hs) Hc1) as P1.
  pose proof (writeback_potential L c1 c2 Hs1 Hc2) as P2.
  destruct (execute_potential L c2 c3 Hb2 Hs2 Hbus2 Hc3) as (P3 & P3busy & P3rs).
  pose proof (issue_potential L c3 c4 Hs3 Hc4) as P4.
  assert (P1' : (potential L c1 <= potential L c)%nat).
  { destruct P1 as [?|[-> _]]; lia. }
  assert (P2' : (potential L c2 <= potential L c1)%nat).
  { destruct P2 as [[_ ->]|?]; lia. }
  assert (P4' : (potential L c4 <= potential L c3)%nat).
  { destruct P4 as [?|[-> _]]; lia. }
  destruct P1 as [P1|[-> Hhead]]; [lia|].
  destruct P2 as [[Hbus ->]|P2]; [|lia].
  destruct (decide (Exists (fun fu => FU.busy fu = true) (FUs_ c))) as [Hex|Hall].
  { apply Exists_exists in Hex. specialize (P3busy Hex). lia. }
  assert (Hidle : forall fu, fu ∈ FUs_ c -> FU.busy fu = false).
  { intros fu Hin. destruct (FU.busy fu) eqn:Hbusy; [|done].
    exfalso. apply Hall, Exists_exists. by exists fu. }
  destruct (ROB.empty (ROB_ c)) eqn:Hne.
  - assert (Hrest : potential L c = ((L + 6) * length (issue_queue_ c))%nat).
    { unfold potential. rewrite Hbus.
      rewrite (total_all_zero rs_waiting).
      2: { intros x Hin. apply list_elem_of_lookup_1 in Hin as [i Hi].
           assert (Hz : zlookup (RS_ c) (Z.of_nat i) = Some x).
           { unfold zlookup. destruct (Z.ltb_spec (Z.of_nat i) 0); [lia|].
             by rewrite Nat2Z.id. }
           unfold rs_waiting. by rewrite (empty_no_station c _ x Hs Hne Hz). }
      rewrite (total_all_zero fu_weight).
      2: { intros fu Hin. unfold fu_weight. by rewrite (Hidle fu Hin). }
      unfold ROB.contents. rewrite (rob_empty_slots _ Hne). cbn. lia. }
    destruct (issue_queue_ c) as [|i q] eqn:Hq; [cbn in Hrest; lia|].
    destruct P4 as [P4|[-> Hstall]]; [lia|]. exfalso.
    destruct (execute_frame c c3 Hc3) as (HROB & _ & _ & _ & _ & HQ & _).
    rewrite HQ, Hq, HROB in Hstall.
    destruct Hstall as [?|[Hfull|Hfull]]; [done| |].
    + pose proof (live_rs c3 Hl3) as Hlen.
      destruct (RS_ c3) as [|x rs] eqn:Hrs; [cbn in Hlen; lia|].
      cbn in Hfull. apply andb_prop in Hfull as [Hv _].
      assert (Hz : zlookup (RS_ c3) 0 = Some x) by (by rewrite Hrs).
      rewrite <- HROB in Hne.
      rewrite (empty_no_station c3 _ x Hs3 Hne Hz) in Hv. done.
    + pose proof (live_rob c Hl) as Hsz. unfold ROB.full in Hfull. unfold ROB.empty in Hne.
      apply Nat.eqb_eq in Hfull, Hne. lia.
  - destruct Hhead as [?|(e & He & Hnr)]; [congruence|].
    destruct (head_dispatchable c e Hl Hbus Hidle Hne He Hnr) as (j & x & Hx & Hv & Hr & Hrd).
    specialize (P3rs j x Hx Hv Hr Hrd Hidle). lia.
Qed.

(** *** The driven core completes its program *)

Lemma run_cycle `{Collaborators} (rest : list action) (c : Core) :
  run (cycle ++ rest) c = do c' <- tick c; run rest c'.
Proof.
  unfold cycle, tick. cbn [app run step].
  destruct (commit c) as [c1|f1]; [|done]. cbn [obind].
  destruct (writeback c1) as [c2|f2]; [|done]. cbn [obind].
  destruct (execute c2) as [c3|f3]; [|done]. cbn [obind]. done.
Qed.

Lemma potential_init (L num_regs rob_size rs_size num_fus : nat) :
  potential L (init num_regs rob_size rs_size num_fus) = 0%nat.
Proof.
  unfold potential. cbn.
  rewrite (total_all_zero rs_waiting).
  2: { intros x Hin. unfold RS.create in Hin. by apply elem_of_replicate in Hin as [-> _]. }
  rewrite (total_all_zero fu_weight).
  2: { intros x Hin. by apply elem_of_replicate in Hin as [-> _]. }
  lia.
Qed.

Lemma potential_fetch (L : nat) (i : Instr) (c : Core) :
  potential L (fetch i c) = (potential L c + (L + 6))%nat.
Proof. unfold potential, fetch. cbn. rewrite length_app. cbn. lia. Qed.

Lemma tick_keeps `{Collaborators} (rf0 : list Z) (c c' : Core) :
  live_inv c -> fifo_inv c -> reg_file_ c = exec_seq rf0 (committed (trace_ c)) ->
  tick c = Ok c' ->
  fifo_inv c' /\
  issued (trace_ c') ++ issue_queue_ c' = issued (trace_ c) ++ issue_queue_ c /\
  reg_file_ c' = exec_seq rf0 (committed (trace_ c')) /\
  length (reg_file_ c') = length (reg_file_ c).
Proof.
  intros Hl Hf Hrf Ht.
  assert (Hrun : run cycle c = Ok c').
  { rewrite <- (app_nil_r cycle), run_cycle, Ht. done. }
  assert (Hwf : Forall (well_formed (length (reg_file_ c)) (length (FUs_ c))) cycle)
    by (unfold cycle; repeat constructor).
  split; [by apply (run_fifo cycle c)|].
  split.
  { pose proof (run_handed cycle c c' Hrun) as Hh. cbn in Hh. by rewrite app_nil_r in Hh. }
  destruct (run_dataflow rf0 cycle c c' Hwf (live_safe c Hl) (live_dataflow c Hl) Hrf Hrun)
    as (_ & _ & Hrf').
  split; [done|].
  by destruct (run_safe cycle c c' Hwf (live_safe c Hl) Hrun) as (_ & ? & _).
Qed.

(** A cycle that starts before the terminating instruction has committed
    and ends after it has: that instruction is the last one committed. *)
Lemma tick_exit `{Collaborators} (c c' : Core) :
  exited_ c = false -> tick c = Ok c' -> exited_ c' = true -> exit_last c'.
Proof.
  unfold tick. intros Hex Ht.
  apply obind_Ok in Ht as (c1 & Hc1 & Ht).
  apply obind_Ok in Ht as (c2 & Hc2 & Ht).
  apply obind_Ok in Ht as (c3 & Hc3 & Hc4).
  assert (H1 : exited_ c1 = true -> exit_last c1).
  { pose proof Hc1 as Hc.
    apply commit_cases in Hc as [->|(e & Hne & He & Hready & Hrd & Hperf)]; [congruence|].
    destruct (commit_ready_head c e Hne He Hready Hrd Hperf)
      as (cx & Hcx & _ & _ & _ & Htr & _ & Hexit & _).
    assert (cx = c1) as -> by congruence.
    intros Hex1. rewrite Hexit, Hex in Hex1. exists (ROB.instr e).
    rewrite Htr, committed_app. cbn. split; [by rewrite last_snoc|].
    by destruct (is_exit _). }
  assert (E2 : exited_ c2 = exited_ c1 /\ committed (trace_ c2) = committed (trace_ c1)).
  { apply writeback_cases in Hc2
      as [[_ ->]|(d & _ & _ & _ & _ & Htr & _ & _ & _ & _ & _ & _ & _ & Hexit)]; [done|].
    by rewrite Htr, Hexit. }
  assert (E3 : exited_ c3 = exited_ c2 /\ committed (trace_ c3) = committed (trace_ c2)).
  { destruct (execute_frame c2 c3 Hc3) as (_ & Htr & _ & _ & _ & _ & _ & _ & Hexit & _).
    by rewrite Htr, Hexit. }
  assert (E4 : exited_ c' = exited_ c3 /\ committed (trace_ c') = committed (trace_ c3)).
  { apply issue_cases in Hc4 as [->|Hi]; [done|].
    destruct Hi as (instr & q & d1 & a1 & d2 & a2 & index & old & _ & _ & _ & _ & _
      & _ & _ & _ & _ & _ & _ & _ & _ & _ & Htr & _ & _ & _ & _ & _ & Hexit).
    rewrite Htr, Hexit, committed_app. cbn. by rewrite app_nil_r. }
  destruct E2 as [X2 T2], E3 as [X3 T3], E4 as [X4 T4].
  intros Hex'. rewrite X4, X3, X2 in Hex'. destruct (H1 Hex') as (i & Hlast & Hi).
  exists i. by rewrite T4, T3, T2.
Qed.

Lemma present_keeps `{Collaborators} (L : nat) (r : bool) (rest : list Instr) (c : Core) :
  live_inv c -> fifo_inv c ->
  Forall (instr_ok (length (reg_file_ c)) (length (FUs_ c))) rest ->
  exists c1 rest1, present r rest c = (c1, rest1) /\
    live_inv c1 /\ fifo_inv c1 /\
    Forall (instr_ok (length (reg_file_ c)) (length (FUs_ c))) rest1 /\
    length (FUs_ c1) = length (FUs_ c) /\
    reg_file_ c1 = reg_file_ c /\ trace_ c1 = trace_ c /\ exited_ c1 = exited_ c /\
    issue_queue_ c1 ++ rest1 = issue_queue_ c ++ rest /\
    (potential L c1 + (L + 6) * length rest1
     = potential L c + (L + 6) * length rest)%nat /\
    (r = true -> (0 < potential L c + (L + 6) * length rest)%nat ->
     (0 < potential L c1)%nat).
Proof.
  intros Hl Hf Hok.
  assert (Hsame : present r rest c = (c, rest) ->
            (r = true -> (0 < potential L c + (L + 6) * length rest)%nat ->
             (0 < potential L c)%nat) ->
            exists c1 rest1, present r rest c = (c1, rest1) /\
              live_inv c1 /\ fifo_inv c1 /\
              Forall (instr_ok (length (reg_file_ c)) (length (FUs_ c))) rest1 /\
              length (FUs_ c1) = length (FUs_ c) /\
              reg_file_ c1 = reg_file_ c /\ trace_ c1 = trace_ c /\
              exited_ c1 = exited_ c /\
              issue_queue_ c1 ++ rest1 = issue_queue_ c ++ rest /\
              (potential L c1 + (L + 6) * length rest1
               = potential L c + (L + 6) * length rest)%nat /\
              (r = true -> (0 < potential L c + (L + 6) * length rest)%nat ->
               (0 < potential L c1)%nat)).
  { intros Hp Hpos. exists c, rest. rewrite Hp. repeat (split; [done|]). done. }
  destruct rest as [|i rest'].
  { apply Hsame; [done|]. intros _. cbn. lia. }
  destruct (issue_queue_ c) as [|i0 q] eqn:Hq.
  2: { apply Hsame; [unfold present; by rewrite Hq|]. intros _ _.
       unfold potential. rewrite Hq. cbn [length]. lia. }
  destruct r.
  2: { apply Hsame; [unfold present; by rewrite Hq|]. intros Hr. done. }
  apply Forall_cons in Hok as [Hi Hok].
  exists (fetch i c), rest'. unfold present. rewrite Hq.
  split; [done|]. split; [by apply fetch_live|].
  split; [by apply (step_fifo (Fetch i) c (fetch i c) Hf)|].
  split; [done|]. split; [done|]. split; [done|]. split; [done|]. split; [done|].
  split; [cbn; by rewrite Hq|].
  rewrite potential_fetch. split; [cbn [length]; lia|]. intros _ _. lia.
Qed.

Lemma drive_progress `{Collaborators} (L : nat) (rf0 : list Z) (ready : list bool) :
  forall (rest : list Instr) (c : Core),
  bounded_units L (length (FUs_ c)) -> live_inv c -> fifo_inv c ->
  Forall (instr_ok (length (reg_file_ c)) (length (FUs_ c))) rest ->
  reg_file_ c = exec_seq rf0 (committed (trace_ c)) ->
  (exited_ c = true -> exit_last c) ->
  exists c' rest', drive ready rest c = Ok (c', rest') /\
    live_inv c' /\ fifo_inv c' /\
    issued (trace_ c') ++ issue_queue_ c' ++ rest'
    = issued (trace_ c) ++ issue_queue_ c ++ rest /\
    reg_file_ c' = exec_seq rf0 (committed (trace_ c')) /\
    (exited_ c' = true -> exit_last c') /\
    (exited_ c' = true \/
     (potential L c' + (L + 6) * length rest'
      <= potential L c + (L + 6) * length rest - count_ready ready)%nat).
Proof.
  induction ready as [|r ready IH]; intros rest c Hb Hl Hf Hok Hrf Hex.
  - exists c, rest. cbn [drive].
    split; [done|]. split; [done|]. split; [done|]. split; [done|]. split; [done|].
    split; [exact Hex|]. right. cbn [count_ready]. lia.
  - cbn [drive]. destruct (exited_ c) eqn:Hexc.
    { exists c, rest.
      split; [done|]. split; [done|]. split; [done|]. split; [done|]. split; [done|].
      split; [intros _; by apply Hex|]. by left. }
    destruct (present_keeps L r rest c Hl Hf Hok)
      as (c1 & rest1 & Hp & Hl1 & Hf1 & Hok1 & Hfus1 & Hrf1 & Htr1 & Hex1 & Hq1 & HM1 & Hpos1).
    rewrite Hp.
    destruct (tick_progress L c1) as (c2 & Ht & Hl2 & Hfus2 & Hp2); [by rewrite Hfus1|done|].
    rewrite Ht. cbn [obind].
    assert (Hrf1' : reg_file_ c1 = exec_seq rf0 (committed (trace_ c1)))
      by (by rewrite Hrf1, Htr1).
    destruct (tick_keeps rf0 c1 c2 Hl1 Hf1 Hrf1' Ht) as (Hf2 & Hh2 & Hrf2 & Hlen2).
    assert (Hex2 : exited_ c2 = true -> exit_last c2).
    { apply (tick_exit c1 c2); [congruence|done]. }
    destruct (IH rest1 c2) as (c' & rest' & Hd & Hl' & Hf' & Hh' & Hrf' & Hex' & HM');
      [by rewrite Hfus2, Hfus1|done|done|by rewrite Hlen2, Hrf1, Hfus2, Hfus1|done|done|].
    exists c', rest'. split; [done|]. split; [done|]. split; [done|].
    split.
    { rewrite Hh'. rewrite !app_assoc, Hh2, <- !app_assoc. rewrite Htr1. by rewrite Hq1. }
    split; [done|]. split; [done|].
    destruct HM' as [?|HM']; [by left|right].
    cbn [count_ready]. destruct r.
    + destruct (decide (0 < potential L c + (L + 6) * length rest)%nat) as [Hpos|Hz].
      * specialize (Hpos1 eq_refl Hpos). lia.
      * lia.
    + lia.
Qed.

(** X12: the out-of-order core does not deadlock.  A core with at least one
    reorder-buffer slot and one reservation station, whose units take at
    most [L] cycles and whose reservation stations are never held back by
    the memory-ordering lock, is driven cycle by cycle; the front end
    presents the instructions of a program, which name registers and units
    that the core has, one at a time through the single slot of the issue
    queue, in the cycles in which it has one ready and the slot is free; the
    driver stops once a terminating instruction has committed.  If the
    front end is ready in at least [(L + 6) * length prog] of the cycles,
    then no cycle faults, and at the end either the whole program has been
    presented and committed, with the issue queue and the reorder buffer
    empty, or the core has stopped with a terminating instruction as the
    last one committed.  In both cases the instructions committed, those in
    the reorder buffer, the one in the slot and those not presented make up
    the program, in its order, and the register file is that of executing
    the committed instructions in order. *)
Theorem core_never_deadlocks `{Collaborators}
    (L num_regs rob_size rs_size num_fus : nat) (prog : list Instr) (ready : list bool) :
  bounded_units L num_fus -> (0 < rob_size)%nat -> (0 < rs_size)%nat ->
  Forall (instr_ok num_regs num_fus) prog ->
  ((L + 6) * length prog <= count_ready ready)%nat ->
  exists c rest,
    drive ready prog (init num_regs rob_size rs_size num_fus) = Ok (c, rest) /\
    committed (trace_ c) ++ in_flight (ROB_ c) ++ issue_queue_ c ++ rest = prog /\
    reg_file_ c = exec_seq (replicate num_regs 0) (committed (trace_ c)) /\
    ((rest = [] /\ drained c /\ committed (trace_ c) = prog) \/
     (exited_ c = true /\ exit_last c)).
Proof.
  intros Hb Hrob Hrs Hok Hready.
  set (c0 := init num_regs rob_size rs_size num_fus).
  assert (Hregs : length (reg_file_ c0) = num_regs) by apply length_replicate.
  assert (Hfus : length (FUs_ c0) = num_fus) by apply length_replicate.
  destruct (drive_progress L (replicate num_regs 0) ready prog c0)
    as (c & rest & Hd & Hl & Hf & Hh & Hrf & Hex & HM);
    [by rewrite Hfus|by apply live_inv_init|apply fifo_inv_init|by rewrite Hregs, Hfus
    |done|done|].
  exists c, rest. split; [done|].
  cbn in Hh. destruct Hf as [Hwf Hfifo].
  assert (Hall : committed (trace_ c) ++ in_flight (ROB_ c) ++ issue_queue_ c ++ rest = prog).
  { rewrite <- Hh, Hfifo. by rewrite <- app_assoc. }
  split; [done|]. split; [done|].
  destruct (exited_ c) eqn:Hexc; [right; split; [done|by apply Hex]|left].
  destruct HM as [?|HM]; [done|].
  unfold c0 in HM. rewrite potential_init in HM.
  assert (Hp : potential L c = 0%nat) by lia.
  assert (Hr : rest = []) by (apply length_zero_iff_nil; nia).
  pose proof (potential_drained L c Hl Hp) as Hdr.
  split; [done|]. split; [done|].
  destruct Hdr as [Hq He].
  assert (Hfl : in_flight (ROB_ c) = []).
  { unfold in_flight, ROB.contents. by rewrite (rob_empty_slots _ He). }
  by rewrite Hfl, Hq, Hr, !app_nil_r in Hall.
Qed.

Lemma core_never_deadlocks_witness :
  @exec_seq adder (replicate 8 0) chain = [0; 5; 10; 15; 0; 0; 0; 0] /\
  exists c rest,
    @drive adder (replicate 27 true) chain (init 8 2 2 2) = Ok (c, rest) /\
    committed (trace_ c) ++ in_flight (ROB_ c) ++ issue_queue_ c ++ rest = chain /\
    reg_file_ c = @exec_seq adder (replicate 8 0) (committed (trace_ c)) /\
    ((rest = [] /\ drained c /\ committed (trace_ c) = chain) \/
     (exited_ c = true /\ exit_last c)).
Proof.
  split; [vm_compute; reflexivity|].
  apply (@core_never_deadlocks adder 3 8 2 2 2 chain (replicate 27 true)).
  - split; [|reflexivity]. intros i a b Hi. cbn. lia.
  - lia.
  - lia.
  - unfold chain. repeat (constructor; [unfold instr_ok; cbn; repeat split; intros; lia|]).
    constructor.
  - vm_compute. lia.
Defined.
